(* ===== verification/_CoqProject ===== *)
-Q . S2P
Prelude.v
GoStrings.v
Cpuset.v
K8s.v
PodApi.v
Pools.v
Annotation.v
WebhookRequests.v
Webhook.v
Readmission.v
AccessLog.v
WebhookServer.v
Checkpoint.v
DevicePlugin.v
Dialer.v
Registration.v
PluginServer.v
PodEvents.v
K8sClient.v
PodWatch.v
CpuInfo.v
FakeLscpu.v
SetHandler.v
ProcessStarter.v
FileSystem.v
Files.v
CpuDirectory.v
Cgroup.v
Adjust.v
Deployment.v
Reconcile.v
Together.v
Workers.v
Service.v
System.v
EndToEnd.v
Pipeline.v
