(* ===== verification/Prelude.v ===== *)
(** * CPU-Pooler for Kubernetes: a verification library

    CPU-Pooler shares the CPUs of a Kubernetes node between pools and gives containers CPUs
    of a pool.  A pool is [shared], [exclusive], [cloudphone] or [default] by the prefix of
    its name.  Four programs cooperate on the way of one container:

    - the webhook ([cmd/webhook]) patches the pod when it is created: CPU limits, variables,
      and the process starter in front of the container's command;
    - the device plugin ([cmd/cpu-device-plugin]) advertises the CPUs of each pool to the
      kubelet as devices, prefers devices, and answers the allocation with the variables
      [EXCLUSIVE_CPUS] and [SHARED_CPUS];
    - the CPU setter ([pkg/sethandler]) watches the pods, reads the devices from the kubelet's
      checkpoint, computes the cpuset of each container, writes it to the container's cgroup,
      makes the CPU directory the container sees, and reconciles the cpusets later on;
    - the process starter ([cmd/process-starter]) waits in the container until that cpuset
      is in force, and starts the processes with their CPU affinity.

    ** Files

    - [Prelude]: machine integers, panics, loops, maps visited in any order, sums.
    - [GoStrings]: the functions of Go's [strings] and [strconv] that the program calls.
    - [Cpuset]: the interface [CPUSetLib] of the cpuset library with the laws
      [CPUSetLaws], and one implementation that satisfies them.
    - [K8s], [PodApi]: the fields of the Kubernetes objects the program reads; the interface
      of the pod client that the setter is proved against.
    - [Pools]: [pkg/types/pool.go], [pool_type.go]: configuration files and their selection.
    - [Annotation]: [pkg/types/cpu-annotation.go]: decoding, validation and sums.
    - [WebhookRequests], [Webhook]: [cmd/webhook/webhook.go]: [getCPUPoolRequests],
      [validateAnnotation]; the patches, [mutatePods] and [serveMutatePod].  [Readmission]: what
      applying the patches does to a pod, and the pod that comes back.
    - [AccessLog], [WebhookServer]: [cmd/webhook/fasthttplog.go]; [main] of the webhook: the
      flags, and the requests through router, log and handler.
    - [Checkpoint]: [pkg/checkpoint], [pkg/types/type.go], [pkg/utils/util.go]: the two
      layouts of the checkpoint and [GetCheckpointData].
    - [DevicePlugin], [Registration], [PluginServer]:
      [cmd/cpu-device-plugin/cpu-device-plugin.go]: the devices ([ListAndWatch], [Allocate],
      [GetPreferredAllocation]); [Register] through the dialer; the life of the managers and
      the event loop of [main].
    - [PodEvents]: [pkg/k8sclient/pod.go] and the event handlers of
      [pkg/sethandler/controller.go]: [PodStatus], [PodChanged], the loops of the watchers.
    - [K8sClient], [PodWatch]: [pkg/k8sclient/k8sclient.go], with the instance [client_api] of
      [PodApi]; the functions of [pod.go] that make a watcher and wait.
    - [Dialer], [CpuInfo], [FakeLscpu]: [pkg/utils/dialer.go] with the connections of [util.go],
      [pkg/utils/cpuinfo.go], [cmd/fakelscpu].
    - [ProcessStarter]: [cmd/process-starter/process_starter.go].
    - [FileSystem]: files and directories as a tree, and the calls of [os] and
      [path/filepath] the program makes, [filepath.Walk] among them.
    - [Files]: [pkg/utils/file.go], [compress.go]: copies and archives.
    - [SetHandler], [CpuDirectory], [Cgroup], [Adjust], [Reconcile]:
      [pkg/sethandler/controller.go]: which pods are handled and [determineCorrectCpuset];
      [applyCpusToContainer]; [applyCpusetToContainer] and [applyCpusetToInfraContainer];
      [adjustContainerSets] and [handlePods]; the reconciliation loop.
    - [Deployment]: the nodes on which [handlePods] succeeds, its steps as a list, and the
      interleavings of two workers.  [Together]: a worker and the reconciliation at once.
    - [Workers]: the threads of the setter ([New], [Run], [Stop], the workers and the queue
      of [controller.go], [main] of [cmd/cpusetter]) as interleaved steps.  [Service]: the
      abstract service these threads refine.  [System]: the threads and the file system
      together.
    - [EndToEnd]: one container followed through the plugin, the setter and the starter's
      wait.  [Pipeline]: the webhook before it, and the processes after it.

    Each file has the definitions first, then lemmas, then a section [properties] with the
    theorems about the code, and a section [witnesses] that applies them to concrete
    pods, pools and machines.

    ** How the code is represented

    - A function of the code is a Gallina function of the same name.  [res E A] is its
      outcome: a value, an [error] of the type [E], or a panic (index, nil pointer, nil
      map, division, slice).  Error values keep the branch they come from, not the text.
    - A [for] loop that can return is [for_range] or [loop_from], whose body yields [Next]
      with the variables it assigns, or [Return].  The polling loops carry the code's own
      bounds as fuel: 5 rounds in [shouldPodBeHandled] and [handlePods], 90 in
      [pollCPUSetCompletion], the number of attempts in [DialContext].  The event loops are
      [handle] of the plugin, one event at a time, and [startReconciliationLoop] over a list
      of ticks, changes by others and the stop signal.
    - One recursion of the code is unbounded: [CopyDir] reads directories that it may be
      filling.  It has fuel; [CopyDir_copies] shows that one more than the depth of the tree
      is enough for a copy to a place apart from it, [CopyDir_into_itself] that no fuel is
      for a copy into the tree itself.  A computation that needs it returns [None] if the
      fuel is short, and the theorems on the setter include that it does not.
    - Go visits a map in an unspecified order.  [RangeOrder] gives for every evaluation of a
      [range] (a [site]) some permutation of the map, and all theorems hold for each.
      [slices.SortFunc] is any order that agrees with the comparison ([Sorting]).
    - An [int] is a [Z] and the sums and products of the code wrap at 64 bits ([wrap]).
      Device IDs are parsed at 32 bits by [ParseUint(id, 10, 32)]; [pool_fits] states the
      pool sizes for which they do not saturate.  A quotient converted from [float64] goes
      through the rounding [float64] and [int_of_float].
    - Strings are byte strings, JSON patches are the texts the code concatenates.
    - State is passed explicitly: the manager [cpuDeviceManager] with its five caches, the
      plugin process with its running managers and the files of its directory, the annotation
      as a map, the log of processes the starter launched, the node the client looked up.
    - The setter's state is the file system, a [tree] threaded through [dirM].  While a pod is
      handled others work on the same files: [adjM] threads a [world], the tree and what the
      others will do to it before each of the next calls of [applyCpusetToContainer],
      [applyCpusToContainer] and [applyCpusetToInfraContainer].  So does [recM] of the
      reconciliation: the others act before it reads a cpuset, makes a CPU directory and
      writes a cpuset.
      The paths on which the system refuses a call are in [OS]; theorems of isolation hold
      for every [OS], theorems of success for [willing_os].

    ** What is a parameter

    The code outside the repository: the cpuset library ([CPUSetLib]), the weighted round
    robin ([Weighted]), [topology.AddHTSiblingsToCPUSet] with the laws [SiblingLaws], file reads, globbing, node
    labels, the YAML and JSON decoders, topology discovery ([PoolEnv], [ServerEnv],
    [HandlerEnv] and arguments of the decoding functions), temporary directories and the
    embedded archive ([DirEnv]), the output of [find], the client libraries and the API
    ([Kube], [PodApi]), the work queue ([WorkQueue]), [net.Dialer] with [url.Parse], and the
    outcome of gRPC calls and of the kubelet ([Grpc]). A theorem that needs more than their type
    names it: the laws of the cpuset library, the siblings or the queue, or a hypothesis on a
    decoder.  What the API server makes of JSON patches is the relation [patched], after RFC
    6902.  The witnesses use concrete functions.

    ** What the theorems show

    - The programs agree on a container of one exclusive pool that is not [multiThreaded]: the
      CPUs of [EXCLUSIVE_CPUS], of the setter's cpuset and of the devices are the same; after
      the setter has handled the pod the cgroup holds them, and the starter goes on when it
      reads it ([EndToEnd]).  A container the webhook admitted is launched with what the
      starter needs, and its processes share out those CPUs ([Pipeline]).
    - The devices of a pool are its CPUs, once per round of overcommitment.  A preferred
      allocation lists consecutive devices on different CPUs of one NUMA node, from the
      available ones and at most as many as asked for; the devices that must be included are
      not looked at.  [EXCLUSIVE_CPUS] names the CPUs of the allocated devices, with their
      siblings if the policy is [multiThreaded] ([DevicePlugin]).
    - An admitted pod has a valid annotation that its requests cover, and its pinned containers
      start through the starter.  The limit of a container of both kinds of CPUs has a
      determined share for its shared pool, which is missing when it has several.  A pod that
      comes back with its patches is only given its CPU limits again ([Annotation],
      [WebhookRequests], [Webhook], [Readmission]).
    - The setter gives each container the CPUs of its shared pool and of the devices the
      checkpoint lists for it, with siblings if the policy is [multiThreaded]
      ([SetHandler], [Checkpoint]).
      On a node where the cgroups are in place ([deployed], [ready]) it ends, and the cgroups
      hold the sets, also when others work there at the same time without undoing its writes
      ([quiet]); two workers, on one pod or on pods apart, do not disturb each other in any
      order of their steps ([Deployment]).  Whatever happens it writes nowhere else
      ([Adjust]).  Reconciliation
      restores cpusets that read as all CPUs of the machine, whatever others do meanwhile but
      reset them again, leaves other wrong ones alone, and is idempotent ([Reconcile]); a worker and the reconciliation do not undo each other
      ([Together]).  In the whole setter, any number of workers and the reconciliation on one
      file system, a pod whose handling has ended has its sets and keeps them ([System]).  The CPU directory
      is what it should be ([CpuDirectory]), on copies and archives that do what they say
      ([Files]).
    - Restarts of pods are queued when the pod is up again ([PodEvents]).  The setter serves its updates like
      an abstract service that owes each until a worker has it ([Service]); no queued
      update is lost, the workers come to rest without new ones, [Stop] reaches one thread
      only, and a signal ends the process whatever the workers do ([Workers]).
    - The starter binds exclusive processes to disjoint parts of the exclusive CPUs in
      order ([ProcessStarter]).
    - The plugin's running managers stay consistent under all events, and what it registered
      is served on the socket the kubelet was told; a server whose socket could not be opened
      ends the process when it starts to serve ([PluginServer], [Registration]).
    - The webhook answers requests until the first that makes its handler panic; the log
      lines show the same with and without colors ([WebhookServer], [AccessLog]).
    - Behaviours at the edges, as the code has them: the inputs on which the handlers
      panic, names on which setter and plugin disagree, clean-ups that do not happen.

    ** What is not modelled

    The log calls of all programs but the access log; TLS and the router's matching; the
    accessors [SetHandler] and [SetSetHandler] of [controller.go], which only the tests
    call, and the test scaffolding [src/test].  File modes,
    symbolic links, the bytes of tar and gzip, texts of errors and waiting times are left
    out.  [Workers] interleaves the threads of the setter between their calls of [handlePods]
    and [reconcileCpusets]; a thread of the informer that takes the value of a [Stop] ends with
    it, though client-go would go on if the value was taken while watching.  [ProcessStarter]
    records the affinity set by the last call before a start; that the call binds only the
    calling thread of the operating system is not modelled.  Within [handlePods] and [reconcileCpusets] others act between the calls that
    read or write, each of which is one step; that a call of [applyCpusToContainer] or a walk
    of the cgroups is interrupted is not modelled. *)

From stdpp Require Export base gmap strings list fin_maps sorting.
From Stdlib Require Export ZArith Lia.
From Stdlib Require Import Permutation.

Declare Scope go_scope.
Delimit Scope go_scope with go.
Create HintDb pooler.
Create Rewrite HintDb pooler.

Local Open Scope Z_scope.

(** ** Machine integers

    Go's [int] is 64 bits wide on the supported platforms: a sum or product that leaves
    the range wraps around. *)

Definition min_int : Z := - 2 ^ 63.
Definition max_int : Z := 2 ^ 63 - 1.
Definition is_int (z : Z) : Prop := min_int <= z <= max_int.
Definition wrap (z : Z) : Z := (z + 2 ^ 63) mod 2 ^ 64 - 2 ^ 63.

Infix "+w" := (fun x y => wrap (x + y)) (at level 50, left associativity) : go_scope.
Infix "*w" := (fun x y => wrap (x * y)) (at level 40, left associativity) : go_scope.

#[export] Instance is_int_dec z : Decision (is_int z).
Proof. unfold is_int. apply _. Defined.

Lemma wrap_range z : is_int (wrap z).
Proof.
  unfold is_int, wrap, min_int, max_int.
  pose proof (Z.mod_pos_bound (z + 2 ^ 63) (2 ^ 64) eq_refl). lia.
Qed.

Lemma wrap_id z : is_int z -> wrap z = z.
Proof.
  unfold is_int, wrap, min_int, max_int. intros H.
  rewrite Z.mod_small; lia.
Qed.

Lemma wrap_add_l x y : wrap (wrap x + y) = wrap (x + y).
Proof.
  unfold wrap. f_equal.
  replace ((x + 2 ^ 63) mod 2 ^ 64 - 2 ^ 63 + y + 2 ^ 63)
    with ((x + 2 ^ 63) mod 2 ^ 64 + y) by lia.
  rewrite Zplus_mod_idemp_l. f_equal. lia.
Qed.

Lemma wrap_add_r x y : wrap (x + wrap y) = wrap (x + y).
Proof. rewrite Z.add_comm, wrap_add_l. f_equal. lia. Qed.

#[export] Hint Resolve wrap_range : pooler.
#[export] Hint Rewrite wrap_add_l wrap_add_r : pooler.

(** ** Results: a Go function returns a value, returns an error, or panics *)

Inductive panic : Set :=
  | IndexOutOfRange
  | SliceBounds
  | NilDereference
  | DivideByZero.

Inductive res (E A : Type) : Type :=
  | Ok (a : A)
  | Err (e : E)
  | Panic (p : panic).
Arguments Ok {E A} a.
Arguments Err {E A} e.
Arguments Panic {E A} p.

#[export] Instance panic_eq_dec : EqDecision panic.
Proof. solve_decision. Defined.

#[export] Instance res_eq_dec `{EqDecision E, EqDecision A} : EqDecision (res E A).
Proof. solve_decision. Defined.

Definition panics {E A} (r : res E A) : bool :=
  match r with Panic _ => true | _ => false end.

Definition is_ok {E A} (r : res E A) : bool :=
  match r with Ok _ => true | _ => false end.

#[export] Instance res_ret {E} : MRet (res E) := fun A a => Ok a.

#[export] Instance res_bind {E} : MBind (res E) := fun A B f m =>
  match m with
  | Ok a => f a
  | Err e => Err e
  | Panic p => Panic p
  end.

(** Rewrapping an error on the way up, as [fmt.Errorf] and [errors.New] do. *)
Definition map_err {E E' A} (f : E -> E') (m : res E A) : res E' A :=
  match m with
  | Ok a => Ok a
  | Err e => Err (f e)
  | Panic p => Panic p
  end.

(** Go's [%] truncates towards zero and panics on a zero divisor. *)
Definition go_rem {E} (x y : Z) : res E Z :=
  if y =? 0 then Panic DivideByZero else Ok (Z.rem x y).

(** Indexing a slice. *)
Definition go_index {E A} (l : list A) (i : Z) : res E A :=
  if i <? 0 then Panic IndexOutOfRange
  else match l !! Z.to_nat i with
       | Some a => Ok a
       | None => Panic IndexOutOfRange
       end.

Lemma bind_Ok {E A B} (m : res E A) (f : A -> res E B) b :
  (m ≫= f) = Ok b -> exists a, m = Ok a /\ f a = Ok b.
Proof. destruct m; simpl; naive_solver. Qed.

(** ** Loops

    The body of a Go loop falls through (or says [continue]), breaks out, or returns
    from the enclosing function. *)

Inductive flow (S R : Type) : Type :=
  | Next (s : S)
  | Break (s : S)
  | Return (r : R).
Arguments Next {S R} s.
Arguments Break {S R} s.
Arguments Return {S R} r.

Fixpoint loop_from {A S R} (i : nat) (body : nat -> A -> S -> flow S R) (l : list A) (s : S)
    : S + R :=
  match l with
  | [] => inl s
  | x :: l =>
      match body i x s with
      | Next s => loop_from (Datatypes.S i) body l s
      | Break s => inl s
      | Return r => inr r
      end
  end.

(** [for i, x := range l { body }]: the state of the loop at its end, or the value the body
    returned from the function. *)
Definition for_range {A S R} (body : nat -> A -> S -> flow S R) (l : list A) (s : S) : S + R :=
  loop_from 0 body l s.

(** Continue after a loop, or hand on the value it returned. *)
Definition after {S R} (o : S + R) (k : S -> R) : R :=
  match o with inl s => k s | inr r => r end.

(** The state after a loop that never returns from the function. *)
Definition no_return {S} (o : S + Empty_set) : S :=
  match o with inl s => s | inr r => match r with end end.

(** The invariant of a fold. *)
Lemma foldl_inv {A S} (f : S -> A -> S) (P : S -> Prop) (s : S) (l : list A) :
  P s -> (forall s x, P s -> x ∈ l -> P (f s x)) -> P (foldl f s l).
Proof.
  revert s. induction l as [|x l IH]; intros s Hs Hf; [done|].
  apply IH; [|intros; apply Hf; [done|by right]]. apply Hf; [done|left].
Qed.

Section for_range.
Context {A S R : Type} (body : nat -> A -> S -> flow S R).

(** A loop that only falls through is a left fold. *)
Lemma for_range_next (f : S -> A -> S) l s :
  (forall i x s, x ∈ l -> body i x s = Next (f s x)) ->
  for_range body l s = inl (foldl f s l).
Proof.
  unfold for_range. generalize 0%nat. revert s.
  induction l as [|x l IH]; intros s i Hbody; simpl; [done|].
  rewrite Hbody by left. apply IH. intros. apply Hbody. by right.
Qed.

(** The invariant rule: [P l1 s] holds of the state reached after the prefix [l1]. *)
Lemma for_range_inv (P : list A -> S -> Prop) (Q : S + R -> Prop) l s :
  P [] s ->
  (forall l1 x l2 s, l = l1 ++ x :: l2 -> P l1 s ->
     match body (length l1) x s with
     | Next s' => P (l1 ++ [x]) s'
     | Break s' => Q (inl s')
     | Return r => Q (inr r)
     end) ->
  (forall s, P l s -> Q (inl s)) ->
  Q (for_range body l s).
Proof.
  intros H0 Hstep Hend. unfold for_range.
  assert (forall l2 l1 s, l = l1 ++ l2 -> P l1 s -> Q (loop_from (length l1) body l2 s)) as Hgen.
  { induction l2 as [|x l2 IH]; intros l1 s' Hl HP; simpl.
    - apply Hend. rewrite app_nil_r in Hl. by subst.
    - specialize (Hstep l1 x l2 s' Hl HP). destruct (body _ x s') as [s''|s''|r]; try done.
      specialize (IH (l1 ++ [x]) s''). rewrite length_app, Nat.add_comm in IH.
      apply IH; [|done]. by rewrite <- app_assoc. }
  by apply (Hgen l []).
Qed.

(** A loop that searches: it returns at the first element with a result. *)
Lemma for_range_find (g : A -> option R) l s :
  (forall i x s, x ∈ l -> body i x s = match g x with Some r => Return r | None => Next s end) ->
  for_range body l s = match list_find (fun x => is_Some (g x)) l with
                       | Some (_, x) => match g x with Some r => inr r | None => inl s end
                       | None => inl s
                       end.
Proof.
  unfold for_range. generalize 0%nat.
  induction l as [|x l IH]; intros i Hbody; simpl; [done|].
  rewrite Hbody by left. destruct (g x) as [r|] eqn:E.
  - rewrite decide_True by by eauto. by rewrite E.
  - rewrite decide_False by by intros [? [=]].
    rewrite IH by by intros; apply Hbody; right.
    by destruct (list_find _ l) as [[? ?]|].
Qed.
End for_range.

(** A loop of checks that returns the first error. *)
Definition first_error {A E} (check : nat -> A -> option E) (l : list A) : option E :=
  after (for_range (fun i x _ =>
           match check i x with Some e => Return (Some e) | None => Next tt end) l tt)
    (fun _ => None).

Lemma first_error_None {A E} (check : nat -> A -> option E) l :
  first_error check l = None <-> forall i x, l !! i = Some x -> check i x = None.
Proof.
  unfold first_error. apply (for_range_inv _ (fun l1 _ => forall i x, l1 !! i = Some x -> check i x = None));
    simpl.
  - done.
  - intros l1 x l2 [] -> Hl1. destruct (check (length l1) x) as [e|] eqn:He.
    + split; [done|]. intros Hall. rewrite (Hall (length l1) x) in He; [done|].
      by rewrite list_lookup_middle.
    + intros i y [Hy|[Hlen Hy]]%lookup_app_Some; [by apply Hl1|].
      apply list_lookup_singleton_Some in Hy as [Hi <-].
      by replace i with (length l1) by lia.
  - by intros [] Hl.
Qed.

(** ** Maps and the order in which [range] visits them

    The iteration order over a Go map is unspecified and may differ between two
    evaluations of the same [range] statement.  A [RangeOrder] picks an order for every
    evaluation: a [site] names the evaluation (the position of the statement in the code,
    extended with the indices of the loops around it), so two evaluations are unrelated.
    Theorems quantify over every [RangeOrder]. *)

Definition site := list nat.

Class RangeOrder := {
  visit : forall {K} `{Countable K} {V}, site -> gmap K V -> list (K * V);
  visit_perm : forall K `{Countable K} V (s : site) (m : gmap K V),
    visit s m ≡ₚ map_to_list m
}.

Section visit.
Context `{RangeOrder} `{Countable K} {V : Type}.
Implicit Types (m : gmap K V) (s : site).

Lemma elem_of_visit s m k v : (k, v) ∈ visit s m <-> m !! k = Some v.
Proof. by rewrite visit_perm, elem_of_map_to_list. Qed.

Lemma NoDup_visit s m : NoDup (visit s m).
Proof. rewrite visit_perm. apply NoDup_map_to_list. Qed.

Lemma NoDup_fst_visit s m : NoDup (visit s m).*1.
Proof. rewrite visit_perm. apply NoDup_fst_map_to_list. Qed.

Lemma visit_two_orders s s' m : visit s m ≡ₚ visit s' m.
Proof. by rewrite !visit_perm. Qed.
End visit.

#[export] Hint Resolve NoDup_visit NoDup_fst_visit visit_two_orders : pooler.

(** A loop over a map that stores a value per key: at each key it leaves what it stored
    there, or what was there before. *)
Section store_loop.
Context `{RangeOrder} `{Countable K} {V V' : Type} (f : K -> V -> option V').

Definition store_step (m' : gmap K V') (kv : K * V) : gmap K V' :=
  match f kv.1 kv.2 with Some v' => <[kv.1 := v']> m' | None => m' end.

Lemma lookup_store_ne l m' k : k ∉ l.*1 -> foldl store_step m' l !! k = m' !! k.
Proof.
  revert m'. induction l as [|[k' v] l IH]; intros m' Hk; simpl; [done|].
  rewrite fmap_cons, not_elem_of_cons in Hk. destruct Hk as [Hne Hk]. rewrite IH by done.
  unfold store_step. simpl. destruct (f k' v); [|done]. by rewrite lookup_insert_ne.
Qed.

Lemma lookup_store s (m : gmap K V) m' k :
  foldl store_step m' (visit s m) !! k =
    match m !! k ≫= f k with Some v' => Some v' | None => m' !! k end.
Proof.
  destruct (m !! k) as [v|] eqn:E; simpl.
  - apply (elem_of_visit s) in E. pose proof (NoDup_fst_visit s m) as Hnd.
    revert m'. induction (visit s m) as [|[k' v'] l IH]; intros m'; [by apply elem_of_nil in E|].
    rewrite fmap_cons in Hnd. apply NoDup_cons in Hnd as [Hk' Hnd].
    simpl. apply elem_of_cons in E as [[= <- <-]|E].
    + rewrite lookup_store_ne by done. unfold store_step. simpl.
      destruct (f k v); [by rewrite lookup_insert_eq|done].
    + rewrite IH by done. unfold store_step. simpl.
      destruct (f k v); [done|]. destruct (f k' v'); [|done].
      rewrite lookup_insert_ne; [done|]. intros ->. apply Hk', list_elem_of_fmap. by exists (k, v).
  - apply lookup_store_ne. intros ([k' v] & -> & Hin)%list_elem_of_fmap.
    apply elem_of_visit in Hin. simpl in E. congruence.
Qed.
End store_loop.

(** Two orders to compute with: the one of [map_to_list] and its reverse. *)
Definition range_forward : RangeOrder :=
  {| visit := fun K _ _ V _ m => map_to_list m;
     visit_perm := fun K _ _ V _ m => reflexivity _ |}.

Definition range_backward : RangeOrder :=
  {| visit := fun K _ _ V _ m => reverse (map_to_list m);
     visit_perm := fun K _ _ V _ m => reverse_Permutation _ |}.

(** ** Lists *)

Definition zsum (l : list Z) : Z := foldr Z.add 0 l.

Lemma zsum_cons x l : zsum (x :: l) = x + zsum l.
Proof. done. Qed.

Lemma zsum_app l1 l2 : zsum (l1 ++ l2) = zsum l1 + zsum l2.
Proof. induction l1; simpl; lia. Qed.

#[export] Instance zsum_perm : Proper ((≡ₚ) ==> (=)) zsum.
Proof. induction 1; simpl; lia. Qed.

Lemma zsum_scale {A} (k : Z) (f : A -> Z) l : zsum ((fun x => k * f x) <$> l) = k * zsum (f <$> l).
Proof. induction l as [|x l IH]; [cbn; lia|]. rewrite !fmap_cons, !zsum_cons. lia. Qed.

Lemma zsum_le_mono {A} (f g : A -> Z) l :
  (forall x, x ∈ l -> f x <= g x) -> zsum (f <$> l) <= zsum (g <$> l).
Proof.
  induction l as [|x l IH]; intros Hfg; [done|]. rewrite !fmap_cons, !zsum_cons.
  pose proof (Hfg x ltac:(left)). pose proof (IH ltac:(intros; apply Hfg; by right)). lia.
Qed.

Lemma zsum_submseteq {A} (f : A -> Z) l k :
  (forall x, x ∈ k -> 0 <= f x) -> l ⊆+ k -> zsum (f <$> l) <= zsum (f <$> k).
Proof.
  intros Hpos (k' & Hk)%submseteq_Permutation. rewrite Hk, fmap_app, zsum_app.
  assert (0 <= zsum (f <$> k')); [|lia].
  assert (forall x, x ∈ k' -> 0 <= f x) as Hpos' by by intros x Hx; apply Hpos; rewrite Hk; set_solver.
  clear -Hpos'. induction k' as [|x k' IH]; [done|]. rewrite fmap_cons, zsum_cons.
  pose proof (Hpos' x ltac:(left)). pose proof (IH ltac:(intros; apply Hpos'; by right)). lia.
Qed.

#[export] Instance Zlt_antisymm : AntiSymm (=) Z.lt.
Proof. intros x y. lia. Qed.

(** The wrapped running sum of a loop is the wrapped sum. *)
Lemma foldl_wrap_sum {A} (f : A -> Z) (l : list A) (z : Z) :
  foldl (fun acc x => wrap (acc + f x)) (wrap z) l = wrap (z + zsum (f <$> l)).
Proof.
  revert z. induction l as [|x l IH]; intros z.
  - simpl. f_equal. change (zsum (f <$> [])) with 0. lia.
  - simpl foldl. rewrite wrap_add_l, IH, fmap_cons, zsum_cons. f_equal. lia.
Qed.

(** ** Tactics *)

(** Case analysis on the innermost [match] or [if] of the goal, keeping the equation. *)
Ltac split_match :=
  match goal with
  | |- context [match ?x with _ => _ end] =>
      lazymatch x with
      | context [match _ with _ => _ end] => fail
      | _ => let E := fresh "E" in destruct x eqn:E
      end
  end.

(** Booleans tests to propositions. *)
Ltac to_prop :=
  repeat match goal with
  | H : (_ =? _) = true |- _ => apply Z.eqb_eq in H
  | H : (_ =? _) = false |- _ => apply Z.eqb_neq in H
  | H : (_ <? _) = true |- _ => apply Z.ltb_lt in H
  | H : (_ <? _) = false |- _ => apply Z.ltb_ge in H
  | H : (_ <=? _) = true |- _ => apply Z.leb_le in H
  | H : (_ <=? _) = false |- _ => apply Z.leb_gt in H
  | H : (_ >? _) = true |- _ => rewrite Z.gtb_ltb in H; apply Z.ltb_lt in H
  | H : (_ >? _) = false |- _ => rewrite Z.gtb_ltb in H; apply Z.ltb_ge in H
  | H : (_ && _) = true |- _ => apply andb_prop in H as [? ?]
  | H : (_ || _) = false |- _ => apply orb_false_elim in H as [? ?]
  | H : negb _ = true |- _ => apply negb_true_iff in H
  | H : negb _ = false |- _ => apply negb_false_iff in H
  | H : bool_decide _ = true |- _ => apply bool_decide_eq_true in H
  | H : bool_decide _ = false |- _ => apply bool_decide_eq_false in H
  end.
