(* ===== verification/GoStrings.v ===== *)
(** * The parts of Go's [strings] and [strconv] the program calls

    Strings are byte strings.  Decimal conversion is [Itoa], [Atoi] and [ParseUint] with
    the value Go returns next to an error, since some callers ignore the error. *)

From S2P Require Import Prelude.
From Stdlib Require Import Ascii.
Local Open Scope Z_scope.

(** ** [strings] *)

Definition HasPrefix (s prefix : string) : bool := String.prefix prefix s.

#[global] Arguments HasPrefix : simpl never.

Fixpoint drop_bytes (n : nat) (s : string) : string :=
  match n, s with
  | S n, String _ s => drop_bytes n s
  | _, _ => s
  end.

Definition TrimPrefix (s prefix : string) : string :=
  if HasPrefix s prefix then drop_bytes (String.length prefix) s else s.

Fixpoint Contains (s substr : string) : bool :=
  HasPrefix s substr ||
  match s with
  | EmptyString => false
  | String _ s => Contains s substr
  end.

(** The position of the first occurrence, [-1] if there is none. *)
Fixpoint Index (s substr : string) : Z :=
  if HasPrefix s substr then 0
  else match s with
       | EmptyString => -1
       | String _ s => let i := Index s substr in if i <? 0 then -1 else i + 1
       end.

(** [strings.Replace(s, old, new, 1)] for a non-empty [old]. *)
Fixpoint Replace1 (s old new : string) : string :=
  if HasPrefix s old then new +:+ drop_bytes (String.length old) s
  else match s with
       | EmptyString => EmptyString
       | String c s => String c (Replace1 s old new)
       end.

(** [strings.Split(s, sep)] for a separator of one byte: never empty. *)
Fixpoint Split (s : string) (sep : ascii) : list string :=
  match s with
  | EmptyString => [EmptyString]
  | String c s =>
      let rest := Split s sep in
      if decide (c = sep) then EmptyString :: rest
      else match rest with
           | [] => [String c EmptyString]
           | w :: ws => String c w :: ws
           end
  end.

Fixpoint Join (l : list string) (sep : string) : string :=
  match l with
  | [] => EmptyString
  | [w] => w
  | w :: ws => w +:+ sep +:+ Join ws sep
  end.

Fixpoint TrimSuffix1 (s : string) (c : ascii) : string :=
  match s with
  | EmptyString => EmptyString
  | String c' EmptyString => if decide (c' = c) then EmptyString else s
  | String c' s => String c' (TrimSuffix1 s c)
  end.

Definition is_space (c : ascii) : bool :=
  match c with
  | "009" | "010" | "011" | "012" | "013" | " " => true
  | _ => false
  end%char.

Fixpoint trim_left (s : string) : string :=
  match s with
  | EmptyString => EmptyString
  | String c s' => if is_space c then trim_left s' else s
  end.

Fixpoint trim_right (s : string) : string :=
  match s with
  | EmptyString => EmptyString
  | String c s =>
      match trim_right s with
      | EmptyString => if is_space c then EmptyString else String c EmptyString
      | s' => String c s'
      end
  end.

Definition TrimSpace (s : string) : string := trim_right (trim_left s).

(** ** [strconv] *)

Definition digit_char (d : Z) : ascii :=
  ascii_of_nat (48 + Z.to_nat d).

Definition char_digit (c : ascii) : option Z :=
  let n := Z.of_nat (nat_of_ascii c) in
  if (48 <=? n) && (n <=? 57) then Some (n - 48) else None.

#[global] Arguments digit_char : simpl never.
#[global] Arguments char_digit : simpl never.

Fixpoint digits (fuel : nat) (n : Z) (acc : string) : string :=
  match fuel with
  | O => acc
  | S fuel =>
      let acc := String (digit_char (n mod 10)) acc in
      if n <? 10 then acc else digits fuel (n / 10) acc
  end.

(** A number [n] has at most [log2 n + 1] decimal digits. *)
Definition decimal (n : Z) : string := digits (S (Z.to_nat (Z.log2 n))) n EmptyString.

Definition Itoa (z : Z) : string :=
  if z <? 0 then String "-" (decimal (- z)) else decimal z.

Inductive num_error : Set := ErrSyntax | ErrRange.

#[export] Instance num_error_eq_dec : EqDecision num_error.
Proof. solve_decision. Defined.

(** The digit loop of [ParseUint]: stops at the first byte that is not a digit and at
    the first prefix above [max], with the value that goes with the error. *)
Fixpoint parse_digits (max n : Z) (s : string) : Z * option num_error :=
  match s with
  | EmptyString => (n, None)
  | String c s =>
      match char_digit c with
      | None => (0, Some ErrSyntax)
      | Some d =>
          let n1 := n * 10 + d in
          if max <? n1 then (max, Some ErrRange) else parse_digits max n1 s
      end
  end.

(** [strconv.ParseUint(s, 10, bits)]. *)
Definition ParseUint (s : string) (bits : Z) : Z * option num_error :=
  match s with
  | EmptyString => (0, Some ErrSyntax)
  | _ => parse_digits (2 ^ bits - 1) 0 s
  end.

(** [strconv.Atoi]: an optional sign, then digits, in the range of [int]. *)
Definition signed (neg : bool) (s : string) : Z * option num_error :=
  match ParseUint s 64 with
  | (_, Some ErrSyntax) => (0, Some ErrSyntax)
  | (un, _) =>
      if neg then
        if 2 ^ 63 <? un then (min_int, Some ErrRange) else (- un, None)
      else
        if 2 ^ 63 <=? un then (max_int, Some ErrRange) else (un, None)
  end.

Definition Atoi (s : string) : Z * option num_error :=
  match s with
  | String "-" s => signed true s
  | String "+" s => signed false s
  | _ => signed false s
  end.

(** ** Lemmas on strings *)

Lemma append_cons c s t : String c s +:+ t = String c (s +:+ t).
Proof. done. Qed.

Lemma append_nil_l t : "" +:+ t = t.
Proof. done. Qed.

Lemma append_nil_r s : s +:+ "" = s.
Proof. induction s as [|c s IH]; [done|]. by rewrite append_cons, IH. Qed.

Lemma append_assoc s t u : (s +:+ t) +:+ u = s +:+ t +:+ u.
Proof. induction s as [|c s IH]; [done|]. by rewrite !append_cons, IH. Qed.

Lemma append_inj_l s t u : s +:+ t = s +:+ u -> t = u.
Proof. induction s as [|c s IH]; [done|]. rewrite !append_cons. intros [=]. auto. Qed.

Lemma length_append s t : String.length (s +:+ t) = (String.length s + String.length t)%nat.
Proof. induction s as [|c s IH]; [done|]. rewrite append_cons. simpl. by rewrite IH. Qed.

Lemma append_inj_r s t u : s +:+ u = t +:+ u -> s = t.
Proof.
  revert t. induction s as [|c s IH]; intros [|d t] Heq; [done| | |].
  1,2: apply (f_equal String.length) in Heq; rewrite !length_append in Heq; simpl in Heq; lia.
  rewrite !append_cons in Heq. injection Heq as -> Heq. f_equal. by apply IH.
Qed.

Lemma HasPrefix_spec s p : HasPrefix s p = true <-> exists t, s = p +:+ t.
Proof.
  unfold HasPrefix. revert s. induction p as [|c p IH]; intros s; simpl.
  - split; [by exists s|by destruct s].
  - destruct s as [|c' s]; simpl.
    + split; [done|]. by intros [t [=]].
    + destruct (ascii_dec c c') as [->|Hne].
      * rewrite IH. split; intros [t Ht]; exists t; rewrite append_cons in *; congruence.
      * split; [done|]. intros [t [=]]. congruence.
Qed.

Lemma HasPrefix_app p t : HasPrefix (p +:+ t) p = true.
Proof. apply HasPrefix_spec. by exists t. Qed.

Lemma HasPrefix_refl s : HasPrefix s s = true.
Proof. apply HasPrefix_spec. exists "". by rewrite append_nil_r. Qed.

Lemma HasPrefix_trans s p q : HasPrefix s p = true -> HasPrefix p q = true -> HasPrefix s q = true.
Proof.
  rewrite !HasPrefix_spec. intros [t ->] [u ->]. exists (u +:+ t). by rewrite append_assoc.
Qed.

Lemma HasPrefix_app_l p s q : HasPrefix (p +:+ s) (p +:+ q) = HasPrefix s q.
Proof.
  apply eq_iff_eq_true. rewrite !HasPrefix_spec. split; intros [t Ht]; exists t.
  - rewrite append_assoc in Ht. by eapply append_inj_l.
  - by rewrite Ht, append_assoc.
Qed.

Lemma drop_bytes_app p t : drop_bytes (String.length p) (p +:+ t) = t.
Proof. induction p; [by destruct t|done]. Qed.

Lemma TrimPrefix_app p t : TrimPrefix (p +:+ t) p = t.
Proof. unfold TrimPrefix. by rewrite HasPrefix_app, drop_bytes_app. Qed.

Lemma HasPrefix_Contains s p : HasPrefix s p = true -> Contains s p = true.
Proof. intros H. destruct s; simpl; by rewrite H. Qed.

Lemma Contains_spec s p : Contains s p = true <-> exists a b, s = a +:+ p +:+ b.
Proof.
  split.
  - induction s as [|c s IH]; simpl; rewrite orb_true_iff, HasPrefix_spec.
    + intros [[t ->]|]; [|done]. by exists "", t.
    + intros [[t ->]|(a & b & ->)%IH]; [by exists "", t|by exists (String c a), b].
  - intros (a & b & ->). induction a as [|c a IH].
    + rewrite append_nil_l. apply HasPrefix_Contains, HasPrefix_app.
    + rewrite append_cons. simpl. by rewrite IH, orb_true_r.
Qed.

Lemma Contains_app s p q : Contains s p = true -> Contains (q +:+ s) p = true.
Proof.
  rewrite !Contains_spec. intros (a & b & ->). exists (q +:+ a), b. by rewrite append_assoc.
Qed.

Lemma Split_not_nil s c : Split s c <> [].
Proof. destruct s as [|c' s]; simpl; [done|]. case_decide; [done|]. by destruct (Split s c). Qed.

Lemma Split_app s t c : Contains s (String c "") = false ->
  Split (s +:+ String c t) c = s :: Split t c.
Proof.
  induction s as [|c' s IH]; intros Hc; rewrite ?append_nil_l, ?append_cons.
  - simpl. by rewrite decide_True.
  - simpl in *. apply orb_false_elim in Hc as [Hp Hs]. rewrite IH by done.
    rewrite decide_False; [done|]. intros ->. unfold HasPrefix in Hp. simpl in Hp.
    destruct (ascii_dec c c); [by destruct s|done].
Qed.

(** ** Decimal conversions *)

Lemma char_digit_char d : 0 <= d < 10 -> char_digit (digit_char d) = Some d.
Proof.
  intros Hd.
  assert (d = 0 \/ d = 1 \/ d = 2 \/ d = 3 \/ d = 4 \/ d = 5 \/ d = 6 \/ d = 7 \/ d = 8 \/ d = 9)
    as Hcases by lia.
  by repeat destruct Hcases as [->|Hcases]; try subst d.
Qed.

Lemma digits_cons fuel n acc : 0 <= n ->
  exists d s, 0 <= d < 10 /\ digits (S fuel) n acc = String (digit_char d) s.
Proof.
  revert n acc. induction fuel as [|fuel IH]; intros n acc Hn;
    pose proof (Z.mod_pos_bound n 10 eq_refl) as Hmod.
  - exists (n mod 10), acc. split; [done|]. simpl. by destruct (n <? 10).
  - destruct (IH (n / 10) (String (digit_char (n mod 10)) acc)) as (d & s & Hd & Hs).
    { apply Z.div_pos; lia. }
    remember (S fuel) as fuel'. simpl. destruct (n <? 10); eauto.
Qed.

Lemma parse_digits_digits max fuel n acc :
  0 <= n < 10 ^ Z.of_nat fuel -> (0 < fuel)%nat -> n <= max ->
  parse_digits max 0 (digits fuel n acc) = parse_digits max n acc.
Proof.
  revert n acc. induction fuel as [|fuel IH]; intros n acc Hn Hfuel Hmax; [lia|].
  pose proof (Z.mod_pos_bound n 10 eq_refl). pose proof (Z.div_mod n 10 ltac:(done)).
  cbn [digits]. destruct (n <? 10) eqn:E; to_prop.
  - cbn [parse_digits]. rewrite char_digit_char, Z.mod_small by lia.
    destruct (max <? 0 * 10 + n) eqn:E'; to_prop; [lia|]. f_equal.
  - rewrite Nat2Z.inj_succ, Z.pow_succ_r in Hn by lia.
    assert (0 < n / 10) by (apply Z.div_str_pos; lia).
    assert (n / 10 < 10 ^ Z.of_nat fuel) by (apply Z.div_lt_upper_bound; lia).
    assert (0 < fuel)%nat.
    { destruct fuel; [|lia]. change (10 ^ Z.of_nat 0) with 1 in *. lia. }
    rewrite IH by lia. cbn [parse_digits]. rewrite char_digit_char by lia.
    destruct (max <? n / 10 * 10 + n mod 10) eqn:E'; to_prop; [lia|]. f_equal. lia.
Qed.

Lemma parse_digits_decimal max n : 0 <= n <= max ->
  parse_digits max 0 (decimal n) = (n, None).
Proof.
  intros Hn. unfold decimal. rewrite parse_digits_digits; [done| |lia|lia].
  split; [lia|]. rewrite Nat2Z.inj_succ, Z2Nat.id by apply Z.log2_nonneg.
  destruct (decide (n = 0)) as [->|]; [done|].
  pose proof (Z.log2_spec n ltac:(lia)) as [_ Hlog].
  pose proof (Z.pow_le_mono_l 2 10 (Z.succ (Z.log2 n)) ltac:(lia)). lia.
Qed.

Lemma decimal_cons n : 0 <= n ->
  exists d s, 0 <= d < 10 /\ decimal n = String (digit_char d) s.
Proof. intros Hn. by apply digits_cons. Qed.

(** [ParseUint] reads back what [Itoa] prints. *)
Lemma ParseUint_Itoa n bits : 0 <= n < 2 ^ bits -> ParseUint (Itoa n) bits = (n, None).
Proof.
  intros Hn. unfold Itoa, ParseUint. destruct (n <? 0) eqn:E; to_prop; [lia|].
  destruct (decimal_cons n) as (d & s & _ & Hs); [lia|].
  rewrite <- (parse_digits_decimal (2 ^ bits - 1)) by lia. by rewrite Hs.
Qed.

Lemma ParseUint_decimal n bits : 0 <= n < 2 ^ bits -> ParseUint (decimal n) bits = (n, None).
Proof.
  intros Hn. rewrite <- (ParseUint_Itoa n bits) by done. unfold Itoa.
  by destruct (n <? 0) eqn:E; to_prop; [lia|].
Qed.

Lemma Atoi_digit d s : 0 <= d < 10 ->
  Atoi (String (digit_char d) s) = signed false (String (digit_char d) s).
Proof.
  intros Hd.
  assert (d = 0 \/ d = 1 \/ d = 2 \/ d = 3 \/ d = 4 \/ d = 5 \/ d = 6 \/ d = 7 \/ d = 8 \/ d = 9)
    as Hcases by lia.
  by repeat destruct Hcases as [->|Hcases]; try subst d.
Qed.

(** [Atoi] reads back what [Itoa] prints, for every [int]. *)
Lemma Atoi_Itoa z : is_int z -> Atoi (Itoa z) = (z, None).
Proof.
  unfold is_int, min_int, max_int. intros Hz. unfold Itoa.
  destruct (z <? 0) eqn:E; to_prop.
  - simpl. unfold signed. rewrite ParseUint_decimal by lia.
    destruct (2 ^ 63 <? - z) eqn:E'; to_prop; [lia|]. f_equal. lia.
  - destruct (decimal_cons z) as (d & s & Hd & Hs); [lia|].
    rewrite Hs, Atoi_digit, <- Hs by done. unfold signed. rewrite ParseUint_decimal by lia.
    by destruct (2 ^ 63 <=? z) eqn:E'; to_prop; [lia|].
Qed.

Lemma decimal_inj n m : 0 <= n -> 0 <= m -> decimal n = decimal m -> n = m.
Proof.
  intros Hn Hm Heq.
  pose proof (parse_digits_decimal (n + m) n ltac:(lia)) as H1.
  pose proof (parse_digits_decimal (n + m) m ltac:(lia)) as H2.
  rewrite Heq in H1. congruence.
Qed.

Lemma Itoa_inj_nonneg n m : 0 <= n -> 0 <= m -> Itoa n = Itoa m -> n = m.
Proof.
  intros Hn Hm. unfold Itoa.
  destruct (n <? 0) eqn:E1, (m <? 0) eqn:E2; to_prop; try lia. by apply decimal_inj.
Qed.

(** ** Decimal numbers hold no separator *)

Fixpoint free_of (c : ascii) (s : string) : Prop :=
  match s with
  | EmptyString => True
  | String c' s => c' <> c /\ free_of c s
  end.

Lemma free_of_Contains c s : free_of c s -> Contains s (String c "") = false.
Proof.
  induction s as [|c' s IH]; intros H; [done|]. destruct H as [Hne H].
  simpl. rewrite IH, orb_false_r by done. unfold HasPrefix. simpl.
  by destruct (ascii_dec c c'); [subst|].
Qed.

Lemma free_of_digits c fuel n acc :
  (forall d, 0 <= d < 10 -> digit_char d <> c) -> 0 <= n ->
  free_of c acc -> free_of c (digits fuel n acc).
Proof.
  intros Hc. revert n acc. induction fuel as [|fuel IH]; intros n acc Hn Hacc; [done|].
  pose proof (Z.mod_pos_bound n 10 eq_refl).
  cbn [digits]. destruct (n <? 10); [by split; [apply Hc|]|].
  apply IH; [apply Z.div_pos; lia|]. by split; [apply Hc|].
Qed.

Lemma free_of_Itoa c n :
  0 <= n -> (forall d, 0 <= d < 10 -> digit_char d <> c) -> free_of c (Itoa n).
Proof.
  intros Hn Hc. unfold Itoa. destruct (n <? 0) eqn:E; to_prop; [lia|].
  by apply free_of_digits.
Qed.

Lemma digit_char_not c : char_digit c = None -> forall d, 0 <= d < 10 -> digit_char d <> c.
Proof. intros Hc d Hd <-. by rewrite char_digit_char in Hc. Qed.

Lemma Split_free s c : free_of c s -> Split s c = [s].
Proof.
  induction s as [|c' s IH]; intros H; [done|]. destruct H as [Hne H].
  simpl. rewrite IH by done. by rewrite decide_False.
Qed.

(** [Split] undoes [Join] when no word holds the separator. *)
Lemma Split_Join c ws : ws <> [] -> Forall (free_of c) ws ->
  Split (Join ws (String c "")) c = ws.
Proof.
  intros Hne H. induction H as [|w ws Hw Hws IH]; [done|].
  destruct ws as [|w' ws].
  - by apply Split_free.
  - change (Join (w :: w' :: ws) (String c "")) with (w +:+ String c "" +:+ Join (w' :: ws) (String c "")).
    change (String c "" +:+ ?t) with (String c t).
    rewrite Split_app by by apply free_of_Contains. by rewrite IH.
Qed.

#[export] Hint Rewrite TrimPrefix_app HasPrefix_app HasPrefix_refl : pooler.
#[export] Hint Resolve HasPrefix_refl HasPrefix_app HasPrefix_Contains : pooler.
