(* ===== verification/Cpuset.v ===== *)
(** * The CPU set library

    [k8s.io/utils/cpuset] is not part of the repository: the model takes its type and
    operations as a [CPUSetLib], and the theorems that depend on their behaviour take the
    documented facts as [CPUSetLaws].  [list_cpuset] is one implementation that satisfies
    the laws; the witnesses compute with it. *)

From S2P Require Import Prelude GoStrings.
From Stdlib Require Import Ascii.
Local Open Scope Z_scope.

Class CPUSetLib := {
  CPUSet : Type;
  (** the zero value [cpuset.CPUSet{}] *)
  cs_zero : CPUSet;
  cs_New : list Z -> CPUSet;
  (** [s.Union(s2...)] *)
  cs_Union : CPUSet -> list CPUSet -> CPUSet;
  cs_List : CPUSet -> list Z;
  cs_Size : CPUSet -> Z;
  cs_IsEmpty : CPUSet -> bool;
  cs_Contains : CPUSet -> Z -> bool;
  cs_Equals : CPUSet -> CPUSet -> bool;
  cs_String : CPUSet -> string;
  (** the set that comes with an error, and the error *)
  cs_Parse : string -> CPUSet * option string
}.

#[export] Instance cpuset_equiv `{CPUSetLib} : Equiv CPUSet :=
  fun s t => forall c, cs_Contains s c = cs_Contains t c.

#[export] Instance cpuset_equivalence `{CPUSetLib} : Equivalence (≡@{CPUSet}).
Proof.
  split; unfold equiv, cpuset_equiv; [done| |].
  - intros s t Hst c. by rewrite Hst.
  - intros s t u Hst Htu c. by rewrite Hst.
Qed.

(** A set of CPU numbers that fit an [int] and are not negative. *)
Definition cpu_numbers `{CPUSetLib} (s : CPUSet) : Prop :=
  forall c, cs_Contains s c = true -> 0 <= c <= max_int.

Class CPUSetLaws `{CPUSetLib} := {
  contains_zero c : cs_Contains cs_zero c = false;
  contains_New l c : cs_Contains (cs_New l) c = bool_decide (c ∈ l);
  contains_Union s ts c :
    cs_Contains (cs_Union s ts) c = cs_Contains s c || existsb (fun t => cs_Contains t c) ts;
  elem_of_List s c : c ∈ cs_List s <-> cs_Contains s c = true;
  sorted_List s : StronglySorted Z.lt (cs_List s);
  Size_List s : cs_Size s = Z.of_nat (length (cs_List s));
  IsEmpty_Size s : cs_IsEmpty s = (cs_Size s =? 0);
  Equals_equiv s t : cs_Equals s t = true <-> s ≡ t;
  String_proper s t : s ≡ t -> cs_String s = cs_String t;
  Parse_String s : cpu_numbers s ->
    exists t, cs_Parse (cs_String s) = (t, None) /\ t ≡ s;
  Parse_empty c : cs_Contains (cs_Parse "").1 c = false
}.

Section laws.
Context `{CPUSetLaws}.
Implicit Types (s t : CPUSet) (c : Z).

#[export] Instance contains_proper : Proper ((≡) ==> (=) ==> (=)) cs_Contains.
Proof. by intros s t Hst c ? <-. Qed.

#[export] Instance string_proper : Proper ((≡) ==> (=)) cs_String.
Proof. intros s t. apply String_proper. Qed.

#[export] Instance union_proper : Proper ((≡) ==> (Forall2 (≡)) ==> (≡)) cs_Union.
Proof.
  intros s s' Hs ts ts' Hts c. rewrite !contains_Union, Hs. f_equal.
  induction Hts as [|t t' ts ts' Ht _ IH]; [done|]. simpl. by rewrite Ht, IH.
Qed.

Lemma NoDup_List s : NoDup (cs_List s).
Proof.
  induction (sorted_List s) as [|c l _ IH Hc]; constructor; [|done].
  intros Hin. rewrite Forall_forall in Hc. specialize (Hc c Hin). lia.
Qed.

#[export] Instance list_proper : Proper ((≡) ==> (=)) cs_List.
Proof.
  intros s t Hst. apply (StronglySorted_unique Z.lt); [apply sorted_List..|].
  apply NoDup_Permutation; [apply NoDup_List..|].
  intros c. by rewrite !elem_of_List, Hst.
Qed.

#[export] Instance size_proper : Proper ((≡) ==> (=)) cs_Size.
Proof. intros s t Hst. by rewrite !Size_List, Hst. Qed.

#[export] Instance empty_proper : Proper ((≡) ==> (=)) cs_IsEmpty.
Proof. intros s t Hst. by rewrite !IsEmpty_Size, Hst. Qed.

Lemma IsEmpty_List s : cs_IsEmpty s = true <-> cs_List s = [].
Proof.
  rewrite IsEmpty_Size, Size_List, Z.eqb_eq. destruct (cs_List s); simpl; [done|].
  split; [lia|done].
Qed.

Lemma IsEmpty_spec s : cs_IsEmpty s = true <-> forall c, cs_Contains s c = false.
Proof.
  rewrite IsEmpty_List. split.
  - intros Hl c. apply not_true_is_false. rewrite <- elem_of_List, Hl. by apply not_elem_of_nil.
  - intros Hc. destruct (cs_List s) as [|c l] eqn:E; [done|].
    assert (cs_Contains s c = true) as Hin by (apply elem_of_List; rewrite E; left).
    by rewrite Hc in Hin.
Qed.

Lemma IsEmpty_zero : cs_IsEmpty cs_zero = true.
Proof. apply IsEmpty_spec. apply contains_zero. Qed.

Lemma not_IsEmpty s c : cs_Contains s c = true -> cs_IsEmpty s = false.
Proof.
  intros Hc. apply not_true_is_false. rewrite IsEmpty_spec. intros Hno. by rewrite Hno in Hc.
Qed.

(** The first element of a set that is not empty is one of its elements. *)
Lemma head_List s c l : cs_List s = c :: l -> cs_Contains s c = true.
Proof. intros Hl. apply elem_of_List. rewrite Hl. left. Qed.

Lemma Equals_refl s : cs_Equals s s = true.
Proof. by apply Equals_equiv. Qed.

(** Adding a single CPU, as the loops over device IDs do. *)
Lemma contains_add s c c' :
  cs_Contains (cs_Union s [cs_New [c]]) c' = cs_Contains s c' || bool_decide (c' = c).
Proof.
  rewrite contains_Union. simpl. rewrite contains_New, orb_false_r. f_equal.
  apply bool_decide_ext. apply list_elem_of_singleton.
Qed.

(** The set a loop accumulates by adding one CPU after another. *)
Lemma contains_foldl_add l s c :
  cs_Contains (foldl (fun s c => cs_Union s [cs_New [c]]) s l) c =
  cs_Contains s c || bool_decide (c ∈ l).
Proof.
  revert s. induction l as [|c' l IH]; intros s; cbn [foldl].
  - by rewrite (bool_decide_eq_false_2 (c ∈ [])), orb_false_r by by apply not_elem_of_nil.
  - rewrite IH, contains_add, <- orb_assoc, <- bool_decide_or. f_equal.
    apply bool_decide_ext. set_solver.
Qed.
End laws.

#[export] Hint Resolve IsEmpty_zero Equals_refl NoDup_List : pooler.

(** ** Hyperthreading siblings

    [topology.AddHTSiblingsToCPUSet] is not part of the repository either.  The README
    ("Hyperthreading support") documents what it is for: the CPUs a map lists for the
    members of a set join the set. *)

Definition sibling_of `{CPUSetLib} (ht : gmap Z string) (s : CPUSet) (c : Z) : Prop :=
  exists core siblings, cs_Contains s core = true /\ ht !! core = Some siblings /\
    cs_Contains (cs_Parse siblings).1 c = true.

Class SiblingLaws `{CPUSetLib} (AddHTSiblingsToCPUSet : CPUSet -> gmap Z string -> CPUSet) := {
  contains_siblings s ht c : cs_Contains (AddHTSiblingsToCPUSet s ht) c = true <->
    cs_Contains s c = true \/ sibling_of ht s c
}.

Lemma sibling_of_equiv `{CPUSetLib} ht s t c : s ≡ t -> sibling_of ht s c <-> sibling_of ht t c.
Proof. intros Hst. unfold sibling_of. by setoid_rewrite Hst. Qed.

(** ** An implementation

    A set is the list of the numbers added to it; [String] prints the sorted numbers
    separated by commas, [Parse] also reads ranges such as [0-3]. *)

Module list_cpuset.

Fixpoint insert (c : Z) (l : list Z) : list Z :=
  match l with
  | [] => [c]
  | c' :: l' => if c <? c' then c :: l else if c =? c' then l else c' :: insert c l'
  end.

Definition sorted (l : list Z) : list Z := foldr insert [] l.

Definition range (lo hi : Z) : list Z := seqZ lo (hi - lo + 1).

Definition parse_part (w : string) : option (list Z) :=
  match Split w "-"%char with
  | [a] => match Atoi a with (n, None) => Some [n] | _ => None end
  | [a; b] =>
      match Atoi a, Atoi b with
      | (n, None), (m, None) => if m <? n then None else Some (range n m)
      | _, _ => None
      end
  | _ => None
  end.

Fixpoint parse_parts (ws : list string) : option (list Z) :=
  match ws with
  | [] => Some []
  | w :: ws => l1 ← parse_part w; l2 ← parse_parts ws; Some (l1 ++ l2)
  end.

Definition parse (s : string) : list Z * option string :=
  match s with
  | EmptyString => ([], None)
  | _ => match parse_parts (Split s ","%char) with
         | Some l => (l, None)
         | None => ([], Some "invalid CPU list")
         end
  end.

Definition lib : CPUSetLib := {|
  CPUSet := list Z;
  cs_zero := [];
  cs_New l := l;
  cs_Union s ts := s ++ concat ts;
  cs_List s := sorted s;
  cs_Size s := Z.of_nat (length (sorted s));
  cs_IsEmpty s := Z.of_nat (length (sorted s)) =? 0;
  cs_Contains s c := bool_decide (c ∈ s);
  cs_Equals s t := bool_decide (sorted s = sorted t);
  cs_String s := Join (Itoa <$> sorted s) ",";
  cs_Parse := parse
|}.

Lemma elem_of_insert c c' l : c ∈ insert c' l <-> c = c' \/ c ∈ l.
Proof.
  induction l as [|x l IH]; simpl; [set_solver|].
  destruct (c' <? x) eqn:E1; [set_solver|]. destruct (c' =? x) eqn:E2; to_prop; set_solver.
Qed.

Lemma elem_of_sorted c l : c ∈ sorted l <-> c ∈ l.
Proof. induction l as [|x l IH]; simpl; [done|]. rewrite elem_of_insert. set_solver. Qed.

Lemma insert_sorted c l : StronglySorted Z.lt l -> StronglySorted Z.lt (insert c l).
Proof.
  induction 1 as [|x l Hl IH Hx]; simpl; [repeat constructor|].
  destruct (c <? x) eqn:E1; [|destruct (c =? x) eqn:E2]; to_prop; subst.
  - constructor; [by constructor|]. constructor; [done|].
    eapply Forall_impl; [exact Hx|]. intros. lia.
  - by constructor.
  - constructor; [done|]. rewrite Forall_forall in *. intros y [->|Hy]%elem_of_insert; [lia|auto].
Qed.

Lemma sorted_sorted l : StronglySorted Z.lt (sorted l).
Proof. induction l; simpl; [constructor|by apply insert_sorted]. Qed.

Lemma sorted_equiv l l' : (forall c, c ∈ l <-> c ∈ l') <-> sorted l = sorted l'.
Proof.
  assert (forall l, NoDup (sorted l)) as Hnd.
  { intros l0. induction (sorted_sorted l0) as [|c k _ IH Hc]; constructor; [|done].
    intros Hin. rewrite Forall_forall in Hc. specialize (Hc c Hin). lia. }
  split.
  - intros Heq. apply (StronglySorted_unique Z.lt); [apply sorted_sorted..|].
    apply NoDup_Permutation; [done..|]. intros c. by rewrite !elem_of_sorted.
  - intros Heq c. by rewrite <- (elem_of_sorted c l), Heq, elem_of_sorted.
Qed.

Lemma parse_part_Itoa n : 0 <= n <= max_int -> parse_part (Itoa n) = Some [n].
Proof.
  intros Hn. unfold parse_part. rewrite Split_free.
  - rewrite Atoi_Itoa; [done|]. unfold is_int, min_int. lia.
  - apply free_of_Itoa; [lia|]. by apply digit_char_not.
Qed.

Lemma parse_print l : Forall (fun n => 0 <= n <= max_int) l ->
  parse (Join (Itoa <$> l) ",") = (l, None).
Proof.
  intros Hl. destruct l as [|n l]; [done|].
  assert (parse_parts (Itoa <$> n :: l) = Some (n :: l)) as Hparts.
  { induction Hl as [|m k Hm Hk IH]; [done|]. rewrite fmap_cons. cbn [parse_parts].
    rewrite parse_part_Itoa by done. simpl. by rewrite IH. }
  assert (Split (Join (Itoa <$> n :: l) ",") ","%char = Itoa <$> n :: l) as Hsplit.
  { apply Split_Join; [done|]. rewrite Forall_fmap. eapply Forall_impl; [exact Hl|].
    intros m [Hm _]. apply free_of_Itoa; [done|]. by apply digit_char_not. }
  unfold parse. destruct (Join (Itoa <$> n :: l) ",") as [|c s] eqn:E.
  - exfalso. apply Forall_cons in Hl as [Hn _].
    destruct (decimal_cons n) as (d & t & _ & Ht); [lia|].
    assert (Itoa n = decimal n) as Hi.
    { unfold Itoa. destruct (n <? 0) eqn:En; to_prop; [lia|done]. }
    rewrite fmap_cons, Hi, Ht in E. by destruct l.
  - by rewrite Hsplit, Hparts.
Qed.

Lemma contains_equiv (s t : list Z) :
  @cpuset_equiv lib s t <-> forall c, c ∈ s <-> c ∈ t.
Proof.
  split; intros Hst c; specialize (Hst c).
  - change (bool_decide (c ∈ s) = bool_decide (c ∈ t)) in Hst.
    rewrite <- (bool_decide_eq_true (c ∈ s)), Hst. apply bool_decide_eq_true.
  - by apply bool_decide_ext.
Qed.

Lemma laws : @CPUSetLaws lib.
Proof.
  split; simpl.
  - done.
  - done.
  - intros s ts c. induction ts as [|t ts IH]; simpl.
    + by rewrite app_nil_r, orb_false_r.
    + rewrite (orb_comm (bool_decide (c ∈ t))), orb_assoc, <- IH.
      rewrite <- bool_decide_or. apply bool_decide_ext. set_solver.
  - intros s c. by rewrite elem_of_sorted, bool_decide_eq_true.
  - apply sorted_sorted.
  - done.
  - done.
  - intros s t. rewrite bool_decide_eq_true, <- sorted_equiv. symmetry. apply contains_equiv.
  - intros s t Hst. pose proof (proj1 (contains_equiv s t) Hst) as Hin.
    apply sorted_equiv in Hin. by rewrite Hin.
  - intros s Hs. exists (sorted s). split.
    + apply parse_print, Forall_forall. intros c Hc.
      apply (elem_of_sorted c s) in Hc. exact (Hs c (bool_decide_eq_true_2 (c ∈ s) Hc)).
    + apply (contains_equiv (sorted s) s). intros c. apply elem_of_sorted.
  - done.
Qed.

Definition add_siblings (s : list Z) (ht : gmap Z string) : list Z :=
  s ++ (s ≫= fun c => from_option (fun siblings => (parse siblings).1) [] (ht !! c)).

Lemma siblings : @SiblingLaws lib add_siblings.
Proof.
  split. intros s ht c. unfold sibling_of, add_siblings. simpl.
  rewrite !bool_decide_eq_true, elem_of_app, list_elem_of_bind. apply or_iff_compat_l. split.
  - intros (core & Hc & Hcore). destruct (ht !! core) as [sib|] eqn:E; simpl in Hc; [|by apply elem_of_nil in Hc].
    exists core, sib. by rewrite !bool_decide_eq_true.
  - intros (core & sib & Hcore & Hht & Hc). rewrite !bool_decide_eq_true in *.
    exists core. by rewrite Hht.
Qed.
End list_cpuset.
