(* ===== verification/K8s.v ===== *)
(** * Kubernetes objects

    The fields of [k8s.io/api/core/v1] (outside the repository) that the program reads.
    Resource quantities appear as the string [Quantity.String()] prints; environment
    variables, volumes and volume mounts as their names. *)

From S2P Require Import Prelude.
Local Open Scope Z_scope.

Record v1_Container := mk_v1_Container {
  ctr_Name : string;
  ctr_Limits : gmap string string;
  ctr_Requests : gmap string string;
  ctr_Env : list string;
  ctr_VolumeMounts : list string;
  ctr_Command : list string;
  ctr_Args : list string;
  ctr_RestartPolicy : option string
}.

Record Terminated := mk_Terminated {
  ExitCode : Z;
  Signal : Z;
  TermReason : string;
  (** a point in time, 0 for the zero [metav1.Time] *)
  FinishedAt : Z
}.

Record ContainerStatus := mk_ContainerStatus {
  stat_Name : string;
  stat_ContainerID : string;
  stat_Ready : bool;
  stat_Started : option bool;
  stat_RestartCount : Z;
  (** the reason, if the container is waiting *)
  stat_Waiting : option string;
  stat_Running : bool;
  stat_Terminated : option Terminated;
  stat_LastTerminated : option Terminated
}.

Record PodCondition := mk_PodCondition {
  cond_Type : string;
  cond_Status : string;
  cond_Reason : string
}.

Record PodStatusT := mk_PodStatus {
  st_Phase : string;
  st_Reason : string;
  st_Conditions : list PodCondition;
  st_InitContainerStatuses : list ContainerStatus;
  st_ContainerStatuses : list ContainerStatus
}.

Record v1_Pod := mk_v1_Pod {
  pod_Namespace : string;
  pod_Name : string;
  pod_UID : string;
  pod_Annotations : gmap string string;
  pod_Deleted : bool;
  pod_NodeName : string;
  pod_InitContainers : list v1_Container;
  pod_Containers : list v1_Container;
  pod_Volumes : list string;
  pod_Status : PodStatusT
}.

Definition PodSucceeded : string := "Succeeded".
Definition PodFailed : string := "Failed".
Definition PodRunning : string := "Running".

Definition resourceBaseName : string := "bonc.k8s.io".
