(* ===== verification/PodApi.v ===== *)
(** * The pod interface of the setter

    What [pkg/sethandler] uses of [pkg/k8sclient]: [K8sClient] gives an instance.  A call is
    told which one of a sequence it is, since the API may answer differently each time. *)

From S2P Require Import Prelude K8s.

Class PodApi := {
  (** [None] for an error *)
  RefreshPod : nat -> v1_Pod -> option v1_Pod;
  (** whether the annotation is set *)
  SetPodAnnotation : nat -> v1_Pod -> string -> string -> bool;
  (** the pods of this node *)
  GetPodsFromKubelet : res unit (list v1_Pod)
}.
