(* ===== verification/Pools.v ===== *)
(** * Pool configuration: [pkg/types/pool_type.go], [pkg/types/pool.go]

    Pool types by name prefix, the per-node configuration file and its selection by node
    label, and [SelectPool].  Reading a file, the YAML decoder, the file globbing and the
    topology discovery are the fields of [PoolEnv]; maps are visited in any order. *)

From S2P Require Import Prelude GoStrings Cpuset.
Local Open Scope Z_scope.

(** The fields of [topology.Topology] (a library outside the repository) the program reads. *)
Record Topology := mkTopology {
  Core : Z;
  Node : Z;
  Devices : list string
}.

(** [CoreMap[k]] of a missing key. *)
Definition zero_topology : Topology := mkTopology 0 0 [].

#[export] Instance topology_eq_dec : EqDecision Topology.
Proof. solve_decision. Defined.

(** ** Constants and [DeterminePoolType] *)

Definition SharedPoolID : string := "shared".
Definition ExclusivePoolID : string := "exclusive".
Definition CloudphonePoolID : string := "cloudphone".
Definition DefaultPoolID : string := "default".
Definition SingleThreadHTPolicy : string := "singleThreaded".
Definition MultiThreadHTPolicy : string := "multiThreaded".

Definition DeterminePoolType (poolName : string) : string :=
  if HasPrefix poolName SharedPoolID then SharedPoolID
  else if HasPrefix poolName ExclusivePoolID then ExclusivePoolID
  else if HasPrefix poolName CloudphonePoolID then CloudphonePoolID
  else DefaultPoolID.

Section pools.
Context `{CPUSetLib} `{RangeOrder}.

Record Pool := mkPool {
  CPUset : CPUSet;
  CPUStr : string;
  HTPolicy : string;
  Overcommitment : Z;
  NumaWeight : string;
  PhysicalCore : Z;
  CoreMap : gmap Z Topology
}.

(** The zero value [Pool{}]. *)
Definition zero_pool : Pool := mkPool cs_zero "" "" 0 "" 0 ∅.

Record PoolConfig := mkPoolConfig {
  Pools : gmap string Pool;
  NodeSelector : gmap string string
}.

Definition zero_config : PoolConfig := mkPoolConfig ∅ ∅.

(** [poolConfig.Pools[poolName] = pool] *)
Definition set_pool (cfg : PoolConfig) (poolName : string) (pool : Pool) : PoolConfig :=
  mkPoolConfig (<[poolName := pool]> (Pools cfg)) (NodeSelector cfg).

Inductive pool_error :=
  | CouldNotReadFile (name : string)
  | CouldNotParseFile
  | CPUsNotParsed (e : string)
  | GlobFailed
  | NoMatchingConfig
  | NodeNotRead.

(** What the code reads from outside: the environment of the process. *)
Record PoolEnv := {
  GetCGPUTopology : gmap Z Topology;
  ReadFile : string -> option string;
  yaml_Unmarshal : string -> option PoolConfig;
  Glob : string -> option (list string);
  (** the labels of the node, [None] for a nil map *)
  node_labels : option (option (gmap string string))
}.

Definition PoolConfigDir : string := "/etc/cpu-pooler".

(** The inner loop of [ReadPoolConfigFile]: the cores of the topology that lie in the pool. *)
Definition restrict_cores (s : site) (coreMap : gmap Z Topology) (set : CPUSet)
    : gmap Z Topology :=
  foldl (fun cores '(k, v) => if cs_Contains set k then <[k := v]> cores else cores)
    ∅ (visit s coreMap).

(** One iteration of the loop over the pools of a file. *)
Definition load_pool (s : site) (coreMap : gmap Z Topology) (poolBody : Pool)
    : res pool_error Pool :=
  match cs_Parse (CPUStr poolBody) with
  | (_, Some e) => Err (CPUsNotParsed e)
  | (set, None) =>
      Ok {| CPUset := set;
            CPUStr := CPUStr poolBody;
            HTPolicy := if decide (HTPolicy poolBody = "")
                        then SingleThreadHTPolicy else HTPolicy poolBody;
            Overcommitment := Overcommitment poolBody;
            NumaWeight := NumaWeight poolBody;
            PhysicalCore := PhysicalCore poolBody;
            CoreMap := restrict_cores s coreMap set |}
  end.

Definition load_pools (s : site) (coreMap : gmap Z Topology) (cfg : PoolConfig)
    : res pool_error PoolConfig :=
  after (for_range (fun i '(poolName, poolBody) cfg =>
           match load_pool (i :: s) coreMap poolBody with
           | Ok pool => Next (set_pool cfg poolName pool)
           | Err e => Return (Err e)
           | Panic p => Return (Panic p)
           end) (visit s (Pools cfg)) cfg)
    (fun cfg => Ok cfg).

Definition ReadPoolConfigFile (env : PoolEnv) (s : site) (name : string)
    : res pool_error PoolConfig :=
  match ReadFile env name with
  | None => Err (CouldNotReadFile name)
  | Some file =>
      match yaml_Unmarshal env file with
      | None => Err CouldNotParseFile
      | Some cfg => load_pools s (GetCGPUTopology env) cfg
      end
  end.

(** The loop over the files, in the order [Glob] lists them. *)
Fixpoint read_files (env : PoolEnv) (i : nat) (s : site) (files : list string)
    : res pool_error (list PoolConfig) :=
  match files with
  | [] => Ok []
  | f :: files =>
      cfg ← ReadPoolConfigFile env (i :: s) f;
      cfgs ← read_files env (S i) s files;
      Ok (cfg :: cfgs)
  end.

Definition ReadAllPoolConfigs (env : PoolEnv) (s : site) : res pool_error (list PoolConfig) :=
  match Glob env (PoolConfigDir +:+ "/poolconfig-*") with
  | None => Err GlobFailed
  | Some files => read_files env 0 s files
  end.

(** Whether a label of the node, visited in some order, is a selector of the file. *)
Definition label_loop (s : site) (labelMap : gmap string string) (poolConf : PoolConfig)
    : unit + PoolConfig :=
  for_range (fun _ '(label, labelValue) _ =>
    match NodeSelector poolConf !! label with
    | Some value => if decide (value = labelValue) then Return poolConf else Next tt
    | None => Next tt
    end) (visit s labelMap) tt.

Fixpoint select_config (s : site) (labelMap : option (gmap string string)) (i : nat)
    (poolConfs : list PoolConfig) : res pool_error PoolConfig :=
  match poolConfs with
  | [] => Err NoMatchingConfig
  | poolConf :: poolConfs =>
      match labelMap with
      | None => Ok poolConf
      | Some labels =>
          match label_loop (i :: s) labels poolConf with
          | inr poolConf => Ok poolConf
          | inl _ => select_config s labelMap (S i) poolConfs
          end
      end
  end.

Definition readPoolConfig (env : PoolEnv) (s : site) (labelMap : option (gmap string string))
    : res pool_error PoolConfig :=
  poolConfs ← ReadAllPoolConfigs env (0%nat :: s);
  select_config (1%nat :: s) labelMap 0 poolConfs.

Definition DeterminePoolConfig (env : PoolEnv) (s : site) : res pool_error PoolConfig :=
  match node_labels env with
  | None => Err NodeNotRead
  | Some nodeLabels => readPoolConfig env s nodeLabels
  end.

(** [SelectPool]: the first pool visited whose name has the prefix. *)
Definition SelectPool (s : site) (poolConf : PoolConfig) (prefix : string) : Pool :=
  after (for_range (fun _ '(poolName, pool) _ =>
           if HasPrefix poolName prefix then Return pool else Next tt)
           (visit s (Pools poolConf)) tt)
    (fun _ => zero_pool).
End pools.

Arguments PoolConfig {_}.
Arguments Pool {_}.
Arguments PoolEnv {_}.

(** ** Pool types *)

(** A name is of one of the three advertised types exactly when it has the type's prefix,
    whatever follows the prefix. *)
Lemma DeterminePoolType_prefix t rest :
  t ∈ [SharedPoolID; ExclusivePoolID; CloudphonePoolID] -> DeterminePoolType (t +:+ rest) = t.
Proof.
  unfold DeterminePoolType. rewrite !elem_of_cons, elem_of_nil.
  intros [->|[->|[->|[]]]]; rewrite HasPrefix_app; [done| |].
  - by change (HasPrefix (ExclusivePoolID +:+ rest) SharedPoolID) with false.
  - change (HasPrefix (CloudphonePoolID +:+ rest) SharedPoolID) with false.
    by change (HasPrefix (CloudphonePoolID +:+ rest) ExclusivePoolID) with false.
Qed.

Lemma DeterminePoolType_has_prefix poolName t :
  DeterminePoolType poolName = t -> t <> DefaultPoolID -> HasPrefix poolName t = true.
Proof.
  unfold DeterminePoolType. intros <-.
  destruct (HasPrefix poolName SharedPoolID) eqn:?; [done|].
  destruct (HasPrefix poolName ExclusivePoolID) eqn:?; [done|].
  by destruct (HasPrefix poolName CloudphonePoolID) eqn:?.
Qed.

Section selection.
Context `{CPUSetLib} `{RangeOrder}.
Implicit Types (cfg : PoolConfig) (s : site).

(** ** [SelectPool] *)

(** The selected pool has the prefix; without any such pool it is the zero value. *)
Lemma SelectPool_cases s cfg prefix :
  (exists name, HasPrefix name prefix = true /\ Pools cfg !! name = Some (SelectPool s cfg prefix))
  \/ ((forall name, is_Some (Pools cfg !! name) -> HasPrefix name prefix = false)
      /\ SelectPool s cfg prefix = zero_pool).
Proof.
  unfold SelectPool.
  apply (for_range_inv _
    (fun l1 _ => Forall (fun x : string * Pool => HasPrefix x.1 prefix = false) l1)); simpl.
  - done.
  - intros l1 [name pool] l2 _ Hl Hl1. destruct (HasPrefix name prefix) eqn:E.
    + left. exists name. split; [done|]. apply (elem_of_visit s). rewrite Hl. set_solver.
    + apply Forall_app_2; [done|by constructor].
  - intros _ Hall. right. split; [|done]. intros name [pool Hname].
    rewrite Forall_forall in Hall. apply (Hall (name, pool)). by apply elem_of_visit.
Qed.

(** With a single candidate the choice does not depend on the order of the map. *)
Lemma SelectPool_unique s cfg prefix name pool :
  Pools cfg !! name = Some pool -> HasPrefix name prefix = true ->
  (forall name', is_Some (Pools cfg !! name') -> HasPrefix name' prefix = true -> name' = name) ->
  SelectPool s cfg prefix = pool.
Proof.
  intros Hname Hprefix Huniq.
  destruct (SelectPool_cases s cfg prefix) as [(name' & Hp' & Hsel)|[Hnone _]].
  - rewrite (Huniq name') in Hsel by eauto. congruence.
  - rewrite Hnone in Hprefix by eauto. done.
Qed.

(** ** [ReadPoolConfigFile] *)

Definition parses (pool : Pool) : Prop := (cs_Parse (CPUStr pool)).2 = None.

(** What reading makes of a pool: its CPU list parsed, the default policy filled in, the
    topology restricted to its CPUs. *)
Definition loaded_pool (coreMap : gmap Z Topology) (pool : Pool) : Pool :=
  let set := (cs_Parse (CPUStr pool)).1 in
  {| CPUset := set;
     CPUStr := CPUStr pool;
     HTPolicy := if decide (HTPolicy pool = "") then SingleThreadHTPolicy else HTPolicy pool;
     Overcommitment := Overcommitment pool;
     NumaWeight := NumaWeight pool;
     PhysicalCore := PhysicalCore pool;
     CoreMap := filter (fun kv => cs_Contains set kv.1 = true) coreMap |}.

Lemma restrict_cores_filter s coreMap set :
  restrict_cores s coreMap set = filter (fun kv => cs_Contains set kv.1 = true) coreMap.
Proof.
  apply map_eq. intros k. unfold restrict_cores.
  transitivity (foldl (store_step (fun k v => if cs_Contains set k then Some v else None))
                  ∅ (visit s coreMap) !! k).
  { f_equal. generalize (∅ : gmap Z Topology). induction (visit s coreMap) as [|[k' v'] l IH];
      intros m; simpl; [done|]. rewrite IH. f_equal. unfold store_step. simpl.
    by destruct (cs_Contains set k'). }
  rewrite lookup_store, lookup_empty, map_lookup_filter.
  destruct (coreMap !! k) as [v|]; simpl; [|done].
  destruct (cs_Contains set k) eqn:E.
  - by rewrite option_guard_True.
  - by rewrite option_guard_False.
Qed.

Lemma load_pool_Ok s coreMap pool : parses pool ->
  load_pool s coreMap pool = Ok (loaded_pool coreMap pool).
Proof.
  unfold parses, load_pool, loaded_pool. destruct (cs_Parse (CPUStr pool)) as [set err].
  simpl. intros ->. by rewrite restrict_cores_filter.
Qed.

Lemma load_pool_Err s coreMap pool : ~ parses pool ->
  exists e, load_pool s coreMap pool = Err (CPUsNotParsed e)
            /\ (cs_Parse (CPUStr pool)).2 = Some e.
Proof.
  unfold parses, load_pool. destruct (cs_Parse (CPUStr pool)) as [set [e|]]; simpl; [eauto|done].
Qed.

#[local] Instance parses_dec pool : Decision (parses pool).
Proof. unfold parses. apply _. Defined.

Lemma load_pools_spec s coreMap cfg :
  match load_pools s coreMap cfg with
  | Ok cfg' =>
      map_Forall (fun _ => parses) (Pools cfg) /\
      cfg' = mkPoolConfig (loaded_pool coreMap <$> Pools cfg) (NodeSelector cfg)
  | Err e =>
      exists name pool msg, Pools cfg !! name = Some pool
        /\ (cs_Parse (CPUStr pool)).2 = Some msg /\ e = CPUsNotParsed msg
  | Panic _ => False
  end.
Proof.
  unfold load_pools.
  apply (for_range_inv _ (fun l1 cfg' =>
    Forall (fun x => parses x.2) l1 /\ NodeSelector cfg' = NodeSelector cfg /\
    forall name, Pools cfg' !! name =
      if decide (name ∈ l1.*1) then loaded_pool coreMap <$> Pools cfg !! name
      else Pools cfg !! name)); simpl.
  - split; [done|]. done.
  - intros l1 [name pool] l2 cfg' Hl (Hl1 & Hsel & Hpools).
    assert (Pools cfg !! name = Some pool) as Hname.
    { apply (elem_of_visit s). rewrite Hl. set_solver. }
    destruct (decide (parses pool)) as [Hp|Hp].
    + rewrite load_pool_Ok by done. split; [by apply Forall_app_2; [|by constructor]|].
      split; [done|]. intros n. simpl. destruct (decide (n = name)) as [->|Hne].
      * rewrite lookup_insert_eq, decide_True, Hname by (rewrite fmap_app; set_solver). done.
      * rewrite lookup_insert_ne, Hpools by done. rewrite fmap_app.
        destruct (decide (n ∈ l1.*1)); [by rewrite decide_True by set_solver|].
        by rewrite decide_False by set_solver.
    + destruct (load_pool_Err (length l1 :: s) coreMap pool Hp) as (e & -> & He). eauto 10.
  - intros [pools sel] (Hall & Hsel & Hpools). simpl in *. split.
    + intros name pool Hname. rewrite Forall_forall in Hall. apply (Hall (name, pool)).
      by apply elem_of_visit.
    + rewrite Hsel. f_equal. apply map_eq. intros name. rewrite Hpools, lookup_fmap.
      case_decide as Hin; [done|]. destruct (Pools cfg !! name) as [pool|] eqn:E; [|done].
      exfalso. apply Hin, list_elem_of_fmap. exists (name, pool). split; [done|].
      by apply elem_of_visit.
Qed.

(** ** Choosing the file of the node *)

(** A file applies to a node when one of the labels is a selector of the file. *)
Definition applies (labelMap : option (gmap string string)) (cfg : PoolConfig) : bool :=
  match labelMap with
  | None => true
  | Some labels =>
      existsb (fun '(label, value) => bool_decide (NodeSelector cfg !! label = Some value))
        (map_to_list labels)
  end.

Lemma label_loop_spec s labels cfg :
  label_loop s labels cfg = if applies (Some labels) cfg then inr cfg else inl tt.
Proof.
  unfold label_loop, applies.
  rewrite (for_range_find _ (fun x =>
    if bool_decide (NodeSelector cfg !! x.1 = Some x.2) then Some cfg else None)).
  2: { intros i [label value] [] _. simpl. destruct (NodeSelector cfg !! label) as [v|].
       - case_decide; [by rewrite bool_decide_eq_true_2 by congruence|].
         by rewrite bool_decide_eq_false_2 by congruence.
       - by rewrite bool_decide_eq_false_2. }
  destruct (existsb _ _) eqn:E.
  - apply existsb_exists in E as ([label value] & Hin & Hsel).
    destruct (list_find _ _) as [[i x]|] eqn:Ef.
    + apply list_find_Some in Ef as (_ & [c Hc] & _). rewrite Hc.
      case_bool_decide; congruence.
    + apply list_find_None in Ef. rewrite Forall_forall in Ef. exfalso.
      apply (Ef (label, value)); [|simpl; rewrite Hsel; eauto].
      apply elem_of_visit, elem_of_map_to_list, list_elem_of_In, Hin.
  - destruct (list_find _ _) as [[i [label value]]|] eqn:Ef; [|done].
    apply list_find_Some in Ef as (Hin & [c Hc] & _). exfalso.
    apply not_true_iff_false in E. apply E, existsb_exists.
    exists (label, value). split; [|simpl in Hc; by case_bool_decide].
    apply list_elem_of_In, elem_of_map_to_list, (elem_of_visit s).
    by eapply list_elem_of_lookup_2.
Qed.

Lemma select_config_find s labelMap i cfgs :
  select_config s labelMap i cfgs =
    from_option Ok (Err NoMatchingConfig) (List.find (applies labelMap) cfgs).
Proof.
  revert i. induction cfgs as [|cfg cfgs IH]; intros i; simpl; [done|].
  destruct labelMap as [labels|]; [|done].
  rewrite label_loop_spec. by destruct (applies (Some labels) cfg).
Qed.
End selection.

(** * Properties *)

Section properties.
Context `{CPUSetLib} `{RangeOrder}.

(** C32: Reading a configuration file succeeds exactly when the CPU list of every pool
    parses; the pools then keep their data, with the CPU list parsed, the default
    hyperthreading policy filled in and the core map restricted to the pool's CPUs,
    whatever the order of the maps.  An error names a CPU list that does not parse. *)
Theorem ReadPoolConfigFile_loads (env : PoolEnv) s name file cfg :
  ReadFile env name = Some file -> yaml_Unmarshal env file = Some cfg ->
  match ReadPoolConfigFile env s name with
  | Ok cfg' =>
      map_Forall (fun _ => parses) (Pools cfg) /\
      cfg' = mkPoolConfig (loaded_pool (GetCGPUTopology env) <$> Pools cfg) (NodeSelector cfg)
  | Err e =>
      exists poolName pool msg, Pools cfg !! poolName = Some pool
        /\ (cs_Parse (CPUStr pool)).2 = Some msg /\ e = CPUsNotParsed msg
  | Panic _ => False
  end.
Proof.
  intros Hfile Hyaml. unfold ReadPoolConfigFile. rewrite Hfile, Hyaml. apply load_pools_spec.
Qed.

(** The configuration of a node is the first file, in the order of the file names, that
    has a selector equal to one of the node's labels (the first file for a node without
    label information), whatever the order of the labels. *)
Theorem readPoolConfig_first (env : PoolEnv) s labelMap :
  readPoolConfig env s labelMap =
    (cfgs ← ReadAllPoolConfigs env (0%nat :: s);
     from_option Ok (Err NoMatchingConfig) (List.find (applies labelMap) cfgs)).
Proof.
  unfold readPoolConfig. destruct (ReadAllPoolConfigs env _) as [cfgs| |]; simpl; [|done..].
  apply select_config_find.
Qed.

(** Selecting a configured pool by its full name gives that pool, in every order of the
    map, if no other pool's name starts with it. *)
Theorem SelectPool_exact s (cfg : PoolConfig) name pool :
  Pools cfg !! name = Some pool ->
  (forall name', is_Some (Pools cfg !! name') -> HasPrefix name' name = true -> name' = name) ->
  SelectPool s cfg name = pool.
Proof. intros Hname. apply SelectPool_unique; [done|apply HasPrefix_refl]. Qed.
End properties.

(** ** Witnesses *)

Module pools_example.
#[local] Existing Instance list_cpuset.lib.

Definition pool_of (cpus : string) : Pool := @mkPool list_cpuset.lib [] cpus "" 1 "" 0 ∅.

(** Two pools, the name of one a prefix of the other's. *)
Definition config : PoolConfig :=
  @mkPoolConfig list_cpuset.lib
    (list_to_map [("exclusive_a", pool_of "1"); ("exclusive_ab", pool_of "2")]) ∅.

Definition env : PoolEnv := @Build_PoolEnv list_cpuset.lib
  (list_to_map [(1, mkTopology 1 0 []); (2, mkTopology 2 0 [])])
  (fun _ => Some "") (fun _ => Some config) (fun _ => Some ["poolconfig-1"]) (Some None).
End pools_example.

(** [SelectPool] compares prefixes: with two pools of which one name starts with the other,
    selecting the shorter name gives one pool or the other, depending on the order of the
    map. *)
Theorem SelectPool_prefix_ambiguous :
  exists order1 order2 : RangeOrder,
    CPUStr (SelectPool (H0 := order1) [] pools_example.config "exclusive_a") = "1" /\
    CPUStr (SelectPool (H0 := order2) [] pools_example.config "exclusive_a") = "2".
Proof.
  exists range_backward, range_forward. split; vm_compute; reflexivity.
Qed.

Section witnesses.
#[local] Existing Instance list_cpuset.lib.
#[local] Existing Instance range_forward.
Import pools_example.

Lemma ReadPoolConfigFile_loads_witness :
  match ReadPoolConfigFile env [] "poolconfig-1" with
  | Ok cfg' => cfg' = mkPoolConfig (loaded_pool (GetCGPUTopology env) <$> Pools config) ∅
  | _ => False
  end.
Proof.
  pose proof (ReadPoolConfigFile_loads env [] "poolconfig-1" "" config eq_refl eq_refl) as Hspec.
  assert (is_ok (ReadPoolConfigFile env [] "poolconfig-1") = true) as Hok
    by (vm_compute; reflexivity).
  destruct (ReadPoolConfigFile env [] "poolconfig-1") as [cfg'| |]; [|discriminate..].
  destruct Hspec as [_ Hspec]. exact Hspec.
Defined.

Lemma SelectPool_exact_witness : SelectPool [] config "exclusive_ab" = pool_of "2".
Proof.
  apply (SelectPool_exact [] config "exclusive_ab" (pool_of "2")).
  - vm_cast_no_check (@eq_refl (option Pool) (Some (pool_of "2"))).
  - intros name' [p Hp] Hprefix. apply elem_of_list_to_map_2 in Hp.
    rewrite !elem_of_cons, elem_of_nil in Hp.
    destruct Hp as [[= -> ->]|[[= -> ->]|[]]]; [discriminate|reflexivity].
Defined.
End witnesses.
