(* ===== verification/Annotation.v ===== *)
(** * The pod annotation: [pkg/types/cpu-annotation.go]

    The annotation maps a container name to the processes the starter launches and the
    CPUs each asks from a pool.  [json.Unmarshal] is an argument: it gives the containers
    it could decode and, possibly, an error.  Sums are over Go's [int] and wrap. *)

From S2P Require Import Prelude GoStrings.
Local Open Scope Z_scope.

Record Process := mkProcess {
  ProcName : string;
  Args : list string;
  CPUs : Z;
  PoolName : string
}.

Record Container := mkContainer {
  Name : string;
  Processes : list Process
}.

Definition CPUAnnotation : Type := gmap string Container.

Inductive annotation_error :=
  | JsonError (e : string)
  | NoContainerName
  | NoProcesses
  | NoProcessName
  | NoCpus.

(** [validationErrStr] *)
Definition validationErrStr (e : annotation_error) : string :=
  match e with
  | JsonError e => e
  | NoContainerName => "'container' is mandatory in annotation"
  | NoProcesses => "'processes' is mandatory in annotation"
  | NoProcessName => "'process' (name) is mandatory in annotation"
  | NoCpus => "'cpus' field is mandatory in annotation"
  end.

Definition NewCPUAnnotation : CPUAnnotation := ∅.

Section annotation.
Context `{RangeOrder}.
Implicit Types (ann : CPUAnnotation) (s : site).

Definition Containers s ann : list string := (fun '(_, cont) => Name cont) <$> visit s ann.

Definition ContainerExists ann (name : string) : bool :=
  match ann !! name with Some _ => true | None => false end.

Definition ContainerSharedCPUTime s ann (container : string) : Z :=
  foldl (fun cpuTime '(_, cont) =>
    if decide (Name cont = container) then
      foldl (fun cpuTime process =>
        if HasPrefix (PoolName process) "shared"
        then (cpuTime +w CPUs process)%go else cpuTime) cpuTime (Processes cont)
    else cpuTime) 0 (visit s ann).

Definition ContainerExclusiveCPU s ann (container : string) : Z :=
  foldl (fun cpuTime '(_, cont) =>
    if decide (Name cont = container) then
      foldl (fun cpuTime process =>
        if HasPrefix (PoolName process) "exclusive"
        then (cpuTime +w CPUs process)%go else cpuTime) cpuTime (Processes cont)
    else cpuTime) 0 (visit s ann).

(** The loop keeps the pools found so far, in order, and the set [poolMap] of them. *)
Definition ContainerPools s ann (cName : string) : list string :=
  (foldl (fun st '(_, container) =>
    if decide (Name container = cName) then
      foldl (fun '(pools, poolMap) process =>
        if decide (PoolName process ∈ (poolMap : gset string)) then (pools, poolMap)
        else (pools ++ [PoolName process], {[PoolName process]} ∪ poolMap))
        st (Processes container)
    else st) ([], ∅) (visit s ann)).1.

Definition ContainerTotalCPURequest s ann (pool cName : string) : Z :=
  foldl (fun cpuRequest '(_, container) =>
    if decide (Name container = cName) then
      foldl (fun cpuRequest process =>
        if decide (PoolName process = pool)
        then (cpuRequest +w CPUs process)%go else cpuRequest) cpuRequest (Processes container)
    else cpuRequest) 0 (visit s ann).

(** The loop over the processes of a container in [Decode]. *)
Definition validate_processes (ps : list Process) : unit + option annotation_error :=
  for_range (fun _ p _ =>
    if decide (ProcName p = "") then Return (Some NoProcessName)
    else if CPUs p =? 0 then Return (Some NoCpus)
    else Next tt) ps tt.

Definition validate_containers s ann : unit + option annotation_error :=
  for_range (fun _ '(_, c) _ =>
    if decide (Name c = "") then Return (Some NoContainerName)
    else match Processes c with
         | [] => Return (Some NoProcesses)
         | ps => match validate_processes ps with
                 | inr r => Return r
                 | inl _ => Next tt
                 end
         end) (visit s ann) tt.

(** [Decode] adds the containers to the map before it looks at the error. *)
Definition Decode (unmarshal : string -> list Container * option string) s ann
    (annotation : string) : CPUAnnotation * option annotation_error :=
  let '(containers, err) := unmarshal annotation in
  let ann := foldl (fun ann container => <[Name container := container]> ann) ann containers in
  match err with
  | Some e => (ann, Some (JsonError e))
  | None => (ann, after (validate_containers s ann) (fun _ => None))
  end.
End annotation.

(** ** Specification of the sums *)

(** The processes of the containers called [c]. *)
Definition procs_in (c : string) (l : list (string * Container)) : list Process :=
  l ≫= fun x => if decide (Name x.2 = c) then Processes x.2 else [].

Definition procs_of (ann : CPUAnnotation) (c : string) : list Process :=
  procs_in c (map_to_list ann).

(** The CPUs the selected processes ask for, as an integer without bounds. *)
Definition cpu_sum (sel : Process -> bool) (ps : list Process) : Z :=
  zsum ((fun p => if sel p then CPUs p else 0) <$> ps).

#[export] Instance cpu_sum_perm sel : Proper ((≡ₚ) ==> (=)) (cpu_sum sel).
Proof. intros ps ps' Hps. unfold cpu_sum. by rewrite Hps. Qed.

Lemma cpu_sum_cons sel p ps : cpu_sum sel (p :: ps) = (if sel p then CPUs p else 0) + cpu_sum sel ps.
Proof. done. Qed.

Lemma cpu_sum_app sel ps ps' : cpu_sum sel (ps ++ ps') = cpu_sum sel ps + cpu_sum sel ps'.
Proof. unfold cpu_sum. by rewrite fmap_app, zsum_app. Qed.

Lemma cpu_sum_ext sel sel' ps :
  Forall (fun p => sel p = sel' p) ps -> cpu_sum sel ps = cpu_sum sel' ps.
Proof. induction 1 as [|p ps Hp _ IH]; [done|]. by rewrite !cpu_sum_cons, Hp, IH. Qed.

Section sums.
Context `{RangeOrder}.
Implicit Types (ann : CPUAnnotation) (s : site).

Lemma foldl_procs {T} (f : T -> Process -> T) t c (l : list (string * Container)) :
  foldl (fun t '(_, cont) =>
    if decide (Name cont = c) then foldl f t (Processes cont) else t) t l
  = foldl f t (procs_in c l).
Proof.
  revert t. induction l as [|[k cont] l IH]; intros t; [done|].
  unfold procs_in in *. rewrite bind_cons, foldl_app. simpl. rewrite IH. by case_decide.
Qed.

Lemma foldl_cpu_sum (sel : Process -> bool) z ps :
  foldl (fun t p => if sel p then wrap (t + CPUs p) else t) (wrap z) ps
  = wrap (z + cpu_sum sel ps).
Proof.
  revert z. induction ps as [|p ps IH]; intros z; simpl.
  - f_equal. unfold cpu_sum. simpl. lia.
  - rewrite cpu_sum_cons. destruct (sel p).
    + rewrite wrap_add_l, IH. f_equal. lia.
    + rewrite IH. f_equal; lia.
Qed.

Lemma procs_visit s ann c : procs_in c (visit s ann) ≡ₚ procs_of ann c.
Proof. unfold procs_of, procs_in. by rewrite visit_perm. Qed.

Lemma sum_loop_spec (sel : Process -> bool) s ann c :
  foldl (fun t '(_, cont) =>
    if decide (Name cont = c) then
      foldl (fun t p => if sel p then wrap (t + CPUs p) else t) t (Processes cont)
    else t) 0 (visit s ann) = wrap (cpu_sum sel (procs_of ann c)).
Proof.
  rewrite foldl_procs. change 0 with (wrap 0) at 1.
  rewrite foldl_cpu_sum, procs_visit. done.
Qed.

Lemma ContainerSharedCPUTime_sum s ann c :
  ContainerSharedCPUTime s ann c =
    wrap (cpu_sum (fun p => HasPrefix (PoolName p) "shared") (procs_of ann c)).
Proof. apply sum_loop_spec. Qed.

Lemma ContainerExclusiveCPU_sum s ann c :
  ContainerExclusiveCPU s ann c =
    wrap (cpu_sum (fun p => HasPrefix (PoolName p) "exclusive") (procs_of ann c)).
Proof. apply sum_loop_spec. Qed.

Lemma ContainerTotalCPURequest_sum s ann pool c :
  ContainerTotalCPURequest s ann pool c =
    wrap (cpu_sum (fun p => bool_decide (PoolName p = pool)) (procs_of ann c)).
Proof.
  rewrite <- (sum_loop_spec _ s), !foldl_procs. unfold ContainerTotalCPURequest.
  rewrite foldl_procs. generalize 0 (procs_in c (visit s ann)). intros t ps. revert t.
  induction ps as [|p ps IH]; intros t; simpl; [done|]. rewrite IH.
  by case_decide; case_bool_decide.
Qed.

(** ** The pools of a container *)

Lemma pools_loop ps pools poolMap :
  NoDup pools -> (forall x, x ∈ pools <-> x ∈ (poolMap : gset string)) ->
  let st := foldl (fun '(pools, poolMap) process =>
        if decide (PoolName process ∈ (poolMap : gset string)) then (pools, poolMap)
        else (pools ++ [PoolName process], {[PoolName process]} ∪ poolMap))
        (pools, poolMap) ps in
  NoDup st.1 /\ forall x, x ∈ st.1 <-> x ∈ pools \/ x ∈ PoolName <$> ps.
Proof.
  revert pools poolMap. induction ps as [|p ps IH]; intros pools poolMap Hnd Hin; simpl.
  { split; [done|]. set_solver. }
  case_decide as Hp.
  - destruct (IH pools poolMap Hnd Hin) as [Hnd' Hin']. split; [done|].
    intros x. rewrite Hin'. apply Hin in Hp. set_solver.
  - destruct (IH (pools ++ [PoolName p]) ({[PoolName p]} ∪ poolMap)) as [Hnd' Hin'].
    + apply NoDup_app. split; [done|]. split; [|apply NoDup_singleton].
      intros x Hx ->%list_elem_of_singleton. by apply Hp, Hin.
    + intros x. set_solver.
    + split; [done|]. intros x. rewrite Hin'. set_solver.
Qed.

Lemma ContainerPools_pools s ann c :
  NoDup (ContainerPools s ann c) /\
  forall pool, pool ∈ ContainerPools s ann c <-> pool ∈ PoolName <$> procs_of ann c.
Proof.
  unfold ContainerPools. rewrite foldl_procs.
  destruct (pools_loop (procs_in c (visit s ann)) [] ∅) as [Hnd Hin];
    [constructor|set_solver|].
  split; [done|]. intros pool. rewrite Hin, procs_visit. set_solver.
Qed.

(** ** Annotations keyed by container name, as [Decode] builds them *)

Definition keyed ann : Prop := map_Forall (fun k cont => Name cont = k) ann.

Lemma procs_of_keyed ann c : keyed ann -> procs_of ann c ≡ₚ from_option Processes [] (ann !! c).
Proof.
  unfold keyed, procs_of, CPUAnnotation in *. intros Hk.
  assert (forall l : list (string * Container),
    Forall (fun x => Name x.2 = x.1) l -> c ∉ l.*1 -> procs_in c l = []) as Hnone.
  { induction 1 as [|[k cont] l Hx _ IH]; [done|]. rewrite fmap_cons, not_elem_of_cons.
    intros [Hne Hnin]. unfold procs_in. rewrite bind_cons. fold (procs_in c l).
    simpl in *. rewrite decide_False by congruence. by rewrite IH. }
  assert (forall m : gmap string Container, keyed m -> Forall (fun x => Name x.2 = x.1) (map_to_list m))
    as Hlist.
  { intros m Hm. apply Forall_forall. intros [k cont] Hin%elem_of_map_to_list. by apply Hm. }
  destruct (ann !! c) as [cont|] eqn:E; simpl.
  - rewrite <- (insert_delete_id ann c cont) by done.
    assert (keyed (delete c ann)) as Hd.
    { intros k cont' [_ Hc']%lookup_delete_Some. by apply Hk. }
    unfold procs_in. rewrite map_to_list_insert by apply lookup_delete_eq.
    rewrite bind_cons. simpl. rewrite decide_True by exact (Hk c cont E).
    fold (procs_in c (map_to_list (delete c ann))). rewrite Hnone; [by rewrite app_nil_r|auto|].
    intros ([k cont'] & -> & Hin)%list_elem_of_fmap.
    apply elem_of_map_to_list in Hin. simpl in Hin. by rewrite lookup_delete_eq in Hin.
  - rewrite Hnone; [done|auto|]. intros ([k cont'] & -> & Hin)%list_elem_of_fmap.
    apply elem_of_map_to_list in Hin. simpl in E. congruence.
Qed.
End sums.

(** ** [Decode] *)

(** The map after the decoded containers are stored: a later container of the same name
    replaces an earlier one. *)
Definition store_all (ann : CPUAnnotation) (containers : list Container) : CPUAnnotation :=
  foldl (fun ann container => <[Name container := container]> ann) ann containers.

Definition valid_process (p : Process) : Prop := ProcName p <> "" /\ CPUs p <> 0.

Definition valid_container (c : Container) : Prop :=
  Name c <> "" /\ Processes c <> [] /\ Forall valid_process (Processes c).

(** The mandatory field whose absence the error reports. *)
Definition offends (c : Container) (e : annotation_error) : Prop :=
  match e with
  | JsonError _ => False
  | NoContainerName => Name c = ""
  | NoProcesses => Processes c = []
  | NoProcessName => exists p, p ∈ Processes c /\ ProcName p = ""
  | NoCpus => exists p, p ∈ Processes c /\ CPUs p = 0
  end.

Lemma offends_invalid c e : offends c e -> ~ valid_container c.
Proof.
  intros He (Hn & Hp & Hf). rewrite Forall_forall in Hf.
  destruct e; simpl in *; [done..| |]; destruct He as (p & Hin & Hv);
    by destruct (Hf p Hin).
Qed.

Section decode.
Context `{RangeOrder}.
Implicit Types (ann : CPUAnnotation) (s : site).

Lemma validate_processes_spec ps :
  match validate_processes ps with
  | inl _ => Forall valid_process ps
  | inr r => exists p e, p ∈ ps /\ r = Some e /\
      ((e = NoProcessName /\ ProcName p = "") \/ (e = NoCpus /\ CPUs p = 0))
  end.
Proof.
  unfold validate_processes. apply (for_range_inv _ (fun l1 _ => Forall valid_process l1)); simpl.
  - done.
  - intros l1 p l2 _ -> Hl1. case_decide as Hn; [|destruct (CPUs p =? 0) eqn:Hc; to_prop].
    + exists p, NoProcessName. set_solver.
    + exists p, NoCpus. set_solver.
    + apply Forall_app_2; [done|]. by constructor; [split|].
  - done.
Qed.

Lemma validate_containers_spec s ann :
  match validate_containers s ann with
  | inl _ => map_Forall (fun _ => valid_container) ann
  | inr r => exists k c e, ann !! k = Some c /\ r = Some e /\ offends c e
  end.
Proof.
  unfold validate_containers.
  apply (for_range_inv _ (fun l1 _ => Forall (fun x : string * Container => valid_container x.2) l1));
    simpl.
  - done.
  - intros l1 [k c] l2 _ Hl Hl1.
    assert (ann !! k = Some c) as Hk.
    { apply (elem_of_visit s). rewrite Hl. set_solver. }
    case_decide as Hn; [exists k, c, NoContainerName; done|].
    destruct (Processes c) as [|p ps] eqn:Hps; [exists k, c, NoProcesses; done|].
    rewrite <- Hps. pose proof (validate_processes_spec (Processes c)) as Hv.
    destruct (validate_processes _) as [[]|r].
    + apply Forall_app_2; [done|]. constructor; [|done]. split; [done|]. split; [|done].
      simpl. congruence.
    + destruct Hv as (q & e & Hq & -> & [[-> He]|[-> He]]); exists k, c; eexists;
        (split; [done|split; [done|]]); by exists q.
  - intros _ Hall k c Hk. rewrite Forall_forall in Hall. apply (Hall (k, c)).
    by apply elem_of_visit.
Qed.

Lemma store_all_keyed ann containers : keyed ann -> keyed (store_all ann containers).
Proof.
  unfold store_all. revert ann. induction containers as [|c containers IH]; intros ann Hk; simpl;
    [done|]. apply IH. intros k c' Hc'. apply lookup_insert_Some in Hc' as [[<- <-]|[_ Hc']];
    [done|by apply Hk].
Qed.
End decode.

(** * Properties *)

Section properties.
Context `{RangeOrder}.

(** The three sums over an annotation do not depend on the order in which the map is
    visited: each is the sum of the CPUs of the selected processes of the container,
    wrapped to the range of [int]. *)
Theorem annotation_sums s (ann : CPUAnnotation) c pool :
  ContainerSharedCPUTime s ann c =
    wrap (cpu_sum (fun p => HasPrefix (PoolName p) "shared") (procs_of ann c)) /\
  ContainerExclusiveCPU s ann c =
    wrap (cpu_sum (fun p => HasPrefix (PoolName p) "exclusive") (procs_of ann c)) /\
  ContainerTotalCPURequest s ann pool c =
    wrap (cpu_sum (fun p => bool_decide (PoolName p = pool)) (procs_of ann c)).
Proof.
  auto using ContainerSharedCPUTime_sum, ContainerExclusiveCPU_sum, ContainerTotalCPURequest_sum.
Qed.

(** [ContainerPools] lists every pool the container's processes name, and lists no
    pool twice. *)
Theorem ContainerPools_exact s (ann : CPUAnnotation) c :
  NoDup (ContainerPools s ann c) /\
  forall pool, pool ∈ ContainerPools s ann c <->
    exists p, p ∈ procs_of ann c /\ PoolName p = pool.
Proof.
  destruct (ContainerPools_pools s ann c) as [Hnd Hin]. split; [done|].
  intros pool. rewrite Hin, list_elem_of_fmap. naive_solver.
Qed.

(** C17: [Decode] stores the decoded containers under their names (the last of a name
    wins) and reports no error exactly when the JSON decoder reported none and every
    container of the map has a name, at least one process, and only processes with a name
    and a CPU count other than 0 (a negative count passes); an error names a field that
    an entry of the map really lacks. *)
Theorem Decode_spec unmarshal s (ann : CPUAnnotation) annotation :
  let out := Decode unmarshal s ann annotation in
  out.1 = store_all ann (unmarshal annotation).1 /\
  (out.2 = None <->
    (unmarshal annotation).2 = None /\ map_Forall (fun _ => valid_container) out.1) /\
  (forall e, out.2 = Some e ->
    match (unmarshal annotation).2 with
    | Some j => e = JsonError j
    | None => exists k c, out.1 !! k = Some c /\ offends c e
    end) /\
  (keyed ann -> keyed out.1).
Proof.
  unfold Decode. destruct (unmarshal annotation) as [containers [j|]]; simpl;
    fold (store_all ann containers).
  - split; [done|]. split; [naive_solver|]. split; [naive_solver|]. apply store_all_keyed.
  - pose proof (validate_containers_spec s (store_all ann containers)) as Hv.
    split; [done|]. destruct (validate_containers _ _) as [[]|r]; simpl.
    + split; [done|]. split; [done|]. apply store_all_keyed.
    + destruct Hv as (k & c & e & Hk & -> & He). split_and!.
      * split; [done|]. intros [_ Hall]. exfalso. by eapply offends_invalid, (Hall k c).
      * intros e' [= <-]. eauto.
      * apply store_all_keyed.
Qed.
End properties.
