(* ===== verification/WebhookRequests.v ===== *)
(** * The webhook's view of a pod: [cmd/webhook/webhook.go], lines 29-134

    The CPU requests of the containers, collected from their resource limits, and the
    validation of the pod annotation against them. *)

From S2P Require Import Prelude GoStrings K8s Annotation.
Local Open Scope Z_scope.

Record containerPoolRequests := mkRequests {
  sharedCPURequests : Z;
  exclusiveCPURequests : Z;
  cloudphoneCPURequests : Z;
  pools : gmap string Z
}.

(** The zero value: what indexing the map with an unknown container gives. *)
Definition zero_requests : containerPoolRequests := mkRequests 0 0 0 ∅.

Definition poolRequestMap : Type := gmap string containerPoolRequests.

Definition requests_of (poolRequests : poolRequestMap) (name : string) : containerPoolRequests :=
  from_option id zero_requests (poolRequests !! name).

Inductive request_error :=
  | CannotConvert (key value : string) (e : num_error).

(** "convert back from human readable format" *)
Definition limit_value (value : string) : Z * option num_error :=
  Atoi (Replace1 value "k" "000").

Definition pool_of_key (key : string) : string := TrimPrefix key (resourceBaseName +:+ "/").

(** The effect of one limit of value [val] on the requests of its container. *)
Definition add_request (key : string) (val : Z) (c : containerPoolRequests) : containerPoolRequests :=
  {| sharedCPURequests :=
       if HasPrefix key (resourceBaseName +:+ "/shared")
       then (sharedCPURequests c +w val)%go else sharedCPURequests c;
     exclusiveCPURequests :=
       if HasPrefix key (resourceBaseName +:+ "/exclusive")
       then (exclusiveCPURequests c +w val)%go else exclusiveCPURequests c;
     cloudphoneCPURequests :=
       if HasPrefix key (resourceBaseName +:+ "/cloudphone")
       then (cloudphoneCPURequests c +w val)%go else cloudphoneCPURequests c;
     pools := <[pool_of_key key := val]> (pools c) |}.

Inductive validate_error :=
  | NoPoolRequests (cName : string)
  | SharedMismatch (requested annotated : Z)
  | PoolNotFound (cName pool : string)
  | ExclusiveMismatch (requested annotated : Z).

Section requests.
Context `{RangeOrder}.
Implicit Types (s : site).

(** The loop over the limits of one container. *)
Definition limits_loop s (name : string) (limits : gmap string string)
    (poolRequests : poolRequestMap) (cPoolRequests : containerPoolRequests)
    : (poolRequestMap * containerPoolRequests) + res request_error poolRequestMap :=
  for_range (fun _ '(key, value) '(poolRequests, cPoolRequests) =>
    if HasPrefix key resourceBaseName then
      match limit_value value with
      | (_, Some e) => Return (Err (CannotConvert key value e))
      | (val, None) =>
          let cPoolRequests := add_request key val cPoolRequests in
          Next (<[name := cPoolRequests]> poolRequests, cPoolRequests)
      end
    else Next (poolRequests, cPoolRequests))
    (visit s limits) (poolRequests, cPoolRequests).

Definition getCPUPoolRequests s (pod : v1_Pod) : res request_error poolRequestMap :=
  after (for_range (fun i c poolRequests =>
           match limits_loop (i :: s) (ctr_Name c) (ctr_Limits c) poolRequests
                   (requests_of poolRequests (ctr_Name c)) with
           | inl (poolRequests, _) => Next poolRequests
           | inr r => Return r
           end) (pod_Containers pod) ∅)
    (fun poolRequests => Ok poolRequests).

(** The checks for one pool of one container of the annotation. *)
Definition validate_pool s (poolRequests : poolRequestMap) (cpuAnnotation : CPUAnnotation)
    (cName pool : string) : option validate_error :=
  match poolRequests !! cName with
  | None => Some (NoPoolRequests cName)
  | Some cPoolRequests =>
      let shared := ContainerSharedCPUTime (0%nat :: s) cpuAnnotation cName in
      if negb (shared =? sharedCPURequests cPoolRequests) then
        Some (SharedMismatch (sharedCPURequests cPoolRequests) shared)
      else
        match pools cPoolRequests !! pool with
        | None => Some (PoolNotFound cName pool)
        | Some value =>
            let total := ContainerTotalCPURequest (1%nat :: s) cpuAnnotation pool cName in
            if total >? (2 *w value)%go then Some (ExclusiveMismatch value total) else None
        end
  end.

Definition validateAnnotation s (poolRequests : poolRequestMap) (cpuAnnotation : CPUAnnotation)
    : option validate_error :=
  first_error (fun i cName =>
    first_error (fun j pool =>
      validate_pool (j :: i :: 2%nat :: s) poolRequests cpuAnnotation cName pool)
      (ContainerPools (i :: 1%nat :: s) cpuAnnotation cName))
    (Containers (0%nat :: s) cpuAnnotation).
End requests.

(** ** Collecting the requests of a container *)

(** The limits whose key starts with a string, and the sum of their values. *)
Definition limit_sum (prefix : string) (l : list (string * string)) : Z :=
  zsum ((fun x => if HasPrefix x.1 prefix then (limit_value x.2).1 else 0) <$> l).

#[export] Instance limit_sum_perm prefix : Proper ((≡ₚ) ==> (=)) (limit_sum prefix).
Proof. intros l l' Hl. unfold limit_sum. by rewrite Hl. Qed.

Lemma limit_sum_snoc prefix l x :
  limit_sum prefix (l ++ [x]) =
    limit_sum prefix l + (if HasPrefix x.1 prefix then (limit_value x.2).1 else 0).
Proof. unfold limit_sum. rewrite fmap_app, zsum_app. simpl. lia. Qed.

(** A limit the webhook manages, whose value converts. *)
Definition managed (key : string) : bool := HasPrefix key resourceBaseName.

Definition limits_convert (limits : gmap string string) : Prop :=
  map_Forall (fun key value => managed key = true -> (limit_value value).2 = None) limits.

(** The requests [r] account for exactly the limits [l] visited so far. *)
Definition accounts (l : list (string * string)) (r : containerPoolRequests) : Prop :=
  sharedCPURequests r = wrap (limit_sum (resourceBaseName +:+ "/shared") l) /\
  exclusiveCPURequests r = wrap (limit_sum (resourceBaseName +:+ "/exclusive") l) /\
  cloudphoneCPURequests r = wrap (limit_sum (resourceBaseName +:+ "/cloudphone") l) /\
  (forall pool, is_Some (pools r !! pool) <->
     exists x, x ∈ l /\ managed x.1 = true /\ pool_of_key x.1 = pool) /\
  (forall pool val, pools r !! pool = Some val ->
     exists x, x ∈ l /\ managed x.1 = true /\ pool_of_key x.1 = pool /\ (limit_value x.2).1 = val).

Lemma managed_prefix key rest :
  managed key = false -> HasPrefix key (resourceBaseName +:+ rest) = false.
Proof.
  unfold managed. intros Hk. apply not_true_is_false. intros Hp.
  rewrite (HasPrefix_trans key (resourceBaseName +:+ rest)) in Hk; [done|done|].
  apply HasPrefix_app.
Qed.

Lemma accounts_nil : accounts [] zero_requests.
Proof.
  split_and!; [done..| |]; simpl.
  - intros pool. rewrite lookup_empty. split; [by intros []|].
    by intros (x & Hx%elem_of_nil & _).
  - intros pool val. by rewrite lookup_empty.
Qed.

Lemma accounts_unmanaged l x r :
  managed x.1 = false -> accounts l r -> accounts (l ++ [x]) r.
Proof.
  intros Hm (Hs & He & Hc & Hp & Hv). unfold accounts.
  rewrite !limit_sum_snoc, !managed_prefix, !Z.add_0_r by done.
  split_and!; [done..| |].
  - intros pool. rewrite Hp. split; intros (y & Hy); exists y; [set_solver|].
    rewrite elem_of_app, list_elem_of_singleton in Hy. naive_solver congruence.
  - intros pool val Hpv. destruct (Hv pool val Hpv) as (y & Hy). exists y. set_solver.
Qed.

Lemma wrap_count (b : bool) x v : (if b then wrap (wrap x + v) else wrap x) = wrap (x + if b then v else 0).
Proof. destruct b; [apply wrap_add_l|]. f_equal. lia. Qed.

Lemma accounts_managed l key value r :
  managed key = true -> accounts l r ->
  accounts (l ++ [(key, value)]) (add_request key (limit_value value).1 r).
Proof.
  intros Hm (Hs & He & Hc & Hp & Hv). unfold accounts.
  rewrite !limit_sum_snoc. cbn [add_request sharedCPURequests exclusiveCPURequests
    cloudphoneCPURequests pools fst snd].
  rewrite Hs, He, Hc, !wrap_count. split_and!; [done..| |].
  - intros pool. rewrite lookup_insert. case_decide as Hk.
    + split; [|by eauto]. intros _. exists (key, value). set_solver.
    + rewrite Hp. split; intros (y & Hy); exists y; [set_solver|].
      rewrite elem_of_app, list_elem_of_singleton in Hy. naive_solver.
  - intros pool val [[<- <-]|[Hne Hpv]]%lookup_insert_Some.
    + exists (key, value). set_solver.
    + destruct (Hv pool val Hpv) as (y & Hy). exists y. set_solver.
Qed.

#[export] Instance accounts_perm : Proper ((≡ₚ) ==> (=) ==> iff) accounts.
Proof.
  assert (forall l l' r, l ≡ₚ l' -> accounts l r -> accounts l' r) as Hone.
  { intros l l' r Hl (Hs & He & Hc & Hp & Hv). unfold accounts.
    rewrite <- Hl. split_and!; [done..| |].
    - intros pool. rewrite Hp. by setoid_rewrite Hl.
    - intros pool val Hpv. setoid_rewrite <- Hl. by apply Hv. }
  intros l l' Hl r ? <-. split; apply Hone; [done|by symmetry].
Qed.

Definition has_managed (l : list (string * string)) : bool := existsb (fun x => managed x.1) l.

Lemma has_managed_snoc l x : has_managed (l ++ [x]) = has_managed l || managed x.1.
Proof. unfold has_managed. rewrite existsb_app. simpl. by rewrite orb_false_r. Qed.

Lemma has_managed_true l : has_managed l = true <-> exists x, x ∈ l /\ managed x.1 = true.
Proof. unfold has_managed. rewrite existsb_exists. by setoid_rewrite list_elem_of_In. Qed.

#[export] Instance has_managed_perm : Proper ((≡ₚ) ==> (=)) has_managed.
Proof.
  intros l l' Hl. apply eq_iff_eq_true. rewrite !has_managed_true. by setoid_rewrite Hl.
Qed.

(** The limit an error names. *)
Definition bad_limit (limits : gmap string string) (e : request_error) : Prop :=
  match e with
  | CannotConvert key value err =>
      limits !! key = Some value /\ managed key = true /\ (limit_value value).2 = Some err
  end.

(** What the map holds for a container with the given limits. *)
Definition collected (limits : gmap string string) (o : option containerPoolRequests) : Prop :=
  if has_managed (map_to_list limits)
  then exists r, o = Some r /\ accounts (map_to_list limits) r
  else o = None.

Section collecting.
Context `{RangeOrder}.
Implicit Types (s : site) (m : gmap string containerPoolRequests).

Lemma limits_loop_spec s name limits m :
  match limits_loop s name limits m zero_requests with
  | inl (m', r) =>
      limits_convert limits /\ accounts (visit s limits) r /\
      m' = if has_managed (visit s limits) then <[name := r]> m else m
  | inr (Err e) => bad_limit limits e
  | inr _ => False
  end.
Proof.
  unfold limits_loop.
  apply (for_range_inv _ (fun l1 '(m', r) =>
    Forall (fun x => managed x.1 = true -> (limit_value x.2).2 = None) l1 /\
    accounts l1 r /\ m' = if has_managed l1 then <[name := r]> m else m)); simpl.
  - split; [done|]. split; [apply accounts_nil|done].
  - intros l1 [key value] l2 [m' r] Hl (Hconv & Hacc & Hm'). fold (managed key).
    destruct (managed key) eqn:Hk.
    + destruct (limit_value value) as [val [e|]] eqn:Hv.
      * split_and!; [|done|by rewrite Hv].
        apply (elem_of_visit s). rewrite Hl. set_solver.
      * split; [|split].
        -- apply Forall_app_2; [done|]. repeat constructor. simpl. by rewrite Hv.
        -- pose proof (accounts_managed l1 key value r Hk Hacc) as Ha. by rewrite Hv in Ha.
        -- rewrite has_managed_snoc. simpl. rewrite Hk, orb_true_r, Hm'.
           destruct (has_managed l1); [apply insert_insert_eq|done].
    + split; [|split].
      * apply Forall_app_2; [done|]. repeat constructor. simpl. by rewrite Hk.
      * by apply accounts_unmanaged.
      * rewrite has_managed_snoc. simpl. by rewrite Hk, orb_false_r.
  - intros [m' r] (Hconv & Hrest). split; [|done].
    intros key value Hkv. rewrite Forall_forall in Hconv. apply (Hconv (key, value)).
    by apply elem_of_visit.
Qed.

Lemma getCPUPoolRequests_collects s pod :
  NoDup (ctr_Name <$> pod_Containers pod) ->
  match getCPUPoolRequests s pod with
  | Ok m =>
      Forall (fun c => limits_convert (ctr_Limits c) /\
                       collected (ctr_Limits c) (m !! ctr_Name c)) (pod_Containers pod) /\
      (forall n, is_Some (m !! n) -> n ∈ ctr_Name <$> pod_Containers pod)
  | Err e => exists c, c ∈ pod_Containers pod /\ bad_limit (ctr_Limits c) e
  | Panic _ => False
  end.
Proof.
  intros Hnd. unfold getCPUPoolRequests, poolRequestMap in *.
  apply (for_range_inv _ (fun l1 m =>
    Forall (fun c => limits_convert (ctr_Limits c) /\
                     collected (ctr_Limits c) (m !! ctr_Name c)) l1 /\
    (forall n, is_Some (m !! n) -> n ∈ ctr_Name <$> l1))); simpl.
  - split; [done|]. intros n. rewrite lookup_empty. by intros [].
  - intros l1 c l2 m Hl (Hall & Hdom).
    rewrite Hl, fmap_app, fmap_cons in Hnd. apply NoDup_app in Hnd as (_ & Hnew & _).
    assert (ctr_Name c ∉ ctr_Name <$> l1) as Hfresh.
    { intros Hin. apply (Hnew _ Hin). left. }
    assert (m !! ctr_Name c = None) as Hnone.
    { apply eq_None_not_Some. auto. }
    unfold requests_of, poolRequestMap. rewrite Hnone. simpl.
    pose proof (limits_loop_spec (length l1 :: s) (ctr_Name c) (ctr_Limits c) m) as Hloop.
    destruct (limits_loop _ _ _ _ _) as [[m' r]|[| |]]; [|done| |done].
    2: { exists c. rewrite Hl. set_solver. }
    unfold poolRequestMap in *. destruct Hloop as (Hconv & Hacc & Hm').
    rewrite visit_perm in Hacc, Hm'. split.
    + apply Forall_app_2.
      * rewrite Forall_forall in Hall |- *. intros c' Hc'. split; [by apply Hall|].
        assert (ctr_Name c <> ctr_Name c').
        { intros Heq. apply Hfresh. rewrite Heq. by apply list_elem_of_fmap_2. }
        assert (m' !! ctr_Name c' = m !! ctr_Name c') as ->; [|by apply Hall].
        rewrite Hm'. destruct (has_managed _); [by rewrite lookup_insert_ne|done].
      * repeat constructor; [done|]. unfold collected.
        rewrite Hm'. destruct (has_managed _); [|done].
        exists r. by rewrite lookup_insert_eq.
    + intros n Hn. rewrite fmap_app, elem_of_app. rewrite Hm' in Hn.
      destruct (has_managed _); [|by left; apply Hdom].
      destruct Hn as [r' [[<- _]|[_ Hr]]%lookup_insert_Some]; [right; simpl; left|left; eauto].
  - done.
Qed.
End collecting.

(** ** Validation *)

(** The requests of the pod cover one pool of one container of the annotation. *)
Definition pool_covered (poolRequests : poolRequestMap) (ann : CPUAnnotation)
    (cName pool : string) : Prop :=
  exists r value,
    poolRequests !! cName = Some r /\
    sharedCPURequests r =
      wrap (cpu_sum (fun p => HasPrefix (PoolName p) "shared") (procs_of ann cName)) /\
    pools r !! pool = Some value /\
    wrap (cpu_sum (fun p => bool_decide (PoolName p = pool)) (procs_of ann cName))
      <= wrap (2 * value).

Lemma validate_pool_None `{RangeOrder} s poolRequests ann cName pool :
  validate_pool s poolRequests ann cName pool = None <-> pool_covered poolRequests ann cName pool.
Proof.
  unfold validate_pool, pool_covered.
  rewrite ContainerSharedCPUTime_sum, ContainerTotalCPURequest_sum.
  destruct (poolRequests !! cName) as [r|].
  2: { split; [done|]. by intros (r & value & [=] & _). }
  destruct (negb _) eqn:Hs; to_prop.
  { split; [done|]. intros (r' & value & [= <-] & Hr & _). by rewrite Hr in Hs. }
  destruct (pools r !! pool) as [value|] eqn:Hv.
  2: { split; [done|]. intros (r' & value & [= <-] & _ & Hv' & _). congruence. }
  destruct (_ >? _) eqn:Ht; to_prop.
  - split; [done|]. intros (r' & v & [= <-] & _ & Hv' & Hle). simplify_eq. lia.
  - split; [|done]. intros _. by exists r, value.
Qed.

Lemma elem_of_Containers `{RangeOrder} s (ann : CPUAnnotation) n :
  n ∈ Containers s ann <-> exists k cont, ann !! k = Some cont /\ Name cont = n.
Proof.
  unfold Containers. rewrite list_elem_of_fmap. split.
  - intros ([k cont] & -> & Hin%elem_of_visit). eauto.
  - intros (k & cont & Hk & <-). exists (k, cont). split; [done|]. by apply elem_of_visit.
Qed.

Lemma elem_of_procs_of (ann : CPUAnnotation) c p :
  p ∈ procs_of ann c <-> exists k cont, ann !! k = Some cont /\ Name cont = c /\ p ∈ Processes cont.
Proof.
  unfold procs_of, procs_in. rewrite list_elem_of_bind. split.
  - intros ([k cont] & Hp & Hin%elem_of_map_to_list). simpl in Hp.
    case_decide; [eauto 10|by apply elem_of_nil in Hp].
  - intros (k & cont & Hk & Hn & Hp). exists (k, cont). simpl. rewrite decide_True by done.
    split; [done|]. by apply elem_of_map_to_list.
Qed.

Lemma validateAnnotation_covered `{RangeOrder} s poolRequests ann :
  validateAnnotation s poolRequests ann = None <->
  forall cName p, p ∈ procs_of ann cName -> pool_covered poolRequests ann cName (PoolName p).
Proof.
  unfold validateAnnotation. rewrite first_error_None.
  setoid_rewrite first_error_None. setoid_rewrite validate_pool_None. split.
  - intros Hall cName p Hp.
    destruct (proj1 (elem_of_procs_of ann cName p) Hp) as (k & cont & Hk & Hn & _).
    assert (cName ∈ Containers (0%nat :: s) ann) as [i Hi]%list_elem_of_lookup
      by by apply elem_of_Containers; eauto.
    assert (PoolName p ∈ ContainerPools (i :: 1%nat :: s) ann cName) as [j Hj]%list_elem_of_lookup
      by by apply ContainerPools_pools, list_elem_of_fmap_2.
    by eapply Hall.
  - intros Hall i cName _ j pool Hj%list_elem_of_lookup_2.
    apply ContainerPools_pools, list_elem_of_fmap in Hj as (p & -> & Hp). by apply Hall.
Qed.

(** ** Exclusive CPUs of an accepted annotation *)

Definition is_exclusive (p : Process) : bool := HasPrefix (PoolName p) "exclusive".

(** Splitting a sum over processes by pool. *)
Lemma cpu_sum_by_pool (sel : string -> bool) ps l :
  NoDup l -> (forall p, p ∈ ps -> sel (PoolName p) = true -> PoolName p ∈ l) ->
  (forall pool, pool ∈ l -> sel pool = true) ->
  cpu_sum (fun p => sel (PoolName p)) ps =
    zsum ((fun pool => cpu_sum (fun p => bool_decide (PoolName p = pool)) ps) <$> l).
Proof.
  intros Hnd Hin Hl. induction ps as [|p ps IH].
  - clear. induction l as [|pool l IH]; [done|]. by rewrite fmap_cons, zsum_cons, <- IH.
  - rewrite cpu_sum_cons, IH by set_solver.
    assert (forall k, NoDup k -> zsum ((fun pool => cpu_sum (fun p => bool_decide (PoolName p = pool))
        (p :: ps)) <$> k)
      = (if decide (PoolName p ∈ k) then CPUs p else 0) +
        zsum ((fun pool => cpu_sum (fun p => bool_decide (PoolName p = pool)) ps) <$> k)) as Hsplit.
    { clear. induction 1 as [|pool k Hk _ IH]; [done|].
      rewrite !fmap_cons, !zsum_cons, IH, cpu_sum_cons. repeat case_decide; case_bool_decide;
        set_solver by lia. }
    rewrite Hsplit by done. f_equal. destruct (sel (PoolName p)) eqn:Hsel.
    + rewrite decide_True; [done|]. apply Hin; [left|done].
    + rewrite decide_False; [done|]. intros Hp%Hl. congruence.
Qed.

(** A managed resource key of the documented form [bonc.k8s.io/<pool>]. *)
Definition canonical (key : string) : Prop :=
  key = (resourceBaseName +:+ "/") +:+ pool_of_key key.

Section bound.
Context (limits : gmap string string).
Hypothesis limits_small : map_Forall (fun key value =>
  managed key = true -> canonical key /\ 0 <= 2 * (limit_value value).1 <= max_int) limits.

Let key_of (pool : string) : string := (resourceBaseName +:+ "/") +:+ pool.
Let value_of (pool : string) : Z :=
  from_option (fun v => (limit_value v).1) 0 (limits !! key_of pool).

Lemma requested_value r pool value :
  accounts (map_to_list limits) r -> pools r !! pool = Some value ->
  is_Some (limits !! key_of pool) /\ value = value_of pool /\ 0 <= 2 * value <= max_int.
Proof.
  intros (_ & _ & _ & _ & Hv) Hpool.
  destruct (Hv pool value Hpool) as ([key v] & Hin%elem_of_map_to_list & Hm & Hk & Hval).
  simpl in *. destruct (limits_small key v Hin Hm) as [Hcan Hrange].
  unfold canonical in Hcan. rewrite Hk in Hcan. fold (key_of pool) in Hcan. subst key.
  unfold value_of. rewrite Hin. simpl. subst value. eauto.
Qed.

Lemma exclusive_values_le l :
  NoDup l -> (forall pool, pool ∈ l -> HasPrefix pool "exclusive" = true
                           /\ is_Some (limits !! key_of pool)) ->
  zsum (value_of <$> l) <= limit_sum (resourceBaseName +:+ "/exclusive") (map_to_list limits).
Proof.
  intros Hnd Hl. set (entry pool := (key_of pool, default "" (limits !! key_of pool))).
  set (f (x : string * string) :=
    if HasPrefix x.1 (resourceBaseName +:+ "/exclusive") then (limit_value x.2).1 else 0).
  assert (zsum (value_of <$> l) = zsum (f <$> (entry <$> l))) as ->.
  { rewrite <- list_fmap_compose. f_equal. apply list_fmap_ext. intros i pool Hi.
    apply list_elem_of_lookup_2, Hl in Hi as [Hex [v Hv]].
    unfold value_of, f, entry. simpl. rewrite Hv. simpl.
    change (resourceBaseName +:+ "/exclusive") with ((resourceBaseName +:+ "/") +:+ "exclusive").
    unfold key_of. by rewrite HasPrefix_app_l, Hex. }
  apply zsum_submseteq.
  - intros [key v] Hin%elem_of_map_to_list. unfold f. simpl.
    destruct (HasPrefix key _) eqn:E; [|done].
    assert (managed key = true) as Hm by (eapply HasPrefix_trans; [exact E|apply HasPrefix_app]).
    destruct (limits_small key v Hin Hm) as [_ ?]. lia.
  - apply NoDup_submseteq.
    + apply NoDup_fmap_2_strong; [|done]. intros p1 p2 _ _ [= Hk _]. by eapply append_inj_l.
    + intros x (pool & -> & Hp)%list_elem_of_fmap. apply Hl in Hp as [_ [v Hv]].
      apply elem_of_map_to_list. by rewrite Hv.
Qed.
End bound.

Lemma cpu_sum_le sel sel' ps :
  (forall p, p ∈ ps -> 0 <= CPUs p) -> (forall p, sel p = true -> sel' p = true) ->
  0 <= cpu_sum sel ps <= cpu_sum sel' ps.
Proof.
  intros Hpos Hsel. induction ps as [|p ps IH]; [done|]. rewrite !cpu_sum_cons.
  pose proof (Hpos p ltac:(left)). pose proof (IH ltac:(intros; apply Hpos; by right)).
  specialize (Hsel p). destruct (sel p); [rewrite Hsel by done; lia|]. destruct (sel' p); lia.
Qed.

(** * Properties *)

Section properties.
Context `{RangeOrder}.

(** C15: [getCPUPoolRequests] either fails on a managed limit that does not convert, or
    returns, for each container with a managed limit, the wrapped sums of the limits by
    pool type and the value of each pool, and nothing for the other containers. *)
Theorem getCPUPoolRequests_spec s pod :
  NoDup (ctr_Name <$> pod_Containers pod) ->
  match getCPUPoolRequests s pod with
  | Ok m =>
      Forall (fun c => limits_convert (ctr_Limits c) /\
                       collected (ctr_Limits c) (m !! ctr_Name c)) (pod_Containers pod) /\
      (forall n, is_Some (m !! n) -> n ∈ ctr_Name <$> pod_Containers pod)
  | Err e => exists c, c ∈ pod_Containers pod /\ bad_limit (ctr_Limits c) e
  | Panic _ => False
  end.
Proof. apply getCPUPoolRequests_collects. Qed.


(** The processes of a container of an accepted annotation ask together for at most
    twice the exclusive CPUs the container requests in its limits. *)
Theorem accepted_exclusive_bound s s' pod m ann c :
  NoDup (ctr_Name <$> pod_Containers pod) -> c ∈ pod_Containers pod ->
  getCPUPoolRequests s pod = Ok m -> validateAnnotation s' m ann = None ->
  map_Forall (fun key value => managed key = true ->
    canonical key /\ 0 <= 2 * (limit_value value).1 <= max_int) (ctr_Limits c) ->
  (forall p, p ∈ procs_of ann (ctr_Name c) -> 0 <= CPUs p) ->
  cpu_sum (fun _ => true) (procs_of ann (ctr_Name c)) <= max_int ->
  cpu_sum is_exclusive (procs_of ann (ctr_Name c)) <=
    2 * limit_sum (resourceBaseName +:+ "/exclusive") (map_to_list (ctr_Limits c)).
Proof.
  intros Hnd Hc Hreq Hval Hsmall Hpos Hmax.
  set (ps := procs_of ann (ctr_Name c)) in *.
  pose proof (getCPUPoolRequests_collects s pod Hnd) as Hcoll. rewrite Hreq in Hcoll.
  destruct Hcoll as [Hall _]. rewrite Forall_forall in Hall. destruct (Hall c Hc) as [_ Hcol].
  rewrite validateAnnotation_covered in Hval.
  set (l := remove_dups (filter (fun pool => HasPrefix pool "exclusive" = true) (PoolName <$> ps))).
  assert (forall pool, pool ∈ l -> HasPrefix pool "exclusive" = true /\
    exists r value, m !! ctr_Name c = Some r /\ pools r !! pool = Some value /\
      wrap (cpu_sum (fun p => bool_decide (PoolName p = pool)) ps) <= wrap (2 * value)) as Hl.
  { intros pool. unfold l. rewrite elem_of_remove_dups, list_elem_of_filter, list_elem_of_fmap.
    intros [Hex (p & -> & Hp)]. split; [done|].
    destruct (Hval _ p Hp) as (r & value & ? & _ & ? & ?). eauto 10. }
  unfold is_exclusive. rewrite (cpu_sum_by_pool (fun pool => HasPrefix pool "exclusive") ps l).
  2: apply NoDup_remove_dups.
  2: { intros p Hp Hex. apply elem_of_remove_dups, list_elem_of_filter.
       split; [done|]. by apply list_elem_of_fmap_2. }
  2: { intros pool Hp. by apply Hl. }
  assert (forall pool, pool ∈ l -> exists r, m !! ctr_Name c = Some r /\
    accounts (map_to_list (ctr_Limits c)) r) as Hacc.
  { intros pool Hp. destruct (Hl pool Hp) as (_ & r & value & Hr & _).
    unfold collected in Hcol. rewrite Hr in Hcol.
    destruct (has_managed _); [|done]. destruct Hcol as (r' & [= <-] & Ha). eauto. }
  etransitivity; [|apply Z.mul_le_mono_nonneg_l; [done|
    apply (exclusive_values_le _ Hsmall l (NoDup_remove_dups _))]].
  - rewrite <- zsum_scale. apply zsum_le_mono. intros pool Hp.
    destruct (Hl pool Hp) as (_ & r & value & Hr & Hv & Hle).
    destruct (Hacc pool Hp) as (r' & Hr' & Ha).
    rewrite Hr in Hr'. injection Hr' as <-.
    destruct (requested_value _ Hsmall r pool value Ha Hv) as (_ & <- & Hrange).
    pose proof (cpu_sum_le (fun p => bool_decide (PoolName p = pool)) (fun _ => true) ps Hpos
      ltac:(done)).
    rewrite !wrap_id in Hle by (unfold is_int, min_int, max_int in *; lia). lia.
  - intros pool Hp. destruct (Hl pool Hp) as (Hex & r & value & Hr & Hv & _). split; [done|].
    destruct (Hacc pool Hp) as (r' & Hr' & Ha).
    rewrite Hr in Hr'. injection Hr' as <-.
    by destruct (requested_value _ Hsmall r pool value Ha Hv).
Qed.
End properties.

(** ** Witnesses *)

Module requests_example.
Definition app : v1_Container :=
  mk_v1_Container "app"
    (list_to_map [("bonc.k8s.io/exclusive_a", "2"); ("bonc.k8s.io/shared_a", "1k")])
    ∅ [] [] ["/bin/app"] [] None.

Definition pod : v1_Pod :=
  mk_v1_Pod "default" "pod" "uid" ∅ false "node" [] [app] [] (mk_PodStatus "" "" [] [] []).

Definition annotation : CPUAnnotation :=
  {["app" := mkContainer "app"
      [mkProcess "/bin/a" [] 1 "exclusive_a"; mkProcess "/bin/b" [] 1 "exclusive_a";
       mkProcess "/bin/c" [] 1000 "shared_a"]]}.
End requests_example.

Section witnesses.
#[local] Existing Instance range_forward.
Import requests_example.

Definition app_requests : poolRequestMap :=
  match getCPUPoolRequests [] pod with Ok m => m | _ => ∅ end.

Lemma pod_names : NoDup (ctr_Name <$> pod_Containers pod).
Proof. apply NoDup_singleton. Qed.

Lemma app_requests_Ok : getCPUPoolRequests [] pod = Ok app_requests.
Proof. vm_cast_no_check (@eq_refl (res request_error poolRequestMap) (Ok app_requests)). Qed.

Lemma getCPUPoolRequests_spec_witness :
  exists r, app_requests !! "app" = Some r /\ accounts (map_to_list (ctr_Limits app)) r.
Proof.
  pose proof (getCPUPoolRequests_spec [] pod pod_names) as Hspec.
  rewrite app_requests_Ok in Hspec. destruct Hspec as [Hall _].
  apply Forall_cons in Hall as [[_ Hcol] _]. exact Hcol.
Defined.

Lemma accepted_exclusive_bound_witness :
  cpu_sum is_exclusive (procs_of annotation "app") <=
    2 * limit_sum (resourceBaseName +:+ "/exclusive") (map_to_list (ctr_Limits app)).
Proof.
  apply (accepted_exclusive_bound [] [] pod app_requests annotation app).
  - exact pod_names.
  - left.
  - exact app_requests_Ok.
  - vm_compute. reflexivity.
  - intros key value Hkv. apply elem_of_list_to_map_2 in Hkv.
    rewrite !elem_of_cons, elem_of_nil in Hkv.
    destruct Hkv as [[= -> ->]|[[= -> ->]|[]]]; intros _; vm_compute; repeat split; discriminate.
  - change (ctr_Name app) with "app".
    assert (procs_of annotation "app" = Processes (mkContainer "app"
      [mkProcess "/bin/a" [] 1 "exclusive_a"; mkProcess "/bin/b" [] 1 "exclusive_a";
       mkProcess "/bin/c" [] 1000 "shared_a"])) as -> by (vm_compute; reflexivity).
    intros p Hp. simpl in Hp. rewrite !elem_of_cons, elem_of_nil in Hp.
    destruct Hp as [->|[->|[->|[]]]]; discriminate.
  - vm_compute. discriminate.
Defined.
End witnesses.
