(* ===== verification/Webhook.v ===== *)
(** * The mutating webhook: [cmd/webhook/webhook.go], lines 55-68 and 136-512

    The patches for CPU limits, environment and pinning, [mutatePods] and the HTTP handler
    [serveMutatePod].  The decoders of the review and of the pod, and [json.Marshal], are
    arguments.  Patch values are the raw JSON texts the code concatenates; [json] writes a
    text with [']  for the double quote. *)

From S2P Require Import Prelude GoStrings Cpuset K8s Pools Annotation WebhookRequests.
From Stdlib Require Import Ascii.
Local Open Scope Z_scope.

Definition QuotaAll : string := "all".
Definition QuotaShared : string := "shared".

Definition dquote : ascii := "034".

(** A JSON text, written with single quotes. *)
Fixpoint json (s : string) : string :=
  match s with
  | EmptyString => EmptyString
  | String c s => String (if decide (c = "'"%char) then dquote else c) (json s)
  end.

(** [strings.Join(words, "\",\"")] *)
Definition quoted_words (words : list string) : string := Join words (json "','").

Record patch := mkPatch {
  Op : string;
  Path : string;
  Value : string
}.

Definition container_path (i : nat) : string := "/spec/containers/" +:+ Itoa (Z.of_nat i).

Inductive webhook_error :=
  | DecodeFailed
  | RequestIsNil
  | RequestsFailed (e : request_error)
  | AnnotationFailed (e : annotation_error)
  | ValidationFailed (e : validate_error)
  | AnnotationWithoutPatch
  | MarshalFailed.

Record AdmissionResponse := mkResponse {
  UID : string;
  Allowed : bool;
  Result : option webhook_error;
  Patch : option string
}.

Definition toAdmissionResponse (err : webhook_error) : AdmissionResponse :=
  mkResponse "" false (Some err) None.

Record AdmissionRequest := mkRequest {
  rq_UID : string;
  (** group, version, resource *)
  rq_Resource : string * string * string;
  rq_Raw : string
}.

Section webhook.
Context `{CPUSetLib} `{RangeOrder}.
(** the flags [-cfs-quotas] and [-process-starter-path], the configuration files *)
Context (cfsQuotas processStarterPath : string) (env : PoolEnv).
Implicit Types (s : site) (patchList : list patch).

(** ** CPU limits *)

Definition getMaxSharedPoolLimit s (requests : containerPoolRequests) : Z :=
  match ReadAllPoolConfigs env (0%nat :: s) with
  | Ok poolConfs =>
      let sharedPoolName :=
        foldl (fun name '(poolName, request) =>
          if request =? sharedCPURequests requests then poolName else name)
          "" (visit (1%nat :: s) (pools requests)) in
      foldl (fun maxSharedPoolSize poolConf =>
        match Pools poolConf !! sharedPoolName with
        | Some pool =>
            let size := (cs_Size (CPUset pool) *w 1000)%go in
            if size >? maxSharedPoolSize then size else maxSharedPoolSize
        | None => maxSharedPoolSize
        end) 0 poolConfs
  | _ => sharedCPURequests requests
  end.

Definition patchCPULimit (sharedCPUTime : Z) patchList (i : nat) : list patch :=
  patchList ++
    [mkPatch "replace" (container_path i +:+ "/resources/limits/cpu")
       (json "'" +:+ Itoa sharedCPUTime +:+ json "m'");
     mkPatch "replace" (container_path i +:+ "/resources/requests/cpu") (json "'0m'")].

Definition totalCFSLimit s (requests : containerPoolRequests) : Z :=
  if (exclusiveCPURequests requests >? 0) && bool_decide (cfsQuotas = QuotaAll) then
    if sharedCPURequests requests >? 0 then
      ((1000 *w exclusiveCPURequests requests) +w getMaxSharedPoolLimit s requests)%go
    else ((1000 *w exclusiveCPURequests requests) +w 100)%go
  else if sharedCPURequests requests >? 0 then sharedCPURequests requests
  else if (cloudphoneCPURequests requests >? 0) && bool_decide (cfsQuotas = QuotaAll) then
    ((1000 *w cloudphoneCPURequests requests) +w 100)%go
  else 0.

Definition setRequestLimit s (requests : containerPoolRequests) patchList (contID : nat)
    : list patch :=
  if totalCFSLimit s requests >? 0
  then patchCPULimit (totalCFSLimit s requests) patchList contID
  else patchList.

(** ** Environment *)

Definition poolStr (requests : containerPoolRequests) : string :=
  if (exclusiveCPURequests requests >? 0) && (sharedCPURequests requests >? 0)
  then ExclusivePoolID +:+ "&" +:+ SharedPoolID
  else if exclusiveCPURequests requests >? 0 then ExclusivePoolID
  else if cloudphoneCPURequests requests >? 0 then CloudphonePoolID
  else if sharedCPURequests requests >? 0 then SharedPoolID
  else DefaultPoolID.

Definition patchContainerEnv (poolRequests : poolRequestMap) (envPatched : bool) patchList
    (i : nat) (c : v1_Container) : list patch :=
  if decide ("CPU_POOLS" ∈ ctr_Env c) then patchList
  else
    let item := json "{'name':'CPU_POOLS','value':'" +:+
                poolStr (requests_of poolRequests (ctr_Name c)) +:+ json "' }" in
    let path := container_path i +:+ "/env" in
    patchList ++
      [if envPatched || bool_decide (ctr_Env c <> [])
       then mkPatch "add" (path +:+ "/-") item
       else mkPatch "add" path ("[" +:+ item +:+ "]")].

(** ** Pinning *)

Definition newline_tabs : string :=
  String "010" (String "009" (String "009" (String "009" (String "009" (String "009"
    (String "009" (String "009" ""))))))).

Definition command_args (c : v1_Container) : string :=
  json "[ '" +:+ quoted_words (ctr_Command c) +:+ json "' " +:+
  (if decide (ctr_Args c = []) then "" else json ",'" +:+ quoted_words (ctr_Args c) +:+ json "'")
  +:+ "]".

Definition patchContainerForPinning (cpuAnnotation : CPUAnnotation) patchList (i : nat)
    (c : v1_Container) : list patch :=
  if decide ("podinfo" ∈ ctr_VolumeMounts c) then patchList
  else
    let mounts := container_path i +:+ "/volumeMounts/-" in
    let contNameEnv :=
      json "{'name':'CONTAINER_NAME','value':'" +:+ ctr_Name c +:+ json "' }" in
    let envPath := container_path i +:+ "/env" in
    patchList ++
      [mkPatch "add" mounts (json "{'name':'podinfo','mountPath':'/etc/podinfo','readOnly':true}");
       mkPatch "add" mounts
         (json "{'name':'hostbin','mountPath':'" +:+ processStarterPath +:+ json "','readOnly':true}");
       mkPatch "add" mounts
         (json "{'name':'cpu-" +:+ ctr_Name c +:+ json "','mountPath':'/sys/devices/system/cpu'," +:+
          newline_tabs +:+ json "'readOnly':true,'mountPropagation':'HostToContainer'}");
       (if bool_decide (ctr_Env c <> []) then mkPatch "add" (envPath +:+ "/-") contNameEnv
        else mkPatch "add" envPath ("[" +:+ contNameEnv +:+ "]"));
       mkPatch "add" (container_path i +:+ "/command")
         (json "[ '" +:+ processStarterPath +:+ json "' ]")] ++
      (if bool_decide (ctr_Command c <> []) && negb (ContainerExists cpuAnnotation (ctr_Name c))
       then [mkPatch "add" (container_path i +:+ "/args") (command_args c)]
       else []).

Definition patchVolumesForPinning patchList (pod : v1_Pod) : list patch :=
  patchList ++
    [mkPatch "add" "/spec/volumes/-"
       (json "{'name':'podinfo','downwardAPI': { 'items': [ { 'path' : 'annotations','fieldRef':{ 'fieldPath': 'metadata.annotations'} } ] } }");
     mkPatch "add" "/spec/volumes/-"
       (json "{'name':'hostbin','hostPath':{ 'path':'" +:+ processStarterPath +:+ json "'} }")] ++
    ((fun container =>
       mkPatch "add" "/spec/volumes/-"
         (json "{'name':'cpu-" +:+ ctr_Name container +:+ json "','hostPath':{ 'path':'" +:+
          "/var/lib/kubelet/emulator/cpu/" +:+ pod_Namespace pod +:+ "/" +:+ pod_Name pod +:+ "/" +:+
          ctr_Name container +:+ json "','type': 'DirectoryOrCreate' }}")) <$> pod_Containers pod).

(** ** [mutatePods] *)

(** Whether a container is started through the process starter. *)
Definition pinningPatchNeeded (poolRequests : poolRequestMap) (cpuAnnotation : CPUAnnotation)
    (c : v1_Container) : bool :=
  let requests := requests_of poolRequests (ctr_Name c) in
  let needed := ContainerExists cpuAnnotation (ctr_Name c) in
  let needed :=
    if exclusiveCPURequests requests >? 0
    then if bool_decide (ctr_Command c = []) && negb needed then needed else true
    else needed in
  if cloudphoneCPURequests requests >? 0
  then if bool_decide (ctr_Command c = []) && negb needed then needed else true
  else needed.

(** The body of the loop over the containers: the patches, and whether one was for
    pinning. *)
Definition patch_container s (poolRequests : poolRequestMap) (cpuAnnotation : CPUAnnotation)
    (contID : nat) (contSpec : v1_Container) (st : list patch * bool) : list patch * bool :=
  let '(patchList, pinningPatchAdded) := st in
  let requests := requests_of poolRequests (ctr_Name contSpec) in
  let patchList := setRequestLimit s requests patchList contID in
  let needed := pinningPatchNeeded poolRequests cpuAnnotation contSpec in
  let patchList :=
    if needed then patchContainerForPinning cpuAnnotation patchList contID contSpec
    else patchList in
  let patchList :=
    if (sharedCPURequests requests >? 0) || (exclusiveCPURequests requests >? 0)
       || (cloudphoneCPURequests requests >? 0)
    then patchContainerEnv poolRequests needed patchList contID contSpec
    else patchList in
  (patchList, pinningPatchAdded || needed).

Fixpoint patch_containers s (poolRequests : poolRequestMap) (cpuAnnotation : CPUAnnotation)
    (contID : nat) (containers : list v1_Container) (st : list patch * bool)
    : list patch * bool :=
  match containers with
  | [] => st
  | c :: containers =>
      patch_containers s poolRequests cpuAnnotation (S contID) containers
        (patch_container (contID :: s) poolRequests cpuAnnotation contID c st)
  end.

Definition annotationNameFromConfig : string := resourceBaseName +:+ "/cpus".

(** The part of [mutatePods] before the patches: requests and annotation, or the error
    that denies the pod. *)
Definition read_annotation s (unmarshal : string -> list Container * option string)
    (poolRequests : poolRequestMap) (pod : v1_Pod) : res webhook_error CPUAnnotation :=
  match pod_Annotations pod !! annotationNameFromConfig with
  | None => Ok ∅
  | Some podAnnotation =>
      let '(cpuAnnotation, err) := Decode unmarshal (0%nat :: s) NewCPUAnnotation podAnnotation in
      match err with
      | Some e => Err (AnnotationFailed e)
      | None =>
          match validateAnnotation (1%nat :: s) poolRequests cpuAnnotation with
          | Some e => Err (ValidationFailed e)
          | None => Ok cpuAnnotation
          end
      end
  end.

(** The patches of an accepted pod. *)
Definition pod_patches s (poolRequests : poolRequestMap) (cpuAnnotation : CPUAnnotation)
    (pod : v1_Pod) : res webhook_error (list patch) :=
  let '(patchList, pinningPatchAdded) :=
    patch_containers s poolRequests cpuAnnotation 0 (pod_Containers pod) ([], false) in
  if pinningPatchAdded then
    if existsb (fun v => bool_decide (v = "hostbin") || bool_decide (v = "podinfo")) (pod_Volumes pod)
    then Ok patchList
    else Ok (patchVolumesForPinning patchList pod)
  else match pod_Annotations pod !! annotationNameFromConfig with
       | Some _ => Err AnnotationWithoutPatch
       | None => Ok patchList
       end.

Definition pod_patch_list s (unmarshal : string -> list Container * option string)
    (pod : v1_Pod) : res webhook_error (list patch) :=
  poolRequests ← map_err RequestsFailed (getCPUPoolRequests (0%nat :: s) pod);
  cpuAnnotation ← read_annotation (1%nat :: s) unmarshal poolRequests pod;
  pod_patches (2%nat :: s) poolRequests cpuAnnotation pod.

(** [None] is the nil response for a resource that is not a pod. *)
Definition mutatePods s (decode_pod : string -> option v1_Pod)
    (unmarshal : string -> list Container * option string)
    (marshal : list patch -> option string) (request : AdmissionRequest)
    : res unit (option AdmissionResponse) :=
  if decide (rq_Resource request <> ("", "v1", "pods")) then Ok None
  else match decode_pod (rq_Raw request) with
       | None => Ok (Some (toAdmissionResponse DecodeFailed))
       | Some pod =>
           match pod_patch_list s unmarshal pod with
           | Err e => Ok (Some (toAdmissionResponse e))
           | Ok [] => Ok (Some (mkResponse "" true None None))
           | Ok patchList =>
               match marshal patchList with
               | None => Ok (Some (toAdmissionResponse MarshalFailed))
               | Some bytes => Ok (Some (mkResponse "" true None (Some bytes)))
               end
           | Panic p => Panic p
           end
       end.

(** ** The HTTP handler

    The result is the response written, [None] for a request that is not JSON.  The
    decoder gives the review's request (nil or not) and whether it failed.  The last step
    copies the UID: [responseAdmissionReview.Response.UID = requestedAdmissionReview.Request.UID]. *)
Definition serveMutatePod s (decode_review : string -> option AdmissionRequest * bool)
    (decode_pod : string -> option v1_Pod)
    (unmarshal : string -> list Container * option string)
    (marshal : list patch -> option string) (contentType body : string)
    : res unit (option AdmissionResponse) :=
  if decide (contentType <> "application/json") then Ok None
  else
    let '(request, failed) := decode_review body in
    response ← (if failed : bool then Ok (Some (toAdmissionResponse DecodeFailed))
                else match request with
                     | None => Ok (Some (toAdmissionResponse RequestIsNil))
                     | Some request => mutatePods s decode_pod unmarshal marshal request
                     end);
    match request, response with
    | Some request, Some response =>
        Ok (Some (mkResponse (rq_UID request) (Allowed response) (Result response) (Patch response)))
    | _, _ => Panic NilDereference
    end.
End webhook.

(** ** Lemmas *)

Lemma limits_loop_inr `{RangeOrder} s name limits m c r :
  limits_loop s name limits m c = inr r -> exists e, r = Err e.
Proof.
  unfold limits_loop.
  apply (for_range_inv _ (fun _ _ => True) (fun o => o = inr r -> exists e, r = Err e)); [done| |done].
  intros l1 [key value] l2 [m' c'] _ _. destruct (HasPrefix key resourceBaseName); [|done].
  destruct (limit_value value) as [val [e|]]; [|done]. intros [= <-]. eauto.
Qed.

Lemma getCPUPoolRequests_panic `{RangeOrder} s pod p : getCPUPoolRequests s pod <> Panic p.
Proof.
  unfold getCPUPoolRequests.
  apply (for_range_inv _ (fun _ _ => True) (fun o => after o (fun m => Ok m) <> Panic p)); [done| |done].
  intros l1 c l2 m _ _.
  destruct (limits_loop _ _ _ _ _) as [[m' c']|r] eqn:Hr; [done|].
  by apply limits_loop_inr in Hr as [e ->].
Qed.

Section facts.
Context `{CPUSetLib} `{RangeOrder}.
Context (cfsQuotas processStarterPath : string) (env : PoolEnv).
Implicit Types (s : site) (patchList : list patch).

Lemma pod_patch_list_panic s unmarshal pod p :
  pod_patch_list cfsQuotas processStarterPath env s unmarshal pod <> Panic p.
Proof.
  unfold pod_patch_list.
  pose proof (getCPUPoolRequests_panic (0%nat :: s) pod) as Hnp.
  destruct (getCPUPoolRequests _ pod) as [m|e|p']; simpl; [|done|by destruct (Hnp p')].
  destruct (read_annotation _ _ _ _) as [ann|e|p'] eqn:Hr; simpl; [|done|].
  - unfold pod_patches. destruct (patch_containers _ _ _ _ _ _ _ _ _) as [l []];
      repeat split_match; done.
  - exfalso. revert Hr. unfold read_annotation. destruct (_ !! _); [|done].
    destruct (Decode _ _ _ _) as [a [e|]]; [done|]. by destruct (validateAnnotation _ _ _).
Qed.

(** ** Where the patches point *)

Definition suffixes : list string :=
  ["/resources/limits/cpu"; "/resources/requests/cpu"; "/env"; "/env/-"; "/volumeMounts/-";
   "/command"; "/args"].

(** A patch of one of the first [n] containers. *)
Definition container_patch (n : nat) (p : patch) : Prop :=
  exists i sfx, (i < n)%nat /\ sfx ∈ suffixes /\ Path p = container_path i +:+ sfx.

Lemma container_patch_intro n i op sfx v :
  (i < n)%nat -> sfx ∈ suffixes -> container_patch n (mkPatch op (container_path i +:+ sfx) v).
Proof. intros. by exists i, sfx. Qed.

Lemma env_path_snoc i : (container_path i +:+ "/env") +:+ "/-" = container_path i +:+ "/env/-".
Proof. by rewrite append_assoc. Qed.

Ltac paths :=
  repeat match goal with
  | |- Forall _ (_ ++ _) => apply Forall_app_2; [try done|]
  | |- Forall _ (_ :: _) => constructor
  | |- Forall _ [] => constructor
  | |- Forall _ (if _ then _ else _) => split_match
  | |- container_patch _ (if _ then _ else _) => split_match
  end;
  rewrite ?env_path_snoc; try (apply container_patch_intro; [done|]; unfold suffixes; set_solver).

Lemma setRequestLimit_paths n s r patchList i : (i < n)%nat ->
  Forall (container_patch n) patchList ->
  Forall (container_patch n) (setRequestLimit cfsQuotas env s r patchList i).
Proof. intros Hi Hl. unfold setRequestLimit, patchCPULimit. split_match; [|done]. paths. Qed.

Lemma patchContainerForPinning_paths n ann patchList i c : (i < n)%nat ->
  Forall (container_patch n) patchList ->
  Forall (container_patch n) (patchContainerForPinning processStarterPath ann patchList i c).
Proof. intros Hi Hl. unfold patchContainerForPinning. case_decide; [done|]. paths. Qed.

Lemma patchContainerEnv_paths n m b patchList i c : (i < n)%nat ->
  Forall (container_patch n) patchList ->
  Forall (container_patch n) (patchContainerEnv m b patchList i c).
Proof. intros Hi Hl. unfold patchContainerEnv. case_decide; [done|]. paths. Qed.

(** A property of patch lists that every patch function keeps, for the container at its
    index, holds of the loop over the containers. *)
Lemma patch_containers_ind (P : list patch -> Prop) s m ann containers k st :
  P st.1 ->
  (forall i c patchList s', containers !! i = Some c -> P patchList ->
     P (patch_container cfsQuotas processStarterPath env s' m ann (k + i) c (patchList, false)).1) ->
  P (patch_containers cfsQuotas processStarterPath env s m ann k containers st).1.
Proof.
  revert k st. induction containers as [|c containers IH]; intros k [patchList b] Hst Hstep;
    [done|]. simpl. apply IH.
  - specialize (Hstep 0%nat c patchList (k :: s) eq_refl Hst). by rewrite Nat.add_0_r in Hstep.
  - intros i c' l s' Hi. rewrite Nat.add_succ_comm. by apply Hstep.
Qed.

Lemma patch_container_paths n s m ann i c patchList b : (i < n)%nat ->
  Forall (container_patch n) patchList ->
  Forall (container_patch n)
    (patch_container cfsQuotas processStarterPath env s m ann i c (patchList, b)).1.
Proof.
  intros Hi Hl. unfold patch_container. simpl.
  assert (Forall (container_patch n) (setRequestLimit cfsQuotas env s
    (requests_of m (ctr_Name c)) patchList i)) by by apply setRequestLimit_paths.
  repeat split_match; auto using patchContainerEnv_paths, patchContainerForPinning_paths.
Qed.

Lemma patch_containers_paths s m ann containers :
  Forall (container_patch (length containers))
    (patch_containers cfsQuotas processStarterPath env s m ann 0 containers ([], false)).1.
Proof.
  apply (patch_containers_ind (Forall (container_patch (length containers)))); [done|].
  intros i c patchList s' Hi Hl. apply patch_container_paths; [|done].
  simpl. by eapply lookup_lt_Some.
Qed.

(** ** Where the handler panics *)

(** The review has no request, or decodes and names another resource than pods. *)
Definition unanswerable (review : option AdmissionRequest * bool) : Prop :=
  match review with
  | (None, _) => True
  | (Some request, failed) => failed = false /\ rq_Resource request <> ("", "v1", "pods")
  end.

Lemma serve_panics s decode_review decode_pod unmarshal marshal contentType body :
  panics (serveMutatePod cfsQuotas processStarterPath env s decode_review decode_pod unmarshal
            marshal contentType body) = true <->
  contentType = "application/json" /\ unanswerable (decode_review body).
Proof.
  unfold serveMutatePod. case_decide as Hct.
  { split; [done|]. by intros [? _]. }
  assert (contentType = "application/json") as Hct' by (destruct (decide (contentType = "application/json")); tauto).
  destruct (decode_review body) as [[request|] []]; simpl.
  - split; [done|]. by intros (_ & ? & _).
  - unfold mutatePods. case_decide as Hres; [simpl; tauto|].
    split; [|by intros (_ & _ & ?)].
    destruct (decode_pod _) as [pod|]; [|done].
    destruct (pod_patch_list _ _ _ _ _ pod) as [[|q l]|e|p] eqn:Hl; [done| |done|].
    + by destruct (marshal _).
    + by apply pod_patch_list_panic in Hl.
  - tauto.
  - tauto.
Qed.

(** ** Pods without pool requests *)

Lemma patch_container_zero s m i c patchList b :
  m !! ctr_Name c = None ->
  patch_container cfsQuotas processStarterPath env s m ∅ i c (patchList, b) = (patchList, b).
Proof.
  intros Hm.
  unfold patch_container, pinningPatchNeeded, requests_of, ContainerExists, CPUAnnotation, poolRequestMap in *.
  rewrite Hm, lookup_empty. simpl. by rewrite orb_false_r.
Qed.

Lemma patch_containers_zero s m containers k st :
  Forall (fun c => m !! ctr_Name c = None) containers ->
  patch_containers cfsQuotas processStarterPath env s m ∅ k containers st = st.
Proof.
  intros Hall. revert k st. induction Hall as [|c containers Hc _ IH]; intros k [l b]; [done|].
  cbn [patch_containers]. by rewrite patch_container_zero, IH.
Qed.
(** ** Patches only accumulate *)

Definition own_patches s m ann (i : nat) (c : v1_Container) : list patch :=
  (patch_container cfsQuotas processStarterPath env s m ann i c ([], false)).1.

Lemma patch_container_app s m ann i c patchList b :
  patch_container cfsQuotas processStarterPath env s m ann i c (patchList, b) =
    (patchList ++ own_patches s m ann i c, b || pinningPatchNeeded m ann c).
Proof.
  unfold own_patches, patch_container, setRequestLimit, patchContainerForPinning,
    patchContainerEnv, patchCPULimit. simpl. f_equal.
  repeat split_match; rewrite <- ?(assoc_L (++)); simpl; rewrite ?app_nil_r; done.
Qed.

Lemma own_patches_split s m ann i c :
  let r := requests_of m (ctr_Name c) in
  let needed := pinningPatchNeeded m ann c in
  own_patches s m ann i c =
    setRequestLimit cfsQuotas env s r [] i ++
    (if needed then patchContainerForPinning processStarterPath ann [] i c else []) ++
    (if (sharedCPURequests r >? 0) || (exclusiveCPURequests r >? 0)
        || (cloudphoneCPURequests r >? 0)
     then patchContainerEnv m needed [] i c else []).
Proof.
  unfold own_patches, patch_container, patchContainerForPinning, patchContainerEnv. simpl.
  repeat split_match; rewrite <- ?(assoc_L (++)), ?app_nil_r; done.
Qed.

(** A container that is pinned without an entry in the annotation has a command. *)
Lemma pinned_command m ann c :
  pinningPatchNeeded m ann c = true -> ContainerExists ann (ctr_Name c) = false ->
  ctr_Command c <> [].
Proof.
  intros Hneed Hex Hc. unfold pinningPatchNeeded in Hneed.
  rewrite Hex, (bool_decide_eq_true_2 _ Hc) in Hneed. simpl in Hneed. by repeat case_match.
Qed.

Lemma patch_containers_own s m ann containers i c k patchList b :
  containers !! i = Some c ->
  own_patches ((k + i)%nat :: s) m ann (k + i) c ⊆
    (patch_containers cfsQuotas processStarterPath env s m ann k containers (patchList, b)).1.
Proof.
  revert i k patchList b. induction containers as [|c' containers IH]; intros i k patchList b Hi;
    [done|]. cbn [patch_containers]. rewrite patch_container_app. destruct i as [|i].
  - injection Hi as ->. rewrite Nat.add_0_r.
    apply (patch_containers_ind (fun l => own_patches (k :: s) m ann k c ⊆ l)); [simpl; set_solver|].
    intros i c' l s' _ Hl. rewrite patch_container_app. simpl. set_solver.
  - rewrite <- Nat.add_succ_comm. by apply IH.
Qed.

Lemma patch_containers_pinned s m ann containers k st :
  (patch_containers cfsQuotas processStarterPath env s m ann k containers st).2 =
    st.2 || existsb (pinningPatchNeeded m ann) containers.
Proof.
  revert k st. induction containers as [|c containers IH]; intros k [l b];
    [by rewrite orb_false_r|].
  cbn [patch_containers]. rewrite IH, patch_container_app. simpl. by rewrite orb_assoc.
Qed.

(** What an accepted pod went through. *)
Lemma pod_patch_list_Ok s unmarshal pod l :
  pod_patch_list cfsQuotas processStarterPath env s unmarshal pod = Ok l ->
  exists m ann,
    getCPUPoolRequests (0%nat :: s) pod = Ok m /\
    read_annotation (1%nat :: s) unmarshal m pod = Ok ann /\
    let l0 := (patch_containers cfsQuotas processStarterPath env (2%nat :: s) m ann 0
                 (pod_Containers pod) ([], false)).1 in
    l = l0 \/ l = patchVolumesForPinning processStarterPath l0 pod.
Proof.
  unfold pod_patch_list. destruct (getCPUPoolRequests _ pod) as [m|e|p]; simpl; [|done..].
  destruct (read_annotation _ _ _ _) as [ann|e|p] eqn:Hr; simpl; [|done..].
  unfold pod_patches. intros Hl. exists m, ann. split; [done|]. split; [done|]. revert Hl.
  destruct (patch_containers _ _ _ _ _ _ _ _ _) as [l0 []]; simpl.
  - destruct (existsb _ _); intros [= <-]; auto.
  - destruct (_ !! _); intros [= <-]; auto.
Qed.

Lemma read_annotation_Ok s unmarshal m pod ann :
  read_annotation s unmarshal m pod = Ok ann ->
  match pod_Annotations pod !! annotationNameFromConfig with
  | None => ann = ∅
  | Some text => Decode unmarshal (0%nat :: s) NewCPUAnnotation text = (ann, None) /\
                 validateAnnotation (1%nat :: s) m ann = None
  end.
Proof.
  unfold read_annotation. destruct (_ !! _) as [text|]; [|by intros [= <-]].
  destruct (Decode _ _ _ _) as [a [e|]]; [done|].
  destruct (validateAnnotation _ _ _) eqn:Hv; [done|]. intros [= <-]. by rewrite Hv.
Qed.

(** ** The limit of the largest shared pool *)

(** The pool whose size counts: one whose request equals the shared total or, when none does,
    the one with the empty name. *)
Definition counted_pool (r : containerPoolRequests) (name : string) : Prop :=
  pools r !! name = Some (sharedCPURequests r) \/
  name = "" /\ forall n v, pools r !! n = Some v -> v <> sharedCPURequests r.

Lemma shared_name_loop (r : containerPoolRequests) (l : list (string * Z)) acc :
  let name := foldl (fun acc '(poolName, request) =>
    if request =? sharedCPURequests r then poolName else acc) acc l in
  (name, sharedCPURequests r) ∈ l \/ name = acc /\ forall x, x ∈ l -> x.2 <> sharedCPURequests r.
Proof.
  revert acc. induction l as [|[k v] l IH]; intros acc; simpl.
  { right. split; [done|]. by intros x ?%elem_of_nil. }
  destruct (IH (if v =? sharedCPURequests r then k else acc)) as [Hin|[-> Hl]]; [left; by right|].
  destruct (v =? sharedCPURequests r) eqn:E; to_prop; [subst v; left; left|].
  right. split; [done|]. intros x [->|Hx]%elem_of_cons; [done|by apply Hl].
Qed.

(** The largest size, in millicores, of a pool over the configurations; 0 if none has it. *)
Definition largest_size (confs : list PoolConfig) (name : string) (share : Z) : Prop :=
  (forall conf pool, conf ∈ confs -> Pools conf !! name = Some pool -> 1000 * cs_Size (CPUset pool) <= share) /\
  (share = 0 \/ exists conf pool, conf ∈ confs /\ Pools conf !! name = Some pool /\
     share = 1000 * cs_Size (CPUset pool)).

Lemma max_loop_spec (name : string) (confs : list PoolConfig) acc :
  (forall conf pool, conf ∈ confs -> Pools conf !! name = Some pool -> is_int (1000 * cs_Size (CPUset pool))) ->
  let m := foldl (fun maxSharedPoolSize poolConf =>
        match Pools poolConf !! name with
        | Some pool =>
            let size := (cs_Size (CPUset pool) *w 1000)%go in
            if size >? maxSharedPoolSize then size else maxSharedPoolSize
        | None => maxSharedPoolSize
        end) acc confs in
  acc <= m /\
  (forall conf pool, conf ∈ confs -> Pools conf !! name = Some pool -> 1000 * cs_Size (CPUset pool) <= m) /\
  (m = acc \/ exists conf pool, conf ∈ confs /\ Pools conf !! name = Some pool /\
     m = 1000 * cs_Size (CPUset pool)).
Proof.
  revert acc. induction confs as [|conf confs IH]; intros acc Hint; simpl.
  { split; [lia|]. split; [by intros conf pool ?%elem_of_nil|by left]. }
  set (next := match Pools conf !! name with Some _ => _ | None => _ end).
  destruct (IH next) as (Hacc & Hin & Hm); [intros; eapply Hint; [by right|done]|].
  cbv zeta in Hacc, Hin, Hm.
  assert (acc <= next /\ (forall pool, Pools conf !! name = Some pool -> 1000 * cs_Size (CPUset pool) <= next) /\
    (next = acc \/ exists pool, Pools conf !! name = Some pool /\ next = 1000 * cs_Size (CPUset pool)))
    as (Hle & Hpool & Hnext).
  { unfold next. destruct (Pools conf !! name) as [pool|] eqn:Hp; [|split; [lia|]; split; [done|by left]].
    rewrite Z.mul_comm, wrap_id by (eapply Hint; [left|done]).
    clear Hacc Hin Hm next.
    destruct (1000 * cs_Size (CPUset pool) >? acc) eqn:E; to_prop;
      (split; [lia|]); (split; [intros ? [= <-]; lia|]); [|by left].
    right. by exists pool. }
  clearbody next. split; [lia|]. split.
  - intros conf' pool [->|Hc]%elem_of_cons Hp; [|by eapply Hin].
    etransitivity; [by apply Hpool|exact Hacc].
  - destruct Hm as [->|(conf' & pool & Hc & Hp & ->)].
    + destruct Hnext as [->|(pool & Hp & ->)]; [by left|]. right. exists conf, pool.
      split; [left|done].
    + right. exists conf', pool. split; [by right|done].
Qed.

Lemma getMaxSharedPoolLimit_largest s r confs :
  ReadAllPoolConfigs env (0%nat :: s) = Ok confs ->
  (forall conf name pool, conf ∈ confs -> Pools conf !! name = Some pool ->
     is_int (1000 * cs_Size (CPUset pool))) ->
  exists name, counted_pool r name /\ largest_size confs name (getMaxSharedPoolLimit env s r).
Proof.
  intros Hread Hint. unfold getMaxSharedPoolLimit. rewrite Hread.
  pose proof (shared_name_loop r (visit (1%nat :: s) (pools r)) "") as Hname.
  set (name := foldl _ "" _) in *. cbv zeta in Hname. exists name. split.
  - destruct Hname as [Hin%elem_of_visit|[-> Hno]]; [by left|right]. split; [done|].
    intros n v Hv. apply (Hno (n, v)). by apply elem_of_visit.
  - by destruct (max_loop_spec name confs 0) as (_ & Hmax & Hm); [intros; by eapply Hint|].
Qed.

End facts.

(** ** A concrete pod

    A container [app] that asks for one CPU of [exclusive_a] and 500 millicores of
    [shared_a], next to a plain one; one configuration with both pools. *)

Module example.
Definition pool_of (cpus : list Z) : @Pool list_cpuset.lib :=
  @mkPool list_cpuset.lib cpus "" SingleThreadHTPolicy 1 "" 0 ∅.

Definition config : @PoolConfig list_cpuset.lib :=
  @mkPoolConfig list_cpuset.lib
    (list_to_map [("exclusive_a", @mkPool list_cpuset.lib [] "0,1" "" 1 "" 0 ∅);
                  ("shared_a", @mkPool list_cpuset.lib [] "2,3" "" 1 "" 0 ∅)]) ∅.

Definition pool_env : @PoolEnv list_cpuset.lib :=
  @Build_PoolEnv list_cpuset.lib ∅ (fun _ => Some "") (fun _ => Some config)
    (fun _ => Some ["/etc/cpu-pooler/poolconfig-1.yaml"]) (Some None).

Definition app : v1_Container :=
  mk_v1_Container "app"
    (list_to_map [("bonc.k8s.io/exclusive_a", "1"); ("bonc.k8s.io/shared_a", "500");
                  ("memory", "1Gi")]) ∅ [] [] ["/bin/app"; "-v"] ["x"] None.

Definition side : v1_Container := mk_v1_Container "side" ∅ ∅ [] [] [] [] None.

Definition status : PodStatusT := mk_PodStatus "" "" [] [] [].

Definition pod_with (containers : list v1_Container) (annotations : gmap string string)
    (volumes : list string) : v1_Pod :=
  mk_v1_Pod "default" "pod" "uid" annotations false "node" [] containers volumes status.

Definition pod : v1_Pod := pod_with [side; app] ∅ [].

(** An annotation for [app], as the JSON decoder delivers it. *)
Definition containers : list Container :=
  [mkContainer "app" [mkProcess "/bin/app" [] 2 "exclusive_a"; mkProcess "/bin/log" [] 500 "shared_a"]].

Definition unmarshal (text : string) : list Container * option string := (containers, None).

Definition annotated_pod : v1_Pod := pod_with [side; app] {[annotationNameFromConfig := "a"]} [].
End example.

(** * Properties *)

Section properties.
Context `{CPUSetLib} `{RangeOrder}.
Context (cfsQuotas processStarterPath : string) (env : PoolEnv).
Implicit Types (s : site).

(** C14: A container that the webhook pins, and that is not patched yet, is started by the
    process starter: its command is replaced by the starter, the annotations are mounted,
    and if the annotation does not list the container, its own command and arguments
    become the starter's arguments (there is a command in that case). *)
Theorem pinned_starts_through_starter s unmarshal pod l m ann i c :
  pod_patch_list cfsQuotas processStarterPath env s unmarshal pod = Ok l ->
  getCPUPoolRequests (0%nat :: s) pod = Ok m ->
  read_annotation (1%nat :: s) unmarshal m pod = Ok ann ->
  pod_Containers pod !! i = Some c ->
  pinningPatchNeeded m ann c = true -> "podinfo" ∉ ctr_VolumeMounts c ->
  mkPatch "add" (container_path i +:+ "/command")
    (json "[ '" +:+ processStarterPath +:+ json "' ]") ∈ l /\
  mkPatch "add" (container_path i +:+ "/volumeMounts/-")
    (json "{'name':'podinfo','mountPath':'/etc/podinfo','readOnly':true}") ∈ l /\
  (ContainerExists ann (ctr_Name c) = false ->
     ctr_Command c <> [] /\ mkPatch "add" (container_path i +:+ "/args") (command_args c) ∈ l).
Proof.
  intros Hl Hm Ha Hi Hneed Hmount.
  destruct (pod_patch_list_Ok _ _ _ _ _ _ _ Hl) as (m' & ann' & Hm' & Ha' & Hl').
  rewrite Hm in Hm'. injection Hm' as <-. rewrite Ha in Ha'. injection Ha' as <-.
  pose proof (patch_containers_own cfsQuotas processStarterPath env (2%nat :: s) m ann _ i c 0 []
    false Hi) as Hown.
  assert (forall p, p ∈ own_patches cfsQuotas processStarterPath env (i :: 2%nat :: s) m ann i c ->
                    p ∈ l) as Hin.
  { intros p Hp. destruct Hl' as [->| ->]; [by apply Hown|].
    unfold patchVolumesForPinning. apply elem_of_app. left. by apply Hown. }
  assert (forall p, p ∈ patchContainerForPinning processStarterPath ann [] i c -> p ∈ l) as Hpin.
  { intros p Hp. apply Hin. rewrite own_patches_split, Hneed, !elem_of_app. auto. }
  unfold patchContainerForPinning in Hpin. rewrite decide_False in Hpin by done.
  split; [|split]; [..|intros Hex].
  - apply Hpin. rewrite app_nil_l, elem_of_app, !elem_of_cons. tauto.
  - apply Hpin. rewrite app_nil_l, elem_of_app, !elem_of_cons. tauto.
  - pose proof (pinned_command m ann c Hneed Hex) as Hc. split; [done|].
    apply Hpin. rewrite Hex, (bool_decide_eq_true_2 _ Hc). simpl. rewrite !elem_of_cons. tauto.
Qed.

(** Every patch of an accepted pod adds a volume, or replaces or adds one of the known
    fields of a container the pod has. *)
Theorem patches_target_the_pod s unmarshal pod l :
  pod_patch_list cfsQuotas processStarterPath env s unmarshal pod = Ok l ->
  Forall (fun p => container_patch (length (pod_Containers pod)) p \/
                   (Op p = "add" /\ Path p = "/spec/volumes/-")) l.
Proof.
  intros Hl. destruct (pod_patch_list_Ok _ _ _ _ _ _ _ Hl) as (m & ann & _ & _ & Hl').
  pose proof (patch_containers_paths cfsQuotas processStarterPath env (2%nat :: s) m ann
    (pod_Containers pod)) as Hpaths.
  rewrite Forall_forall in Hpaths |- *. intros p Hp.
  destruct Hl' as [->| ->]; [left; by apply Hpaths|].
  unfold patchVolumesForPinning in Hp. rewrite !elem_of_app, list_elem_of_fmap in Hp.
  destruct Hp as [Hp|[Hp|(c & -> & _)]]; [left; by apply Hpaths| |by right].
  right. rewrite !elem_of_cons in Hp. destruct Hp as [->|[->|Hp%elem_of_nil]]; done.
Qed.

(** C19: With [-cfs-quotas=all] and readable configurations, the limit of a container that
    mixes exclusive and shared CPUs is its exclusive CPUs plus the largest size, over the
    configurations, of a pool whose request equals the shared total.  With one shared pool
    that is this pool, unless another request has the same number.  With several, none of which
    is all of the total, it is the pool with the empty name, which no configuration has: the
    limit leaves the shared share out. *)
Theorem mixed_limit_share s r confs :
  cfsQuotas = QuotaAll -> 0 < exclusiveCPURequests r <= 2 ^ 31 -> 0 < sharedCPURequests r ->
  ReadAllPoolConfigs env (0%nat :: s) = Ok confs ->
  (forall conf name pool, conf ∈ confs -> Pools conf !! name = Some pool ->
     0 <= cs_Size (CPUset pool) <= 2 ^ 31) ->
  exists name share,
    totalCFSLimit cfsQuotas env s r = 1000 * exclusiveCPURequests r + share /\
    counted_pool r name /\ largest_size confs name share.
Proof.
  intros -> Hex Hsh Hread Hsize.
  destruct (getMaxSharedPoolLimit_largest env s r confs Hread) as (name & Hname & Hlarge).
  { intros conf n pool Hc Hp. specialize (Hsize conf n pool Hc Hp). unfold is_int, min_int, max_int. lia. }
  exists name, (getMaxSharedPoolLimit env s r). split; [|done].
  assert (0 <= getMaxSharedPoolLimit env s r <= 1000 * 2 ^ 31) as Hbound.
  { destruct Hlarge as [_ [->|(conf & pool & Hc & Hp & ->)]]; [lia|].
    specialize (Hsize conf name pool Hc Hp). lia. }
  unfold totalCFSLimit. rewrite !(proj2 (Z.gtb_lt _ 0)) by lia. simpl.
  rewrite !wrap_id; [done|unfold is_int, min_int, max_int; lia|].
  rewrite wrap_id; unfold is_int, min_int, max_int; lia.
Qed.

(** With [-cfs-quotas=shared], a container of an exclusive pool still gets a quota when
    it also asks for shared CPUs, and that quota ignores its exclusive CPUs. *)
Theorem shared_quota_ignores_exclusive s r patchList i :
  cfsQuotas = QuotaShared -> 0 < sharedCPURequests r ->
  setRequestLimit cfsQuotas env s r patchList i = patchCPULimit (sharedCPURequests r) patchList i.
Proof.
  intros -> Hsh. unfold setRequestLimit, totalCFSLimit.
  change (bool_decide (QuotaShared = QuotaAll)) with false.
  rewrite andb_false_r. apply Z.gtb_lt in Hsh. rewrite Hsh. simpl. by rewrite Hsh.
Qed.


(** C30: [mutatePods] returns for every request: no response exactly for a resource that is
    not a pod, and else a response that admits the pod exactly when the pod decodes, its
    patches are computed and, if there are any, marshalled; a denial carries an error. *)
Theorem mutatePods_decides s decode_pod unmarshal marshal request :
  exists response,
    mutatePods cfsQuotas processStarterPath env s decode_pod unmarshal marshal request = Ok response /\
    (response = None <-> rq_Resource request <> ("", "v1", "pods")) /\
    forall r, response = Some r ->
      (Allowed r = true <-> Result r = None) /\
      (Allowed r = true <-> exists pod l, decode_pod (rq_Raw request) = Some pod /\
         pod_patch_list cfsQuotas processStarterPath env s unmarshal pod = Ok l /\
         Patch r = (match l with [] => None | _ => marshal l end) /\
         (l = [] \/ is_Some (marshal l))).
Proof.
  unfold mutatePods. case_decide as Hres; [by exists None|].
  destruct (decode_pod (rq_Raw request)) as [pod|]; [|eexists; naive_solver].
  destruct (pod_patch_list _ _ _ _ _ pod) as [l|e|p] eqn:Hl.
  - destruct l as [|q l]; [eexists; naive_solver|].
    destruct (marshal (q :: l)) as [bytes|] eqn:Hm; eexists; (split; [done|]); (split; [done|]);
      intros r [= <-]; simpl; (split; [done|]).
    + split; [|done]. intros _. exists pod, (q :: l). rewrite Hm. eauto.
    + split; [done|]. intros (pod' & l' & [= <-] & Hl' & _ & Hs). rewrite Hl in Hl'.
      injection Hl' as <-. rewrite Hm in Hs. by destruct Hs as [?|[]].
  - eexists. split; [done|]. split; [done|]. intros r [= <-]. simpl. split; [done|].
    split; [done|]. intros (pod' & l' & [= <-] & Hl' & _). by rewrite Hl in Hl'.
  - by apply pod_patch_list_panic in Hl.
Qed.

(** The HTTP handler panics exactly for a JSON request whose review has no request, or
    whose review decodes and names a resource that is not a pod. *)
Theorem serveMutatePod_panics s decode_review decode_pod unmarshal marshal contentType body :
  panics (serveMutatePod cfsQuotas processStarterPath env s decode_review decode_pod unmarshal
            marshal contentType body) = true <->
  contentType = "application/json" /\
  match decode_review body with
  | (None, _) => True
  | (Some request, failed) => failed = false /\ rq_Resource request <> ("", "v1", "pods")
  end.
Proof. apply serve_panics. Qed.

(** A pod whose containers have no managed limit and that has no annotation is
    admitted unchanged. *)
Theorem plain_pod_unchanged s unmarshal pod :
  Forall (fun c => has_managed (map_to_list (ctr_Limits c)) = false) (pod_Containers pod) ->
  NoDup (ctr_Name <$> pod_Containers pod) ->
  pod_Annotations pod !! annotationNameFromConfig = None ->
  pod_patch_list cfsQuotas processStarterPath env s unmarshal pod = Ok [].
Proof.
  intros Hplain Hnd Hann. unfold pod_patch_list.
  pose proof (getCPUPoolRequests_collects (0%nat :: s) pod Hnd) as Hreq.
  rewrite Forall_forall in Hplain.
  destruct (getCPUPoolRequests _ pod) as [m|e|p]; simpl; [| |done].
  - destruct Hreq as [Hall _]. unfold read_annotation. rewrite Hann. simpl.
    unfold pod_patches. rewrite patch_containers_zero, Hann; [done|].
    apply Forall_forall. intros c Hc. rewrite Forall_forall in Hall.
    destruct (Hall c Hc) as [_ Hcol]. unfold collected in Hcol. by rewrite Hplain in Hcol.
  - exfalso. destruct Hreq as (c & Hc & Hbad). destruct e as [key value err].
    destruct Hbad as (Hk & Hm & _). specialize (Hplain c Hc).
    apply not_true_iff_false in Hplain. apply Hplain, has_managed_true.
    exists (key, value). by rewrite elem_of_map_to_list.
Qed.
End properties.

(** ** Witnesses *)

Module witness.
#[local] Existing Instance list_cpuset.lib.
#[local] Existing Instance range_forward.
Import example.

Definition requests : containerPoolRequests :=
  mkRequests 500 1 0 (list_to_map [("exclusive_a", 1); ("shared_a", 500)]).

Definition two_shared : containerPoolRequests :=
  mkRequests 900 1 0 (list_to_map [("exclusive_a", 1); ("shared_a", 500); ("shared_b", 400)]).

Definition loaded : list PoolConfig :=
  match ReadAllPoolConfigs pool_env [0%nat] with Ok confs => confs | _ => [] end.

Definition loaded_config : PoolConfig := default config (head loaded).

Lemma loaded_one : loaded = [loaded_config].
Proof.
  unfold loaded_config. assert (length loaded = 1%nat) as Hl by (vm_compute; reflexivity).
  destruct loaded as [|conf [|]]; done.
Qed.
End witness.

Section witnesses.
#[local] Existing Instance list_cpuset.lib.
#[local] Existing Instance range_forward.
Import example witness.

Lemma pinned_starts_through_starter_witness :
  exists l, pod_patch_list "all" "/starter" pool_env [] unmarshal pod = Ok l /\
    mkPatch "add" "/spec/containers/1/args" (command_args app) ∈ l.
Proof.
  eexists. split; [vm_compute; reflexivity|].
  eapply (pinned_starts_through_starter "all" "/starter" pool_env [] unmarshal pod _
           _ _ 1%nat app);
    [vm_compute; reflexivity|vm_compute; reflexivity|vm_compute; reflexivity|reflexivity
    |vm_compute; reflexivity| |vm_compute; reflexivity].
  vm_compute. inversion 1.
Defined.

Lemma patches_target_the_pod_witness :
  exists l, pod_patch_list "all" "/starter" pool_env [] unmarshal annotated_pod = Ok l /\
    Forall (fun p => container_patch 2 p \/ (Op p = "add" /\ Path p = "/spec/volumes/-")) l.
Proof.
  eexists. split; [vm_compute; reflexivity|].
  apply (patches_target_the_pod "all" "/starter" pool_env [] unmarshal annotated_pod).
  vm_compute. reflexivity.
Defined.

(** The limit covers the two CPUs of the shared pool. *)
Lemma mixed_limit_share_witness :
  exists name share, totalCFSLimit "all" pool_env [] requests = 1000 * exclusiveCPURequests requests + share /\
    counted_pool requests name /\ largest_size loaded name share.
Proof.
  apply (mixed_limit_share "all" pool_env [] requests loaded);
    [reflexivity|split; vm_compute; [reflexivity|discriminate]|vm_compute; reflexivity| |].
  - vm_cast_no_check (@eq_refl (res pool_error (list PoolConfig)) (Ok loaded)).
  - intros conf name pool Hc Hp. rewrite loaded_one in Hc. apply list_elem_of_singleton in Hc as ->.
    apply elem_of_map_to_list in Hp.
    assert (forallb (fun x : string * Pool => (0 <=? cs_Size (CPUset x.2)) && (cs_Size (CPUset x.2) <=? 2 ^ 31))
      (map_to_list (Pools loaded_config)) = true) as Hall by (vm_compute; reflexivity).
    rewrite forallb_forall in Hall. specialize (Hall (name, pool) (proj1 (list_elem_of_In _ _) Hp)).
    apply andb_true_iff in Hall as [Hlo Hhi]. split; [by apply Z.leb_le|by apply Z.leb_le].
Defined.

Example mixed_limit : totalCFSLimit "all" pool_env [] requests = 3000.
Proof. vm_compute. reflexivity. Qed.

(** With two shared pools their share is missing. *)
Example two_shared_limit : totalCFSLimit "all" pool_env [] two_shared = 1000.
Proof. vm_compute. reflexivity. Qed.

Lemma shared_quota_ignores_exclusive_witness :
  setRequestLimit "shared" pool_env [] requests [] 0 = patchCPULimit 500 [] 0.
Proof.
  apply (shared_quota_ignores_exclusive "shared" pool_env [] requests [] 0);
    vm_compute; reflexivity.
Defined.


Lemma plain_pod_unchanged_witness :
  pod_patch_list "all" "/starter" pool_env [] unmarshal (pod_with [side] ∅ []) = Ok [].
Proof.
  apply (plain_pod_unchanged "all" "/starter" pool_env [] unmarshal (pod_with [side] ∅ [])).
  - repeat constructor.
  - vm_compute. repeat constructor. inversion 1.
  - vm_compute. reflexivity.
Defined.
End witnesses.
