(* ===== verification/Readmission.v ===== *)
(** * A pod that comes back to the webhook

    [cmd/webhook/webhook.go] recognizes the containers it has patched: by the variable
    [CPU_POOLS] (line 209) and by the mount [podinfo] (line 244).  What the API server makes of
    a list of patches is outside the repository; [patched] states what RFC 6902 says of the
    operations the webhook uses, as far as names are concerned, and leaves open what else
    other webhooks have added to the pod.  A second admission of such a pod gives its CPU
    limits again, and nothing else. *)

From S2P Require Import Prelude GoStrings Cpuset K8s Pools Annotation WebhookRequests Webhook.
From Stdlib Require Import Ascii.
Local Open Scope Z_scope.

(** ** What a patch does *)

Fixpoint strip (prefix s : string) : option string :=
  match prefix, s with
  | EmptyString, _ => Some s
  | String c prefix, String d s => if decide (c = d) then strip prefix s else None
  | _, _ => None
  end.

Fixpoint up_to_quote (s : string) : option string :=
  match s with
  | EmptyString => None
  | String c s => if decide (c = dquote) then Some "" else String c <$> up_to_quote s
  end.

(** The name of an object, the first key of which it is. *)
Definition name_of (value : string) : option string := strip (json "{'name':'") value ≫= up_to_quote.

(** What an [add] makes of the names of the list [field]: it sets the list, or appends. *)
Definition add_name (field : string) (names : list string) (p : patch) : list string :=
  if decide (Op p = "add" /\ Path p = field) then option_list (strip "[" (Value p) ≫= name_of)
  else if decide (Op p = "add" /\ Path p = field +:+ "/-") then names ++ option_list (name_of (Value p))
  else names.

Definition names_after (field : string) (l : list patch) (names : list string) : list string :=
  fold_left (add_name field) l names.

(** What it makes of a command: the webhook writes lists of one word. *)
Definition set_command (path : string) (command : list string) (p : patch) : list string :=
  if decide (Op p = "add" /\ Path p = path)
  then option_list (strip (json "[ '") (Value p) ≫= up_to_quote) else command.

Definition command_path (i : nat) : string := container_path i +:+ "/command".

(** The [i]-th container before and after: others may have added variables and mounts. *)
Record patched_container (l : list patch) (i : nat) (c c' : v1_Container) : Prop := {
  pc_name : ctr_Name c' = ctr_Name c;
  pc_limits key : managed key = true -> ctr_Limits c' !! key = ctr_Limits c !! key;
  pc_env : names_after (container_path i +:+ "/env") l (ctr_Env c) ⊆ ctr_Env c';
  pc_mounts : names_after (container_path i +:+ "/volumeMounts") l (ctr_VolumeMounts c) ⊆ ctr_VolumeMounts c';
  pc_command : ctr_Command c' = fold_left (set_command (command_path i)) l (ctr_Command c)
}.

Record patched (l : list patch) (pod pod' : v1_Pod) : Prop := {
  pa_annotations : pod_Annotations pod' = pod_Annotations pod;
  pa_volumes : names_after "/spec/volumes" l (pod_Volumes pod) ⊆ pod_Volumes pod';
  pa_length : length (pod_Containers pod') = length (pod_Containers pod);
  pa_containers i c c' : pod_Containers pod !! i = Some c -> pod_Containers pod' !! i = Some c' ->
    patched_container l i c c'
}.

(** The patches of the CPU limit of the [i]-th container. *)
Definition cpu_limit_patches (i : nat) (limit : Z) : list patch :=
  if limit >? 0 then
    [mkPatch "replace" (container_path i +:+ "/resources/limits/cpu") (json "'" +:+ Itoa limit +:+ json "m'");
     mkPatch "replace" (container_path i +:+ "/resources/requests/cpu") (json "'0m'")]
  else [].

Definition replacements (l : list patch) : list patch := filter (fun p => Op p = "replace") l.

Lemma replacements_app l l' : replacements (l ++ l') = replacements l ++ replacements l'.
Proof. apply filter_app. Qed.

Lemma replacements_all l : Forall (fun p => Op p = "replace") l -> replacements l = l.
Proof. induction 1 as [|p l Hp _ IH]; [done|]. unfold replacements in *. by rewrite filter_cons_True, IH. Qed.

Lemma replacements_none l : Forall (fun p => Op p = "add") l -> replacements l = [].
Proof.
  induction 1 as [|p l Hp _ IH]; [done|]. unfold replacements in *. rewrite filter_cons_False; [done|].
  by rewrite Hp.
Qed.

(** ** Names *)

Lemma names_after_keeps field l names name :
  (forall p, p ∈ l -> Path p <> field) -> name ∈ names -> name ∈ names_after field l names.
Proof.
  unfold names_after. revert names. induction l as [|p l IH]; intros names Hl Hn; [done|]. simpl.
  apply IH; [intros q Hq; apply Hl; by right|]. unfold add_name.
  rewrite decide_False by (intros [_ Hp]; by apply (Hl p ltac:(left))). case_decide; [|done].
  apply elem_of_app. by left.
Qed.

(** The patch [p] brings [name] into the list [field]. *)
Definition brings (field name : string) (p : patch) : Prop := forall names, name ∈ add_name field names p.

Lemma names_after_brings field l1 p l2 names name :
  brings field name p -> (forall q, q ∈ l2 -> Path q <> field) -> name ∈ names_after field (l1 ++ p :: l2) names.
Proof.
  intros Hp Hl2. unfold names_after. rewrite fold_left_app. simpl. by apply names_after_keeps, Hp.
Qed.

Lemma appends field name value : name_of value = Some name -> brings field name (mkPatch "add" (field +:+ "/-") value).
Proof.
  intros Hv names. unfold add_name. simpl. case_decide as Hd.
  - exfalso. destruct Hd as [_ Hd]. apply (f_equal String.length) in Hd. rewrite length_append in Hd. simpl in Hd. lia.
  - rewrite decide_True by done. rewrite Hv. apply elem_of_app. right. by left.
Qed.

Lemma starts_list field name value : name_of value = Some name -> brings field name (mkPatch "add" field ("[" +:+ value)).
Proof.
  intros Hv names. unfold add_name. rewrite decide_True by done. cbn [Value].
  change (strip "[" ("[" +:+ value)) with (Some value). simpl. rewrite Hv. by left.
Qed.

(** ** Paths *)

Fixpoint last_two (s : string) : option (ascii * ascii) :=
  match s with
  | String c s' => match s' with String d EmptyString => Some (c, d) | _ => last_two s' end
  | EmptyString => None
  end.

Lemma last_two_app s c d t : last_two (s +:+ String c (String d t)) = last_two (String c (String d t)).
Proof.
  induction s as [|e s IH]; [done|]. rewrite append_cons, <- IH.
  destruct s as [|e' [|e'' s]]; reflexivity.
Qed.

Lemma container_path_inj i j sfx : container_path i +:+ sfx = container_path j +:+ sfx -> i = j.
Proof.
  intros Heq%append_inj_r. unfold container_path in Heq. apply append_inj_l in Heq.
  apply Itoa_inj_nonneg in Heq; lia.
Qed.

(** How the paths end that neither make a list nor set a command. *)
Definition plain (path : string) : Prop :=
  bool_decide (last_two path ∈ [Some ("p", "u"); Some ("/", "-"); Some ("g", "s")]%char) = true.

Ltac plain := unfold plain; cbn [Path]; rewrite ?env_path_snoc, ?last_two_app; vm_compute; reflexivity.

Lemma plain_env i path : plain path -> path <> container_path i +:+ "/env".
Proof. intros Hp ->. unfold plain in Hp. rewrite last_two_app in Hp. vm_compute in Hp. discriminate. Qed.

Lemma plain_mounts i path : plain path -> path <> container_path i +:+ "/volumeMounts".
Proof. intros Hp ->. unfold plain in Hp. rewrite last_two_app in Hp. vm_compute in Hp. discriminate. Qed.

Lemma plain_command i path : plain path -> path <> command_path i.
Proof. intros Hp ->. unfold plain, command_path in Hp. rewrite last_two_app in Hp. vm_compute in Hp. discriminate. Qed.

(** ** Requests *)

Definition same_totals (r r' : containerPoolRequests) : Prop :=
  sharedCPURequests r' = sharedCPURequests r /\ exclusiveCPURequests r' = exclusiveCPURequests r /\
  cloudphoneCPURequests r' = cloudphoneCPURequests r.

(** Only managed limits count. *)
Lemma managed_limits (limits limits' : gmap string string) : (forall key, managed key = true -> limits' !! key = limits !! key) ->
  base.filter (fun x => managed x.1 = true) (map_to_list limits') ≡ₚ
  base.filter (fun x => managed x.1 = true) (map_to_list limits).
Proof.
  intros Hm. apply NoDup_Permutation; [apply NoDup_filter, NoDup_map_to_list..|].
  intros [key v]. rewrite !list_elem_of_filter, !elem_of_map_to_list. simpl.
  split; intros [Hk Hv]; split; try done; [by rewrite <- Hm|by rewrite Hm].
Qed.

Lemma limit_sum_managed rest (l : list (string * string)) :
  limit_sum (resourceBaseName +:+ rest) l =
    limit_sum (resourceBaseName +:+ rest) (base.filter (fun x => managed x.1 = true) l).
Proof.
  induction l as [|[key v] l IH]; [done|]. rewrite filter_cons. unfold limit_sum in *. simpl.
  destruct (managed key) eqn:Hk; [rewrite decide_True by done; simpl; f_equal; exact IH|].
  rewrite decide_False by congruence. rewrite managed_prefix by done. exact IH.
Qed.

Lemma has_managed_filter (l : list (string * string)) :
  has_managed l = negb (bool_decide (base.filter (fun x => managed x.1 = true) l = [])).
Proof.
  induction l as [|[key v] l IH]; [done|]. rewrite filter_cons. unfold has_managed in *. simpl.
  destruct (managed key) eqn:Hk; [by rewrite decide_True|]. rewrite decide_False by congruence. exact IH.
Qed.

Lemma collected_totals (limits limits' : gmap string string) o o' :
  (forall key, managed key = true -> limits' !! key = limits !! key) ->
  collected limits o -> collected limits' o' ->
  same_totals (from_option id zero_requests o) (from_option id zero_requests o').
Proof.
  intros Hm%managed_limits. unfold collected. rewrite !has_managed_filter.
  assert (bool_decide (base.filter (fun x => managed x.1 = true) (map_to_list limits') = []) =
          bool_decide (base.filter (fun x => managed x.1 = true) (map_to_list limits) = [])) as ->.
  { apply bool_decide_ext. split; intros Hnil; rewrite Hnil in Hm;
      [by apply Permutation_nil_l in Hm|by apply Permutation_nil_r in Hm]. }
  case_bool_decide; simpl; [by intros -> ->|].
  intros (r & -> & Hs & He & Hc & _) (r' & -> & Hs' & He' & Hc' & _). unfold same_totals. simpl.
  rewrite Hs, He, Hc, Hs', He', Hc'.
  by rewrite !(limit_sum_managed _ (map_to_list limits)), !(limit_sum_managed _ (map_to_list limits')), Hm.
Qed.

(** ** The patches of one container *)

Section readmission.
Context `{CPUSetLib} `{RangeOrder}.
Context (cfsQuotas processStarterPath : string) (env : PoolEnv).
Implicit Types (s : site) (m : poolRequestMap).

Abbreviation own := (own_patches cfsQuotas processStarterPath env).
Abbreviation limit := (totalCFSLimit cfsQuotas env).

Lemma patch_containers_concat s m ann containers k l b :
  (patch_containers cfsQuotas processStarterPath env s m ann k containers (l, b)).1 =
    l ++ concat (imap (fun i c => own ((k + i)%nat :: s) m ann (k + i) c) containers).
Proof.
  revert k l b. induction containers as [|c containers IH]; intros k l b; [by rewrite app_nil_r|].
  cbn [patch_containers]. rewrite patch_container_app, IH. rewrite imap_cons. simpl.
  rewrite Nat.add_0_r, <- (assoc_L (++)). do 3 f_equal. apply imap_ext. intros i c' _. simpl.
  by rewrite Nat.add_succ_r.
Qed.

Lemma setRequestLimit_patches s r i : setRequestLimit cfsQuotas env s r [] i = cpu_limit_patches i (limit s r).
Proof. unfold setRequestLimit, cpu_limit_patches. by destruct (_ >? 0). Qed.

(** Everything but the limits is added. *)
Lemma replacements_own s m ann i c :
  replacements (own s m ann i c) = cpu_limit_patches i (limit s (requests_of m (ctr_Name c))).
Proof.
  rewrite own_patches_split. cbv zeta. rewrite setRequestLimit_patches, !replacements_app.
  rewrite (replacements_none (if pinningPatchNeeded m ann c then _ else _)).
  - rewrite (replacements_none (if _ || _ then _ else _)).
    + rewrite app_nil_r. apply replacements_all. unfold cpu_limit_patches. split_match; repeat constructor.
    + unfold patchContainerEnv. repeat split_match; repeat constructor.
  - unfold patchContainerForPinning. repeat split_match; repeat constructor.
Qed.

(** A container that shows the traces of the webhook only gets its limit. *)
Lemma own_again s m ann i c :
  (pinningPatchNeeded m ann c = true -> "podinfo" ∈ ctr_VolumeMounts c) ->
  (let r := requests_of m (ctr_Name c) in
   0 < sharedCPURequests r \/ 0 < exclusiveCPURequests r \/ 0 < cloudphoneCPURequests r ->
   "CPU_POOLS" ∈ ctr_Env c) ->
  own s m ann i c = cpu_limit_patches i (limit s (requests_of m (ctr_Name c))).
Proof.
  cbv zeta. intros Hpin Henv. rewrite own_patches_split. cbv zeta. rewrite setRequestLimit_patches.
  assert ((if pinningPatchNeeded m ann c then patchContainerForPinning processStarterPath ann [] i c else []) = [])
    as ->.
  { destruct (pinningPatchNeeded m ann c); [|done]. unfold patchContainerForPinning. by rewrite decide_True by auto. }
  destruct (_ || _) eqn:Hany; [|by rewrite app_nil_r].
  unfold patchContainerEnv. rewrite decide_True; [by rewrite app_nil_r|]. apply Henv.
  rewrite !orb_true_iff, !Z.gtb_lt in Hany. tauto.
Qed.

(** The first time its traces are made. *)
Lemma own_mounts s m ann i c : pinningPatchNeeded m ann c = true -> "podinfo" ∉ ctr_VolumeMounts c ->
  exists l1 p l2, own s m ann i c = l1 ++ p :: l2 /\ brings (container_path i +:+ "/volumeMounts") "podinfo" p.
Proof.
  intros Hneed Hno. rewrite own_patches_split. cbv zeta. rewrite Hneed. unfold patchContainerForPinning.
  rewrite decide_False by done. rewrite app_nil_l. eexists _, _, _. split; [reflexivity|].
  assert (container_path i +:+ "/volumeMounts/-" = (container_path i +:+ "/volumeMounts") +:+ "/-") as ->
    by by rewrite append_assoc.
  by apply appends.
Qed.

Lemma own_env s m ann i c :
  (let r := requests_of m (ctr_Name c) in
   0 < sharedCPURequests r \/ 0 < exclusiveCPURequests r \/ 0 < cloudphoneCPURequests r) ->
  "CPU_POOLS" ∉ ctr_Env c ->
  exists l1 p, own s m ann i c = l1 ++ [p] /\ brings (container_path i +:+ "/env") "CPU_POOLS" p.
Proof.
  cbv zeta. intros Hany Hno. rewrite own_patches_split. cbv zeta.
  assert ((sharedCPURequests (requests_of m (ctr_Name c)) >? 0) || (exclusiveCPURequests (requests_of m (ctr_Name c)) >? 0)
    || (cloudphoneCPURequests (requests_of m (ctr_Name c)) >? 0) = true) as ->.
  { rewrite !orb_true_iff, !Z.gtb_lt. tauto. }
  unfold patchContainerEnv. rewrite decide_False by done. rewrite app_nil_l, (assoc_L (++)).
  eexists _, _. split; [reflexivity|]. destruct (_ || _); [by apply appends|by apply starts_list].
Qed.

Lemma no_variables c : bool_decide (ctr_Env c <> []) = false -> ctr_Env c = [].
Proof. intros Hno%bool_decide_eq_false. destruct (ctr_Env c); [done|]. by destruct Hno. Qed.

(** The patches of a container make a list of variables where there is none, and set the
    command of a pinned container. *)
Lemma own_paths s m ann i c p : p ∈ own s m ann i c ->
  plain (Path p) \/
  Path p = container_path i +:+ "/env" /\ ctr_Env c = [] \/
  p = mkPatch "add" (command_path i) (json "[ '" +:+ processStarterPath +:+ json "' ]") /\
    pinningPatchNeeded m ann c = true.
Proof.
  rewrite own_patches_split. cbv zeta. rewrite setRequestLimit_patches, !elem_of_app. intros [Hp|[Hp|Hp]].
  - left. unfold cpu_limit_patches in Hp. destruct (_ >? 0); [|by apply elem_of_nil in Hp].
    rewrite !elem_of_cons, elem_of_nil in Hp. destruct Hp as [->|[->|[]]]; plain.
  - destruct (pinningPatchNeeded m ann c); [|by apply elem_of_nil in Hp].
    unfold patchContainerForPinning in Hp. case_decide; [by apply elem_of_nil in Hp|].
    rewrite app_nil_l, elem_of_app, !elem_of_cons, elem_of_nil in Hp.
    destruct Hp as [[->|[->|[->|[->|[->|[]]]]]]|Hp]; try (left; plain).
    + destruct (bool_decide _) eqn:E; [left; plain|right; left; split; [done|by apply no_variables]].
    + right. by right.
    + destruct (_ && _); [|by apply elem_of_nil in Hp]. apply list_elem_of_singleton in Hp as ->. left. plain.
  - destruct (_ || _); [|by apply elem_of_nil in Hp]. unfold patchContainerEnv in Hp.
    case_decide; [by apply elem_of_nil in Hp|]. rewrite app_nil_l in Hp. apply list_elem_of_singleton in Hp as ->.
    destruct (_ || _) eqn:E; [left; plain|right; left]. split; [done|].
    apply orb_false_iff in E as [_ E]. by apply no_variables.
Qed.

(** ** All patches of a pod *)

Lemma elem_of_concat_imap (f : nat -> v1_Container -> list patch) cs p :
  p ∈ concat (imap f cs) <-> exists i c, cs !! i = Some c /\ p ∈ f i c.
Proof.
  rewrite list_elem_of_In, in_concat. split.
  - intros (ps & Hps & Hp). apply list_elem_of_In, list_elem_of_lookup in Hps as [i Hi].
    rewrite list_lookup_imap in Hi. destruct (cs !! i) as [c|] eqn:Hc; [|done]. injection Hi as <-.
    exists i, c. by rewrite list_elem_of_In.
  - intros (i & c & Hc & Hp). exists (f i c). rewrite <- !list_elem_of_In. split; [|done].
    apply list_elem_of_lookup. exists i. by rewrite list_lookup_imap, Hc.
Qed.

Lemma replacements_concat (f g : nat -> v1_Container -> list patch) cs :
  (forall i c, replacements (f i c) = g i c) -> replacements (concat (imap f cs)) = concat (imap g cs).
Proof.
  revert f g. induction cs as [|c cs IH]; intros f g Hfg; [done|]. rewrite !imap_cons. simpl.
  rewrite replacements_app, Hfg. f_equal. apply IH. intros i. apply Hfg.
Qed.

Lemma concat_imap_ext (f g : nat -> v1_Container -> list patch) cs :
  (forall i c, cs !! i = Some c -> f i c = g i c) -> concat (imap f cs) = concat (imap g cs).
Proof. intros Hfg. f_equal. by apply imap_ext. Qed.

Lemma replacements_volumes l pod : replacements (patchVolumesForPinning processStarterPath l pod) = replacements l.
Proof.
  unfold patchVolumesForPinning. rewrite replacements_app, (replacements_none (_ ++ _)); [by rewrite app_nil_r|].
  repeat constructor. apply Forall_fmap, Forall_forall. done.
Qed.

(** The limits of all containers. *)
Definition limit_patches s m (pod : v1_Pod) : list patch :=
  concat (imap (fun i c => cpu_limit_patches i (limit (i :: s) (requests_of m (ctr_Name c)))) (pod_Containers pod)).

(** The list of patches has one of two forms; every patch that is not plain is of a container. *)
Definition own_list s m ann (pod : v1_Pod) : list patch :=
  concat (imap (fun i c => own (i :: 2%nat :: s) m ann i c) (pod_Containers pod)).

Definition admission_list s m ann pod (l : list patch) : Prop :=
  l = own_list s m ann pod \/ l = patchVolumesForPinning processStarterPath (own_list s m ann pod) pod.

Definition admits s unmarshal pod l m ann : Prop :=
  pod_patch_list cfsQuotas processStarterPath env s unmarshal pod = Ok l /\
  getCPUPoolRequests (0%nat :: s) pod = Ok m /\
  read_annotation (1%nat :: s) unmarshal m pod = Ok ann.

Lemma admits_patches s unmarshal pod l : pod_patch_list cfsQuotas processStarterPath env s unmarshal pod = Ok l ->
  exists m ann, admits s unmarshal pod l m ann /\
    let l0 := own_list s m ann pod in
    (l = l0 /\ (existsb (pinningPatchNeeded m ann) (pod_Containers pod) = true ->
                exists v, v ∈ pod_Volumes pod /\ (v = "hostbin" \/ v = "podinfo"))) \/
    (l = patchVolumesForPinning processStarterPath l0 pod /\
     existsb (pinningPatchNeeded m ann) (pod_Containers pod) = true /\
     forall v, v ∈ pod_Volumes pod -> v <> "hostbin" /\ v <> "podinfo").
Proof.
  intros Hl. pose proof Hl as Hl'. unfold pod_patch_list in Hl.
  destruct (getCPUPoolRequests _ pod) as [m|e|p] eqn:Hm; [|done..]. simpl in Hl.
  destruct (read_annotation _ _ m pod) as [ann|e|p] eqn:Ha; [|done..]. simpl in Hl.
  exists m, ann. split; [done|]. cbv zeta. unfold pod_patches in Hl.
  pose proof (patch_containers_concat (2%nat :: s) m ann (pod_Containers pod) 0 [] false) as Hconcat.
  pose proof (patch_containers_pinned cfsQuotas processStarterPath env (2%nat :: s) m ann (pod_Containers pod) 0 ([], false)) as Hpin.
  destruct (patch_containers _ _ _ _ _ _ _ _ _) as [l0 pinned]. simpl in Hconcat, Hpin. subst l0 pinned.
  destruct (existsb (pinningPatchNeeded m ann) _).
  - destruct (existsb _ (pod_Volumes pod)) eqn:Hvol; injection Hl as <-; [left|right].
    + split; [done|]. intros _. apply existsb_exists in Hvol as (v & Hv & Hname). exists v.
      rewrite list_elem_of_In. split; [done|]. by rewrite orb_true_iff, !bool_decide_eq_true in Hname.
    + split; [done|]. split; [done|]. intros v Hv. apply not_true_iff_false in Hvol.
      rewrite existsb_exists in Hvol. setoid_rewrite <- list_elem_of_In in Hvol.
      split; intros ->; apply Hvol; eexists; (split; [done|]); rewrite orb_true_iff, !bool_decide_eq_true; tauto.
  - destruct (_ !! annotationNameFromConfig); [done|]. injection Hl as <-. left. split; [done|done].
Qed.

Lemma admission_paths s m ann pod l p : admission_list s m ann pod l -> p ∈ l ->
  plain (Path p) \/
  exists i c, pod_Containers pod !! i = Some c /\
    (Path p = container_path i +:+ "/env" /\ ctr_Env c = [] \/
     p = mkPatch "add" (command_path i) (json "[ '" +:+ processStarterPath +:+ json "' ]") /\
       pinningPatchNeeded m ann c = true).
Proof.
  intros Hl Hp. assert (p ∈ own_list s m ann pod \/ plain (Path p)) as [Hin|?].
  { destruct Hl as [->| ->]; [by left|]. unfold patchVolumesForPinning in Hp.
    rewrite !elem_of_app, !elem_of_cons, elem_of_nil, list_elem_of_fmap in Hp.
    destruct Hp as [?|[[->|[->|[]]]|(c' & -> & _)]]; [by left|right; plain..]. }
  2: by left.
  apply elem_of_concat_imap in Hin as (i & c & Hc & Hp').
  apply own_paths in Hp' as [?|?]; [by left|right; eauto].
Qed.

Lemma env_not_command i j : container_path i +:+ "/env" <> command_path j.
Proof. intros Heq%(f_equal last_two). unfold command_path in Heq. rewrite !last_two_app in Heq. vm_compute in Heq. discriminate. Qed.

(** A list of variables is only made where there is none. *)
Lemma admission_env s m ann pod l i c p : admission_list s m ann pod l -> pod_Containers pod !! i = Some c ->
  p ∈ l -> Path p = container_path i +:+ "/env" -> ctr_Env c = [].
Proof.
  intros Hl Hi Hp Hpath. destruct (admission_paths s m ann pod l p Hl Hp) as [Hplain|(j & c' & Hj & [[Hpath' He]|[-> _]])].
  - by apply plain_env with (i := i) in Hplain.
  - rewrite Hpath in Hpath'. apply container_path_inj in Hpath' as <-. congruence.
  - simpl in Hpath. by apply eq_sym, env_not_command in Hpath.
Qed.

Lemma admission_mounts s m ann pod l i p : admission_list s m ann pod l ->
  p ∈ l -> Path p <> container_path i +:+ "/volumeMounts".
Proof.
  intros Hl Hp. destruct (admission_paths s m ann pod l p Hl Hp) as [Hplain|(j & c' & Hj & [[-> _]|[-> _]])].
  - by apply plain_mounts.
  - intros Heq%(f_equal last_two). rewrite !last_two_app in Heq. vm_compute in Heq. discriminate.
  - intros Heq%(f_equal last_two). cbn [Path] in Heq. unfold command_path in Heq. rewrite !last_two_app in Heq. vm_compute in Heq. discriminate.
Qed.

Lemma admission_volumes s m ann pod l p : admission_list s m ann pod l -> p ∈ l -> Path p <> "/spec/volumes".
Proof.
  intros Hl Hp. destruct (admission_paths s m ann pod l p Hl Hp) as [Hplain|(j & c' & Hj & [[-> _]|[-> _]])].
  - intros Heq. unfold plain in Hplain. rewrite Heq in Hplain. vm_compute in Hplain. discriminate.
  - intros Heq%(f_equal last_two). rewrite last_two_app in Heq. vm_compute in Heq. discriminate.
  - intros Heq%(f_equal last_two). cbn [Path] in Heq. unfold command_path in Heq. rewrite last_two_app in Heq. vm_compute in Heq. discriminate.
Qed.

Lemma admission_command s m ann pod l i c p : admission_list s m ann pod l -> pod_Containers pod !! i = Some c ->
  p ∈ l -> Path p = command_path i ->
  p = mkPatch "add" (command_path i) (json "[ '" +:+ processStarterPath +:+ json "' ]") /\
  pinningPatchNeeded m ann c = true.
Proof.
  intros Hl Hi Hp Hpath. destruct (admission_paths s m ann pod l p Hl Hp) as [Hplain|(j & c' & Hj & [[Hpath' _]|[-> Hneed]])].
  - by apply plain_command with (i := i) in Hplain.
  - rewrite Hpath in Hpath'. by apply eq_sym, env_not_command in Hpath'.
  - apply container_path_inj in Hpath as ->. split; [done|congruence].
Qed.

(** The patches of a container within the list: what follows it concerns others. *)
Lemma admission_split s m ann pod l i c : admission_list s m ann pod l -> pod_Containers pod !! i = Some c ->
  exists before after, l = before ++ own (i :: 2%nat :: s) m ann i c ++ after /\
    forall p, p ∈ after -> Path p <> container_path i +:+ "/env".
Proof.
  intros Hl Hi.
  assert (exists before after, own_list s m ann pod = before ++ own (i :: 2%nat :: s) m ann i c ++ after /\
    forall p, p ∈ after -> Path p <> container_path i +:+ "/env") as (before & after & Heq & Hafter).
  { pose proof (take_drop_middle _ _ _ Hi) as Hmid. pose proof (lookup_lt_Some _ _ _ Hi) as Hlt.
    unfold own_list. eexists _, _. split.
    { rewrite <- Hmid at 1. rewrite imap_app, imap_cons, concat_app, length_take_le by lia. simpl.
      rewrite Nat.add_0_r. reflexivity. }
    intros p Hp.
    apply elem_of_concat_imap in Hp as (j & c' & _ & Hp). simpl in Hp. apply own_paths in Hp as [Hplain|[[-> _]|[-> _]]].
    - by apply plain_env.
    - intros Heq%container_path_inj. lia.
    - cbn [Path]. apply not_eq_sym, env_not_command. }
  destruct Hl as [->| ->]; [by exists before, after|]. exists before.
  unfold patchVolumesForPinning. rewrite Heq, <- !(assoc_L (++)). eexists. split; [reflexivity|].
  intros p [Hp|Hp]%elem_of_app; [by apply Hafter|]. apply plain_env.
  rewrite elem_of_app, !elem_of_cons, elem_of_nil, list_elem_of_fmap in Hp.
  destruct Hp as [[->|[->|[]]]|(c' & -> & _)]; plain.
Qed.

(** The command after the patches. *)
Lemma up_to_quote_app w rest : is_Some (up_to_quote (w +:+ String dquote rest)).
Proof.
  induction w as [|a w IH]; [by eexists|]. rewrite append_cons. cbn [up_to_quote]. case_decide; [by eexists|].
  destruct IH as [? ->]. by eexists.
Qed.

Lemma commands_after i l command :
  (forall p, p ∈ l -> Path p = command_path i ->
     p = mkPatch "add" (command_path i) (json "[ '" +:+ processStarterPath +:+ json "' ]")) ->
  fold_left (set_command (command_path i)) l command = command /\ (forall p, p ∈ l -> Path p <> command_path i) \/
  fold_left (set_command (command_path i)) l command <> [] /\ exists p, p ∈ l /\ Path p = command_path i.
Proof.
  revert command. induction l as [|p l IH] using rev_ind; intros command Hl.
  { left. split; [done|]. by intros p Hp%elem_of_nil. }
  rewrite fold_left_app. simpl. unfold set_command at 1 3.
  destruct (decide (Path p = command_path i)) as [Hp|Hp].
  - right. split; [|exists p; split; [apply elem_of_app; right; by left|done]].
    rewrite (Hl p) by (try apply elem_of_app; try right; try left; done). rewrite decide_True by done.
    destruct (up_to_quote_app processStarterPath " ]") as [w Hw]. cbn [Value].
    change (strip (json "[ '") (json "[ '" +:+ processStarterPath +:+ json "' ]"))
      with (Some (processStarterPath +:+ String dquote " ]")). cbn [mbind option_bind]. by rewrite Hw.
  - rewrite decide_False by (by intros [_ ?]).
    destruct (IH command) as [[Hc Hno]|[Hc (q & Hq & Hpath)]].
    + intros q Hq. apply Hl, elem_of_app. by left.
    + left. split; [done|]. intros q [Hq|Hq%list_elem_of_singleton]%elem_of_app; [by apply Hno|congruence].
    + right. split; [done|]. exists q. split; [apply elem_of_app; by left|done].
Qed.

(** ** The pod before and after *)

Lemma pinningPatchNeeded_same m m' ann c c' :
  ctr_Name c' = ctr_Name c -> same_totals (requests_of m (ctr_Name c)) (requests_of m' (ctr_Name c')) ->
  ctr_Command c' = ctr_Command c \/ pinningPatchNeeded m ann c = true /\ ctr_Command c' <> [] ->
  pinningPatchNeeded m' ann c' = pinningPatchNeeded m ann c.
Proof.
  intros Hname (Hs & He & Hc). unfold pinningPatchNeeded. cbv zeta. rewrite He, Hc, Hname.
  intros [->|[Hneed Hcmd]]; [done|]. rewrite (bool_decide_eq_false_2 (ctr_Command c' = [])) by done.
  revert Hneed. destruct (ContainerExists ann (ctr_Name c)), (bool_decide (ctr_Command c = [])),
    (exclusiveCPURequests _ >? 0), (cloudphoneCPURequests _ >? 0); done.
Qed.

Lemma Decode_stores unmarshal s s' ann text :
  (Decode unmarshal s ann text).1 = (Decode unmarshal s' ann text).1.
Proof. unfold Decode. by destruct (unmarshal text) as [containers []]. Qed.

Lemma read_annotation_same s s' unmarshal m m' pod pod' ann ann' :
  pod_Annotations pod' = pod_Annotations pod ->
  read_annotation s unmarshal m pod = Ok ann -> read_annotation s' unmarshal m' pod' = Ok ann' -> ann' = ann.
Proof.
  intros Hann Ha%read_annotation_Ok Ha'%read_annotation_Ok. rewrite Hann in Ha'.
  destruct (pod_Annotations pod !! annotationNameFromConfig) as [text|]; [|congruence].
  destruct Ha as [Ha _], Ha' as [Ha' _].
  pose proof (Decode_stores unmarshal (0%nat :: s) (0%nat :: s') NewCPUAnnotation text) as Hsame.
  rewrite Ha, Ha' in Hsame. done.
Qed.

Lemma patched_names l pod pod' : patched l pod pod' ->
  ctr_Name <$> pod_Containers pod' = ctr_Name <$> pod_Containers pod.
Proof.
  intros [_ _ Hlen Hcs]. apply list_eq_same_length with (n := length (pod_Containers pod)); [by rewrite length_fmap..|].
  intros i x y _. rewrite !list_lookup_fmap, !fmap_Some.
  intros (c' & Hc' & ->) (c & Hc & ->). symmetry. symmetry. by destruct (Hcs i c c' Hc Hc').
Qed.

Section twice.
Context (s s' : site) (unmarshal : string -> list Container * option string).
Context (pod pod' : v1_Pod) (l l' : list patch) (m m' : poolRequestMap) (ann : CPUAnnotation).
Hypothesis names : NoDup (ctr_Name <$> pod_Containers pod).
Hypothesis requests : getCPUPoolRequests (0%nat :: s) pod = Ok m.
Hypothesis requests' : getCPUPoolRequests (0%nat :: s') pod' = Ok m'.
Hypothesis change : patched l pod pod'.
Hypothesis first : admission_list s m ann pod l.

Lemma twice_totals i c c' : pod_Containers pod !! i = Some c -> pod_Containers pod' !! i = Some c' ->
  same_totals (requests_of m (ctr_Name c)) (requests_of m' (ctr_Name c')).
Proof.
  intros Hc Hc'. pose proof (getCPUPoolRequests_collects (0%nat :: s) pod names) as Hcol. rewrite requests in Hcol.
  pose proof (getCPUPoolRequests_collects (0%nat :: s') pod') as Hcol'.
  rewrite (patched_names l pod pod' change), requests' in Hcol'. specialize (Hcol' names).
  destruct Hcol as [Hcol _], Hcol' as [Hcol' _]. rewrite Forall_lookup in Hcol, Hcol'.
  apply (collected_totals (ctr_Limits c) (ctr_Limits c')); [|by apply (Hcol i)|by apply (Hcol' i)].
  by apply (pa_containers l pod pod' change i).
Qed.

Lemma twice_needed i c c' : pod_Containers pod !! i = Some c -> pod_Containers pod' !! i = Some c' ->
  pinningPatchNeeded m' ann c' = pinningPatchNeeded m ann c.
Proof.
  intros Hc Hc'. destruct (pa_containers l pod pod' change i c c' Hc Hc') as [Hname _ _ _ Hcmd].
  apply pinningPatchNeeded_same; [done|by apply (twice_totals i)|]. rewrite Hcmd.
  pose proof (fun p => admission_command s m ann pod l i c p first Hc) as Hset.
  destruct (commands_after i l (ctr_Command c)) as [[Heq _]|[Hne (p & Hp & Hpath)]].
  - intros p Hp Hpath. by apply Hset.
  - by left.
  - right. split; [|done]. by apply (Hset p).
Qed.

(** The traces of the webhook are in the pod that comes back. *)
Lemma twice_mounts i c c' : pod_Containers pod !! i = Some c -> pod_Containers pod' !! i = Some c' ->
  pinningPatchNeeded m ann c = true -> "podinfo" ∈ ctr_VolumeMounts c'.
Proof.
  intros Hc Hc' Hneed. apply (pc_mounts l i c c' (pa_containers l pod pod' change i c c' Hc Hc')).
  destruct (admission_split s m ann pod l i c first Hc) as (before & after & Hl & _).
  pose proof (fun p => admission_mounts s m ann pod l i p first) as Hno.
  destruct (decide ("podinfo" ∈ ctr_VolumeMounts c)) as [Hin|Hin]; [by apply names_after_keeps|].
  destruct (own_mounts (i :: 2%nat :: s) m ann i c Hneed Hin) as (l1 & p & l2 & Hown & Hb).
  rewrite Hown, <- (assoc_L (++)), (assoc_L (++)) in Hl. rewrite Hl in Hno |- *. simpl.
  apply names_after_brings; [done|]. intros q Hq. apply Hno, elem_of_app. right. by right.
Qed.

Lemma twice_env i c c' : pod_Containers pod !! i = Some c -> pod_Containers pod' !! i = Some c' ->
  (let r := requests_of m (ctr_Name c) in
   0 < sharedCPURequests r \/ 0 < exclusiveCPURequests r \/ 0 < cloudphoneCPURequests r) ->
  "CPU_POOLS" ∈ ctr_Env c'.
Proof.
  intros Hc Hc' Hany. apply (pc_env l i c c' (pa_containers l pod pod' change i c c' Hc Hc')).
  destruct (decide ("CPU_POOLS" ∈ ctr_Env c)) as [Hin|Hin].
  { apply names_after_keeps; [|done]. intros p Hp Hpath.
    rewrite (admission_env s m ann pod l i c p first Hc Hp Hpath) in Hin. by apply elem_of_nil in Hin. }
  destruct (admission_split s m ann pod l i c first Hc) as (before & after & -> & Hafter).
  destruct (own_env (i :: 2%nat :: s) m ann i c Hany Hin) as (l1 & p & -> & Hb).
  rewrite <- (assoc_L (++)), (assoc_L (++)). by apply names_after_brings.
Qed.

(** The second time every container only gets its limit. *)
Lemma twice_own i c' : pod_Containers pod' !! i = Some c' ->
  own (i :: 2%nat :: s') m' ann i c' = cpu_limit_patches i (limit (i :: 2%nat :: s') (requests_of m' (ctr_Name c'))).
Proof.
  intros Hc'. destruct (lookup_lt_is_Some_2 (pod_Containers pod) i) as [c Hc].
  { rewrite <- (pa_length l pod pod' change). by eapply lookup_lt_Some. }
  apply own_again.
  - rewrite (twice_needed i c c' Hc Hc'). by apply (twice_mounts i).
  - cbv zeta. destruct (twice_totals i c c' Hc Hc') as (-> & -> & ->). by apply (twice_env i c).
Qed.

Lemma twice_pinned : existsb (pinningPatchNeeded m' ann) (pod_Containers pod') =
  existsb (pinningPatchNeeded m ann) (pod_Containers pod).
Proof.
  apply eq_iff_eq_true. rewrite !existsb_exists. setoid_rewrite <- list_elem_of_In.
  pose proof (pa_length l pod pod' change) as Hlen. split; intros (c & [i Hi]%list_elem_of_lookup & Hneed).
  - destruct (lookup_lt_is_Some_2 (pod_Containers pod) i) as [c0 Hc0].
    { rewrite <- Hlen. by eapply lookup_lt_Some. }
    exists c0. split; [by eapply list_elem_of_lookup_2|]. by rewrite <- (twice_needed i c0 c).
  - destruct (lookup_lt_is_Some_2 (pod_Containers pod') i) as [c0 Hc0].
    { rewrite Hlen. by eapply lookup_lt_Some. }
    exists c0. split; [by eapply list_elem_of_lookup_2|]. by rewrite (twice_needed i c c0).
Qed.
End twice.

(** Without a container of both kinds the limits are the same, whatever the order of the maps. *)
Lemma limit_same s s' r r' : same_totals r r' ->
  cfsQuotas <> QuotaAll \/ exclusiveCPURequests r <= 0 \/ sharedCPURequests r <= 0 -> limit s' r' = limit s r.
Proof.
  intros (Hs & He & Hc) Hone. unfold totalCFSLimit. rewrite Hs, He, Hc.
  destruct (exclusiveCPURequests r >? 0) eqn:E1; simpl; [|done].
  case_bool_decide as Hq; simpl; [|done]. destruct (sharedCPURequests r >? 0) eqn:E2; [|done].
  to_prop. naive_solver lia.
Qed.

Lemma limit_patches_same s s' m m' pod pod' :
  length (pod_Containers pod') = length (pod_Containers pod) ->
  (forall i c c', pod_Containers pod !! i = Some c -> pod_Containers pod' !! i = Some c' ->
     limit (i :: s') (requests_of m' (ctr_Name c')) = limit (i :: s) (requests_of m (ctr_Name c))) ->
  limit_patches s' m' pod' = limit_patches s m pod.
Proof.
  intros Hlen Hlim. unfold limit_patches. f_equal.
  apply list_eq_same_length with (n := length (pod_Containers pod)); [by rewrite length_imap..|].
  intros i x y _. rewrite !list_lookup_imap, !fmap_Some.
  intros (c' & Hc' & ->) (c & Hc & ->). by rewrite (Hlim i c c').
Qed.

(** The volumes are not added again. *)
Lemma volumes_once s m ann l pod pod' pinned : patched l pod pod' ->
  (l = own_list s m ann pod /\ (pinned = true -> exists v, v ∈ pod_Volumes pod /\ (v = "hostbin" \/ v = "podinfo"))) \/
  l = patchVolumesForPinning processStarterPath (own_list s m ann pod) pod ->
  pinned = true -> exists v, v ∈ pod_Volumes pod' /\ (v = "hostbin" \/ v = "podinfo").
Proof.
  intros Hp Hform Hpinned.
  pose proof (fun p => admission_volumes s m ann pod l p ltac:(unfold admission_list; tauto)) as Hno.
  destruct Hform as [[_ Hvol]| ->].
  - destruct (Hvol Hpinned) as (v & Hv & Hname). exists v. split; [|done].
    apply (pa_volumes l pod pod' Hp). by apply names_after_keeps.
  - exists "podinfo". split; [|by right]. apply (pa_volumes _ pod pod' Hp).
    unfold patchVolumesForPinning in *. apply names_after_brings; [by apply (appends "/spec/volumes")|].
    intros q Hq. apply Hno, elem_of_app. right. by right.
Qed.
End readmission.

(** * Properties *)

Section properties.
Context `{CPUSetLib} `{RangeOrder}.
Context (cfsQuotas processStarterPath : string) (env : PoolEnv).

(** C29: The webhook patches a pod once.  When a pod that carries its patches is admitted again,
    the second list of patches is exactly the CPU limits of its containers, by path and
    value: nothing is added a second time.  The first list, without what it adds, has that
    form too, and the two are equal unless a container mixes exclusive and shared CPUs under
    [-cfs-quotas=all], where the limit may depend on the order in which pools are visited. *)
Theorem patching_is_idempotent s s' unmarshal pod pod' l l' :
  NoDup (ctr_Name <$> pod_Containers pod) ->
  pod_patch_list cfsQuotas processStarterPath env s unmarshal pod = Ok l ->
  patched l pod pod' ->
  pod_patch_list cfsQuotas processStarterPath env s' unmarshal pod' = Ok l' ->
  exists m m',
    getCPUPoolRequests (0%nat :: s) pod = Ok m /\ getCPUPoolRequests (0%nat :: s') pod' = Ok m' /\
    replacements l = limit_patches cfsQuotas env (2%nat :: s) m pod /\
    l' = limit_patches cfsQuotas env (2%nat :: s') m' pod' /\
    ((forall c, c ∈ pod_Containers pod -> cfsQuotas <> QuotaAll \/
        exclusiveCPURequests (requests_of m (ctr_Name c)) <= 0 \/
        sharedCPURequests (requests_of m (ctr_Name c)) <= 0) -> l' = replacements l).
Proof.
  intros Hnames Hl Hp Hl'.
  destruct (admits_patches _ _ _ _ _ _ _ Hl) as (m & ann & (_ & Hm & Ha) & Hfirst).
  destruct (admits_patches _ _ _ _ _ _ _ Hl') as (m' & ann' & (_ & Hm' & Ha') & Hsecond).
  cbv zeta in Hfirst, Hsecond.
  pose proof (read_annotation_same _ _ _ _ _ _ _ _ _ (pa_annotations _ _ _ Hp) Ha Ha') as ->.
  assert (admission_list cfsQuotas processStarterPath env s m ann pod l) as Hform by (unfold admission_list; tauto).
  assert (replacements l = limit_patches cfsQuotas env (2%nat :: s) m pod) as Hrep.
  { transitivity (replacements (own_list cfsQuotas processStarterPath env s m ann pod));
      [destruct Hform as [->| ->]; [done|apply replacements_volumes]|].
    apply replacements_concat. intros i c. apply replacements_own. }
  assert (l' = limit_patches cfsQuotas env (2%nat :: s') m' pod') as Hagain.
  { transitivity (own_list cfsQuotas processStarterPath env s' m' ann pod').
    - destruct Hsecond as [[-> _]|(_ & Hpinned & Hno)]; [done|]. exfalso.
      rewrite (twice_pinned cfsQuotas processStarterPath env s s' pod pod' l m m' ann Hnames Hm Hm' Hp Hform) in Hpinned.
      destruct (volumes_once cfsQuotas processStarterPath env s m ann l pod pod' _ Hp ltac:(tauto) Hpinned) as (v & Hv & Hname).
      specialize (Hno v Hv). tauto.
    - apply concat_imap_ext. intros i c Hc. by eapply twice_own. }
  exists m, m'. do 4 (split; [done|]). intros Hone. rewrite Hagain, Hrep.
  apply limit_patches_same; [apply (pa_length _ _ _ Hp)|]. intros i c c' Hc Hc'.
  assert (same_totals (requests_of m (ctr_Name c)) (requests_of m' (ctr_Name c'))) as Hsame
    by by eapply twice_totals.
  pose proof (Hone c ltac:(by eapply list_elem_of_lookup_2)) as Hc1.
  by rewrite (limit_same cfsQuotas env (i :: 2%nat :: s) (i :: 2%nat :: s') _ _ Hsame Hc1).
Qed.
End properties.

(** * Witness *)

Module witness.
Import example.
#[local] Existing Instance list_cpuset.lib.
#[local] Existing Instance range_forward.

(** A container for both kinds of CPUs, with the mount of its service account. *)
Definition mixed : v1_Container :=
  mk_v1_Container "app" (ctr_Limits app) ∅ [] ["token"] ["/bin/app"; "-v"] ["x"] None.

Definition first : v1_Pod := pod_with [side; mixed] ∅ ["token"].

Definition first_list : list patch :=
  match pod_patch_list "all" "/starter" pool_env [] unmarshal first with Ok l => l | _ => [] end.

(** The pod that comes back, to which another webhook has added a variable. *)
Definition mixed_again : v1_Container :=
  mk_v1_Container "app" (ctr_Limits app) ∅ ["CONTAINER_NAME"; "CPU_POOLS"; "PROXY"]
    ["token"; "podinfo"; "hostbin"; "cpu-app"] ["/starter"] ["/bin/app"; "-v"; "x"] None.

Definition second : v1_Pod :=
  pod_with [side; mixed_again] ∅ ["token"; "podinfo"; "hostbin"; "cpu-side"; "cpu-app"].

Lemma second_patched : patched first_list first second.
Proof.
  split; [reflexivity| |reflexivity|].
  - apply (bool_decide_unpack _). vm_compute. done.
  - intros [|[|i]] c c' [= <-] [= <-];
      (split; [done|done|apply (bool_decide_unpack _); vm_compute; done..|vm_compute; reflexivity]).
Qed.
End witness.

Section witnesses.
Import example witness.
#[local] Existing Instance list_cpuset.lib.
#[local] Existing Instance range_forward.

(** Thirteen patches the first time, the limit and the request the second. *)
Example first_and_second : length first_list = 13%nat /\
  pod_patch_list "all" "/starter" pool_env [] unmarshal second = Ok (cpu_limit_patches 1 3000).
Proof. split; vm_compute; reflexivity. Qed.

Lemma patching_is_idempotent_witness : exists l',
  pod_patch_list "all" "/starter" pool_env [] unmarshal second = Ok l' /\
  exists m', l' = limit_patches "all" pool_env [2%nat] m' second.
Proof.
  eexists. split; [vm_compute; reflexivity|].
  edestruct (patching_is_idempotent "all" "/starter" pool_env [] [] unmarshal first second first_list)
    as (m & m' & _ & _ & _ & Hl' & _); [| |exact second_patched|vm_compute; reflexivity|exists m'; exact Hl'].
  - vm_compute. repeat constructor; set_solver.
  - vm_compute. reflexivity.
Defined.
End witnesses.
