(* ===== verification/AccessLog.v ===== *)
(** * The access log of the webhook: [cmd/webhook/fasthttplog.go]

    Wrappers around a request handler that print one line per answered request.  What they
    read of a request and its answer is [RequestCtx]; the clock, the text of a time and of a
    duration are arguments.  The log is the list of printed lines. *)

From S2P Require Import Prelude GoStrings.
From Stdlib Require Import Ascii.
Local Open Scope Z_scope.

(** ** [fmt.Sprintf] with the verbs [%s] and [%v], the operands being printed already *)

Fixpoint Sprintf (format : string) (a : list string) : string :=
  match format with
  | EmptyString => EmptyString
  | String c format' =>
      match format' with
      | String verb rest =>
          if Ascii.eqb c "%" && (Ascii.eqb verb "s" || Ascii.eqb verb "v")
          then match a with
               | x :: a => x +:+ Sprintf rest a
               | [] => "%!" +:+ String verb ("(MISSING)" +:+ Sprintf rest [])
               end
          else String c (Sprintf format' a)
      | EmptyString => String c EmptyString
      end
  end.

(** A logger ends each line that is not ended. *)
Fixpoint end_line (s : string) : string :=
  match s with
  | EmptyString => String "010" EmptyString
  | String c EmptyString => if decide (c = "010"%char) then s else String c (String "010" EmptyString)
  | String c s' => String c (end_line s')
  end.

(** ** Colors *)

Definition bytes (l : list ascii) : string := fold_right String EmptyString l.

Definition esc : ascii := "027".

Definition green : string := bytes [esc; "["; "0"; "0"; ":"; "3"; "2"; "m"]%char.
Definition yellow : string := bytes [esc; "["; "0"; "0"; ";"; "3"; "3"; "m"]%char.
Definition red : string := bytes [esc; "["; "0"; "0"; ";"; "3"; "1"; "m"]%char.
Definition blue : string := bytes [esc; "["; "0"; "0"; ";"; "3"; "4"; "m"]%char.
Definition white : string := bytes [esc; "["; "0"; "m"]%char.

Definition getColorByStatus (code : Z) : string :=
  if (200 <=? code) && (code <? 300) then green
  else if (300 <=? code) && (code <? 400) then blue
  else if (400 <=? code) && (code <? 500) then yellow
  else red.

Definition colorStatus (code : Z) : string := getColorByStatus code +:+ Itoa code +:+ white.

Definition colorMethod (method : string) (code : Z) : string :=
  getColorByStatus code +:+ method +:+ white.

(** ** Requests and handlers *)

Section requests.
Context {answer : Type}.

Record RequestCtx := mkCtx {
  Method : string;
  RequestURI : string;
  RemoteAddr : string;
  UserAgent : string;
  ContentType : string;
  Body : string;
  (** the response: its header's protocol and status, and what was written *)
  IsHTTP11 : bool;
  StatusCode : Z;
  Written : answer
}.

Definition getHttp (ctx : RequestCtx) : string :=
  if IsHTTP11 ctx then "HTTP/1.1" else "HTTP/1.0".

(** A handler changes the context and the log, or panics. *)
Definition RequestHandler : Type := list string -> RequestCtx -> list string * res Empty_set RequestCtx.

(** [output.Printf] *)
Definition Printf (format : string) (a : list string) (log : list string) : list string :=
  log ++ [end_line (Sprintf format a)].

Context (Format Duration : Z -> string).

(** A wrapper: [begin] and [end] are the readings of the clock. *)
Definition logged (format : string) (a : RequestCtx -> list string) (req : RequestHandler) : RequestHandler :=
  fun log ctx =>
    match req log ctx with
    | (log, Ok ctx) => (Printf format (a ctx) log, Ok ctx)
    | (log, r) => (log, r)
    end.

Context (begin_ end_ : Z).

Definition Tiny : RequestHandler -> RequestHandler :=
  logged "%s %s - %v - %v" (fun ctx =>
    [Method ctx; RequestURI ctx; Itoa (StatusCode ctx); Duration (end_ - begin_)]).

Definition TinyColored : RequestHandler -> RequestHandler :=
  logged "%s %s - %v - %v" (fun ctx =>
    [colorMethod (Method ctx) (StatusCode ctx); RequestURI ctx; colorStatus (StatusCode ctx);
     Duration (end_ - begin_)]).

Definition Short : RequestHandler -> RequestHandler :=
  logged "%v | %s | %s %s - %v - %v" (fun ctx =>
    [RemoteAddr ctx; getHttp ctx; Method ctx; RequestURI ctx; Itoa (StatusCode ctx);
     Duration (end_ - begin_)]).

Definition ShortColored : RequestHandler -> RequestHandler :=
  logged "%v | %s | %s %s - %v - %v" (fun ctx =>
    [RemoteAddr ctx; getHttp ctx; colorMethod (Method ctx) (StatusCode ctx); RequestURI ctx;
     colorStatus (StatusCode ctx); Duration (end_ - begin_)]).

Definition Combined : RequestHandler -> RequestHandler :=
  logged "[%v] %v | %s | %s %s - %v - %v | %s" (fun ctx =>
    [Format end_; RemoteAddr ctx; getHttp ctx; Method ctx; RequestURI ctx; Itoa (StatusCode ctx);
     Duration (end_ - begin_); UserAgent ctx]).

Definition CombinedColored : RequestHandler -> RequestHandler :=
  logged "[%v] %v | %s | %s %s - %v - %v | %s" (fun ctx =>
    [Format end_; RemoteAddr ctx; getHttp ctx; colorMethod (Method ctx) (StatusCode ctx);
     RequestURI ctx; colorStatus (StatusCode ctx); Duration (end_ - begin_); UserAgent ctx]).
End requests.

Arguments RequestCtx : clear implicits.
Arguments RequestHandler : clear implicits.

(** * Lemmas *)

(** ** What a terminal shows: a text without its color codes *)

Fixpoint strip (in_code : bool) (s : string) : string :=
  match s with
  | EmptyString => EmptyString
  | String c s =>
      if in_code then strip (negb (bool_decide (c = "m"%char))) s
      else if decide (c = esc) then strip true s
      else String c (strip false s)
  end.

Definition shown (s : string) : string := strip false s.

Lemma shown_free s t : free_of esc s -> shown (s +:+ t) = s +:+ shown t.
Proof.
  unfold shown. induction s as [|c s IH]; [done|]. intros [Hc Hs]. rewrite !append_cons. cbn [strip].
  rewrite decide_False by done. by rewrite IH.
Qed.

Lemma shown_all s : free_of esc s -> shown s = s.
Proof. intros Hs. rewrite <- (append_nil_r s) at 1. by rewrite shown_free, append_nil_r. Qed.

Lemma shown_color code t : shown (getColorByStatus code +:+ t) = shown t.
Proof. unfold getColorByStatus. by repeat case_match. Qed.

Lemma shown_white t : shown (white +:+ t) = shown t.
Proof. done. Qed.

Create Rewrite HintDb shown.
#[export] Hint Rewrite shown_color shown_white append_assoc append_cons append_nil_l : shown.

Lemma shown_method method code t : free_of esc method ->
  shown (colorMethod method code +:+ t) = method +:+ shown t.
Proof. intros Hm. unfold colorMethod. autorewrite with shown. by rewrite shown_free, shown_white. Qed.

Lemma free_of_esc_Itoa n : free_of esc (Itoa n).
Proof.
  assert (forall d, 0 <= d < 10 -> digit_char d <> esc) as Hd by (apply digit_char_not; reflexivity).
  unfold Itoa. destruct (n <? 0) eqn:E; to_prop; [split; [done|]|]; apply free_of_digits; (lia || done).
Qed.

Lemma shown_status code t : shown (colorStatus code +:+ t) = Itoa code +:+ shown t.
Proof.
  unfold colorStatus. autorewrite with shown. by rewrite shown_free, shown_white by apply free_of_esc_Itoa.
Qed.

Lemma shown_char c t : c <> esc -> shown (String c t) = String c (shown t).
Proof. intros Hc. unfold shown. cbn [strip]. by rewrite decide_False. Qed.

(** The texts of the request and of the clock hold no escape character. *)
Record plain_texts {answer} (Format Duration : Z -> string) (ctx : RequestCtx answer) : Prop := {
  plain_method : free_of esc (Method ctx);
  plain_uri : free_of esc (RequestURI ctx);
  plain_addr : free_of esc (RemoteAddr ctx);
  plain_agent : free_of esc (UserAgent ctx);
  plain_time t : free_of esc (Format t);
  plain_duration t : free_of esc (Duration t)
}.
(** The wrappers of the package, in pairs without and with colors. *)
Inductive layout := TinyLayout | ShortLayout | CombinedLayout.

Definition wrapper {answer} (Format Duration : Z -> string) (begin_ end_ : Z) (l : layout) (colored : bool)
    : RequestHandler answer -> RequestHandler answer :=
  match l, colored with
  | TinyLayout, false => Tiny Duration begin_ end_
  | TinyLayout, true => TinyColored Duration begin_ end_
  | ShortLayout, false => Short Duration begin_ end_
  | ShortLayout, true => ShortColored Duration begin_ end_
  | CombinedLayout, false => Combined Format Duration begin_ end_
  | CombinedLayout, true => CombinedColored Format Duration begin_ end_
  end.

(** ** The ends of lines *)

Lemma end_line_app s t : t <> "" -> end_line (s +:+ t) = s +:+ end_line t.
Proof.
  intros Ht. induction s as [|c s IH]; [done|]. rewrite !append_cons. cbn [end_line]. rewrite IH.
  destruct s as [|d s]; [|done]. by destruct t.
Qed.

Lemma free_of_end_line s : free_of esc s -> free_of esc (end_line s).
Proof.
  induction s as [|c s IH]; [done|]. intros [Hc Hs]. cbn [end_line]. destruct s as [|d s].
  - by case_decide.
  - split; [done|]. by apply IH.
Qed.

(** The line [s] shows as [t] when both are printed. *)
Record shows (s t : string) : Prop := {
  shows_line : shown (end_line s) = end_line t;
  shows_left : s <> "";
  shows_right : t <> ""
}.

Lemma shows_end c s : free_of esc (String c s) -> shows (String c s) (String c s).
Proof. intros Hs. split; [|done..]. by apply shown_all, free_of_end_line. Qed.

(** A part in front that shows as [b]. *)
Lemma shows_part a b s t : (forall y, shown (a +:+ y) = b +:+ shown y) -> shows s t ->
  shows (a +:+ s) (b +:+ t).
Proof.
  intros Hab [Hl Hs Ht]. split.
  - by rewrite !end_line_app, Hab, Hl by done.
  - destruct a; [done|]. discriminate.
  - destruct b; [done|]. discriminate.
Qed.

Lemma shows_text a s t : free_of esc a -> shows s t -> shows (a +:+ s) (a +:+ t).
Proof. intros Ha. apply shows_part. intros y. by apply shown_free. Qed.

Lemma shows_char c s t : c <> esc -> shows s t -> shows (String c s) (String c t).
Proof. intros Hc. by apply (shows_text (String c "")). Qed.

Lemma shows_method method code s t : free_of esc method -> shows s t ->
  shows (colorMethod method code +:+ s) (method +:+ t).
Proof. intros Hm. apply shows_part. intros y. by apply shown_method. Qed.

Lemma shows_status code s t : shows s t -> shows (colorStatus code +:+ s) (Itoa code +:+ t).
Proof. apply shows_part, shown_status. Qed.

Lemma free_of_app c s t : free_of c s -> free_of c t -> free_of c (s +:+ t).
Proof. intros Hs Ht. induction s as [|d s IH]; [done|]. destruct Hs as [Hd Hs]. split; auto. Qed.

Lemma free_of_getHttp {answer} (ctx : RequestCtx answer) : free_of esc (getHttp ctx).
Proof. unfold getHttp. by destruct (IsHTTP11 ctx). Qed.

#[export] Hint Resolve free_of_getHttp : pooler.

Ltac shows :=
  repeat match goal with
  | |- shows ?s ?s => apply shows_end; repeat first [apply free_of_app | split; [discriminate|]]; auto
  | |- shows (colorMethod _ _ +:+ _) _ => apply shows_method; [assumption|]
  | |- shows (colorStatus _ +:+ _) _ => apply shows_status
  | |- shows (String _ _) _ => apply shows_char; [discriminate|]
  | |- shows (_ +:+ _) _ => apply shows_text; [auto with pooler|]
  end.

(** * Properties *)

Section properties.
Context {answer : Type} (Format Duration : Z -> string) (begin_ end_ : Z).
Implicit Types (req : RequestHandler answer) (ctx : RequestCtx answer).

(** Each wrapper answers as its handler does, panics included, and prints one line after
    the handler returned and none when it panics. *)
Theorem wrappers_are_transparent l colored req log ctx :
  let '(log1, answered) := req log ctx in
  let '(log2, answered') := wrapper Format Duration begin_ end_ l colored req log ctx in
  answered' = answered /\
  match answered with
  | Ok _ => exists line, log2 = log1 ++ [line] /\ line <> ""
  | _ => log2 = log1
  end.
Proof.
  assert (forall s, end_line s <> "") as Hne by (intros [|c [|]]; simpl; try case_decide; done).
  destruct l, colored; cbn [wrapper];
    unfold Tiny, TinyColored, Short, ShortColored, Combined, CombinedColored, logged, Printf;
    destruct (req log ctx) as [log1 [ctx1|[]|p]]; (split; [reflexivity|]); try reflexivity;
    (eexists; split; [reflexivity|apply Hne]).
Qed.

(** The colored wrappers print what the plain ones print: on a terminal, which hides the
    color codes, their lines are the same. *)
Theorem colored_lines_show_plain l req log ctx log1 ctx1 :
  req log ctx = (log1, Ok ctx1) -> plain_texts Format Duration ctx1 ->
  exists plain colored,
    wrapper Format Duration begin_ end_ l false req log ctx = (log1 ++ [plain], Ok ctx1) /\
    wrapper Format Duration begin_ end_ l true req log ctx = (log1 ++ [colored], Ok ctx1) /\
    shown colored = plain.
Proof.
  intros Hreq [Hm Hu Ha Hg Ht Hd].
  destruct l; cbn [wrapper];
    unfold Tiny, TinyColored, Short, ShortColored, Combined, CombinedColored, logged, Printf;
    rewrite Hreq; eexists (end_line (Sprintf _ _)), (end_line (Sprintf _ _));
    (split; [reflexivity|]); (split; [reflexivity|]);
    cbn [Sprintf Ascii.eqb Bool.eqb andb orb]; apply shows_line; rewrite ?append_nil_r; shows.
Qed.

(** The parameters of a select-graphic-rendition sequence: decimal numbers between the
    introducer [ESC \[] and the final [m], separated by semicolons. *)
Definition sgr_parameters (s : string) : option (list Z) :=
  match s with
  | String e (String b s) =>
      if decide (e = esc /\ b = "["%char /\ TrimSuffix1 s "m" <> s) then
        mapM (fun w => match ParseUint w 8 with (n, None) => Some n | _ => None end)
          (Split (TrimSuffix1 s "m") ";")
      else None
  | _ => None
  end.

(** The four colors: green, for the requests that succeed, is not a sequence a terminal knows. *)
Lemma green_is_malformed :
  sgr_parameters green = None /\ sgr_parameters blue = Some [0; 34] /\
  sgr_parameters yellow = Some [0; 33] /\ sgr_parameters red = Some [0; 31] /\
  forall code, 200 <= code < 300 -> getColorByStatus code = green.
Proof.
  repeat split. intros code Hcode. unfold getColorByStatus.
  by replace ((200 <=? code) && (code <? 300)) with true by (symmetry; rewrite andb_true_iff; lia).
Qed.
End properties.

(** ** Witnesses *)

Module log_example.
Definition request : RequestCtx string :=
  mkCtx "GET" "/hello" "127.0.0.1:54082" "Paw/3.1.1" "" "" true 200 "hello".

Definition respond : RequestHandler string := fun log ctx => (log, Ok ctx).

Definition format (t : Z) : string := "2017/05/31 - 13:27:28".
Definition duration (d : Z) : string := Itoa d +:+ "ns".
End log_example.

Section witnesses.
Import log_example.

Lemma log_line : (Combined format duration 100 148 respond [] request).1 =
  ["[2017/05/31 - 13:27:28] 127.0.0.1:54082 | HTTP/1.1 | GET /hello - 200 - 48ns | Paw/3.1.1" +:+
   String "010" ""].
Proof. reflexivity. Qed.

Lemma colored_lines_show_plain_witness : exists plain colored,
  TinyColored duration 100 148 respond [] request = ([colored], Ok request) /\
  Tiny duration 100 148 respond [] request = ([plain], Ok request) /\ shown colored = plain.
Proof.
  destruct (colored_lines_show_plain format duration 100 148 TinyLayout respond [] request [] request)
    as (plain & colored & Hp & Hc & Hs).
  - reflexivity.
  - split; [repeat (split; [discriminate|]); exact I..| |].
    + intros t. repeat (split; [discriminate|]). exact I.
    + intros t. apply free_of_app; [apply free_of_esc_Itoa|]. repeat (split; [discriminate|]). exact I.
  - exists plain, colored. split; [exact Hc|]. split; [exact Hp|exact Hs].
Defined.
End witnesses.
