(* ===== verification/WebhookServer.v ===== *)
(** * The webhook as a server: [main] of [cmd/webhook/webhook.go], lines 514-552

    Flags, certificate and listener, and the requests one after the other: the router, the
    handler [serveMutatePod] of [Webhook] behind the access log [Combined] of [AccessLog].
    TLS, the listener, the router's matching and its answer to other paths are arguments.
    Neither the router nor the adaptor to [fasthttp] recovers from a panic of a handler. *)

From S2P Require Import Prelude GoStrings Cpuset K8s Pools Annotation WebhookRequests Webhook AccessLog.
Local Open Scope Z_scope.

(** ** Flags *)

Record arguments := mkArgs {
  tls_cert_file : option string;
  tls_private_key_file : option string;
  process_starter_path : option string;
  cfs_quotas : option string
}.

Record settings := mkSettings {
  certFile : string;
  keyFile : string;
  processStarterPath : string;
  cfsQuotas : string
}.

Definition parse_flags (args : arguments) : settings :=
  mkSettings (default "" (tls_cert_file args)) (default "" (tls_private_key_file args))
    (default "/opt/bin/cloudphone-process-starter" (process_starter_path args))
    (default QuotaAll (cfs_quotas args)).

Inductive server_error := NoKeyPair.

(** The error of [net.Listen] is overwritten by that of [fasthttp.Serve], whose first [Accept]
    goes to the listener; a nil listener is dereferenced there.  [Ok]: the server accepts
    requests. *)
Definition main (LoadX509KeyPair : string -> string -> bool) (Listen : string -> bool) (args : arguments)
    : res server_error settings :=
  let st := parse_flags args in
  if negb (LoadX509KeyPair (certFile st) (keyFile st)) then Err NoKeyPair
  else if Listen ":443" then Ok st else Panic NilDereference.

(** ** Requests *)

Section server.
Context `{CPUSetLib} `{RangeOrder}.

Definition Ctx : Type := RequestCtx (option AdmissionResponse).

(** What the server meets: the pool configuration, the decoders, the router. *)
Record web := {
  web_pools : PoolEnv;
  decode_review : string -> option AdmissionRequest * bool;
  decode_pod : string -> option v1_Pod;
  unmarshal : string -> list Container * option string;
  marshal : list patch -> option string;
  (** the path of a request as the router sees it *)
  path_of : Ctx -> string;
  NotFound : Ctx -> Ctx;
  Format : Z -> string;
  Duration : Z -> string
}.

Definition answer (ctx : Ctx) (a : option AdmissionResponse) : Ctx :=
  mkCtx (Method ctx) (RequestURI ctx) (RemoteAddr ctx) (UserAgent ctx) (ContentType ctx) (Body ctx)
    (IsHTTP11 ctx) (StatusCode ctx) a.

(** [r.Handler]: any method on [/mutating-pods] goes to [serveMutatePod]. *)
Definition Handler (w : web) (st : settings) (s : site) : RequestHandler (option AdmissionResponse) :=
  fun log ctx =>
    if decide (path_of w ctx = "/mutating-pods") then
      match serveMutatePod (cfsQuotas st) (processStarterPath st) (web_pools w) s (decode_review w)
              (decode_pod w) (unmarshal w) (marshal w) (ContentType ctx) (Body ctx) with
      | Ok a => (log, Ok (answer ctx a))
      | Err _ => (log, Ok ctx)
      | Panic p => (log, Panic p)
      end
    else (log, Ok (NotFound w ctx)).

(** A request, with the readings of the clock before and after it is handled. *)
Record request := mkRequestAt { ctx_of : Ctx; began : Z; ended : Z }.

Definition serve_request (w : web) (st : settings) (s : site) (r : request)
    : list string -> list string * res Empty_set Ctx :=
  fun log => Combined (Format w) (Duration w) (began r) (ended r) (Handler w st s) log (ctx_of r).

(** The answers to a list of requests; a panic ends the process.  Requests that overlap in
    time share no state but the log. *)
Fixpoint serve (w : web) (st : settings) (s : site) (i : nat) (rs : list request) (log : list string)
    : list string * list Ctx * option panic :=
  match rs with
  | [] => (log, [], None)
  | r :: rs =>
      match serve_request w st (i :: s) r log with
      | (log, Ok ctx) =>
          let '(log, answers, p) := serve w st s (S i) rs log in (log, ctx :: answers, p)
      | (log, Panic p) => (log, [], Some p)
      | (log, Err e) => match e with end
      end
  end.
End server.

(** * Lemmas *)

Section facts.
Context `{CPUSetLib} `{RangeOrder}.
Implicit Types (w : web) (st : settings) (s : site) (r : request).

(** A request that kills the process. *)
Definition deadly w r : Prop :=
  path_of w (ctx_of r) = "/mutating-pods" /\ ContentType (ctx_of r) = "application/json" /\
  unanswerable (decode_review w (Body (ctx_of r))).

Lemma serve_never_fails w st s contentType body e :
  serveMutatePod (cfsQuotas st) (processStarterPath st) (web_pools w) s (decode_review w) (decode_pod w)
    (unmarshal w) (marshal w) contentType body <> Err e.
Proof.
  unfold serveMutatePod. case_decide; [done|]. destruct (decode_review w body) as [[request|] []]; simpl; try done.
  unfold mutatePods. repeat case_match; simplify_eq/=; try done; by repeat case_match.
Qed.

(** The answer to a request that does not kill the process. *)
Definition answered w st s r (ctx : Ctx) : Prop :=
  if decide (path_of w (ctx_of r) = "/mutating-pods") then
    exists a, serveMutatePod (cfsQuotas st) (processStarterPath st) (web_pools w) s (decode_review w)
      (decode_pod w) (unmarshal w) (marshal w) (ContentType (ctx_of r)) (Body (ctx_of r)) = Ok a /\
      ctx = answer (ctx_of r) a
  else ctx = NotFound w (ctx_of r).

Lemma serve_request_spec w st s r log :
  (deadly w r /\ exists p, serve_request w st s r log = (log, Panic p)) \/
  (~ deadly w r /\ exists line ctx, serve_request w st s r log = (log ++ [line], Ok ctx) /\
     answered w st s r ctx).
Proof.
  unfold serve_request, Combined, logged, Handler, answered, deadly, Printf.
  case_decide as Hp; [|right; split; [tauto|]; by do 2 eexists].
  pose proof (serve_panics (cfsQuotas st) (processStarterPath st) (web_pools w) s (decode_review w)
    (decode_pod w) (unmarshal w) (marshal w) (ContentType (ctx_of r)) (Body (ctx_of r))) as Hpanic.
  destruct (serveMutatePod _ _ _ _ _ _ _ _ _ _) as [a|e|p] eqn:Hs; simpl in Hpanic.
  - right. split; [|do 2 eexists; split; [done|]; by exists a]. intros (_ & Hd%Hpanic). done.
  - by apply serve_never_fails in Hs.
  - left. split; [|by exists p]. split; [done|]. by apply Hpanic.
Qed.

Lemma serve_spec w st s rs : forall i log,
  let '(log', answers, p) := serve w st s i rs log in
  length log' = (length log + length answers)%nat /\
  (forall j r ctx, rs !! j = Some r -> answers !! j = Some ctx ->
     ~ deadly w r /\ answered w st ((i + j)%nat :: s) r ctx) /\
  match rs !! length answers with
  | None => p = None /\ length answers = length rs
  | Some r => deadly w r /\ p <> None
  end.
Proof.
  induction rs as [|r rs IH]; intros i log; cbn [serve].
  { split_and!; [simpl; lia|by intros j r ctx; rewrite lookup_nil|done]. }
  destruct (serve_request_spec w st (i :: s) r log) as [[Hd [p ->]]|(Hd & line & ctx & -> & Ha)].
  - split_and!; [simpl; lia|intros j r' ctx _; by rewrite lookup_nil|done..].
  - specialize (IH (S i) (log ++ [line])). destruct (serve w st s (S i) rs (log ++ [line])) as [[log' answers] p].
    destruct IH as (Hlog & Hans & Hend). rewrite length_app in Hlog. simpl in *. split_and!; [lia| |].
    + intros [|j] r' ctx' Hr' Hc'; simplify_eq/=; [by rewrite Nat.add_0_r|].
      rewrite Nat.add_succ_r. by apply (Hans j).
    + destruct (rs !! length answers); [done|]. destruct Hend. split; [done|lia].
Qed.
End facts.

(** * Properties *)

Section properties.
Context `{CPUSetLib} `{RangeOrder}.

(** C31: The webhook answers requests, one line of log each, until the first one that carries a
    review without request or for another resource as JSON: that one ends the process,
    without a line.  Each request before it to [/mutating-pods] gets the answer of
    [serveMutatePod]. *)
Theorem webhook_lives_until_deadly w st s rs log :
  let '(log', answers, p) := serve w st s 0 rs log in
  length log' = (length log + length answers)%nat /\
  (p = None <-> Forall (fun r => ~ deadly w r) rs) /\
  (forall j r ctx, rs !! j = Some r -> answers !! j = Some ctx ->
     ~ deadly w r /\ answered w st (j :: s) r ctx) /\
  match rs !! length answers with
  | None => length answers = length rs
  | Some r => deadly w r
  end.
Proof.
  pose proof (serve_spec w st s rs 0 log) as Hspec.
  destruct (serve w st s 0 rs log) as [[log' answers] p]. destruct Hspec as (Hlog & Hans & Hend).
  split; [done|]. split; [|split; [done|by destruct (rs !! length answers); destruct Hend]].
  destruct (rs !! length answers) as [r|] eqn:Hr; destruct Hend as [Hd Hp].
  - split; [done|]. intros Hall. rewrite Forall_lookup in Hall. by destruct (Hall _ _ Hr).
  - split; [|done]. intros _. apply Forall_lookup. intros j r Hj.
    destruct (lookup_lt_is_Some_2 answers j) as [ctx Hctx]; [rewrite Hp; by eapply lookup_lt_Some|].
    by destruct (Hans j r ctx Hj Hctx).
Qed.

(** The server starts exactly with a key pair and a listener; without a listener it panics,
    since the error of [net.Listen] is not looked at. *)
Theorem main_starts LoadX509KeyPair Listen args :
  let st := parse_flags args in
  (main LoadX509KeyPair Listen args = Ok st <->
     LoadX509KeyPair (certFile st) (keyFile st) = true /\ Listen ":443" = true) /\
  (main LoadX509KeyPair Listen args = Panic NilDereference <->
     LoadX509KeyPair (certFile st) (keyFile st) = true /\ Listen ":443" = false).
Proof.
  cbv zeta. unfold main. destruct (LoadX509KeyPair _ _), (Listen ":443"); simpl; naive_solver.
Qed.

(** A value of [-cfs-quotas] that is none of the two documented ones means [shared]. *)
Theorem unknown_quota_is_shared quotas env s r patchList i :
  quotas <> QuotaAll ->
  setRequestLimit quotas env s r patchList i = setRequestLimit QuotaShared env s r patchList i.
Proof.
  intros Hq. unfold setRequestLimit, totalCFSLimit. rewrite (bool_decide_false (quotas = QuotaAll)) by done.
  by rewrite (bool_decide_false (QuotaShared = QuotaAll)) by done.
Qed.
End properties.
