(* ===== verification/Checkpoint.v ===== *)
(** * Kubelet checkpoints: [pkg/checkpoint/checkpoint.go], [pkg/types/type.go], [pkg/utils/util.go] lines 37-87

    The two layouts of the device manager's checkpoint, the translation of the per-NUMA
    layout to the flat one, and the reader [GetCheckpointData].  Reading the file and the
    JSON decoders are arguments. *)

From S2P Require Import Prelude.
Local Open Scope Z_scope.

(** ** The layouts *)

Record PodDevicesEntry := mkEntry {
  PodUID : string;
  ContainerName : string;
  ResourceName : string;
  DeviceIDs : list string
}.

(** From Kubernetes 1.21 on the device IDs are listed per NUMA node. *)
Record NewPodDevicesEntry := mkNewEntry {
  new_PodUID : string;
  new_ContainerName : string;
  new_ResourceName : string;
  new_DeviceIDs : gmap Z (list string)
}.

(** [File] and [NewFile]: the entries under [Data]. *)
Definition File : Type := list PodDevicesEntry.
Definition NewFile : Type := list NewPodDevicesEntry.

(** The types of [pkg/types/type.go], which also keep the allocation response. *)
Record types_Entry := mkTypesEntry {
  te_entry : PodDevicesEntry;
  te_AllocResp : string
}.

Record types_EntryNUMA := mkTypesEntryNUMA {
  tn_entry : NewPodDevicesEntry;
  tn_AllocResp : string
}.

Record types_Checkpoint := mkCheckpoint {
  PodDeviceEntries : list types_Entry;
  RegisteredDevices : gmap string (list string)
}.

Record types_CheckpointNUMA := mkCheckpointNUMA {
  PodDeviceEntriesNUMA : list types_EntryNUMA;
  RegisteredDevicesNUMA : gmap string (list string)
}.

Section checkpoint.
Context `{RangeOrder}.
Implicit Types (s : site).

(** The loop over the NUMA nodes: every slice is appended. *)
Definition flatten s (devices : gmap Z (list string)) : list string :=
  foldl (fun ids '(_, devicesPerNUMA) => ids ++ devicesPerNUMA) [] (visit s devices).

Definition flatten_entry s (e : NewPodDevicesEntry) : PodDevicesEntry :=
  mkEntry (new_PodUID e) (new_ContainerName e) (new_ResourceName e) (flatten s (new_DeviceIDs e)).

Definition TranslateNewCheckpointToOld s (newFile : NewFile) : File :=
  imap (fun entryID e => flatten_entry (entryID :: s) e) newFile.

(** ** [GetCheckpointData] *)

Inductive checkpoint_error :=
  | CheckpointNotRead
  | CheckpointNotParsed.

(** [None] under [Some] is a document without [Data]: the pointer stays nil. *)
Record decoders := {
  json_NUMA : string -> option (option types_CheckpointNUMA);
  json_v2 : string -> option (option types_Checkpoint);
  json_v1 : string -> option types_Checkpoint
}.

Definition flatten_checkpoint s (cp : types_CheckpointNUMA) : types_Checkpoint :=
  mkCheckpoint
    (imap (fun i v => mkTypesEntry (flatten_entry (i :: s) (tn_entry v)) (tn_AllocResp v))
       (PodDeviceEntriesNUMA cp))
    (RegisteredDevicesNUMA cp).

Definition GetCheckpointData s (d : decoders) (file : option string)
    : res checkpoint_error types_Checkpoint :=
  match file with
  | None => Err CheckpointNotRead
  | Some data =>
      match json_NUMA d data with
      | Some None => Panic NilDereference
      | Some (Some cp) => Ok (flatten_checkpoint s cp)
      | None =>
          match json_v2 d data with
          | None => Err CheckpointNotParsed
          | Some (Some cp) => Ok cp
          | Some None =>
              match json_v1 d data with
              | None => Err CheckpointNotParsed
              | Some cp => Ok cp
              end
          end
      end
  end.
End checkpoint.

(** ** Lemmas *)

(** All device IDs of an entry, node by node. *)
Definition all_devices (devices : gmap Z (list string)) : list string :=
  concat (snd <$> map_to_list devices).

Lemma flatten_perm `{RangeOrder} s devices : flatten s devices ≡ₚ all_devices devices.
Proof.
  unfold flatten, all_devices.
  assert (forall ids l, foldl (fun ids '(_, devicesPerNUMA) => ids ++ devicesPerNUMA) ids l
                        = ids ++ concat (snd <$> l : list (list string))) as ->.
  { intros ids l. revert ids. induction l as [|[n ds] l IH]; intros ids; simpl;
      [by rewrite app_nil_r|]. by rewrite IH, <- (assoc_L (++)). }
  simpl. assert (forall l l' : list (Z * list string), l ≡ₚ l' ->
    concat (snd <$> l) ≡ₚ concat (snd <$> l')) as Hperm.
  { induction 1 as [|x l l' _ IH|x y l|l1 l2 l3 _ IH1 _ IH2]; simpl.
    - done.
    - by rewrite IH.
    - by rewrite !(assoc_L (++)), (comm (++) y.2).
    - by rewrite IH1. }
  apply Hperm, visit_perm.
Qed.

(** An old entry with the same identification and the devices of a new one. *)
Definition same_entry (e : NewPodDevicesEntry) (o : PodDevicesEntry) : Prop :=
  PodUID o = new_PodUID e /\ ContainerName o = new_ContainerName e /\
  ResourceName o = new_ResourceName e /\ DeviceIDs o ≡ₚ all_devices (new_DeviceIDs e).

Lemma flatten_entry_same `{RangeOrder} s e : same_entry e (flatten_entry s e).
Proof. repeat split. apply flatten_perm. Qed.

(** * Properties *)

Section properties.
Context `{RangeOrder}.

(** The translation keeps the entries in their order, each with its pod, container and
    resource, and with all device IDs of all NUMA nodes and no others; only the order of
    the IDs depends on the order of the map. *)
Theorem TranslateNewCheckpointToOld_same s newFile :
  Forall2 same_entry newFile (TranslateNewCheckpointToOld s newFile).
Proof.
  unfold TranslateNewCheckpointToOld. apply Forall2_same_length_lookup_2.
  - by rewrite length_imap.
  - intros i e o He Ho. rewrite list_lookup_imap, He in Ho. injection Ho as <-.
    apply flatten_entry_same.
Qed.

(** [GetCheckpointData] panics exactly for a checkpoint that the per-NUMA decoder
    accepts without finding [Data], as it accepts every document of the v1 layout; else it
    returns the entries of the first layout that decodes, or an error. *)
Theorem GetCheckpointData_cases s d file :
  match GetCheckpointData s d file with
  | Panic p => p = NilDereference /\ exists data, file = Some data /\ json_NUMA d data = Some None
  | Err CheckpointNotRead => file = None
  | Err CheckpointNotParsed => exists data, file = Some data /\ json_NUMA d data = None /\
      (json_v2 d data = None \/ (json_v2 d data = Some None /\ json_v1 d data = None))
  | Ok cp => exists data, file = Some data /\
      ((exists numa, json_NUMA d data = Some (Some numa) /\
          RegisteredDevices cp = RegisteredDevicesNUMA numa /\
          Forall2 (fun n o => same_entry (tn_entry n) (te_entry o) /\ tn_AllocResp n = te_AllocResp o)
            (PodDeviceEntriesNUMA numa) (PodDeviceEntries cp)) \/
       (json_NUMA d data = None /\
         (json_v2 d data = Some (Some cp) \/ (json_v2 d data = Some None /\ json_v1 d data = Some cp))))
  end.
Proof.
  unfold GetCheckpointData. destruct file as [data|]; [|done].
  destruct (json_NUMA d data) as [[numa|]|] eqn:Hn; [|by eauto|].
  - exists data. split; [done|]. left. exists numa. split; [done|]. split; [done|].
    apply Forall2_same_length_lookup_2; [simpl; by rewrite length_imap|].
    intros i n o Hi Ho. simpl in Ho. rewrite list_lookup_imap, Hi in Ho. injection Ho as <-.
    split; [apply flatten_entry_same|done].
  - destruct (json_v2 d data) as [[cp|]|] eqn:H2; [by eauto 10| |by eauto 10].
    destruct (json_v1 d data) as [cp|] eqn:H1; eauto 10.
Qed.
End properties.
