(* ===== verification/DevicePlugin.v ===== *)
(** * The device plugin: [cmd/cpu-device-plugin/cpu-device-plugin.go], lines 38-380

    The devices a pool advertises ([ListAndWatch]), the response to an allocation
    ([Allocate]) and the preferred devices ([GetPreferredAllocation]).  Outside the
    repository: the weighted round robin of [smallnest/weighted] ([Weighted]) and
    [topology.AddHTSiblingsToCPUSet].  [slices.SortFunc] is not stable: [Sorting] stands for
    any order that agrees with the comparison. *)

From S2P Require Import Prelude GoStrings Cpuset Pools.
Local Open Scope Z_scope.

(** ** What the plugin uses *)

(** Smooth weighted round robin: [Add] an item with a weight, [Next] picks an item ([None]
    for nil) and updates the state. *)
Class Weighted := {
  SW : Type -> Type;
  sw_zero : forall {A}, SW A;
  sw_Add : forall {A}, SW A -> A -> Z -> SW A;
  sw_Next : forall {A}, SW A -> SW A * option A
}.

(** [an, _ := strconv.ParseUint(a, 10, 32)]: the value that comes with an error is kept. *)
Definition device_key (id : string) : Z := (ParseUint id 32).1.

(** [slices.SortFunc] with the comparison [int(bn) - int(an)]. *)
Class Sorting := {
  SortFunc : list string -> list string;
  SortFunc_perm l : SortFunc l ≡ₚ l;
  SortFunc_sorted l : Sorted (fun a b => device_key b <= device_key a) (SortFunc l)
}.

(** [float64] of an integer: rounding to 53 bits, ties to even. *)
Definition float64 (z : Z) : Z :=
  let a := Z.abs z in
  let e := Z.log2 a - 52 in
  if e <=? 0 then z
  else
    let q := a / 2 ^ e in
    let r := a mod 2 ^ e in
    let q := if (r >? 2 ^ (e - 1)) || ((r =? 2 ^ (e - 1)) && Z.odd q) then q + 1 else q in
    Z.sgn z * (q * 2 ^ e).

(** [int] of a [float64]; a value out of range becomes the smallest integer (amd64). *)
Definition int_of_float (z : Z) : Z := if decide (is_int z) then z else min_int.

Record Device := mkDevice {
  ID : string;
  Health : string;
  (** [Topology.Nodes], [None] for a nil [Topology] *)
  TopologyNodes : option (list Z)
}.

Definition Healthy : string := "Healthy".
Definition zero_device : Device := mkDevice "" "" None.

Record DeviceSpec := mkDeviceSpec {
  ContainerPath : string;
  HostPath : string;
  Permissions : string
}.

Record ContainerAllocateResponse := mkContainerResponse {
  Envs : gmap string string;
  ResponseDevices : list DeviceSpec
}.

Section device_plugin.
Context `{CPUSetLib} `{RangeOrder} `{Weighted} `{Sorting}.
(** [topology.AddHTSiblingsToCPUSet] *)
Context (AddHTSiblingsToCPUSet : CPUSet -> gmap Z string -> CPUSet).

Record cpuDeviceManager := mkManager {
  pool : Pool;
  socketFile : string;
  devicePluginPath : string;
  (** the server: [None] for nil, else whether it serves *)
  grpcServer : option bool;
  sharedPoolCPUs : string;
  poolType : string;
  nodeTopology : gmap Z Z;
  htTopology : gmap Z string;
  cloudphoneExtDevs : gmap Z (SW Topology);
  cloudphoneCPUTopol : gmap Z Topology;
  cacheDevices : gmap string Device;
  numCPU : Z
}.
Implicit Types (cdm : cpuDeviceManager) (s : site).

Definition set_cache cdm (over : Z) (cache : gmap string Device) : cpuDeviceManager :=
  let p := pool cdm in
  mkManager (mkPool (CPUset p) (CPUStr p) (HTPolicy p) over (NumaWeight p) (PhysicalCore p)
               (CoreMap p))
    (socketFile cdm) (devicePluginPath cdm) (grpcServer cdm) (sharedPoolCPUs cdm) (poolType cdm)
    (nodeTopology cdm) (htTopology cdm) (cloudphoneExtDevs cdm) (cloudphoneCPUTopol cdm) cache
    (numCPU cdm).

Definition set_extDevs cdm (extDevs : gmap Z (SW Topology)) : cpuDeviceManager :=
  mkManager (pool cdm) (socketFile cdm) (devicePluginPath cdm) (grpcServer cdm)
    (sharedPoolCPUs cdm) (poolType cdm) (nodeTopology cdm) (htTopology cdm) extDevs
    (cloudphoneCPUTopol cdm) (cacheDevices cdm) (numCPU cdm).

Definition set_server cdm (server : option bool) : cpuDeviceManager :=
  mkManager (pool cdm) (socketFile cdm) (devicePluginPath cdm) server
    (sharedPoolCPUs cdm) (poolType cdm) (nodeTopology cdm) (htTopology cdm)
    (cloudphoneExtDevs cdm) (cloudphoneCPUTopol cdm) (cacheDevices cdm) (numCPU cdm).

(** ** [ListAndWatch] *)

Definition shared_devices cdm : list Device :=
  (fun i => mkDevice (Itoa i) Healthy None) <$> seqZ 0 (cs_Size (CPUset (pool cdm)) *w 1000)%go.

(** The device of one CPU, for one round of overcommitment. *)
Definition exclusive_core cdm (cpuID overID : Z) : Device :=
  mkDevice (Itoa (cpuID +w (overID *w numCPU cdm))%go) Healthy
    (match nodeTopology cdm !! cpuID with
     | Some numaNode => Some [numaNode]
     | None => None
     end).

(** [cacheDevices[exclusiveCore.ID] = exclusiveCore], for the devices of one CPU. *)
Definition cache_cores (cache : gmap string Device) (cores : list Device) : gmap string Device :=
  foldl (fun cache core => <[ID core := core]> cache) cache cores.

(** The loops over the CPUs and the overcommitment: its factor, the cache, the devices. *)
Definition exclusive_devices cdm : Z * gmap string Device * list Device :=
  foldl (fun '(over, cache, devices) cpuID =>
    let over := if over <? 1 then 1 else over in
    let cores := exclusive_core cdm cpuID <$> seqZ 0 over in
    (over, cache_cores cache cores, devices ++ cores))
    (Overcommitment (pool cdm), ∅, []) (cs_List (CPUset (pool cdm))).

(** The first round of [ListAndWatch]: the manager with its new cache, and the devices
    sent.  No later round sends anything. *)
Definition advertise cdm : cpuDeviceManager * list Device :=
  if decide (poolType cdm = "shared")
  then (set_cache cdm (Overcommitment (pool cdm)) ∅, shared_devices cdm)
  else
    let '(over, cache, devices) := exclusive_devices cdm in
    (set_cache cdm over cache, devices).

(** [ListAndWatch] returns only when the stream refuses the devices; otherwise it sleeps
    for ever ([None]). *)
Definition ListAndWatch cdm (send : list Device -> option string)
    : cpuDeviceManager * option string :=
  let '(cdm, devices) := advertise cdm in (cdm, send devices).

(** ** [Allocate] *)

(** The CPUs of the requested devices; an ID that does not parse is skipped. *)
Definition allocated_cpus cdm (DevicesIDs : list string) : res unit CPUSet :=
  after (for_range (fun _ id cpusAllocated =>
           match ParseUint id 32 with
           | (_, Some _) => Next cpusAllocated
           | (idN, None) =>
               match go_rem idN (numCPU cdm) with
               | Ok cpu => Next (cs_Union cpusAllocated [cs_New [cpu]])
               | Err e => Return (Err e)
               | Panic p => Return (Panic p)
               end
           end) DevicesIDs (cs_Parse "").1)
    (fun cpusAllocated =>
       Ok (if decide (HTPolicy (pool cdm) = MultiThreadHTPolicy)
           then AddHTSiblingsToCPUSet cpusAllocated (htTopology cdm) else cpusAllocated)).

Definition topology_of cdm (cpu : Z) : Topology :=
  from_option id zero_topology (cloudphoneCPUTopol cdm !! cpu).

(** [cdm.nodeTopology[cpu]] *)
Definition node_of cdm (cpu : Z) : Z := default 0 (nodeTopology cdm !! cpu).

(** The CPUs of the pool on the NUMA node of the first allocated CPU. *)
Definition numa_cpus s cdm (cpusAllocated : CPUSet) : res unit (list Z) :=
  after (for_range (fun _ '(cpu, topol) cpus =>
           match go_index (cs_List cpusAllocated) 0 with
           | Ok first =>
               Next (if Node (topology_of cdm first) =? Node topol then cpus ++ [cpu] else cpus)
           | Err e => Return (Err e)
           | Panic p => Return (Panic p)
           end) (visit s (CoreMap (pool cdm))) [])
    (fun cpus => Ok cpus).

Definition envmap s cdm (cpusAllocated : CPUSet) : res unit (gmap string string) :=
  if decide (poolType cdm = "shared") then Ok {["SHARED_CPUS" := sharedPoolCPUs cdm]}
  else if decide (poolType cdm = "cloudphone") then
    cpus ← numa_cpus s cdm cpusAllocated;
    Ok (<["NUMA_CPUS" := cs_String (cs_New cpus)]>
          {["CLOUDPHONE_CPUS" := cs_String cpusAllocated]})
  else Ok {["EXCLUSIVE_CPUS" := cs_String cpusAllocated]}.

(** The devices of the round robin of a NUMA node. *)
Definition external_devices cdm (cpu : Z) : cpuDeviceManager * list DeviceSpec :=
  let node := node_of cdm cpu in
  match cloudphoneExtDevs cdm !! node with
  | None => (cdm, [])
  | Some extDev =>
      let '(extDev, topol) := sw_Next extDev in
      (set_extDevs cdm (<[node := extDev]> (cloudphoneExtDevs cdm)),
       match topol with
       | Some topol => (fun v => mkDeviceSpec v v "rwm") <$> Devices topol
       | None => []
       end)
  end.

Definition cpu_devices cdm (cpu : Z) : list DeviceSpec :=
  (fun dev =>
     mkDeviceSpec (if HasPrefix dev "/dev/dri/renderD" then "/dev/dri/renderD128" else dev)
       dev "rwm") <$> Devices (topology_of cdm cpu).

Definition allocate_container s cdm (DevicesIDs : list string)
    : res unit (cpuDeviceManager * ContainerAllocateResponse) :=
  cpusAllocated ← allocated_cpus cdm DevicesIDs;
  env ← envmap s cdm cpusAllocated;
  first ← go_index (cs_List cpusAllocated) 0;
  let '(cdm, external) := external_devices cdm first in
  Ok (cdm, mkContainerResponse env (external ++ cpu_devices cdm first)).

Fixpoint allocate_from s (i : nat) cdm (requests : list (list string))
    : res unit (cpuDeviceManager * list ContainerAllocateResponse) :=
  match requests with
  | [] => Ok (cdm, [])
  | DevicesIDs :: requests =>
      '(cdm, resp) ← allocate_container (i :: s) cdm DevicesIDs;
      '(cdm, resps) ← allocate_from s (S i) cdm requests;
      Ok (cdm, resp :: resps)
  end.

(** The requests are the device IDs of each container. *)
Definition Allocate s cdm (requests : list (list string))
    : res unit (cpuDeviceManager * list ContainerAllocateResponse) :=
  allocate_from s 0 cdm requests.

(** ** [GetPreferredAllocation] *)

(** The weight of a NUMA node, and its available devices. *)
Record numaT := mkNumaT { weight : Z; ids : list string }.

(** [cdm.cacheDevices[id].Topology.Nodes[0].GetID()] *)
Definition numa_of cdm (id : string) : res unit Z :=
  match TopologyNodes (default zero_device (cacheDevices cdm !! id)) with
  | None => Panic NilDereference
  | Some nodes => go_index nodes 0
  end.

Definition group_by_numa cdm (AvailableDeviceIDs : list string) : res unit (gmap Z numaT) :=
  after (for_range (fun _ id numaMap =>
           match numa_of cdm id with
           | Ok node =>
               Next (<[node := match numaMap !! node with
                               | None => mkNumaT 0 [id]
                               | Some core => mkNumaT (weight core +w 1)%go (ids core ++ [id])
                               end]> numaMap)
           | Err e => Return (Err e)
           | Panic p => Return (Panic p)
           end) AvailableDeviceIDs ∅)
    (fun numaMap => Ok numaMap).

(** [preferredIDs] and [idSet] are kept if the device continues the run, else emptied. *)
Definition keep_run cdm (id cpu : Z) (preferredIDs : list string) (idSet : gset Z)
    : list string * gset Z :=
  match last preferredIDs with
  | None => (preferredIDs, idSet)
  | Some prev =>
      let preId := float64 (Atoi prev).1 in
      if negb (node_of cdm cpu =? node_of cdm (Z.rem (int_of_float preId) (numCPU cdm)))
         || negb (int_of_float (Z.abs (float64 (preId - float64 id))) =? 1)
      then ([], ∅) else (preferredIDs, idSet)
  end.

Definition append_id (AllocationSize id cpu : Z) '((preferredIDs, idSet) : list string * gset Z)
    : flow (list string * gset Z) (res unit (list string)) :=
  let preferredIDs := preferredIDs ++ [Itoa id] in
  let idSet := {[cpu]} ∪ idSet in
  if Z.of_nat (length preferredIDs) =? AllocationSize
  then Break (preferredIDs, idSet) else Next (preferredIDs, idSet).

(** One device of the chosen NUMA node. *)
Definition prefer_step cdm (AllocationSize : Z) (n : string) (preferredIDs : list string)
    (idSet : gset Z) : flow (list string * gset Z) (res unit (list string)) :=
  match Atoi n with
  | (_, Some _) => Next (preferredIDs, idSet)
  | (id, None) =>
      match go_rem id (numCPU cdm) with
      | Err e => Return (Err e)
      | Panic p => Return (Panic p)
      | Ok cpu =>
          if decide (cpu ∈ idSet) then Next (preferredIDs, idSet)
          else append_id AllocationSize id cpu (keep_run cdm id cpu preferredIDs idSet)
      end
  end.

Definition prefer cdm (AllocationSize : Z) (candidates : list string) : res unit (list string) :=
  after (for_range (fun _ n '(preferredIDs, idSet) =>
           prefer_step cdm AllocationSize n preferredIDs idSet) candidates ([], ∅))
    (fun '(preferredIDs, _) => Ok preferredIDs).

(** [None]: no NUMA node could be chosen, the call returns what it has so far. *)
Definition prefer_container s cdm (AvailableDeviceIDs : list string) (AllocationSize : Z)
    : res unit (option (list string)) :=
  numaMap ← group_by_numa cdm (SortFunc AvailableDeviceIDs);
  let numaSW := foldl (fun sw '(k, numa) => sw_Add sw k (weight numa)) sw_zero (visit s numaMap) in
  match (sw_Next numaSW).2 with
  | None => Ok None
  | Some numa =>
      preferredIDs ← prefer cdm AllocationSize
        (SortFunc (default [] (ids <$> numaMap !! numa)));
      Ok (Some preferredIDs)
  end.

Fixpoint prefer_from s (i : nat) cdm (requests : list (list string * Z))
    : res unit (list (list string)) :=
  match requests with
  | [] => Ok []
  | (AvailableDeviceIDs, AllocationSize) :: requests =>
      o ← prefer_container (i :: s) cdm AvailableDeviceIDs AllocationSize;
      match o with
      | None => Ok []
      | Some preferredIDs => rest ← prefer_from s (S i) cdm requests; Ok (preferredIDs :: rest)
      end
  end.

Definition GetPreferredAllocation s cdm (requests : list (list string * Z))
    : res unit (list (list string)) :=
  prefer_from s 0 cdm requests.
End device_plugin.

Arguments cpuDeviceManager {_ _}.

(** ** Advertised devices *)

(** A pool whose device IDs fit 32 bits: the plugin runs on a machine with all its CPUs. *)
Record pool_fits `{CPUSetLib} `{Weighted} (cdm : cpuDeviceManager) : Prop := {
  fits_cpus : forall c, cs_Contains (CPUset (pool cdm)) c = true -> 0 <= c < numCPU cdm;
  fits_numCPU : 0 < numCPU cdm;
  fits_ids : Z.max 1 (Overcommitment (pool cdm)) * numCPU cdm <= 2 ^ 32
}.

(** The device of CPU [cpu] in round [k] of overcommitment. *)
Definition device_id (numCPU : Z) (d : Z * Z) : Z := d.1 + d.2 * numCPU.

Definition device_at `{CPUSetLib} `{Weighted} (cdm : cpuDeviceManager) (d : Z * Z) : Device :=
  mkDevice (Itoa (device_id (numCPU cdm) d)) Healthy
    ((fun node => [node]) <$> nodeTopology cdm !! d.1).

(** The CPUs and rounds a pool advertises. *)
Definition device_pairs `{CPUSetLib} `{Weighted} (cdm : cpuDeviceManager) : list (Z * Z) :=
  cs_List (CPUset (pool cdm)) ≫= fun cpu =>
    (fun k => (cpu, k)) <$> seqZ 0 (Z.max 1 (Overcommitment (pool cdm))).

Lemma device_id_bound n m cpu k : 0 <= cpu < n -> 0 <= k < m -> 0 <= device_id n (cpu, k) < m * n.
Proof. unfold device_id. simpl. nia. Qed.

Lemma device_id_rem n cpu k : 0 <= cpu < n -> 0 <= k -> Z.rem (device_id n (cpu, k)) n = cpu.
Proof.
  intros Hc Hk. unfold device_id. simpl. rewrite Z.rem_mod_nonneg by nia.
  rewrite Z.mod_add by lia. by apply Z.mod_small.
Qed.

Lemma device_id_inj n d d' :
  0 <= d.1 < n -> 0 <= d'.1 < n -> 0 <= d.2 -> 0 <= d'.2 ->
  device_id n d = device_id n d' -> d = d'.
Proof.
  destruct d as [c k], d' as [c' k']. simpl. intros Hc Hc' Hk Hk' Heq.
  assert (c = c') as -> by (rewrite <- (device_id_rem n c k), Heq; [by apply device_id_rem|done..]).
  unfold device_id in Heq. simpl in Heq. f_equal. nia.
Qed.

Section advertised.
Context `{CPUSetLaws} `{RangeOrder} `{Weighted}.
Implicit Types (cdm : cpuDeviceManager).

Lemma elem_of_device_pairs cdm d :
  d ∈ device_pairs cdm <->
  cs_Contains (CPUset (pool cdm)) d.1 = true /\ 0 <= d.2 < Z.max 1 (Overcommitment (pool cdm)).
Proof.
  unfold device_pairs. rewrite list_elem_of_bind. setoid_rewrite list_elem_of_fmap.
  setoid_rewrite elem_of_seqZ. setoid_rewrite elem_of_List. destruct d as [cpu k]. naive_solver lia.
Qed.

Lemma device_pairs_bounds cdm d : pool_fits cdm -> d ∈ device_pairs cdm ->
  0 <= d.1 < numCPU cdm /\ 0 <= d.2 /\ 0 <= device_id (numCPU cdm) d < 2 ^ 32.
Proof.
  intros [Hc Hn Hids] [Hin Hk]%elem_of_device_pairs. destruct d as [cpu k]. simpl in *.
  specialize (Hc cpu Hin). pose proof (device_id_bound _ _ cpu k Hc Hk). lia.
Qed.

Lemma NoDup_device_pairs cdm : NoDup (device_pairs cdm).
Proof.
  unfold device_pairs. generalize (seqZ 0 (Z.max 1 (Overcommitment (pool cdm)))) (NoDup_seqZ 0 (Z.max 1 (Overcommitment (pool cdm)))).
  intros ks Hks. pose proof (NoDup_List (CPUset (pool cdm))) as Hnd.
  induction Hnd as [|cpu l Hcpu _ IH]; simpl; [constructor|].
  apply NoDup_app. split; [|split; [|done]].
  - by apply NoDup_fmap_2; [apply _|].
  - intros [c k] (k' & [= -> ->] & _)%list_elem_of_fmap Hin.
    apply list_elem_of_bind in Hin as (c' & (k'' & [= -> ->] & _)%list_elem_of_fmap & Hin). done.
Qed.

(** The loops of [ListAndWatch] list exactly these devices. *)
Lemma exclusive_core_at cdm cpu k : pool_fits cdm -> (cpu, k) ∈ device_pairs cdm ->
  exclusive_core cdm cpu k = device_at cdm (cpu, k).
Proof.
  intros Hfits Hin. destruct (device_pairs_bounds cdm _ Hfits Hin) as (Hc & Hk & Hid).
  unfold exclusive_core, device_at. simpl in *.
  assert (wrap (cpu + wrap (k * numCPU cdm)) = device_id (numCPU cdm) (cpu, k)) as ->.
  { rewrite wrap_add_r. apply wrap_id. unfold is_int, min_int, max_int, device_id in *.
    simpl in *. lia. }
  by destruct (nodeTopology cdm !! cpu).
Qed.

Lemma exclusive_loop cdm l over cache devices :
  let over' := Z.max 1 over in
  let cores := l ≫= fun cpu => exclusive_core cdm cpu <$> seqZ 0 over' in
  foldl (fun '(over, cache, devices) cpuID =>
    let over := if over <? 1 then 1 else over in
    let cores := exclusive_core cdm cpuID <$> seqZ 0 over in
    (over, cache_cores cache cores, devices ++ cores))
    (over, cache, devices) l
  = (match l with [] => over | _ => over' end,
     cache_cores cache cores, devices ++ cores).
Proof.
  simpl. revert over cache devices. induction l as [|cpu l IH]; intros over cache devices; simpl.
  { by rewrite app_nil_r. }
  assert ((if over <? 1 then 1 else over) = Z.max 1 over) as ->.
  { destruct (over <? 1) eqn:E; to_prop; lia. }
  rewrite IH. unfold cache_cores. rewrite foldl_app, <- (assoc_L (++)). replace (Z.max 1 (Z.max 1 over)) with (Z.max 1 over) by lia.
  by destruct l.
Qed.

Lemma cores_at cdm : pool_fits cdm ->
  (cs_List (CPUset (pool cdm)) ≫= fun cpu =>
     exclusive_core cdm cpu <$> seqZ 0 (Z.max 1 (Overcommitment (pool cdm))))
  = device_at cdm <$> device_pairs cdm.
Proof.
  intros Hfits.
  assert (forall cpu, cpu ∈ cs_List (CPUset (pool cdm)) ->
    exclusive_core cdm cpu <$> seqZ 0 (Z.max 1 (Overcommitment (pool cdm))) =
    device_at cdm <$> ((fun k => (cpu, k)) <$> seqZ 0 (Z.max 1 (Overcommitment (pool cdm))))) as Hrow.
  { intros cpu Hcpu%elem_of_List. rewrite <- list_fmap_compose. apply list_fmap_ext.
    intros i k Hk%list_elem_of_lookup_2%elem_of_seqZ. apply exclusive_core_at; [done|].
    apply elem_of_device_pairs. simpl. split; [done|lia]. }
  unfold device_pairs. induction (cs_List _) as [|cpu l IH]; [done|].
  rewrite !bind_cons, fmap_app, Hrow by left. f_equal. apply IH. intros. apply Hrow. by right.
Qed.

Lemma insert_cores_lookup (cores : list Device) cache d :
  NoDup (ID <$> cores) -> d ∈ cores ->
  cache_cores cache cores !! ID d = Some d.
Proof.
  revert cache. induction cores as [|core cores IH]; intros cache Hnd Hd;
    [by apply elem_of_nil in Hd|]. simpl. rewrite fmap_cons, NoDup_cons in Hnd.
  destruct Hnd as [Hfresh Hnd]. apply elem_of_cons in Hd as [->|Hd]; [|by apply IH].
  assert (forall (cache : gmap string Device), ID core ∉ ID <$> cores ->
    cache_cores cache cores !! ID core = cache !! ID core) as Hkeep.
  { clear. induction cores as [|c cores IH]; intros cache Hn; simpl; [done|].
    rewrite fmap_cons, not_elem_of_cons in Hn. destruct Hn. rewrite IH by done.
    by rewrite lookup_insert_ne. }
  rewrite Hkeep by done. apply lookup_insert_eq.
Qed.

Lemma NoDup_device_ids cdm : pool_fits cdm ->
  NoDup (ID <$> (device_at cdm <$> device_pairs cdm)).
Proof.
  intros Hfits. rewrite <- list_fmap_compose.
  apply NoDup_fmap_2_strong; [|apply NoDup_device_pairs].
  intros d d' Hd Hd' Heq. simpl in Heq.
  destruct (device_pairs_bounds cdm d Hfits Hd) as (? & ? & ?).
  destruct (device_pairs_bounds cdm d' Hfits Hd') as (? & ? & ?).
  apply Itoa_inj_nonneg in Heq; [|lia..]. by eapply device_id_inj.
Qed.

(** What an exclusive or cloudphone pool advertises. *)
Lemma advertise_exclusive cdm :
  pool_fits cdm -> poolType cdm <> "shared" ->
  (advertise cdm).2 = device_at cdm <$> device_pairs cdm /\
  forall d, d ∈ device_pairs cdm ->
    cacheDevices (advertise cdm).1 !! Itoa (device_id (numCPU cdm) d) = Some (device_at cdm d).
Proof.
  intros Hfits Htype. unfold advertise, exclusive_devices. rewrite decide_False by done.
  rewrite exclusive_loop, cores_at by done. simpl. split; [done|]. intros d Hd.
  apply (insert_cores_lookup _ ∅ (device_at cdm d)).
  - by apply NoDup_device_ids.
  - by apply list_elem_of_fmap_2.
Qed.
End advertised.

(** ** Allocated CPUs *)

Section allocated.
Context `{CPUSetLaws} `{RangeOrder} `{Weighted}.
Context (AddHTSiblingsToCPUSet : CPUSet -> gmap Z string -> CPUSet).
Implicit Types (cdm : cpuDeviceManager) (s : site).

(** The CPU numbers of the IDs that parse. *)
Definition parsed_cpus (numCPU : Z) (DevicesIDs : list string) : list Z :=
  omap (fun id => match ParseUint id 32 with
                  | (idN, None) => Some (Z.rem idN numCPU)
                  | _ => None
                  end) DevicesIDs.

Definition with_siblings cdm (set : CPUSet) : CPUSet :=
  if decide (HTPolicy (pool cdm) = MultiThreadHTPolicy)
  then AddHTSiblingsToCPUSet set (htTopology cdm) else set.

Lemma allocated_cpus_parsed cdm ids : numCPU cdm <> 0 ->
  allocated_cpus AddHTSiblingsToCPUSet cdm ids =
    Ok (with_siblings cdm (foldl (fun set cpu => cs_Union set [cs_New [cpu]]) (cs_Parse "").1
                             (parsed_cpus (numCPU cdm) ids))).
Proof.
  intros Hn. unfold allocated_cpus.
  rewrite (for_range_next _ (fun set id =>
    match ParseUint id 32 with
    | (idN, None) => cs_Union set [cs_New [Z.rem idN (numCPU cdm)]]
    | _ => set
    end)).
  - simpl. f_equal. unfold with_siblings.
    assert (forall set, foldl (fun set id =>
      match ParseUint id 32 with
      | (idN, None) => cs_Union set [cs_New [Z.rem idN (numCPU cdm)]]
      | _ => set
      end) set ids = foldl (fun set cpu => cs_Union set [cs_New [cpu]]) set
                       (parsed_cpus (numCPU cdm) ids)) as ->; [|done].
    induction ids as [|id ids IH]; intros set; simpl; [done|].
    unfold parsed_cpus in *. simpl. by destruct (ParseUint id 32) as [n [e|]]; rewrite IH.
  - intros i id set _. destruct (ParseUint id 32) as [n [e|]]; [done|].
    unfold go_rem. by rewrite (proj2 (Z.eqb_neq _ _) Hn).
Qed.

(** Round trip: from the devices of some CPUs back to the CPUs. *)
Lemma parsed_cpus_devices cdm ds : pool_fits cdm -> ds ⊆ device_pairs cdm ->
  parsed_cpus (numCPU cdm) ((fun d => Itoa (device_id (numCPU cdm) d)) <$> ds) = ds.*1.
Proof.
  intros Hfits. induction ds as [|[cpu k] ds IH]; intros Hds; [done|].
  destruct (device_pairs_bounds cdm (cpu, k) Hfits) as (Hc & Hk & Hid); [apply Hds; left|].
  rewrite !fmap_cons. unfold parsed_cpus in *. simpl omap.
  rewrite ParseUint_Itoa by lia. rewrite device_id_rem by (simpl in *; lia). simpl.
  f_equal. apply IH. intros d Hd. apply Hds. by right.
Qed.

Lemma allocated_cpus_devices cdm ds : pool_fits cdm -> ds ⊆ device_pairs cdm ->
  exists set, allocated_cpus AddHTSiblingsToCPUSet cdm
      ((fun d => Itoa (device_id (numCPU cdm) d)) <$> ds) = Ok (with_siblings cdm set) /\
    set ≡ cs_New ds.*1.
Proof.
  intros Hfits Hds. pose proof (fits_numCPU cdm Hfits).
  rewrite allocated_cpus_parsed by lia. eexists. split; [done|].
  rewrite parsed_cpus_devices by done. intros c.
  rewrite contains_foldl_add, contains_New.
  by rewrite Parse_empty.
Qed.

(** ** When [Allocate] panics *)

(** The set of a container is there and not empty. *)
Definition allocatable cdm (ids : list string) : Prop :=
  exists set, allocated_cpus AddHTSiblingsToCPUSet cdm ids = Ok set /\ cs_IsEmpty set = false.

Lemma go_index_head {E} (set : CPUSet) :
  match cs_List set with
  | [] => cs_IsEmpty set = true /\ @go_index E Z (cs_List set) 0 = Panic IndexOutOfRange
  | c :: _ => cs_IsEmpty set = false /\ @go_index E Z (cs_List set) 0 = Ok c
  end.
Proof.
  pose proof (IsEmpty_List set) as He. destruct (cs_List set) as [|c l].
  - split; [by apply He|done].
  - split; [|done]. apply not_true_is_false. by intros ?%He.
Qed.

Lemma envmap_total s cdm set : cs_IsEmpty set = false ->
  exists env, envmap s cdm set = Ok env.
Proof.
  intros Hne. unfold envmap. case_decide; [eauto|]. case_decide; [|eauto].
  unfold numa_cpus. pose proof (@go_index_head unit set) as Hidx.
  destruct (cs_List set) as [|first l]; [destruct Hidx; congruence|]. destruct Hidx as [_ Hidx].
  rewrite (for_range_next _ (fun cpus '(cpu, topol) =>
    if Node (topology_of cdm first) =? Node topol then cpus ++ [cpu] else cpus)).
  - simpl. eauto.
  - intros i [cpu topol] cpus _. by rewrite Hidx.
Qed.

Lemma allocate_container_cases s cdm ids :
  (allocatable cdm ids /\ exists cdm' resp extDevs,
     allocate_container AddHTSiblingsToCPUSet s cdm ids = Ok (cdm', resp) /\
     cdm' = set_extDevs cdm extDevs) \/
  (~ allocatable cdm ids /\ panics (allocate_container AddHTSiblingsToCPUSet s cdm ids) = true).
Proof.
  unfold allocate_container, allocatable.
  destruct (allocated_cpus _ cdm ids) as [set|[]|p] eqn:Ha; simpl.
  2: { exfalso. unfold allocated_cpus in Ha. revert Ha.
       apply (for_range_inv _ (fun _ _ => True) (fun o => after o _ = Err tt -> False)); [done| |done].
       intros l1 id l2 acc _ _. destruct (ParseUint id 32) as [n [e|]]; [done|].
       unfold go_rem. by destruct (numCPU cdm =? 0). }
  2: { right. split; [|done]. by intros (? & [=] & _). }
  pose proof (@go_index_head unit set) as Hidx. destruct (cs_List set) as [|first l] eqn:El.
  - right. destruct Hidx as [He Hidx]. split; [intros (? & [= <-] & ?); congruence|].
    destruct (envmap s cdm set) as [env|[]|p] eqn:Henv; simpl; [done| |done].
    exfalso. revert Henv. unfold envmap. repeat case_decide; [done| |done].
    unfold numa_cpus. destruct (visit s _) as [|[cpu topol] v]; simpl; [done|].
    unfold for_range. simpl. by rewrite El.
  - left. destruct Hidx as [He Hidx]. split; [by exists set|].
    destruct (envmap_total s cdm set He) as [env ->]. simpl. rewrite ?Hidx. simpl.
    unfold external_devices. destruct (_ !! _) as [extDev|].
    + destruct (sw_Next extDev) as [extDev' topol]. eexists _, _, _. done.
    + eexists _, _, (cloudphoneExtDevs cdm). split; [done|]. by destruct cdm.
Qed.

Lemma allocate_from_panics s i cdm requests :
  panics (allocate_from AddHTSiblingsToCPUSet s i cdm requests) = true <->
  exists ids, ids ∈ requests /\ ~ allocatable cdm ids.
Proof.
  revert i cdm. induction requests as [|ids requests IH]; intros i cdm; simpl.
  { split; [done|]. by intros (? & ?%elem_of_nil & _). }
  destruct (allocate_container_cases (i :: s) cdm ids)
    as [(Hok & cdm' & resp & extDevs & -> & ->)|[Hno Hpanic]].
  - simpl. specialize (IH (S i) (set_extDevs cdm extDevs)).
    assert (panics (allocate_from AddHTSiblingsToCPUSet s (S i) (set_extDevs cdm extDevs) requests)
      = true <-> exists ids', ids' ∈ ids :: requests /\ ~ allocatable cdm ids') as Hiff.
    { rewrite IH. change (allocatable (set_extDevs cdm extDevs)) with (allocatable cdm).
      setoid_rewrite elem_of_cons. naive_solver. }
    rewrite <- Hiff. by destruct (allocate_from _ _ _ _ _) as [[]| |].
  - split; [|by destruct (allocate_container _ _ _ _)]. intros _. exists ids. split; [left|done].
Qed.
End allocated.

(** ** Preferred devices *)

Lemma float64_exact z : Z.abs z < 2 ^ 53 -> float64 z = z.
Proof.
  intros Hz. unfold float64.
  assert (Z.log2 (Z.abs z) <= 52) as Hl.
  { destruct (Z.eq_dec z 0) as [->|]; [done|]. apply Z.lt_succ_r, Z.log2_lt_pow2; lia. }
  by rewrite (proj2 (Z.leb_le _ 0)) by lia.
Qed.

Lemma int_of_float_exact z : Z.abs z < 2 ^ 53 -> int_of_float z = z.
Proof. intros Hz. unfold int_of_float. apply decide_True. unfold is_int, min_int, max_int. lia. Qed.

(** Each number is one less than the number before it. *)
Definition consecutive (zs : list Z) : Prop :=
  forall i a b, zs !! i = Some a -> zs !! S i = Some b -> b = a - 1.

Lemma consecutive_snoc zs v :
  consecutive zs -> (forall prev, last zs = Some prev -> v = prev - 1) -> consecutive (zs ++ [v]).
Proof.
  intros Hzs Hlast i a b Ha Hb.
  apply lookup_app_Some in Hb as [Hb|[Hlen Hb]].
  - apply lookup_lt_Some in Hb as Hlt. rewrite lookup_app_l in Ha by lia. eauto.
  - apply list_lookup_singleton_Some in Hb as [Hi <-]. apply Hlast.
    rewrite lookup_app_l in Ha by lia. rewrite last_lookup. by replace (pred (length zs)) with i by lia.
Qed.

Section preferred.
Context `{CPUSetLib} `{RangeOrder} `{Weighted} `{Sorting}.
Implicit Types (cdm : cpuDeviceManager) (s : site).

Definition cpu_of cdm (id : Z) : Z := Z.rem id (numCPU cdm).

(** What a preference promises: device numbers among the candidates, consecutive, of
    different CPUs on one NUMA node, and not more than asked for. *)
Record preferable cdm (size : Z) (candidates zs : list Z) : Prop := {
  pref_subset : zs ⊆ candidates;
  pref_consecutive : consecutive zs;
  pref_distinct : NoDup (cpu_of cdm <$> zs);
  pref_node : forall a b, a ∈ zs -> b ∈ zs ->
    node_of cdm (cpu_of cdm a) = node_of cdm (cpu_of cdm b);
  pref_size : 0 < size -> Z.of_nat (length zs) <= size
}.

(** The state of the loop after the candidates [vs]. *)
Record scanned cdm (size : Z) (vs rest : list Z) (preferredIDs : list string) (idSet : gset Z)
    (zs : list Z) : Prop := {
  scan_ids : preferredIDs = Itoa <$> zs;
  scan_pref : preferable cdm size vs zs;
  scan_set : forall cpu, cpu ∈ idSet <-> cpu ∈ cpu_of cdm <$> zs;
  scan_below : forall a v, a ∈ zs -> v ∈ rest -> v <= a;
  scan_size : 0 < size -> Z.of_nat (length zs) < size
}.

Lemma preferable_nil cdm size vs : preferable cdm size vs [].
Proof. split; [set_solver|done|constructor|set_solver|simpl; lia]. Qed.

Lemma preferable_weaken cdm size vs vs' zs :
  vs ⊆ vs' -> preferable cdm size vs zs -> preferable cdm size vs' zs.
Proof. intros Hvs [? ? ? ? ?]. split; [set_solver|done..]. Qed.

Lemma preferable_snoc cdm size vs zs v :
  preferable cdm size vs zs -> (0 < size -> Z.of_nat (length zs) < size) ->
  cpu_of cdm v ∉ cpu_of cdm <$> zs ->
  (forall prev, last zs = Some prev ->
     v = prev - 1 /\ node_of cdm (cpu_of cdm v) = node_of cdm (cpu_of cdm prev)) ->
  preferable cdm size (vs ++ [v]) (zs ++ [v]).
Proof.
  intros [Hsub Hcons Hnd Hnode Hsize] Hlt Hnew Hlast. split.
  - set_solver.
  - apply consecutive_snoc; [done|]. intros prev Hp. by apply Hlast.
  - rewrite fmap_app. apply NoDup_app. split; [done|]. split; [|apply NoDup_singleton].
    intros x Hx Hv. apply list_elem_of_singleton in Hv. by subst.
  - assert (forall a, a ∈ zs -> node_of cdm (cpu_of cdm v) = node_of cdm (cpu_of cdm a)) as Hv.
    { intros a Ha. destruct (last zs) as [prev|] eqn:Hl.
      - destruct (Hlast prev eq_refl) as [_ ->]. apply Hnode; [|done].
        apply last_Some in Hl as [zs' ->]. set_solver.
      - apply last_None in Hl. subst. by apply elem_of_nil in Ha. }
    intros a b. rewrite !elem_of_app, !list_elem_of_singleton.
    intros [Ha| ->] [Hb| ->]; auto. symmetry. auto.
  - intros Hs. rewrite length_app. simpl. specialize (Hlt Hs). lia.
Qed.

Lemma append_id_spec cdm size vs v rest preferredIDs idSet zs :
  scanned cdm size vs (v :: rest) preferredIDs idSet zs ->
  cpu_of cdm v ∉ cpu_of cdm <$> zs ->
  (forall prev, last zs = Some prev ->
     v = prev - 1 /\ node_of cdm (cpu_of cdm v) = node_of cdm (cpu_of cdm prev)) ->
  (forall w, w ∈ rest -> w <= v) ->
  match append_id size v (cpu_of cdm v) (preferredIDs, idSet) with
  | Next (ids', set') => exists zs', scanned cdm size (vs ++ [v]) rest ids' set' zs'
  | Break (ids', _) => exists zs', ids' = Itoa <$> zs' /\ preferable cdm size (vs ++ [v]) zs'
  | Return _ => False
  end.
Proof.
  intros [-> Hpref Hset Hbelow Hsize] Hnew Hlast Hrest. unfold append_id.
  pose proof (preferable_snoc _ _ _ _ _ Hpref Hsize Hnew Hlast) as Hpref'.
  rewrite length_app, length_fmap. destruct (_ =? size) eqn:E; to_prop; exists (zs ++ [v]).
  - by rewrite fmap_app.
  - split; [by rewrite fmap_app|done|..].
    + intros cpu. rewrite fmap_app, elem_of_union, elem_of_app, Hset. set_solver.
    + intros a w. rewrite elem_of_app, list_elem_of_singleton. intros [Ha| ->] Hw; [|auto].
      apply Hbelow; [done|by right].
    + intros Hs. pose proof (pref_size _ _ _ _ Hpref' Hs). rewrite length_app in *. simpl in *. lia.
Qed.

(** Whether a run goes on, for device numbers that floats represent. *)
Lemma keep_run_spec cdm v zs idSet :
  0 <= v < 2 ^ 32 -> Forall (fun a => 0 <= a < 2 ^ 32) zs ->
  (forall a, a ∈ zs -> v <= a /\ v <> a) ->
  keep_run cdm v (cpu_of cdm v) (Itoa <$> zs) idSet = ([], ∅) \/
  (keep_run cdm v (cpu_of cdm v) (Itoa <$> zs) idSet = (Itoa <$> zs, idSet) /\
   forall prev, last zs = Some prev ->
     v = prev - 1 /\ node_of cdm (cpu_of cdm v) = node_of cdm (cpu_of cdm prev)).
Proof.
  intros Hv Hzs Hbelow. unfold keep_run. rewrite fmap_last.
  destruct (last zs) as [prev|] eqn:Hl; simpl; [|by right].
  assert (prev ∈ zs) as Hin by (apply last_Some in Hl as [zs' ->]; set_solver).
  rewrite Forall_forall in Hzs. specialize (Hzs prev Hin). specialize (Hbelow prev Hin).
  rewrite Atoi_Itoa by (unfold is_int, min_int, max_int; lia). simpl.
  rewrite !float64_exact, !int_of_float_exact by (rewrite ?float64_exact; lia).
  destruct (_ || _) eqn:E; [by left|right]. split; [done|]. intros ? [= <-]. to_prop.
  split; [lia|done].
Qed.

(** One step of the loop. *)
Lemma prefer_step_spec cdm size vs v rest preferredIDs idSet zs :
  0 < numCPU cdm -> 0 <= v < 2 ^ 32 -> Forall (fun a => 0 <= a < 2 ^ 32) vs ->
  scanned cdm size vs (v :: rest) preferredIDs idSet zs ->
  (forall w, w ∈ rest -> w <= v) ->
  match prefer_step cdm size (Itoa v) preferredIDs idSet with
  | Next (ids', set') => exists zs', scanned cdm size (vs ++ [v]) rest ids' set' zs'
  | Break (ids', _) => exists zs', ids' = Itoa <$> zs' /\ preferable cdm size (vs ++ [v]) zs'
  | Return _ => False
  end.
Proof.
  intros Hn Hv Hvs Hscan Hrest. pose proof Hscan as [-> Hpref Hset Hbelow Hsize].
  unfold prefer_step. rewrite Atoi_Itoa by (unfold is_int, min_int, max_int; lia).
  unfold go_rem. rewrite (proj2 (Z.eqb_neq _ 0)) by lia. fold (cpu_of cdm v).
  case_decide as Hin.
  { exists zs. split; [done| |done| |done].
    - eapply preferable_weaken; [|done]. set_solver.
    - intros a w Ha Hw. apply Hbelow; [done|by right]. }
  rewrite Hset in Hin.
  assert (Forall (fun a => 0 <= a < 2 ^ 32) zs) as Hzs.
  { rewrite Forall_forall in Hvs |- *. intros a Ha. by apply Hvs, (pref_subset _ _ _ _ Hpref). }
  destruct (keep_run_spec cdm v zs idSet Hv Hzs) as [->|[-> Hlast]].
  - intros a Ha. split; [apply Hbelow; [done|left]|]. intros ->.
    by apply Hin, list_elem_of_fmap_2.
  - eapply (append_id_spec cdm size vs v rest [] ∅ []); [|set_solver|done|done].
    split; [done|apply preferable_nil|set_solver|set_solver|simpl; lia].
  - by eapply append_id_spec.
Qed.

(** The whole loop, on candidates in descending order. *)
Lemma prefer_spec cdm size vs :
  0 < numCPU cdm -> Forall (fun a => 0 <= a < 2 ^ 32) vs -> StronglySorted (fun a b => b <= a) vs ->
  exists zs, prefer cdm size (Itoa <$> vs) = Ok (Itoa <$> zs) /\ preferable cdm size vs zs.
Proof.
  intros Hn Hvs Hsorted. unfold prefer.
  apply (for_range_inv _
    (fun l1 '(ids, idSet) => exists vs1 vs2 zs, vs = vs1 ++ vs2 /\ l1 = Itoa <$> vs1 /\
       scanned cdm size vs1 vs2 ids idSet zs)
    (fun o => exists zs, after o (fun '(ids, _) => Ok ids) = Ok (Itoa <$> zs) /\
                         preferable cdm size vs zs)).
  - exists [], vs, []. split; [done|]. split; [done|].
    split; [done|apply preferable_nil|set_solver|set_solver|simpl; lia].
  - intros l1 x l2 [ids idSet] Hl (vs1 & vs2 & zs & -> & -> & Hscan).
    rewrite fmap_app in Hl. apply (inj _) in Hl. destruct vs2 as [|v rest]; [done|].
    rewrite fmap_cons in Hl. injection Hl as <- <-.
    apply Forall_app in Hvs as [Hvs1 Hvs2]. apply Forall_cons in Hvs2 as [Hv _].
    apply StronglySorted_app_1_r, StronglySorted_inv in Hsorted as [_ Hrest].
    rewrite Forall_forall in Hrest.
    pose proof (prefer_step_spec cdm size vs1 v rest ids idSet zs Hn Hv Hvs1 Hscan Hrest) as Hstep.
    destruct (prefer_step _ _ _ _ _) as [[ids' set']|[ids' set']|r]; [| |done].
    + destruct Hstep as [zs' Hscan']. exists (vs1 ++ [v]), rest, zs'.
      by rewrite fmap_app, <- (assoc_L (++)).
    + destruct Hstep as (zs' & -> & Hp). exists zs'. split; [done|].
      eapply preferable_weaken; [|done]. set_solver.
  - intros [ids idSet] (vs1 & vs2 & zs & -> & Heq & Hscan). exists zs.
    rewrite (scan_ids _ _ _ _ _ _ _ Hscan). split; [done|].
    eapply preferable_weaken; [|exact (scan_pref _ _ _ _ _ _ _ Hscan)]. set_solver.
Qed.

(** ** Sorting and grouping *)

Lemma device_key_Itoa v : 0 <= v < 2 ^ 32 -> device_key (Itoa v) = v.
Proof. intros Hv. unfold device_key. by rewrite ParseUint_Itoa. Qed.

(** Sorting device IDs sorts their numbers. *)
Lemma SortFunc_ids vs : Forall (fun a => 0 <= a < 2 ^ 32) vs ->
  exists vs', SortFunc (Itoa <$> vs) = Itoa <$> vs' /\ vs' ≡ₚ vs /\
    Forall (fun a => 0 <= a < 2 ^ 32) vs' /\ StronglySorted (fun a b => b <= a) vs'.
Proof.
  intros Hvs. destruct (Permutation_map_inv Itoa vs (SortFunc_perm (Itoa <$> vs))) as (vs' & Heq & Hperm).
  change (SortFunc (Itoa <$> vs) = Itoa <$> vs') in Heq. exists vs'.
  assert (Forall (fun a => 0 <= a < 2 ^ 32) vs') as Hvs' by by rewrite <- Hperm.
  split; [done|]. split; [done|]. split; [done|].
  pose proof (SortFunc_sorted (Itoa <$> vs)) as Hs. rewrite Heq in Hs.
  apply Sorted_StronglySorted in Hs; [|intros a b c; lia]. clear Heq Hperm.
  induction Hvs' as [|v vs' Hv Hvs' IH]; [constructor|].
  rewrite fmap_cons in Hs. apply StronglySorted_inv in Hs as [Hs Hall]. constructor; [by apply IH|].
  rewrite Forall_fmap in Hall. rewrite Forall_forall in Hall, Hvs' |- *. intros b Hb.
  specialize (Hall b Hb). simpl in Hall. rewrite !device_key_Itoa in Hall by auto. done.
Qed.

(** The devices of a NUMA node after grouping are the available ones on it. *)
Lemma group_by_numa_spec cdm l :
  (forall id, id ∈ l -> exists node, numa_of cdm id = Ok node) ->
  exists numaMap, group_by_numa cdm l = Ok numaMap /\
    forall node core, numaMap !! node = Some core ->
      ids core ⊆ l /\ forall id, id ∈ ids core -> numa_of cdm id = Ok node.
Proof.
  intros Hall. unfold group_by_numa.
  apply (for_range_inv _ (fun l1 numaMap => forall node core, numaMap !! node = Some core ->
      ids core ⊆ l1 /\ forall id, id ∈ ids core -> numa_of cdm id = Ok node)
    (fun o => exists numaMap, after o (fun m => Ok m) = Ok numaMap /\
      forall node core, numaMap !! node = Some core ->
      ids core ⊆ l /\ forall id, id ∈ ids core -> numa_of cdm id = Ok node)).
  - intros node core. by rewrite lookup_empty.
  - intros l1 id l2 m -> Hm. destruct (Hall id) as [node Hnode]; [set_solver|]. rewrite Hnode.
    intros node' core [[<- <-]|[Hne Hc]]%lookup_insert_Some.
    + destruct (m !! node) as [core|] eqn:E; simpl.
      * destruct (Hm node core E). split; [set_solver|]. intros id'.
        rewrite elem_of_app, list_elem_of_singleton. intros [?| ->]; auto.
      * split; [set_solver|]. intros id' ->%list_elem_of_singleton. done.
    + destruct (Hm node' core Hc). split; [set_solver|done].
  - intros m Hm. by exists m.
Qed.

Lemma group_by_numa_panics cdm l id p :
  id ∈ l -> numa_of cdm id = Panic p -> panics (group_by_numa cdm l) = true.
Proof.
  intros Hin Hid. unfold group_by_numa.
  apply (for_range_inv _ (fun l1 _ => id ∉ l1) (fun o => panics (after o (fun m => Ok m)) = true)).
  - by apply not_elem_of_nil.
  - intros l1 id' l2 m Hl Hl1. destruct (numa_of cdm id') as [node|[]|p'] eqn:E; [|exfalso|done].
    + rewrite elem_of_app, list_elem_of_singleton. intros [?| ->]; congruence.
    + revert E. unfold numa_of, go_index. destruct (TopologyNodes _) as [nodes|]; [|done].
      simpl. by destruct nodes.
  - done.
Qed.

(** The preference for one container, when every available device has a NUMA node. *)
Lemma prefer_container_spec cdm s vs size :
  0 < numCPU cdm -> Forall (fun a => 0 <= a < 2 ^ 32) vs ->
  (forall v, v ∈ vs -> exists node, numa_of cdm (Itoa v) = Ok node) ->
  exists o, prefer_container s cdm (Itoa <$> vs) size = Ok o /\
    forall ids, o = Some ids -> exists zs, ids = Itoa <$> zs /\ preferable cdm size vs zs.
Proof.
  intros Hn Hvs Hnode. unfold prefer_container.
  destruct (SortFunc_ids vs Hvs) as (vs' & -> & Hperm & Hvs' & _).
  destruct (group_by_numa_spec cdm (Itoa <$> vs')) as (m & -> & Hm).
  { intros id (v & -> & Hv)%list_elem_of_fmap. apply Hnode. by rewrite <- Hperm. }
  simpl. destruct (sw_Next _) as [? [numa|]]; simpl; [|by exists None].
  assert (exists ws, default [] (ids <$> m !! numa) = Itoa <$> ws /\ ws ⊆ vs) as (ws & -> & Hws).
  { destruct (m !! numa) as [core|] eqn:E; simpl; [|exists []; set_solver].
    destruct (Hm numa core E) as [Hsub _].
    assert (forall l : list string, l ⊆ Itoa <$> vs' -> exists ws, l = Itoa <$> ws /\ ws ⊆ vs) as Hlift.
    { induction l as [|id l IH]; intros Hl; [exists []; set_solver|].
      destruct IH as (ws & -> & Hws); [set_solver|].
      assert (id ∈ Itoa <$> vs') as (v & -> & Hv)%list_elem_of_fmap by (apply Hl; left).
      exists (v :: ws). split; [done|]. rewrite Hperm in Hv. set_solver. }
    by apply Hlift. }
  assert (Forall (fun a => 0 <= a < 2 ^ 32) ws) as Hwsb.
  { rewrite Forall_forall in Hvs |- *. auto. }
  destruct (SortFunc_ids ws Hwsb) as (ws' & -> & Hperm' & Hws' & Hsorted).
  destruct (prefer_spec cdm size ws' Hn Hws' Hsorted) as (zs & -> & Hzs). simpl.
  eexists. split; [done|]. intros ? [= <-]. exists zs. split; [done|].
  eapply preferable_weaken; [|done]. intros a. rewrite Hperm'. apply Hws.
Qed.
End preferred.

(** * Properties *)

(** The device IDs of some CPUs and rounds of a pool. *)
Definition ids_of `{CPUSetLib} `{Weighted} (cdm : cpuDeviceManager) (ds : list (Z * Z)) : list string :=
  (fun d => Itoa (device_id (numCPU cdm) d)) <$> ds.

(** Requests by device number, and by CPU and round, as the kubelet writes them. *)
Definition by_number (req : list Z * Z) : list string * Z := (Itoa <$> req.1, req.2).

Definition by_device `{CPUSetLib} `{Weighted} (cdm : cpuDeviceManager) (req : list (Z * Z) * Z)
    : list string * Z := (ids_of cdm req.1, req.2).

Section property_lemmas.
Context `{CPUSetLaws} `{RangeOrder} `{Weighted} `{Sorting}.
Context (AddHTSiblingsToCPUSet : CPUSet -> gmap Z string -> CPUSet).
Implicit Types (cdm : cpuDeviceManager) (s : site).

(** A container of an exclusive pool is told its set, if it has CPUs. *)
Lemma allocate_container_exclusive s cdm ids set :
  poolType cdm = "exclusive" -> allocated_cpus AddHTSiblingsToCPUSet cdm ids = Ok set ->
  cs_IsEmpty set = false ->
  exists extDevs devices,
    allocate_container AddHTSiblingsToCPUSet s cdm ids =
      Ok (set_extDevs cdm extDevs, mkContainerResponse {["EXCLUSIVE_CPUS" := cs_String set]} devices).
Proof.
  intros Htype Ha He. unfold allocate_container. rewrite Ha. simpl. unfold envmap. rewrite Htype. simpl.
  pose proof (@go_index_head _ _ unit set) as Hidx. destruct (cs_List set) as [|first l].
  { destruct Hidx. congruence. }
  destruct Hidx as [_ ->]. simpl. unfold external_devices.
  destruct (_ !! _) as [extDev|]; [destruct (sw_Next extDev)|]; [by eexists _, _|].
  exists (cloudphoneExtDevs cdm). eexists. by destruct cdm.
Qed.

(** All containers, of which [P] says what their sets are. *)
Lemma allocate_from_sets (P : list (Z * Z) -> CPUSet -> Prop) s i cdm reqs :
  poolType cdm = "exclusive" ->
  Forall (fun ds => exists set, allocated_cpus AddHTSiblingsToCPUSet cdm (ids_of cdm ds) = Ok set /\
    cs_IsEmpty set = false /\ P ds set) reqs ->
  exists cdm' resps,
    allocate_from AddHTSiblingsToCPUSet s i cdm (ids_of cdm <$> reqs) = Ok (cdm', resps) /\
    Forall2 (fun ds r => exists set, Envs r = {["EXCLUSIVE_CPUS" := cs_String set]} /\ P ds set) reqs resps.
Proof.
  revert i cdm. induction reqs as [|ds reqs IH]; intros i cdm Htype Hreqs.
  { exists cdm, []. split; [done|constructor]. }
  apply Forall_cons in Hreqs as [(set & Ha & He & HP) Hreqs]. rewrite fmap_cons. cbn [allocate_from].
  destruct (allocate_container_exclusive (i :: s) cdm _ set Htype Ha He) as (extDevs & devices & ->).
  cbn [mbind res_bind].
  destruct (IH (S i) (set_extDevs cdm extDevs) Htype Hreqs) as (cdm' & resps & Hrest & Hall).
  change (ids_of (set_extDevs cdm extDevs)) with (ids_of cdm) in Hrest. rewrite Hrest. simpl.
  eexists _, _. split; [done|]. constructor; [by exists set|done].
Qed.

Lemma device_set_not_empty (set : CPUSet) (ds : list (Z * Z)) : ds <> [] ->
  (forall c, c ∈ ds.*1 -> cs_Contains set c = true) -> cs_IsEmpty set = false.
Proof. destruct ds as [|[cpu k] ds]; [done|]. intros _ Hset. apply (not_IsEmpty set cpu), Hset. left. Qed.

Lemma allocate_from_exclusive s i cdm reqs :
  pool_fits cdm -> poolType cdm = "exclusive" -> HTPolicy (pool cdm) <> MultiThreadHTPolicy ->
  Forall (fun ds => ds <> [] /\ ds ⊆ device_pairs cdm) reqs ->
  exists cdm' resps,
    allocate_from AddHTSiblingsToCPUSet s i cdm (ids_of cdm <$> reqs) = Ok (cdm', resps) /\
    Forall2 (fun ds r => Envs r = {["EXCLUSIVE_CPUS" := cs_String (cs_New ds.*1)]}) reqs resps.
Proof.
  intros Hfits Htype Hpolicy Hreqs.
  destruct (allocate_from_sets (fun ds set => set ≡ cs_New ds.*1) s i cdm reqs Htype) as (cdm' & resps & Hr & Hall).
  - eapply Forall_impl; [exact Hreqs|]. intros ds [Hne Hds].
    destruct (allocated_cpus_devices AddHTSiblingsToCPUSet cdm ds Hfits Hds) as (set & Ha & Hset).
    unfold with_siblings in Ha. rewrite decide_False in Ha by done. exists set. split; [done|].
    split; [|done]. apply (device_set_not_empty _ ds); [done|]. intros c Hc.
    by rewrite Hset, contains_New, bool_decide_eq_true.
  - exists cdm', resps. split; [done|]. eapply Forall2_impl; [exact Hall|].
    intros ds r (set & -> & Hset). by rewrite (String_proper _ _ Hset).
Qed.

(** The CPUs of some devices and, if the pool shares cores, their siblings. *)
Definition device_cpu cdm (ds : list (Z * Z)) (c : Z) : Prop :=
  c ∈ ds.*1 \/ HTPolicy (pool cdm) = MultiThreadHTPolicy /\ sibling_of (htTopology cdm) (cs_New ds.*1) c.

Lemma with_siblings_devices `{!SiblingLaws AddHTSiblingsToCPUSet} cdm ds (set : CPUSet) c : set ≡ cs_New ds.*1 ->
  cs_Contains (with_siblings AddHTSiblingsToCPUSet cdm set) c = true <-> device_cpu cdm ds c.
Proof.
  intros Hset. unfold with_siblings, device_cpu.
  case_decide as Hpolicy; [rewrite contains_siblings, (sibling_of_equiv _ _ _ _ Hset)|];
    rewrite Hset, contains_New, bool_decide_eq_true; tauto.
Qed.

(** The devices of the cache that [ListAndWatch] leaves have a NUMA node. *)
Lemma advertised_numa cdm d :
  pool_fits cdm -> poolType cdm <> "shared" -> d ∈ device_pairs cdm ->
  is_Some (nodeTopology cdm !! d.1) ->
  exists node, numa_of (advertise cdm).1 (Itoa (device_id (numCPU cdm) d)) = Ok node.
Proof.
  intros Hfits Htype Hd [node Hnode]. destruct (advertise_exclusive cdm Hfits Htype) as [_ Hcache].
  exists node. unfold numa_of. rewrite (Hcache d Hd). simpl. by rewrite Hnode.
Qed.

Lemma prefer_from_spec cdm s i (reqs : list (list Z * Z)) :
  0 < numCPU cdm ->
  Forall (fun req => Forall (fun a => 0 <= a < 2 ^ 32) req.1 /\
    forall v, v ∈ req.1 -> exists node, numa_of cdm (Itoa v) = Ok node) reqs ->
  exists resps,
    prefer_from s i cdm (by_number <$> reqs) = Ok resps /\
    Forall2 (fun req (ids : list string) =>
        exists zs : list Z, ids = Itoa <$> zs /\ preferable cdm req.2 req.1 zs)
      (take (length resps) reqs) resps.
Proof.
  intros Hn Hreqs. revert i. induction Hreqs as [|[vs size] reqs [Hvs Hnode] Hreqs IH]; intros i.
  { exists []. split; [done|constructor]. }
  rewrite fmap_cons. unfold by_number at 1. cbn [prefer_from fst snd].
  destruct (prefer_container_spec cdm (i :: s) vs size Hn Hvs Hnode) as (o & -> & Ho). simpl.
  destruct o as [ids|]; [|exists []; split; [done|constructor]].
  destruct (IH (S i)) as (resps & -> & Hall). simpl. exists (ids :: resps). split; [done|].
  simpl. constructor; [|done]. by apply Ho.
Qed.
End property_lemmas.

Section properties.
Context `{CPUSetLaws} `{RangeOrder} `{Weighted} `{Sorting}.
Context (AddHTSiblingsToCPUSet : CPUSet -> gmap Z string -> CPUSet).
Implicit Types (cdm : cpuDeviceManager) (s : site).

(** C25: An exclusive or cloudphone pool advertises one healthy device per CPU and round of
    overcommitment, placed on the CPU's NUMA node, under pairwise distinct IDs, and the
    cache maps every ID to its device. *)
Theorem advertised_devices cdm :
  pool_fits cdm -> poolType cdm <> "shared" ->
  (advertise cdm).2 = device_at cdm <$> device_pairs cdm /\
  NoDup (ID <$> (advertise cdm).2) /\
  forall d, d ∈ (advertise cdm).2 -> cacheDevices (advertise cdm).1 !! ID d = Some d.
Proof.
  intros Hfits Htype. destruct (advertise_exclusive cdm Hfits Htype) as [Hdev Hcache].
  rewrite Hdev. split; [done|]. split; [by apply NoDup_device_ids|].
  intros d (p & -> & Hp)%list_elem_of_fmap. by apply Hcache.
Qed.

(** C10: Round trip of device IDs: when the kubelet allocates devices an exclusive pool
    advertised, [Allocate] answers every container, and [EXCLUSIVE_CPUS] names exactly the
    CPUs the devices stand for, whatever their round of overcommitment, together with their
    siblings if the policy of the pool is [multiThreaded]. *)
Theorem Allocate_exclusive_roundtrip `{!SiblingLaws AddHTSiblingsToCPUSet} s cdm reqs :
  pool_fits cdm -> poolType cdm = "exclusive" ->
  Forall (fun ds => ds <> [] /\ ds ⊆ device_pairs cdm) reqs ->
  exists cdm' resps,
    Allocate AddHTSiblingsToCPUSet s cdm (ids_of cdm <$> reqs) = Ok (cdm', resps) /\
    Forall2 (fun ds r => exists set, Envs r = {["EXCLUSIVE_CPUS" := cs_String set]} /\
      forall c, cs_Contains set c = true <-> device_cpu cdm ds c) reqs resps.
Proof.
  intros Hfits Htype Hreqs. apply allocate_from_sets; [done|].
  eapply Forall_impl; [exact Hreqs|]. intros ds [Hne Hds].
  destruct (allocated_cpus_devices AddHTSiblingsToCPUSet cdm ds Hfits Hds) as (set & Ha & Hset).
  eexists. split; [exact Ha|]. split; [|intros c; by apply with_siblings_devices].
  apply (device_set_not_empty _ ds Hne). intros c Hc. apply (with_siblings_devices _ cdm ds); [done|by left].
Qed.

(** [Allocate] panics exactly when some container of the request is left without any
    CPU (no device ID of it parses), or the number of CPUs is unknown. *)
Theorem Allocate_panics s cdm requests :
  panics (Allocate AddHTSiblingsToCPUSet s cdm requests) = true <->
  exists ids, ids ∈ requests /\ ~ allocatable AddHTSiblingsToCPUSet cdm ids.
Proof. apply allocate_from_panics. Qed.

(** C9: For devices an exclusive or cloudphone pool advertised, whose CPUs have a known NUMA
    node, [GetPreferredAllocation] returns, and each preference it gives lists available
    devices with consecutive numbers, on pairwise different CPUs of one NUMA node, no more
    than the container asks for. *)
Theorem GetPreferredAllocation_sound s cdm (reqs : list (list (Z * Z) * Z)) :
  pool_fits cdm -> poolType cdm <> "shared" ->
  (forall c, cs_Contains (CPUset (pool cdm)) c = true -> is_Some (nodeTopology cdm !! c)) ->
  Forall (fun req => req.1 ⊆ device_pairs cdm) reqs ->
  exists resps,
    GetPreferredAllocation s (advertise cdm).1 (by_device cdm <$> reqs) = Ok resps /\
    Forall2 (fun req (ids : list string) => exists zs : list Z, ids = Itoa <$> zs /\
      preferable cdm req.2 (device_id (numCPU cdm) <$> req.1) zs) (take (length resps) reqs) resps.
Proof.
  intros Hfits Htype Hnode Hreqs.
  assert (numCPU (advertise cdm).1 = numCPU cdm /\ nodeTopology (advertise cdm).1 = nodeTopology cdm)
    as [Hnum Htop].
  { unfold advertise. rewrite decide_False by done. by destruct (exclusive_devices cdm) as [[??] ?]. }
  destruct (prefer_from_spec (advertise cdm).1 s 0
    ((fun req : list (Z * Z) * Z => (device_id (numCPU cdm) <$> req.1, req.2)) <$> reqs)) as (resps & Hr & Hall).
  - rewrite Hnum. by apply fits_numCPU.
  - rewrite Forall_fmap. eapply Forall_impl; [exact Hreqs|]. intros [ds size] Hds. simpl in *. split.
    + rewrite Forall_fmap, Forall_forall. intros d Hd. by apply device_pairs_bounds, Hds.
    + intros v (d & -> & Hd)%list_elem_of_fmap. apply Hds in Hd. apply advertised_numa; try done.
      by apply Hnode, elem_of_device_pairs.
  - exists resps. rewrite <- list_fmap_compose in Hr. split.
    + rewrite <- Hr. unfold GetPreferredAllocation. f_equal. apply list_fmap_ext.
      intros _ [ds size] _. unfold by_number, by_device, ids_of. simpl. by rewrite <- list_fmap_compose.
    + rewrite <- fmap_take in Hall. apply Forall2_fmap_l in Hall.
      eapply Forall2_impl; [exact Hall|]. intros [ds size] ids (zs & -> & [? ? Hd Hn ?]).
      exists zs. split; [done|]. simpl in *. unfold cpu_of, node_of in *. rewrite Hnum, Htop in *.
      by split.
Qed.

(** After [ListAndWatch] of a shared pool, [GetPreferredAllocation] panics on every
    request whose first container has available devices: the cache is empty and the
    topology of the device is dereferenced without a check. *)
Theorem GetPreferredAllocation_shared_panics s cdm avail size requests :
  poolType cdm = "shared" -> avail <> [] ->
  panics (GetPreferredAllocation s (advertise cdm).1 ((avail, size) :: requests)) = true.
Proof.
  intros Htype Hne. unfold advertise. rewrite decide_True by done.
  unfold GetPreferredAllocation. cbn [prefer_from]. unfold prefer_container.
  destruct (SortFunc avail) as [|id l] eqn:Hsort.
  { exfalso. apply Hne, Permutation_nil. rewrite <- Hsort. apply SortFunc_perm. }
  assert (panics (group_by_numa (set_cache cdm (Overcommitment (pool cdm)) ∅) (id :: l)) = true) as Hp.
  { eapply (group_by_numa_panics _ _ id NilDereference); [left|]. done. }
  cbn [fst]. by destruct (group_by_numa _ _).
Qed.

(** A shared pool advertises 1000 devices per CPU, under pairwise distinct IDs. *)
Theorem shared_devices_count cdm :
  poolType cdm = "shared" -> 1000 * cs_Size (CPUset (pool cdm)) <= max_int ->
  Z.of_nat (length (advertise cdm).2) = 1000 * cs_Size (CPUset (pool cdm)) /\
  NoDup (ID <$> (advertise cdm).2).
Proof.
  intros Htype Hmax. unfold advertise. rewrite decide_True by done.
  cbn [snd]. unfold shared_devices.
  assert (0 <= cs_Size (CPUset (pool cdm))) as Hpos by (rewrite Size_List; lia).
  assert (wrap (cs_Size (CPUset (pool cdm)) * 1000) = 1000 * cs_Size (CPUset (pool cdm))) as ->.
  { rewrite Z.mul_comm. apply wrap_id. unfold is_int, min_int. lia. }
  rewrite length_fmap, length_seqZ, <- list_fmap_compose. split; [lia|].
  apply NoDup_fmap_2_strong; [|apply NoDup_seqZ].
  intros a b Ha%elem_of_seqZ Hb%elem_of_seqZ Heq. simpl in Heq. by apply Itoa_inj_nonneg in Heq; [|lia..].
Qed.

(** A cloudphone container is told its own CPUs and, as [NUMA_CPUS], exactly the CPUs of
    the pool's core map on the NUMA node of its lowest CPU. *)
Theorem envmap_cloudphone s cdm set first rest :
  poolType cdm = "cloudphone" -> cs_List set = first :: rest ->
  exists cpus,
    envmap s cdm set = Ok (<["NUMA_CPUS" := cs_String (cs_New cpus)]>
                             {["CLOUDPHONE_CPUS" := cs_String set]}) /\
    forall cpu, cpu ∈ cpus <-> exists topol, CoreMap (pool cdm) !! cpu = Some topol /\
      Node topol = Node (topology_of cdm first).
Proof.
  clear AddHTSiblingsToCPUSet. intros Htype Hl. unfold envmap. rewrite Htype. cbn [decide]. simpl.
  unfold numa_cpus. rewrite Hl.
  rewrite (for_range_next _ (fun cpus '(cpu, topol) =>
    if Node (topology_of cdm first) =? Node topol then cpus ++ [cpu] else cpus))
    by by intros i [cpu topol] cpus _.
  simpl. eexists. split; [done|]. intros cpu. setoid_rewrite <- (elem_of_visit s).
  generalize (visit s (CoreMap (pool cdm))). intros l.
  assert (forall cpus, cpu ∈ foldl (fun cpus '(cpu, topol) =>
    if Node (topology_of cdm first) =? Node topol then cpus ++ [cpu] else cpus) cpus l <->
    cpu ∈ cpus \/ exists topol, (cpu, topol) ∈ l /\ Node topol = Node (topology_of cdm first)) as Hgen.
  { induction l as [|[c t] l IH]; intros cpus; simpl; [set_solver|].
    rewrite IH. setoid_rewrite elem_of_cons.
    destruct (_ =? Node t) eqn:E; to_prop; [rewrite elem_of_app, list_elem_of_singleton|];
      naive_solver. }
  rewrite Hgen. set_solver.
Qed.
End properties.

(** ** Witnesses

    A round robin that keeps the items in order, a merge sort, and a machine of four CPUs
    with an exclusive pool of CPUs 2 and 3, overcommitted twice. *)

Module plugin_example.
Definition weighted : Weighted := {|
  SW A := list (A * Z);
  sw_zero A := [];
  sw_Add A sw a w := sw ++ [(a, w)];
  sw_Next A sw := (sw, fst <$> head sw)
|}.

Definition by_key (a b : string) : Prop := device_key b <= device_key a.

#[export] Instance by_key_dec : RelDecision by_key.
Proof. intros a b. unfold by_key. apply _. Defined.

#[export] Instance by_key_total : Total by_key.
Proof. intros a b. unfold by_key. lia. Qed.

Definition sorting : Sorting := {|
  SortFunc := merge_sort by_key;
  SortFunc_perm l := merge_sort_Permutation by_key l;
  SortFunc_sorted l := Sorted_merge_sort by_key l
|}.

Definition manager (poolType : string) (cpus : list Z) : @cpuDeviceManager list_cpuset.lib weighted :=
  @mkManager list_cpuset.lib weighted
    (@mkPool list_cpuset.lib cpus "2,3" SingleThreadHTPolicy 2 "" 0
       (list_to_map [(2, mkTopology 2 0 []); (3, mkTopology 3 0 [])]))
    "" "" None "2-3" poolType (list_to_map [(2, 0); (3, 0)]) ∅ ∅ ∅ ∅ 4.

Definition sharing_manager : @cpuDeviceManager list_cpuset.lib weighted :=
  @mkManager list_cpuset.lib weighted
    (@mkPool list_cpuset.lib [2; 3] "2,3" MultiThreadHTPolicy 2 "" 0 ∅)
    "" "" None "" "exclusive" ∅ (list_to_map [(2, "2,6"); (3, "3,7")]) ∅ ∅ ∅ 8.
End plugin_example.

Section witnesses.
#[local] Existing Instance list_cpuset.lib.
#[local] Existing Instance range_forward.
#[local] Existing Instance plugin_example.weighted.
#[local] Existing Instance plugin_example.sorting.
Import plugin_example.

Lemma manager_fits poolType : pool_fits (manager poolType [2; 3]).
Proof.
  split; [|done|done]. intros c Hc.
  apply (bool_decide_eq_true_1 (c ∈ [2; 3])) in Hc. rewrite !elem_of_cons in Hc.
  destruct Hc as [->|[->|[]%elem_of_nil]]; done.
Defined.

Lemma sharing_manager_fits : pool_fits sharing_manager.
Proof.
  split; [|done|done]. intros c Hc.
  apply (bool_decide_eq_true_1 (c ∈ [2; 3])) in Hc. rewrite !elem_of_cons in Hc.
  destruct Hc as [->|[->|[]%elem_of_nil]]; done.
Defined.

Lemma advertised_devices_witness :
  (advertise (manager "exclusive" [2; 3])).2 = device_at (manager "exclusive" [2; 3]) <$>
    [(2, 0); (2, 1); (3, 0); (3, 1)].
Proof.
  exact (proj1 (@advertised_devices _ list_cpuset.laws _ (manager "exclusive" [2; 3])
                  (manager_fits _) ltac:(discriminate))).
Defined.

(** A pool of the cores 2 and 3 that shares them with their siblings 6 and 7. *)
Lemma Allocate_exclusive_roundtrip_witness :
  exists cdm' resps,
    Allocate list_cpuset.add_siblings [] sharing_manager [["10"; "3"]] = Ok (cdm', resps) /\
    Forall2 (fun ds r => exists set, Envs r = {["EXCLUSIVE_CPUS" := cs_String set]} /\
      forall c, cs_Contains set c = true <-> device_cpu sharing_manager ds c) [[(2, 1); (3, 0)]] resps.
Proof.
  apply (@Allocate_exclusive_roundtrip _ list_cpuset.laws _ _ _ list_cpuset.siblings []
           sharing_manager [[(2, 1); (3, 0)]]);
    [apply sharing_manager_fits|reflexivity|].
  constructor; [|constructor]. split; [discriminate|].
  intros d Hd. vm_compute. apply elem_of_cons in Hd as [->|Hd]; [right; left|].
  apply list_elem_of_singleton in Hd as ->. do 2 right. left.
Defined.

(** The set it is told. *)
Example sharing_allocation :
  match Allocate list_cpuset.add_siblings [] sharing_manager [["10"; "3"]] with
  | Ok (_, resps) => Envs <$> resps
  | _ => []
  end = [{["EXCLUSIVE_CPUS" := "2,3,6,7"]}].
Proof. vm_compute. reflexivity. Qed.

(** No ID of the second container parses: [Allocate] panics. *)
Lemma Allocate_panics_witness :
  panics (Allocate (fun set _ => set) [] (manager "exclusive" [2; 3]) [["6"; "3"]; ["x"]]) = true.
Proof.
  apply (@Allocate_panics _ list_cpuset.laws _ _ (fun set _ => set) []
           (manager "exclusive" [2; 3]) [["6"; "3"]; ["x"]]).
  exists ["x"]. split; [right; left|]. intros (set & Hset & Hne). vm_compute in Hset.
  injection Hset as <-. discriminate Hne.
Defined.

Lemma GetPreferredAllocation_sound_witness :
  exists resps,
    GetPreferredAllocation [] (advertise (manager "exclusive" [2; 3])).1 [(["2"; "3"; "6"], 2)]
      = Ok resps /\
    Forall2 (fun req (ids : list string) => exists zs : list Z, ids = Itoa <$> zs /\
      preferable (manager "exclusive" [2; 3]) req.2 (device_id 4 <$> req.1) zs)
      (take (length resps) [([(2, 0); (3, 0); (2, 1)], 2)]) resps.
Proof.
  apply (@GetPreferredAllocation_sound _ list_cpuset.laws _ _ _ [] (manager "exclusive" [2; 3])
           [([(2, 0); (3, 0); (2, 1)], 2)]);
    [apply manager_fits|discriminate| |].
  - intros c Hc. apply (bool_decide_eq_true_1 (c ∈ [2; 3])) in Hc. rewrite !elem_of_cons in Hc.
    destruct Hc as [->|[->|[]%elem_of_nil]]; vm_compute; eexists; reflexivity.
  - constructor; [|constructor]. intros d Hd. vm_compute. simpl in Hd.
    rewrite !elem_of_cons, elem_of_nil in Hd.
    destruct Hd as [->|[->|[->|[]]]]; [left|do 2 right; left|right; left].
Defined.

Lemma GetPreferredAllocation_shared_panics_witness :
  panics (GetPreferredAllocation [] (advertise (manager "shared" [2; 3])).1 [(["0"; "1"], 1)]) = true.
Proof.
  apply (GetPreferredAllocation_shared_panics [] (manager "shared" [2; 3]));
    [reflexivity|discriminate].
Defined.

Lemma shared_devices_count_witness :
  Z.of_nat (length (advertise (manager "shared" [2; 3])).2) = 2000.
Proof.
  exact (proj1 (@shared_devices_count _ list_cpuset.laws _ (manager "shared" [2; 3])
                  eq_refl ltac:(vm_compute; discriminate))).
Defined.

Lemma envmap_cloudphone_witness :
  exists cpus,
    envmap [] (manager "cloudphone" [2; 3]) [3; 2] =
      Ok (<["NUMA_CPUS" := cs_String (cs_New cpus)]> {["CLOUDPHONE_CPUS" := cs_String [3; 2]]}) /\
    forall cpu, cpu ∈ cpus <-> exists topol,
      CoreMap (pool (manager "cloudphone" [2; 3])) !! cpu = Some topol /\
      Node topol = Node (topology_of (manager "cloudphone" [2; 3]) 2).
Proof.
  exact (@envmap_cloudphone _ list_cpuset.laws _ _ [] (manager "cloudphone" [2; 3]) [3; 2] 2 [3] eq_refl eq_refl).
Defined.
End witnesses.
