(* ===== verification/Dialer.v ===== *)
(** * The dialer of the device plugin: [pkg/utils/dialer.go]

    The targets of gRPC and the retries of a connection.  [net.Dialer] is an argument that
    says how each attempt ends; [url.Parse] one that gives scheme, host and path. *)

From S2P Require Import Prelude GoStrings.
From Stdlib Require Import Ascii.
Local Open Scope Z_scope.

Record URL := mkURL { Scheme : string; Host : string; URLPath : string }.

Definition drop_string (n : Z) (s : string) : string :=
  String.substring (Z.to_nat n) (String.length s) s.

Section dialer.
Context (url_Parse : string -> option URL).

(** The branches that return, and the default at the end. *)
Definition ParseDialTarget (target : string) : string * string :=
  let m1 := Index target ":" in
  let m2 := Index target ":/" in
  if (0 <=? m1) && (m2 <? 0) && bool_decide (String.substring 0 (Z.to_nat m1) target = "unix")
  then ("unix", drop_string (m1 + 1) target)
  else if 0 <=? m2 then
    match url_Parse target with
    | None => ("tcp", target)
    | Some t =>
        if decide (Scheme t = "unix")
        then ("unix", if decide (URLPath t = "") then Host t else URLPath t)
        else ("tcp", target)
    end
  else ("tcp", target).
End dialer.

Section connections.
Context {dialer conn : Type}.

(** [myDialer]; a nil dialer is [None], times are nanoseconds. *)
Record myDialer := mkDialer {
  dialer_of : option dialer;
  timeout : Z;
  retry : Z
}.

(** The options of the package. *)
Inductive Option_ :=
  | RetryOption (r : Z)
  | TimeoutOption (t : Z)
  | DialerOption (dl : dialer).

Definition apply (opt : Option_) (d : myDialer) : myDialer :=
  match opt with
  | RetryOption r => mkDialer (dialer_of d) (timeout d) r
  | TimeoutOption t => mkDialer (dialer_of d) t (retry d)
  | DialerOption dl => mkDialer (Some dl) (timeout d) (retry d)
  end.

Definition ApplyOptions (d : myDialer) (opts : list Option_) : myDialer :=
  foldl (fun d opt => apply opt d) d opts.

Definition second : Z := 1000000000.

Definition NewMyDialer (zero : dialer) (opts : list Option_) : myDialer :=
  let d := ApplyOptions (mkDialer None second 2) opts in
  match dialer_of d with
  | None => mkDialer (Some zero) (timeout d) (retry d)
  | Some _ => d
  end.

(** [dial timeout i] is the [i]-th attempt.  The loop counts down; a success sets the counter
    to 0.  The [err] of the last line is the outer one, which stays nil. *)
Fixpoint dial_loop (dial : nat -> option conn) (left i : nat) (c : option conn)
    : res unit (option conn) :=
  match left with
  | O => Ok c
  | S left' =>
      match dial i with
      | None => if decide (left = 1%nat) then Err tt else dial_loop dial left' (S i) None
      | Some c => Ok (Some c)
      end
  end.

Definition DialContext (dial : Z -> nat -> option conn) (t : myDialer) : res unit (option conn) :=
  dial_loop (dial (timeout t)) (Z.to_nat (retry t)) 0 None.

(** [UnixDial] and [WaitForServer] of [pkg/utils/util.go]: [DialTimeout] is [net.DialTimeout],
    [grpc_DialContext] the blocking connection of gRPC with a dialer of its own.  A
    connection is closed again; an error is wrapped in the text. *)
Definition UnixDial (DialTimeout : string -> string -> Z -> option conn) (addr : string) (timeout : Z)
    : option conn :=
  DialTimeout "unix" addr timeout.

Definition WaitForServer (DialTimeout : string -> string -> Z -> option conn)
    (grpc_DialContext : (string -> Z -> option conn) -> string -> res string conn) (socket : string)
    : res string unit :=
  match grpc_DialContext (UnixDial DialTimeout) socket with
  | Ok _ => Ok tt
  | Err e => Err ("Failed dial context at " +:+ socket +:+ ": " +:+ e)
  | Panic p => Panic p
  end.

(** * Lemmas *)

Lemma dial_loop_spec (dial : nat -> option conn) left i :
  match dial_loop dial (S left) i None with
  | Ok (Some c) => exists j, (j <= left)%nat /\ dial (i + j)%nat = Some c /\
      forall k, (k < j)%nat -> dial (i + k)%nat = None
  | Ok None => False
  | Err _ => forall k, (k <= left)%nat -> dial (i + k)%nat = None
  | Panic _ => False
  end.
Proof.
  revert i. induction left as [|left IH]; intros i; cbn [dial_loop]; destruct (dial i) as [c|] eqn:E.
  - exists 0%nat. rewrite Nat.add_0_r. split_and!; [lia|done|lia].
  - rewrite decide_True by done. intros k Hk. replace k with 0%nat by lia. by rewrite Nat.add_0_r.
  - exists 0%nat. rewrite Nat.add_0_r. split_and!; [lia|done|lia].
  - rewrite decide_False by lia. specialize (IH (S i)). cbn [dial_loop] in IH.
    assert (forall k, dial (S i + k)%nat = dial (i + S k)%nat) as Hk by (intros; f_equal; lia).
    destruct (match dial (S i) with None => _ | Some c => Ok (Some c) end) as [[c|]|e|p]; [|done| |done].
    + destruct IH as (j & Hj & Hd & Hno). exists (S j). split_and!; [lia|by rewrite <- Hk|].
      intros [|k] Hlt; [by rewrite Nat.add_0_r|]. rewrite <- Hk. apply Hno. lia.
    + intros [|k] Hlt; [by rewrite Nat.add_0_r|]. rewrite <- Hk. apply IH. lia.
Qed.

(** Two dialers with the same settings. *)
Definition same_dial (d d' : myDialer) : Prop := timeout d = timeout d' /\ retry d = retry d'.

Lemma same_settings (dial : Z -> nat -> option conn) opts : forall d d', same_dial d d' ->
  DialContext dial (foldl (fun d opt => apply opt d) d opts) =
  DialContext dial (foldl (fun d opt => apply opt d) d' opts).
Proof.
  induction opts as [|opt opts IH]; intros d d' [Ht Hr]; cbn [foldl].
  - unfold DialContext. by rewrite Ht, Hr.
  - apply IH. destruct opt; by split.
Qed.

Lemma NewMyDialer_context (dial : Z -> nat -> option conn) zero opts :
  DialContext dial (NewMyDialer zero opts) = DialContext dial (ApplyOptions (mkDialer None second 2) opts).
Proof. unfold NewMyDialer. by destruct (dialer_of _). Qed.

(** * Properties *)

(** With at least one attempt allowed, [DialContext] gives the connection of the first
    attempt that succeeds among the allowed ones, and an error exactly if all of them fail;
    with none allowed it returns neither a connection nor an error. *)
Theorem DialContext_retries (dial : Z -> nat -> option conn) (t : myDialer) :
  (0 < retry t ->
     (exists c j, DialContext dial t = Ok (Some c) /\ Z.of_nat j < retry t /\ dial (timeout t) j = Some c /\
        forall k, (k < j)%nat -> dial (timeout t) k = None) \/
     DialContext dial t = Err tt /\ forall k, Z.of_nat k < retry t -> dial (timeout t) k = None) /\
  (retry t <= 0 -> DialContext dial t = Ok None).
Proof.
  unfold DialContext. split.
  - intros Hpos. destruct (Z.to_nat (retry t)) as [|n] eqn:En; [lia|].
    pose proof (dial_loop_spec (dial (timeout t)) n 0) as Hspec.
    destruct (dial_loop _ (S n) 0 None) as [[c|]|[]|p]; [|done| |done].
    + destruct Hspec as (j & Hj & Hd & Hno). left. exists c, j. split_and!; [done|lia|done|done].
    + right. split; [done|]. intros k Hk. apply (Hspec k). lia.
  - intros Hneg. by replace (Z.to_nat (retry t)) with 0%nat by lia.
Qed.

(** The dialer given with [DialerOption] is never used: connections are made as without the
    option. *)
Theorem DialerOption_ignored (dial : Z -> nat -> option conn) (zero : dialer) dl opts opts' :
  DialContext dial (NewMyDialer zero (opts ++ DialerOption dl :: opts')) =
  DialContext dial (NewMyDialer zero (opts ++ opts')).
Proof.
  rewrite !NewMyDialer_context. unfold ApplyOptions. rewrite !foldl_app. cbn [foldl].
  apply same_settings. by split.
Qed.
End connections.
