(* ===== verification/Registration.v ===== *)
(** * Registration with the kubelet: [cmd/cpu-device-plugin/cpu-device-plugin.go], lines 57-67 and 250-286

    What a manager tells the kubelet: its options, its answer before a container starts, and
    the request that announces its resource.  [Register] connects through the dialer of
    [Dialer].  Outside the repository: gRPC ([Grpc]), which resolves the target and calls the
    dialer once for a request that does not wait; [net/url], and the kubelet.  They may answer
    each resource's registration differently. *)

From S2P Require Import Prelude GoStrings Cpuset Pools DevicePlugin Dialer.
From Stdlib Require Import Ascii.
Local Open Scope Z_scope.

Record RegisterRequest := mkRegisterRequest {
  Version : string;
  Endpoint : string;
  ResourceName : string
}.

Record DevicePluginOptions := mkOptions {
  PreStartRequired : bool;
  GetPreferredAllocationAvailable : bool
}.

Definition GetDevicePluginOptions : DevicePluginOptions := mkOptions true true.

(** The response has no fields. *)
Definition PreStartContainer (_ : list string) : res unit unit := Ok tt.

Record Grpc := {
  conn : Type;
  (** [grpc.NewClient] accepts a target *)
  NewClient : string -> bool;
  (** the address the resolver gives to the dialer *)
  resolved : string -> string;
  url_Parse : string -> option URL;
  (** attempts of [net.Dialer] for a resource: network, address, timeout, number *)
  attempt : string -> string -> string -> Z -> nat -> option conn;
  (** whether the kubelet takes a request on a connection *)
  kubelet_takes : conn -> RegisterRequest -> bool
}.

Inductive register_error := NotConnected | NotRegistered.

(** The context dialer of [Register]. *)
Definition register_dialer (g : Grpc) (resourceName addr : string) : res unit (option (conn g)) :=
  let '(network, endpoint) := ParseDialTarget (url_Parse g) addr in
  DialContext (attempt g resourceName network endpoint) (NewMyDialer tt []).

Section register.
Context `{CPUSetLib} `{Weighted}.

Definition register_request (cdm : cpuDeviceManager) (resourceName : string) : RegisterRequest :=
  mkRegisterRequest "v1beta1" (socketFile cdm) resourceName.

Definition Register (g : Grpc) (cdm : cpuDeviceManager) (kubeletEndpoint resourceName : string)
    : res register_error unit :=
  let target := "unix://" +:+ kubeletEndpoint in
  if negb (NewClient g target) then Err NotConnected
  else
    match register_dialer g resourceName (resolved g target) with
    | Ok (Some c) =>
        if kubelet_takes g c (register_request cdm resourceName) then Ok tt else Err NotRegistered
    | _ => Err NotRegistered
    end.

(** * Lemmas *)

(** Two attempts, a second each. *)
Lemma register_dialer_attempts g resourceName addr c :
  let '(network, endpoint) := ParseDialTarget (url_Parse g) addr in
  let dial := attempt g resourceName network endpoint second in
  register_dialer g resourceName addr = Ok (Some c) <->
    dial 0%nat = Some c \/ dial 0%nat = None /\ dial 1%nat = Some c.
Proof.
  unfold register_dialer. destruct (ParseDialTarget _ addr) as [network endpoint].
  unfold DialContext, NewMyDialer. simpl. change (Z.to_nat 2) with 2%nat. cbn [dial_loop].
  destruct (attempt g _ _ _ _ 0) as [c0|]; [naive_solver|].
  destruct (attempt g _ _ _ _ 1) as [c1|]; naive_solver.
Qed.

Lemma Register_socket g cdm cdm' kubeletEndpoint resourceName : socketFile cdm = socketFile cdm' ->
  Register g cdm kubeletEndpoint resourceName = Register g cdm' kubeletEndpoint resourceName.
Proof. intros Heq. unfold Register, register_request. by rewrite Heq. Qed.

Lemma Register_Ok g cdm kubeletEndpoint resourceName :
  Register g cdm kubeletEndpoint resourceName = Ok tt <->
  NewClient g ("unix://" +:+ kubeletEndpoint) = true /\ exists c,
    register_dialer g resourceName (resolved g ("unix://" +:+ kubeletEndpoint)) = Ok (Some c) /\
    kubelet_takes g c (register_request cdm resourceName) = true.
Proof.
  unfold Register. destruct (NewClient g _); simpl; [|naive_solver].
  destruct (register_dialer _ _ _) as [[c|]|e|q]; [|naive_solver..].
  destruct (kubelet_takes g c _) eqn:Hk; split; [eauto|done|done|].
  intros (_ & c' & [= <-] & Hk'). congruence.
Qed.

(** A path with a scheme goes to the URL parser. *)
Lemma dial_target_unix parse path : parse ("unix:///" +:+ path) = Some (mkURL "unix" "" ("/" +:+ path)) ->
  ParseDialTarget parse ("unix:///" +:+ path) = ("unix", "/" +:+ path).
Proof.
  intros Hp. unfold ParseDialTarget. rewrite Hp.
  assert (Index ("unix:///" +:+ path) ":" = 4 /\ Index ("unix:///" +:+ path) ":/" = 4) as [-> ->]; [|done].
  split; reflexivity.
Qed.
End register.

(** * Properties *)

(** A registration succeeds exactly if gRPC takes the target, one of two attempts of a second
    each reaches the Unix socket of the kubelet, and the kubelet takes the request, which
    carries the version of the API, the socket of the manager and the resource. *)
Theorem Register_announces `{CPUSetLib} `{Weighted} g cdm path resourceName :
  let target := "unix:///" +:+ path in
  let dial := attempt g resourceName "unix" ("/" +:+ path) second in
  resolved g target = target -> url_Parse g target = Some (mkURL "unix" "" ("/" +:+ path)) ->
  Register g cdm ("/" +:+ path) resourceName = Ok tt <->
    NewClient g target = true /\ exists c,
      (dial 0%nat = Some c \/ dial 0%nat = None /\ dial 1%nat = Some c) /\
      kubelet_takes g c (mkRegisterRequest "v1beta1" (socketFile cdm) resourceName) = true.
Proof.
  intros target dial Hres Hparse. rewrite Register_Ok.
  change ("unix://" +:+ ("/" +:+ path)) with target. rewrite Hres.
  assert (forall c, register_dialer g resourceName target = Ok (Some c) <->
    dial 0%nat = Some c \/ dial 0%nat = None /\ dial 1%nat = Some c) as Hdial.
  { intros c. pose proof (register_dialer_attempts g resourceName ("unix:///" +:+ path) c) as Ha.
    by rewrite (dial_target_unix _ _ Hparse) in Ha. }
  split; intros [Hnew (c & Hc & Hk)]; (split; [done|]); exists c; (split; [by apply Hdial|done]).
Qed.

(** ** Witness *)

Module registration_example.
Definition kubelet_sock : string := "/var/lib/kubelet/device-plugins/kubelet.sock".

(** The kubelet's socket answers the second attempt; the kubelet takes what [takes] says. *)
Definition grpc (takes : string -> bool) : Grpc := {|
  conn := string * string;
  NewClient := fun _ => true;
  resolved := id;
  url_Parse := fun u => if decide (u = "unix://" +:+ kubelet_sock)
    then Some (mkURL "unix" "" kubelet_sock) else None;
  attempt := fun _ network address _ i => match i with O => None | S _ => Some (network, address) end;
  kubelet_takes := fun c r => bool_decide (c = ("unix", kubelet_sock)) && takes (ResourceName r)
|}.
End registration_example.

Section witnesses.
#[local] Existing Instance list_cpuset.lib.
#[local] Existing Instance plugin_example.weighted.
Import registration_example.

Lemma Register_announces_witness cdm :
  Register (grpc (fun _ => true)) cdm kubelet_sock "bonc.k8s.io/exclusive_a" = Ok tt.
Proof.
  apply (Register_announces (grpc (fun _ => true)) cdm "var/lib/kubelet/device-plugins/kubelet.sock"
    "bonc.k8s.io/exclusive_a"); [reflexivity|vm_compute; reflexivity|].
  split; [reflexivity|]. exists ("unix", kubelet_sock).
  split; [right; split; reflexivity|vm_compute; reflexivity].
Defined.
End witnesses.
