(* ===== verification/PluginServer.v ===== *)
(** * The life of the device plugin: [cmd/cpu-device-plugin/cpu-device-plugin.go], lines 69-122, 258-286, 382-523

    Creation, registration and shutdown of one manager per pool, and the event loop of
    [main].  The file system is reduced to the names in the plugin directory; gRPC, the
    kubelet and the topology library are the fields of [ServerEnv]. *)

From S2P Require Import Prelude GoStrings Cpuset K8s Pools DevicePlugin Registration.
Local Open Scope Z_scope.

Section server.
Context `{CPUSetLib} `{RangeOrder} `{Weighted}.

(** What a (re)start meets outside the process. *)
Record ServerEnv := {
  senv_pools : PoolEnv;
  (** whether [filepath.Glob] fails, and whether [os.Remove] fails on a file *)
  glob_fails : bool;
  remove_fails : string -> bool;
  (** [net.Listen], [grpc.NewClient] in [Start] *)
  listen_fails : string -> bool;
  client_fails : string -> bool;
  (** gRPC and the kubelet in [Register] *)
  registry : Grpc;
  (** [utils.GetCpuInfo().Cores], and the topology library for a NUMA weight *)
  GetCpuInfo_Cores : Z;
  GetNodeTopology : gmap Z Z;
  GetHTTopology : gmap Z string;
  NewDevsPoller : string -> gmap Z Topology * gmap Z (SW Topology)
}.
Implicit Types (env : ServerEnv) (s : site).

(** The managers of the process, the files of the plugin directory, and whether a goroutine
    has been launched that will call [Serve] with a nil listener. *)
Record server_state := mkServers {
  cdms : list cpuDeviceManager;
  sockets : gset string;
  doomed : bool
}.

Definition socket_name (poolName : string) : string := "cph-cpudp_" +:+ poolName +:+ ".sock".

Definition newCPUDeviceManager env (poolName : string) (pool : Pool) (sharedCPUs : string)
    : cpuDeviceManager :=
  let '(cpuTopol, extDevs) := NewDevsPoller env (NumaWeight pool) in
  {| pool := pool;
     socketFile := socket_name poolName;
     devicePluginPath := "/var/lib/kubelet/device-plugins/";
     grpcServer := None;
     sharedPoolCPUs := sharedCPUs;
     poolType := DeterminePoolType poolName;
     nodeTopology := GetNodeTopology env;
     htTopology := GetHTTopology env;
     cloudphoneExtDevs := extDevs;
     cloudphoneCPUTopol := cpuTopol;
     cacheDevices := ∅;
     numCPU := GetCpuInfo_Cores env |}.

(** The manager after [Start], the files, whether the goroutine [grpcServer.Serve(lis)] will
    dereference a nil listener, and whether [Start] failed.  The error of [Listen] is only
    logged: [Start] goes on with the nil listener. *)
Definition Start env (cdm : cpuDeviceManager) (sockets : gset string)
    : cpuDeviceManager * gset string * bool * bool :=
  let listening := negb (listen_fails env (socketFile cdm)) in
  let sockets := if remove_fails env (socketFile cdm) then sockets
                 else sockets ∖ {[socketFile cdm]} in
  (set_server cdm (Some listening),
   if listening then {[socketFile cdm]} ∪ sockets else sockets,
   negb listening,
   client_fails env (socketFile cdm)).

(** [grpcServer.Stop] closes the listener, which removes the file of its socket. *)
Definition close_listener env (cdm : cpuDeviceManager) (sockets : gset string) : gset string :=
  match grpcServer cdm with
  | Some true => if remove_fails env (socketFile cdm) then sockets else sockets ∖ {[socketFile cdm]}
  | _ => sockets
  end.

(** The files after [cleanup], and whether it failed. *)
Definition cleanup env (cdm : cpuDeviceManager) (sockets : gset string) : gset string * bool :=
  if remove_fails env (socketFile cdm) then (sockets, true)
  else (sockets ∖ {[socketFile cdm]}, false).

Definition Stop env (cdm : cpuDeviceManager) (sockets : gset string)
    : cpuDeviceManager * gset string * bool :=
  match grpcServer cdm with
  | None => (cdm, sockets, false)
  | Some _ =>
      let sockets := close_listener env cdm sockets in
      let cdm := set_server cdm None in
      let '(sockets, err) := cleanup env cdm sockets in
      (cdm, sockets, err)
  end.

(** [for _, cdm := range cdms { cdm.Stop() }] *)
Fixpoint stop_all env (cdms : list cpuDeviceManager) (sockets : gset string)
    : list cpuDeviceManager * gset string :=
  match cdms with
  | [] => ([], sockets)
  | cdm :: cdms =>
      let '(cdm, sockets, _) := Stop env cdm sockets in
      let '(cdms, sockets) := stop_all env cdms sockets in
      (cdm :: cdms, sockets)
  end.

Inductive plugin_error := OnlyOneSharedPool.

Definition validatePools s (poolConf : PoolConfig) : string * option plugin_error :=
  no_return (for_range (fun _ '(poolName, pool) '(sharedCPUs, err) =>
          if decide (DeterminePoolType poolName = SharedPoolID) then
            if decide (sharedCPUs <> "") then Break (sharedCPUs, Some OnlyOneSharedPool)
            else Next (cs_String (CPUset pool), err)
          else Next (sharedCPUs, err))
          (visit s (Pools poolConf)) ("", None)).

Definition resource_name (poolName : string) : string := resourceBaseName +:+ "/" +:+ poolName.

(** [path.Join(pluginapi.DevicePluginPath, "kubelet.sock")] *)
Definition kubelet_sock : string := "/var/lib/kubelet/device-plugins/kubelet.sock".

(** The loop over the pools; the last component lists the resources the kubelet accepted.
    The errors of [Start] and [Register] are assigned to variables of the loop body: the
    [err] that is returned stays nil. *)
Definition create_loop s env (poolConf : PoolConfig) (sharedCPUs : string)
    (st : server_state * list string) : server_state * list string :=
  no_return (for_range (fun _ '(poolName, pool) '(st, registered) =>
          if decide (DeterminePoolType poolName = DefaultPoolID) then Next (st, registered)
          else
            let cdm := newCPUDeviceManager env poolName pool sharedCPUs in
            let '(cdm, socks, nil_listener, failed) := Start env cdm (sockets st) in
            let doomed := doomed st || nil_listener in
            if failed then Break (mkServers (cdms st ++ [cdm]) socks doomed, registered)
            else if negb (is_ok (Register (registry env) cdm kubelet_sock (resource_name poolName)))
            then Break (mkServers (cdms st ++ [set_server cdm (Some false)]) (close_listener env cdm socks) doomed,
                        registered)
            else Next (mkServers (cdms st ++ [cdm]) socks doomed, registered ++ [resource_name poolName]))
          (visit s (Pools poolConf)) st).

Definition createCDMs s env (poolConf : PoolConfig) (sharedCPUs : string) (st : server_state)
    : server_state * list string * option plugin_error :=
  (create_loop s env poolConf sharedCPUs (st, []), None).

(** [Exited]: [glog.Fatal]. *)
Inductive created :=
  | Exited
  | Created (st : server_state) (registered : list string) (err : option plugin_error).

(** [filepath.Glob(filepath.Join(DevicePluginPath, "cpudp*"))] *)
Definition stale_files (sockets : gset string) : gset string :=
  filter (fun f => HasPrefix f "cpudp" = true) sockets.

Definition createPluginsForPools s env (st : server_state) : created :=
  if glob_fails env then Exited
  else if existsb (remove_fails env) (elements (stale_files (sockets st))) then Exited
  else
    let st := mkServers (cdms st) (sockets st ∖ stale_files (sockets st)) (doomed st) in
    match DeterminePoolConfig (senv_pools env) (0%nat :: s) with
    | Ok poolConf =>
        match validatePools (1%nat :: s) poolConf with
        | (_, Some err) => Created st [] (Some err)
        | (sharedCPUs, None) =>
            let '(st, registered, err) := createCDMs (2%nat :: s) env poolConf sharedCPUs st in
            match err with
            | Some _ =>
                let '(managers, socks) := stop_all env (cdms st) (sockets st) in
                Created (mkServers managers socks (doomed st)) registered None
            | None => Created st registered None
            end
        end
    | _ => Exited
    end.

(** ** [main] *)

Inductive event :=
  | SIGHUP
  | Termination
  (** a change of [kubelet.sock] *)
  | KubeletChanged
  (** the goroutines that [Start] launched get to run [Serve] *)
  | ServeRuns.

Inductive plugin_process :=
  | Running (st : server_state)
  | Terminated_ (st : server_state)
  (** a goroutine panicked *)
  | Crashed.

Definition handle s env (e : event) (st : server_state) : plugin_process :=
  match e with
  | SIGHUP => Running st
  | Termination =>
      let '(managers, socks) := stop_all env (cdms st) (sockets st) in
      Terminated_ (mkServers managers socks (doomed st))
  | KubeletChanged =>
      let '(_, socks) := stop_all env (cdms st) (sockets st) in
      let st := mkServers [] socks (doomed st) in
      match createPluginsForPools s env st with
      | Created st _ None => Running st
      | Created st _ (Some _) => Terminated_ st
      | Exited => Terminated_ st
      end
  | ServeRuns => if doomed st then Crashed else Running st
  end.

Definition start s env (sockets : gset string) : plugin_process :=
  match createPluginsForPools s env (mkServers [] sockets false) with
  | Created st _ None => Running st
  | Created st _ (Some _) => Terminated_ st
  | Exited => Terminated_ (mkServers [] sockets false)
  end.

(** The loop of [main], as far as the events go. *)
Fixpoint event_loop (i : nat) s (events : list (ServerEnv * event)) (st : server_state) : plugin_process :=
  match events with
  | [] => Running st
  | (env, e) :: events =>
      match handle (i :: s) env e st with
      | Running st => event_loop (S i) s events st
      | p => p
      end
  end.

(** The error of [fsnotify.NewWatcher] is dropped: the watcher is nil then. *)
Definition main s (NewWatcher : bool) env (sockets : gset string) (events : list (ServerEnv * event))
    : res unit plugin_process :=
  if negb NewWatcher then Panic NilDereference
  else
    match start (0%nat :: s) env sockets with
    | Running st => Ok (event_loop 1 s events st)
    | p => Ok p
    end.

(** The states of the process: each event meets its own environment. *)
Inductive reachable : plugin_process -> Prop :=
  | reach_start s env sockets : reachable (start s env sockets)
  | reach_event s env e st : reachable (Running st) -> reachable (handle s env e st).
End server.

Arguments ServerEnv {_ _}.
Arguments server_state {_ _}.
Arguments plugin_process {_ _}.

(** ** Names of sockets *)

#[export] Instance socket_name_inj : Inj (=) (=) socket_name.
Proof. intros a b Hab. unfold socket_name in Hab. by apply append_inj_l, append_inj_r in Hab. Qed.

#[export] Instance resource_name_inj : Inj (=) (=) resource_name.
Proof. intros a b Hab. unfold resource_name in Hab. by do 2 apply append_inj_l in Hab. Qed.

(** The clean-up pattern [cpudp*] does not match the sockets the plugin creates. *)
Lemma socket_name_not_stale poolName : HasPrefix (socket_name poolName) "cpudp" = false.
Proof. reflexivity. Qed.

Section lemmas.
Context `{CPUSetLib} `{RangeOrder} `{Weighted}.
Implicit Types (env : ServerEnv) (s : site) (st : server_state).

Definition advertised_pool (poolName : string) : Prop := DeterminePoolType poolName <> DefaultPoolID.

#[export] Instance advertised_pool_dec poolName : Decision (advertised_pool poolName).
Proof. unfold advertised_pool. apply _. Defined.

(** Each manager serves an advertised pool on a socket of its own, and a serving manager
    has its socket in the directory. *)
Record servers_ok st : Prop := {
  ok_sockets : NoDup (socketFile <$> cdms st);
  ok_managers : Forall (fun cdm => exists poolName, advertised_pool poolName /\
    socketFile cdm = socket_name poolName /\ poolType cdm = DeterminePoolType poolName) (cdms st);
  ok_serving : Forall (fun cdm => is_Some (grpcServer cdm) /\
    (grpcServer cdm = Some true -> socketFile cdm ∈ sockets st)) (cdms st)
}.

Lemma servers_ok_nil socks d : servers_ok (mkServers [] socks d).
Proof. split; constructor. Qed.

(** Adding the manager of a new pool. *)
Lemma servers_ok_snoc st cdm poolName socks d :
  servers_ok st -> advertised_pool poolName -> socketFile cdm = socket_name poolName ->
  poolType cdm = DeterminePoolType poolName -> socket_name poolName ∉ socketFile <$> cdms st ->
  is_Some (grpcServer cdm) -> (grpcServer cdm = Some true -> socketFile cdm ∈ socks) ->
  sockets st ∖ {[socketFile cdm]} ⊆ socks ->
  servers_ok (mkServers (cdms st ++ [cdm]) socks d).
Proof.
  intros [Hnd Hman Hserv] Hadv Hsock Htype Hnew Hsome Hin Hkeep. split; simpl.
  - rewrite fmap_app. apply NoDup_app. split; [done|]. split; [|apply NoDup_singleton].
    intros x Hx ->%list_elem_of_singleton. by rewrite Hsock in Hx.
  - apply Forall_app_2; [done|]. constructor; [|constructor]. eauto.
  - apply Forall_app_2; [|by constructor]. rewrite Forall_forall in Hserv |- *.
    intros cdm' Hc'. destruct (Hserv cdm' Hc') as [Hs Hsv]. split; [done|]. intros Ht.
    apply Hkeep. rewrite elem_of_difference, elem_of_singleton. split; [by apply Hsv|].
    intros Heq. apply Hnew. rewrite <- Hsock, <- Heq. by apply list_elem_of_fmap_2.
Qed.

Lemma Start_spec env cdm socks :
  let '(cdm', socks', nil_listener, failed) := Start env cdm socks in
  socketFile cdm' = socketFile cdm /\ poolType cdm' = poolType cdm /\
  grpcServer cdm' = Some (negb (listen_fails env (socketFile cdm))) /\
  (grpcServer cdm' = Some true -> socketFile cdm ∈ socks') /\
  socks ∖ {[socketFile cdm]} ⊆ socks' /\ failed = client_fails env (socketFile cdm) /\
  nil_listener = listen_fails env (socketFile cdm).
Proof.
  unfold Start. simpl. split; [done|]. split; [done|]. split; [done|].
  destruct (listen_fails env _); simpl; (split; [try done; set_solver|]); (split; [|done]);
    destruct (remove_fails env _); set_solver.
Qed.

Lemma new_manager env poolName pool sharedCPUs :
  let cdm := newCPUDeviceManager env poolName pool sharedCPUs in
  socketFile cdm = socket_name poolName /\ poolType cdm = DeterminePoolType poolName.
Proof. unfold newCPUDeviceManager. by destruct (NewDevsPoller env _). Qed.

Lemma close_listener_bounds env cdm socks :
  close_listener env cdm socks ⊆ socks /\ socks ∖ {[socketFile cdm]} ⊆ close_listener env cdm socks.
Proof.
  unfold close_listener. destruct (grpcServer cdm) as [[]|]; [|set_solver..].
  destruct (remove_fails _ _); set_solver.
Qed.

(** The loop of [createCDMs] keeps the invariant, whatever fails. *)
Lemma create_loop_ok s env poolConf sharedCPUs socks d :
  servers_ok (create_loop s env poolConf sharedCPUs (mkServers [] socks d, [])).1.
Proof.
  unfold create_loop. pose proof (NoDup_fst_visit s (Pools poolConf)) as Hnd. revert Hnd.
  set (l := visit s (Pools poolConf)). intros Hnd.
  apply (for_range_inv _ (fun l1 '(st, _) => servers_ok st /\
      socketFile <$> cdms st ⊆ socket_name <$> l1.*1)
    (fun o => servers_ok (no_return o).1)).
  - split; [apply servers_ok_nil|set_solver].
  - intros l1 [poolName pool] l2 [st registered] Hl [Hok Hsub].
    rewrite Hl, fmap_app, fmap_cons in Hnd. apply NoDup_app in Hnd as (_ & Hnew & _).
    case_decide as Hdef; [split; [done|]; rewrite fmap_app, fmap_app; set_solver|].
    assert (socket_name poolName ∉ socketFile <$> cdms st) as Hfresh.
    { intros Hin%Hsub. apply list_elem_of_fmap in Hin as (n & ->%(inj _) & Hn).
      apply (Hnew n Hn). left. }
    destruct (new_manager env poolName pool sharedCPUs) as [Hsock Htype].
    pose proof (Start_spec env (newCPUDeviceManager env poolName pool sharedCPUs) (sockets st)) as Hst.
    destruct (Start env _ _) as [[[cdm socks'] nil_listener] failed].
    destruct Hst as (Hs & Ht & Hg & Hin & Hkeep & _). rewrite Hsock in *. rewrite Htype in Ht.
    assert (servers_ok (mkServers (cdms st ++ [cdm]) socks' (doomed st || nil_listener))) as Hok'.
    { eapply servers_ok_snoc; try done; rewrite ?Hs, ?Hg; eauto. by rewrite Hg in Hin. }
    destruct failed; [done|]. destruct (is_ok _); simpl; cycle 1.
    + eapply servers_ok_snoc; try done; simpl; rewrite ?Hs; eauto.
      destruct (close_listener_bounds env cdm socks') as [_ Hc]. rewrite Hs in Hc. set_solver.
    + split; [done|]. simpl. rewrite !fmap_app. simpl. rewrite Hs. set_solver.
  - by intros [st registered] [Hok _].
Qed.

Lemma createPluginsForPools_ok s env socks d :
  match createPluginsForPools s env (mkServers [] socks d) with
  | Exited => True
  | Created st _ _ => servers_ok st
  end.
Proof.
  unfold createPluginsForPools. destruct (glob_fails env); [done|].
  destruct (existsb _ _); [done|]. destruct (DeterminePoolConfig _ _) as [conf|e|p]; [|done..].
  destruct (validatePools _ conf) as [cpus [e|]]; simpl; [apply servers_ok_nil|].
  unfold createCDMs. pose proof (create_loop_ok (2%nat :: s) env conf cpus
    (socks ∖ stale_files socks) d) as Hok.
  by destruct (create_loop _ _ _ _ _).
Qed.

(** Stopping every manager. *)
Lemma stop_all_spec env managers socks :
  let '(managers', socks') := stop_all env managers socks in
  Forall (fun cdm => grpcServer cdm = None) managers' /\
  socketFile <$> managers' = socketFile <$> managers /\ socks' ⊆ socks /\
  ((forall f, remove_fails env f = false) -> Forall (fun cdm => is_Some (grpcServer cdm)) managers ->
     forall f, f ∈ socketFile <$> managers -> f ∉ socks').
Proof.
  revert socks. induction managers as [|cdm managers IH]; intros socks; simpl.
  { split; [done|]. split; [done|]. split; [done|]. intros _ _ f Hf. by apply elem_of_nil in Hf. }
  pose proof (close_listener_bounds env cdm socks) as [Hclose _].
  unfold Stop, cleanup. destruct (grpcServer cdm) as [b|] eqn:Hg.
  - revert Hclose. generalize (close_listener env cdm socks). intros socks1 Hclose.
    simpl. destruct (remove_fails env (socketFile cdm)) eqn:Hr; simpl.
    + specialize (IH socks1). destruct (stop_all env managers socks1) as [managers' socks'].
      destruct IH as (Hn & Hs & Hsub & Hgone). simpl. split; [by constructor|].
      split; [by f_equal|]. split; [by etrans|]. intros Hrem. by rewrite Hrem in Hr.
    + specialize (IH (socks1 ∖ {[socketFile cdm]})).
      destruct (stop_all env managers _) as [managers' socks'].
      destruct IH as (Hn & Hs & Hsub & Hgone). simpl. split; [by constructor|].
      split; [by f_equal|]. split; [set_solver|].
      intros Hrem Hall f. apply Forall_cons in Hall as [_ Hall].
      intros [->|Hf]%elem_of_cons; [set_solver|by apply Hgone].
  - specialize (IH socks). simpl. destruct (stop_all env managers socks) as [managers' socks'].
    destruct IH as (Hn & Hs & Hsub & _). simpl. split; [by constructor|].
    split; [by f_equal|]. split; [done|]. intros _ Hall.
    apply Forall_cons in Hall as [[b Hb] _]. congruence.
Qed.

Lemma reachable_ok p : reachable p -> forall st, p = Running st -> servers_ok st.
Proof.
  induction 1 as [s env socks|s env e st Hreach IH]; intros st' Heq.
  - unfold start in Heq. pose proof (createPluginsForPools_ok s env socks false) as Hok.
    destruct (createPluginsForPools _ _ _) as [|st0 ? [e|]]; by simplify_eq.
  - destruct e; simpl in Heq.
    + simplify_eq. by apply IH.
    + by destruct (stop_all _ _ _).
    + destruct (stop_all _ _ _) as [managers socks].
      pose proof (createPluginsForPools_ok s env socks (doomed st)) as Hok.
      destruct (createPluginsForPools _ _ _) as [|st0 ? [e|]]; by simplify_eq.
    + destruct (doomed st); [done|]. simplify_eq. by apply IH.
Qed.
End lemmas.

(** [main] goes through reachable states. *)
Lemma plugin_main_reachable `{CPUSetLib} `{RangeOrder} `{Weighted} s watcher env socks events p :
  main s watcher env socks events = Ok p -> reachable p.
Proof.
  unfold main. destruct watcher; simpl; [|done].
  pose proof (reach_start (0%nat :: s) env socks) as Hst.
  destruct (start _ env socks) as [st|st|]; [|by intros [= <-]..]. intros [= <-]. revert Hst.
  generalize 1%nat. revert st. induction events as [|[env' e] events IH]; intros st i Hst; [done|]. simpl.
  pose proof (reach_event (i :: s) env' e st Hst) as Hnext.
  destruct (handle _ env' e st) as [st'|st'|]; [by apply IH|done..].
Qed.

(** ** What a start leaves *)

Section start_lemmas.
Context `{CPUSetLib} `{RangeOrder} `{Weighted}.
Implicit Types (env : ServerEnv) (s : site) (st : server_state).

(** The registration of a pool, with the socket of its manager. *)
Definition registers env (poolName : string) : Prop := forall cdm, socketFile cdm = socket_name poolName ->
  Register (registry env) cdm kubelet_sock (resource_name poolName) = Ok tt.

Definition refuses env (poolName : string) : Prop := forall cdm, socketFile cdm = socket_name poolName ->
  Register (registry env) cdm kubelet_sock (resource_name poolName) <> Ok tt.

Lemma is_ok_unit {E} (r : res E unit) : is_ok r = true <-> r = Ok tt.
Proof. by destruct r as [[]| |]. Qed.

(** A pool the kubelet refuses is not among the registered resources. *)
Lemma create_loop_refused s env poolConf sharedCPUs st poolName :
  refuses env poolName ->
  resource_name poolName ∉ (create_loop s env poolConf sharedCPUs (st, [])).2.
Proof.
  intros Hfail. unfold create_loop.
  apply (for_range_inv _ (fun _ '(_, registered) => resource_name poolName ∉ registered)
    (fun o => resource_name poolName ∉ (no_return o).2)).
  - by apply not_elem_of_nil.
  - intros l1 [n pool] l2 [st' registered] _ Hnot. case_decide; [done|].
    destruct (new_manager env n pool sharedCPUs) as [Hsock _].
    pose proof (Start_spec env (newCPUDeviceManager env n pool sharedCPUs) (sockets st')) as Hst.
    destruct (Start env _ _) as [[[cdm socks] nil_listener] failed]. destruct Hst as (Hs & _). rewrite Hsock in Hs.
    destruct failed; [done|]. destruct (is_ok _) eqn:Hreg; [|done]. apply is_ok_unit in Hreg. simpl.
    rewrite elem_of_app, list_elem_of_singleton. intros [?|<-%(inj _)]; [done|by apply (Hfail cdm)].
  - by intros [st' registered] Hnot.
Qed.

(** A registered resource was taken for a manager of the list. *)
Lemma create_loop_registered s env poolConf sharedCPUs st r :
  let '(st', registered) := create_loop s env poolConf sharedCPUs (st, []) in
  r ∈ registered ->
  exists poolName cdm, r = resource_name poolName /\ advertised_pool poolName /\ cdm ∈ cdms st' /\
    socketFile cdm = socket_name poolName /\
    grpcServer cdm = Some (negb (listen_fails env (socketFile cdm))) /\
    Register (registry env) cdm kubelet_sock r = Ok tt.
Proof.
  unfold create_loop. set (P := fun st' => exists poolName cdm, r = resource_name poolName /\
    advertised_pool poolName /\ cdm ∈ cdms st' /\ socketFile cdm = socket_name poolName /\
    grpcServer cdm = Some (negb (listen_fails env (socketFile cdm))) /\
    Register (registry env) cdm kubelet_sock r = Ok tt).
  assert (forall st1 cdm socks d, P st1 -> P (mkServers (cdms st1 ++ [cdm]) socks d)) as Hmono.
  { intros st1 cdm socks d (n & c & -> & Ha & Hc & Hrest). exists n, c.
    split; [done|]. split; [done|]. split; [by apply elem_of_app; left|done]. }
  apply (for_range_inv _ (fun _ '(st1, registered) => r ∈ registered -> P st1)
    (fun o => let '(st1, registered) := no_return o in r ∈ registered -> P st1)).
  - by intros ?%elem_of_nil.
  - intros l1 [n pool] l2 [st1 registered] _ IH. case_decide as Hadv; [done|].
    destruct (new_manager env n pool sharedCPUs) as [Hsock _].
    pose proof (Start_spec env (newCPUDeviceManager env n pool sharedCPUs) (sockets st1)) as Hst.
    destruct (Start env _ _) as [[[cdm socks] nil_listener] failed]. destruct Hst as (Hs & _ & Hg & _).
    rewrite <- Hs in Hg. rewrite Hsock in Hs.
    destruct failed; [by intros Hr; apply Hmono, IH|].
    destruct (is_ok _) eqn:Hreg; simpl; [|by intros Hr; apply Hmono, IH]. apply is_ok_unit in Hreg.
    rewrite elem_of_app, list_elem_of_singleton. intros [Hr| ->]; [by apply Hmono, IH|].
    exists n, cdm. split_and!; try done. simpl. apply elem_of_app. right. left.
  - by intros [st1 registered].
Qed.

(** A manager without a listener dooms the process. *)
Lemma create_loop_doomed s env poolConf sharedCPUs st :
  let dooms st := forall cdm, cdm ∈ cdms st -> listen_fails env (socketFile cdm) = true -> doomed st = true in
  dooms st -> dooms (create_loop s env poolConf sharedCPUs (st, [])).1.
Proof.
  intros dooms Hst. unfold create_loop.
  apply (for_range_inv _ (fun _ '(st', _) => dooms st') (fun o => dooms (no_return o).1)); [done| |by intros [? ?]].
  intros l1 [n pool] l2 [st' registered] _ IH. case_decide; [done|].
  pose proof (Start_spec env (newCPUDeviceManager env n pool sharedCPUs) (sockets st')) as Hs.
  destruct (Start env _ _) as [[[cdm socks] nil_listener] failed].
  destruct Hs as (Hs & _ & _ & _ & _ & _ & Hnil). rewrite <- Hs in Hnil.
  assert (forall c socks0, socketFile c = socketFile cdm ->
    dooms (mkServers (cdms st' ++ [c]) socks0 (doomed st' || nil_listener))) as Hnew.
  { intros c socks0 Hc c'. simpl. rewrite elem_of_app, list_elem_of_singleton. intros [Hin| ->] Hl.
    - by rewrite (IH c' Hin Hl).
    - rewrite Hc in Hl. rewrite Hnil, Hl. apply orb_true_r. }
  destruct failed; [by apply Hnew|]. destruct (is_ok _); by apply Hnew.
Qed.

(** The socket of a pool that is not configured stays where it is. *)
Lemma create_loop_keeps_socket s env poolConf sharedCPUs st poolName :
  Pools poolConf !! poolName = None -> socket_name poolName ∈ sockets st ->
  socket_name poolName ∈ sockets (create_loop s env poolConf sharedCPUs (st, [])).1.
Proof.
  intros Hnone Hin. unfold create_loop.
  apply (for_range_inv _ (fun _ '(st', _) => socket_name poolName ∈ sockets st')
    (fun o => socket_name poolName ∈ sockets (no_return o).1)); [done| |by intros [? ?]].
  intros l1 [n pool] l2 [st' registered] Hl Hst. case_decide; [done|].
  assert (n <> poolName) as Hne.
  { intros ->. assert ((poolName, pool) ∈ visit s (Pools poolConf)) as Hv by (rewrite Hl; set_solver).
    apply elem_of_visit in Hv. congruence. }
  destruct (new_manager env n pool sharedCPUs) as [Hsock _].
  pose proof (Start_spec env (newCPUDeviceManager env n pool sharedCPUs) (sockets st')) as Hs.
  destruct (Start env _ _) as [[[cdm socks] nil_listener] failed].
  destruct Hs as (Hs & _ & _ & _ & Hkeep & _). rewrite Hsock in Hkeep, Hs.
  assert (socket_name poolName ∈ socks) as Hsocks.
  { apply Hkeep. rewrite elem_of_difference, elem_of_singleton. split; [done|].
    intros Heq%(inj _). congruence. }
  destruct failed; [done|]. destruct (is_ok _); [done|]. simpl.
  destruct (close_listener_bounds env cdm socks) as [_ Hc]. apply Hc.
  rewrite elem_of_difference, elem_of_singleton, Hs. split; [done|]. intros Heq%(inj _). congruence.
Qed.

(** A start without failures. *)
Record no_failures env : Prop := {
  ok_listen f : listen_fails env f = false;
  ok_client f : client_fails env f = false;
  ok_register poolName : registers env poolName
}.

Lemma create_loop_all s env poolConf sharedCPUs st :
  no_failures env ->
  let '(st', registered) := create_loop s env poolConf sharedCPUs (st, []) in
  let added := omap (fun '(poolName, pool) =>
    if decide (advertised_pool poolName)
    then Some (set_server (newCPUDeviceManager env poolName pool sharedCPUs) (Some true)) else None)
    (visit s (Pools poolConf)) in
  cdms st' = cdms st ++ added /\
  registered = omap (fun '(poolName, _) =>
    if decide (advertised_pool poolName) then Some (resource_name poolName) else None)
    (visit s (Pools poolConf)).
Proof.
  intros [Hlisten Hclient Hreg]. unfold create_loop.
  set (step := fun '(st, registered) '(poolName, pool) =>
    if decide (advertised_pool poolName) then
      let cdm := newCPUDeviceManager env poolName pool sharedCPUs in
      (mkServers (cdms st ++ [set_server cdm (Some true)]) (Start env cdm (sockets st)).1.1.2 (doomed st || false),
       registered ++ [resource_name poolName])
    else (st, registered)).
  rewrite (for_range_next _ step).
  - generalize (visit s (Pools poolConf)). intros l. simpl.
    assert (forall (registered : list string) st0, let r := foldl step (st0, registered) l in
      cdms r.1 = cdms st0 ++ omap (fun '(poolName, pool) =>
        if decide (advertised_pool poolName)
        then Some (set_server (newCPUDeviceManager env poolName pool sharedCPUs) (Some true)) else None) l /\
      r.2 = registered ++ omap (fun '(poolName, _) =>
        if decide (advertised_pool poolName) then Some (resource_name poolName) else None) l) as Hgen.
    { induction l as [|[n pool] l IH]; intros registered st0; simpl; [by rewrite !app_nil_r|].
      case_decide; [|apply IH].
      match goal with |- context [foldl step (?a, ?b) l] => destruct (IH b a) as [-> ->] end.
      simpl. by rewrite <- !(assoc_L (++)). }
    specialize (Hgen [] st). destruct (foldl step (st, []) l). exact Hgen.
  - intros i [n pool] [st' registered] _. unfold step, advertised_pool.
    repeat case_decide; try done. unfold Start. rewrite Hlisten, Hclient. simpl.
    destruct (new_manager env n pool sharedCPUs) as [Hsock _]. by rewrite (Hreg n).
Qed.

Definition is_shared (poolName : string) : Prop := DeterminePoolType poolName = SharedPoolID.

(** [validatePools] on the pools visited so far. *)
Lemma validatePools_cases s (poolConf : PoolConfig) :
  (forall n pool, Pools poolConf !! n = Some pool -> is_shared n -> cs_String (CPUset pool) <> "") ->
  match validatePools s poolConf with
  | (cpus, None) =>
      (cpus = "" /\ forall n, is_Some (Pools poolConf !! n) -> ~ is_shared n) \/
      (exists n pool, Pools poolConf !! n = Some pool /\ is_shared n /\
         cpus = cs_String (CPUset pool) /\
         forall n', is_Some (Pools poolConf !! n') -> is_shared n' -> n' = n)
  | (_, Some _) => exists n n', n <> n' /\ is_shared n /\ is_shared n' /\
      is_Some (Pools poolConf !! n) /\ is_Some (Pools poolConf !! n')
  end.
Proof.
  intros Hne. unfold validatePools. pose proof (NoDup_fst_visit s (Pools poolConf)) as Hnd.
  assert (forall n pool, (n, pool) ∈ visit s (Pools poolConf) <-> Pools poolConf !! n = Some pool)
    as Hvisit by by intros; apply elem_of_visit.
  apply (for_range_inv _ (fun l1 '(cpus, err) => err = None /\
      ((cpus = "" /\ forall x, x ∈ l1 -> ~ is_shared x.1) \/
       (exists n pool, (n, pool) ∈ l1 /\ is_shared n /\ cpus = cs_String (CPUset pool) /\
          forall x, x ∈ l1 -> is_shared x.1 -> x.1 = n)))
    (fun o => match no_return o with
      | (cpus, None) =>
          (cpus = "" /\ forall n, is_Some (Pools poolConf !! n) -> ~ is_shared n) \/
          (exists n pool, Pools poolConf !! n = Some pool /\ is_shared n /\
             cpus = cs_String (CPUset pool) /\
             forall n', is_Some (Pools poolConf !! n') -> is_shared n' -> n' = n)
      | (_, Some _) => exists n n', n <> n' /\ is_shared n /\ is_shared n' /\
          is_Some (Pools poolConf !! n) /\ is_Some (Pools poolConf !! n')
      end)).
  - split; [done|]. left. split; [done|]. intros x ?%elem_of_nil. done.
  - intros l1 [n pool] l2 [cpus err] Hl [-> Hcases]. rewrite Hl in Hnd, Hvisit.
    rewrite fmap_app, fmap_cons in Hnd. apply NoDup_app in Hnd as (_ & Hnew & _).
    assert (Pools poolConf !! n = Some pool) as Hn by (apply Hvisit; set_solver).
    case_decide as Hsh; fold (is_shared n) in Hsh.
    + destruct Hcases as [[-> Hnone]|(n' & pool' & Hin & Hsh' & -> & Huniq)]; simpl.
      * split; [done|]. right. exists n, pool. split; [set_solver|].
        split; [done|]. split; [done|]. intros x. rewrite elem_of_app, list_elem_of_singleton.
        intros [Hx| ->] Hs; [by destruct (Hnone x Hx)|done].
      * assert (Pools poolConf !! n' = Some pool') as Hn' by (apply Hvisit; set_solver).
        rewrite decide_True by by eapply Hne. exists n', n. split; [|by eauto].
        intros ->. apply (Hnew n); [|left]. apply list_elem_of_fmap. by exists (n, pool').
    + split; [done|]. destruct Hcases as [[-> Hnone]|(n' & pool' & Hin & Hsh' & -> & Huniq)].
      * left. split; [done|]. intros x. rewrite elem_of_app, list_elem_of_singleton.
        intros [Hx| ->]; [auto|done].
      * right. exists n', pool'. split; [set_solver|]. split; [done|]. split; [done|].
        intros x. rewrite elem_of_app, list_elem_of_singleton. intros [Hx| ->]; [auto|done].
  - intros [cpus err] [-> Hcases]. simpl.
    destruct Hcases as [[-> Hnone]|(n & pool & Hin & Hsh & -> & Huniq)]; [left|right].
    + split; [done|]. intros n [pool Hn]. apply (Hnone (n, pool)). by apply Hvisit.
    + exists n, pool. split; [by apply Hvisit|]. split; [done|]. split; [done|].
      intros n' [pool' Hn'] Hs. apply (Huniq (n', pool')); [by apply Hvisit|done].
Qed.
End start_lemmas.

(** * Properties *)

Section properties.
Context `{CPUSetLib} `{RangeOrder} `{Weighted}.
Implicit Types (env : ServerEnv) (s : site) (st : server_state).

(** C26: In every running state, reached through any signals, kubelet restarts and failures,
    the managers serve pools of an advertised type, on pairwise different sockets, each
    with a server, and a serving manager has its socket in the plugin directory. *)
Theorem running_servers_ok st : reachable (Running st) -> servers_ok st.
Proof. intros Hr. by eapply reachable_ok. Qed.

(** C28: A termination signal stops the server of every manager; if the files can be
    removed, none of their sockets stays in the plugin directory. *)
Theorem termination_stops_servers s env st :
  reachable (Running st) ->
  exists st', handle s env Termination st = Terminated_ st' /\
    socketFile <$> cdms st' = socketFile <$> cdms st /\
    Forall (fun cdm => grpcServer cdm = None) (cdms st') /\
    ((forall f, remove_fails env f = false) ->
      forall f, f ∈ socketFile <$> cdms st -> f ∉ sockets st').
Proof.
  intros Hr. destruct (reachable_ok _ Hr st eq_refl) as [_ _ Hserv]. simpl.
  pose proof (stop_all_spec env (cdms st) (sockets st)) as Hstop.
  destruct (stop_all _ _ _) as [managers socks]. destruct Hstop as (Hn & Hs & _ & Hgone).
  eexists. split; [done|]. split; [done|]. split; [done|]. intros Hrem. apply Hgone; [done|].
  eapply Forall_impl; [exact Hserv|]. by intros cdm [? _].
Qed.

(** When the CPU lists of the shared pools are not empty, [validatePools] rejects a
    configuration exactly if it has two shared pools, and otherwise returns the CPUs of the
    shared pool (nothing without one), whatever the order of the map. *)
Theorem validatePools_spec s (poolConf : PoolConfig) :
  (forall n pool, Pools poolConf !! n = Some pool -> is_shared n -> cs_String (CPUset pool) <> "") ->
  match validatePools s poolConf with
  | (cpus, None) =>
      (cpus = "" /\ forall n, is_Some (Pools poolConf !! n) -> ~ is_shared n) \/
      (exists n pool, Pools poolConf !! n = Some pool /\ is_shared n /\
         cpus = cs_String (CPUset pool) /\
         forall n', is_Some (Pools poolConf !! n') -> is_shared n' -> n' = n)
  | (_, Some _) => exists n n', n <> n' /\ is_shared n /\ is_shared n' /\
      is_Some (Pools poolConf !! n) /\ is_Some (Pools poolConf !! n')
  end.
Proof. apply validatePools_cases. Qed.

(** When nothing fails, [createCDMs] adds a serving manager for every pool of an
    advertised type, with the pool's data and the shared CPUs, and registers exactly the
    resources of these pools; the other pools are left out. *)
Theorem createCDMs_registers_all s env (poolConf : PoolConfig) sharedCPUs st poolName pool :
  no_failures env -> Pools poolConf !! poolName = Some pool ->
  let '(st', registered, err) := createCDMs s env poolConf sharedCPUs st in
  err = None /\
  (advertised_pool poolName <-> resource_name poolName ∈ registered) /\
  (advertised_pool poolName ->
    set_server (newCPUDeviceManager env poolName pool sharedCPUs) (Some true) ∈ cdms st').
Proof.
  intros Hok Hpool. unfold createCDMs.
  pose proof (create_loop_all s env poolConf sharedCPUs st Hok) as Hall.
  destruct (create_loop _ _ _ _ _) as [st' registered]. destruct Hall as [-> ->].
  assert ((poolName, pool) ∈ visit s (Pools poolConf)) as Hin by by apply elem_of_visit.
  split; [done|]. rewrite list_elem_of_omap. split.
  - split.
    + intros Ha. exists (poolName, pool). by rewrite decide_True.
    + intros ([n p] & _ & Heq). case_decide; [|done]. by injection Heq as ->%append_inj_l.
  - intros Ha. rewrite elem_of_app, list_elem_of_omap. right. exists (poolName, pool).
    by rewrite decide_True.
Qed.

(** A pool the kubelet refuses to register does not make the start fail: the plugin
    reports success and runs on without the resource. *)
Theorem refused_pool_goes_unnoticed s env st (poolConf : PoolConfig) poolName sharedCPUs :
  glob_fails env = false -> (forall f, remove_fails env f = false) ->
  DeterminePoolConfig (senv_pools env) (0%nat :: s) = Ok poolConf ->
  validatePools (1%nat :: s) poolConf = (sharedCPUs, None) ->
  is_Some (Pools poolConf !! poolName) -> advertised_pool poolName ->
  refuses env poolName ->
  exists st' registered,
    createPluginsForPools s env st = Created st' registered None /\
    resource_name poolName ∉ registered.
Proof.
  intros Hglob Hrem Hconf Hval _ _ Hfail. unfold createPluginsForPools.
  rewrite Hglob, Hconf, Hval.
  replace (existsb (remove_fails env) _) with false.
  2: { induction (elements _) as [|f l IH]; [done|]. simpl. by rewrite Hrem. }
  unfold createCDMs.
  pose proof (create_loop_refused (2%nat :: s) env poolConf sharedCPUs
    (mkServers (cdms st) (sockets st ∖ stale_files (sockets st)) (doomed st)) poolName Hfail) as Hnot.
  destruct (create_loop _ _ _ _ _) as [st' registered]. by exists st', registered.
Qed.

(** C27: What the kubelet took is served: each resource that a start registered belongs to an
    advertised pool whose manager is in the list, with a server that runs if its socket
    could be opened, and the kubelet was reached through the dialer and took the request
    with that socket and the version of the API. *)
Theorem registered_are_served s env st st' registered err r :
  createPluginsForPools s env st = Created st' registered err -> r ∈ registered ->
  exists poolName cdm c, r = resource_name poolName /\ advertised_pool poolName /\ cdm ∈ cdms st' /\
    socketFile cdm = socket_name poolName /\
    grpcServer cdm = Some (negb (listen_fails env (socketFile cdm))) /\
    register_dialer (registry env) r (resolved (registry env) ("unix://" +:+ kubelet_sock)) = Ok (Some c) /\
    kubelet_takes (registry env) c (mkRegisterRequest "v1beta1" (socketFile cdm) r) = true.
Proof.
  unfold createPluginsForPools. destruct (glob_fails env); [done|]. destruct (existsb _ _); [done|].
  destruct (DeterminePoolConfig _ _) as [conf|e|q]; [|done..].
  destruct (validatePools _ conf) as [cpus [e|]]; [by intros [= <- <- <-] ?%elem_of_nil|].
  unfold createCDMs.
  pose proof (create_loop_registered (2%nat :: s) env conf cpus
    (mkServers (cdms st) (sockets st ∖ stale_files (sockets st)) (doomed st)) r) as Hreg.
  destruct (create_loop _ _ _ _ _) as [st0 registered0]. intros [= <- <- <-] Hr.
  destruct (Hreg Hr) as (n & cdm & Hn & Ha & Hin & Hs & Hg & (_ & c & Hd & Hk)%Register_Ok).
  by exists n, cdm, c.
Qed.

(** A pool whose socket cannot be opened is not noticed either: the start succeeds and the
    kubelet is told about the pool, until the goroutine of its server runs and its panic ends
    the process. *)
Theorem failed_listen_crashes s s' env env' sockets st cdm :
  start s env sockets = Running st -> cdm ∈ cdms st -> listen_fails env (socketFile cdm) = true ->
  handle s' env' ServeRuns st = Crashed.
Proof.
  unfold start, createPluginsForPools. destruct (glob_fails env); [done|]. destruct (existsb _ _); [done|].
  destruct (DeterminePoolConfig _ _) as [conf|e|q]; [|done..].
  destruct (validatePools _ conf) as [cpus [e|]]; [done|]. unfold createCDMs.
  pose proof (create_loop_doomed (2%nat :: s) env conf cpus
    (mkServers [] (sockets ∖ stale_files sockets) false)) as Hdoom.
  destruct (create_loop _ _ _ _ _) as [st0 registered]. intros [= <-] Hin Hl. simpl in *.
  by rewrite (Hdoom ltac:(by intros c ?%elem_of_nil) cdm Hin Hl).
Qed.

(** Removing stale sockets at the start has no effect on the plugin's own: the socket of
    a pool that is no longer configured survives every start. *)
Theorem stale_socket_survives s env st (poolConf : PoolConfig) poolName st' registered err :
  DeterminePoolConfig (senv_pools env) (0%nat :: s) = Ok poolConf ->
  Pools poolConf !! poolName = None -> socket_name poolName ∈ sockets st ->
  createPluginsForPools s env st = Created st' registered err ->
  socket_name poolName ∈ sockets st'.
Proof.
  intros Hconf Hnone Hin. unfold createPluginsForPools.
  destruct (glob_fails env); [done|]. destruct (existsb _ _); [done|]. rewrite Hconf.
  assert (socket_name poolName ∈ sockets st ∖ stale_files (sockets st)) as Hkeep.
  { apply elem_of_difference. split; [done|]. unfold stale_files.
    rewrite elem_of_filter, socket_name_not_stale. by intros [? _]. }
  destruct (validatePools _ poolConf) as [cpus [e|]]; [by intros [= <- <- <-]|].
  unfold createCDMs.
  pose proof (create_loop_keeps_socket (2%nat :: s) env poolConf cpus
    (mkServers (cdms st) (sockets st ∖ stale_files (sockets st)) (doomed st)) poolName Hnone Hkeep) as Hl.
  destruct (create_loop _ _ _ _ _) as [st0 registered0]. intros [= <- <- <-]. exact Hl.
Qed.
End properties.

(** ** Witnesses *)

Module server_example.
#[local] Existing Instance list_cpuset.lib.
#[local] Existing Instance plugin_example.weighted.

Definition config : PoolConfig :=
  @mkPoolConfig list_cpuset.lib (list_to_map
    [("default", @mkPool list_cpuset.lib [] "0" "" 0 "" 0 ∅); ("exclusive_a", @mkPool list_cpuset.lib [] "1" "" 0 "" 0 ∅);
     ("shared_a", @mkPool list_cpuset.lib [] "2,3" "" 0 "" 0 ∅)]) ∅.

Definition pool_env : PoolEnv :=
  Build_PoolEnv ∅ (fun _ => Some "") (fun _ => Some config)
    (fun _ => Some ["/etc/cpu-pooler/poolconfig-1.yaml"]) (Some None).

(** A machine where the kubelet refuses some resources. *)
Definition env (refused : string -> bool) : ServerEnv := {|
  registry := registration_example.grpc (fun r => negb (refused r));
  senv_pools := pool_env;
  glob_fails := false; remove_fails := fun _ => false;
  listen_fails := fun _ => false; client_fails := fun _ => false;
  GetCpuInfo_Cores := 4;
  GetNodeTopology := ∅; GetHTTopology := ∅; NewDevsPoller := fun _ => (∅, ∅)
|}.

Definition refuse (r : string) : bool := bool_decide (r = "bonc.k8s.io/shared_a").

(** A machine where no socket can be opened. *)
Definition deaf_env : ServerEnv := {|
  registry := registration_example.grpc (fun _ => true);
  senv_pools := pool_env;
  glob_fails := false; remove_fails := fun _ => false;
  listen_fails := fun _ => true; client_fails := fun _ => false;
  GetCpuInfo_Cores := 4;
  GetNodeTopology := ∅; GetHTTopology := ∅; NewDevsPoller := fun _ => (∅, ∅)
|}.

#[local] Existing Instance range_forward.

Definition loaded : PoolConfig :=
  match DeterminePoolConfig pool_env [0%nat] with Ok c => c | _ => zero_config end.

Definition running : server_state :=
  match start [] (env (fun _ => false)) ∅ with
  | Running st | Terminated_ st => st
  | Crashed => mkServers [] ∅ true
  end.

Definition deaf : server_state :=
  match start [] deaf_env ∅ with
  | Running st | Terminated_ st => st
  | Crashed => mkServers [] ∅ true
  end.
End server_example.

Section witnesses.
#[local] Existing Instance list_cpuset.lib.
#[local] Existing Instance plugin_example.weighted.
#[local] Existing Instance range_forward.
Import server_example.

Lemma example_Register refused cdm resource :
  Register (registry (env refused)) cdm kubelet_sock resource =
    if refused resource then Err NotRegistered else Ok tt.
Proof. unfold Register. vm_compute register_dialer. simpl. by destruct (refused resource). Defined.

Lemma no_failures_without_refusals : no_failures (env (fun _ => false)).
Proof. split; [done|done|]. intros n cdm _. by rewrite example_Register. Defined.

Lemma start_runs : reachable (Running running).
Proof.
  assert (start [] (env (fun _ => false)) ∅ = Running running) as <-; [|apply reach_start].
  vm_cast_no_check (@eq_refl plugin_process (Running running)).
Defined.

Lemma running_servers_ok_witness : length (cdms running) = 2%nat /\ servers_ok running.
Proof.
  split; [vm_compute; reflexivity|]. apply running_servers_ok. exact start_runs.
Defined.

Lemma termination_stops_servers_witness :
  exists st', handle [] (env refuse) Termination running = Terminated_ st' /\
    socket_name "shared_a" ∉ sockets st'.
Proof.
  destruct (termination_stops_servers [] (env refuse) running start_runs)
    as (st' & Hh & _ & _ & Hgone).
  exists st'. split; [exact Hh|]. apply Hgone; [reflexivity|]. vm_compute. left.
Defined.

Lemma shared_cpus_known n pool :
  Pools loaded !! n = Some pool -> is_shared n -> cs_String (CPUset pool) <> "".
Proof.
  intros Hn _. apply elem_of_map_to_list in Hn.
  assert (forallb (fun x : string * Pool => negb (bool_decide (cs_String (CPUset x.2) = "")))
    (map_to_list (Pools loaded)) = true) as Hall by (vm_compute; reflexivity).
  rewrite forallb_forall in Hall. specialize (Hall (n, pool) (proj1 (list_elem_of_In _ _) Hn)).
  by to_prop.
Qed.

Lemma validatePools_spec_witness :
  (validatePools [] loaded).2 = None /\
  forall cpus, validatePools [] loaded = (cpus, None) -> cpus <> "" -> exists n, is_shared n.
Proof.
  split; [vm_compute; reflexivity|]. intros cpus Heq Hne.
  pose proof (validatePools_spec [] loaded shared_cpus_known) as Hspec. rewrite Heq in Hspec.
  destruct Hspec as [[-> _]|(n & pool & _ & Hn & _)]; [by destruct Hne|by exists n].
Defined.

Lemma createCDMs_registers_all_witness :
  let '(st', registered, err) :=
    createCDMs [] (env (fun _ => false)) loaded "2,3" (mkServers [] ∅ false) in
  err = None /\ resource_name "shared_a" ∈ registered.
Proof.
  pose proof (createCDMs_registers_all [] (env (fun _ => false)) loaded "2,3" (mkServers [] ∅ false)
    "shared_a" (default zero_pool (Pools loaded !! "shared_a"))) as Hall.
  destruct (createCDMs _ _ _ _ _) as [[st' registered] err].
  destruct Hall as (Herr & Hreg & _);
    [apply no_failures_without_refusals
    |vm_cast_no_check (@eq_refl (option Pool) (Pools loaded !! "shared_a"))|].
  split; [exact Herr|]. apply Hreg. discriminate.
Defined.

Lemma deaf_starts : start [] deaf_env ∅ = Running deaf.
Proof. vm_cast_no_check (@eq_refl plugin_process (Running deaf)). Defined.

Lemma failed_listen_crashes_witness : handle [] deaf_env ServeRuns deaf = Crashed.
Proof.
  assert (existsb (fun cdm => bool_decide (socketFile cdm = socket_name "shared_a")) (cdms deaf) = true)
    as (cdm & Hin & Hs)%existsb_exists by (vm_compute; reflexivity).
  apply list_elem_of_In in Hin. apply bool_decide_eq_true in Hs.
  apply (failed_listen_crashes [] [] deaf_env deaf_env ∅ deaf cdm deaf_starts Hin). reflexivity.
Defined.

Lemma refused_pool_goes_unnoticed_witness :
  exists st' registered,
    createPluginsForPools [] (env refuse) (mkServers [] ∅ false) = Created st' registered None /\
    resource_name "shared_a" ∉ registered.
Proof.
  apply (refused_pool_goes_unnoticed [] (env refuse) (mkServers [] ∅ false) loaded "shared_a" "2,3");
    [reflexivity|reflexivity| |vm_compute; reflexivity| |discriminate|].
  - vm_cast_no_check (@eq_refl (res pool_error PoolConfig) (Ok loaded)).
  - exists (default zero_pool (Pools loaded !! "shared_a")).
    vm_cast_no_check (@eq_refl (option Pool) (Pools loaded !! "shared_a")).
  - intros cdm _. by rewrite example_Register.
Defined.

Definition registered_in (c : created) : list string := match c with Created _ l _ => l | Exited => [] end.

Definition ready_env : ServerEnv := env (fun _ => false).

Lemma start_registers :
  registered_in (createPluginsForPools [] ready_env (mkServers [] ∅ false)) =
    ["bonc.k8s.io/shared_a"; "bonc.k8s.io/exclusive_a"].
Proof. vm_compute. reflexivity. Defined.

Lemma registered_are_served_witness :
  exists st' registered err poolName cdm,
    createPluginsForPools [] ready_env (mkServers [] ∅ false) = Created st' registered err /\
    "bonc.k8s.io/exclusive_a" = resource_name poolName /\ cdm ∈ cdms st' /\
    socketFile cdm = socket_name poolName.
Proof.
  pose proof start_registers as Hr.
  destruct (createPluginsForPools [] ready_env (mkServers [] ∅ false)) as [|st' registered err] eqn:Hc; [discriminate|].
  simpl in Hr.
  destruct (registered_are_served [] ready_env (mkServers [] ∅ false) st' registered err "bonc.k8s.io/exclusive_a")
    as (n & cdm & c & Hn & _ & Hin & Hs & _); [exact Hc|rewrite Hr; right; left|].
  exists st', registered, err, n, cdm. split; [reflexivity|]. split; [exact Hn|]. split; [exact Hin|exact Hs].
Defined.

Definition exited (c : created) : bool := match c with Exited => true | _ => false end.

Lemma stale_socket_survives_witness :
  exists st' registered err,
    createPluginsForPools [] (env refuse) (mkServers [] {[socket_name "exclusive_old"]} false)
      = Created st' registered err /\ socket_name "exclusive_old" ∈ sockets st'.
Proof.
  assert (exited (createPluginsForPools [] (env refuse)
    (mkServers [] {[socket_name "exclusive_old"]} false)) = false) as Hex by (vm_compute; reflexivity).
  destruct (createPluginsForPools [] (env refuse) (mkServers [] {[socket_name "exclusive_old"]} false))
    as [|st' registered err] eqn:Hc; [discriminate|].
  exists st', registered, err. split; [reflexivity|].
  apply (stale_socket_survives [] (env refuse) (mkServers [] {[socket_name "exclusive_old"]} false)
           loaded "exclusive_old" st' registered err).
  - vm_cast_no_check (@eq_refl (res pool_error PoolConfig) (Ok loaded)).
  - vm_cast_no_check (@eq_refl (option Pool) None).
  - apply elem_of_singleton. reflexivity.
  - exact Hc.
Defined.
End witnesses.
