(* ===== verification/PodEvents.v ===== *)
(** * Pod status and pod events: [pkg/k8sclient/pod.go], [pkg/sethandler/controller.go] lines 136-165

    The reason and the restarts [PodStatus] reads off a pod, the updates [PodChanged] queues
    for the setter, and the watchers that wait for a pod.  A time is the distance from the
    zero time; the text of an elapsed time is an argument. *)

From S2P Require Import Prelude GoStrings K8s.
Local Open Scope Z_scope.

(** ** What Kubernetes calls the conditions and reasons *)

Definition PodScheduled : string := "PodScheduled".
Definition PodInitialized : string := "Initialized".
Definition PodReady : string := "Ready".
Definition ConditionTrue : string := "True".
Definition PodReasonSchedulingGated : string := "SchedulingGated".
Definition ContainerRestartPolicyAlways : string := "Always".
Definition NodeUnreachablePodReason : string := "NodeLost".

(** ** [PodStatus] *)

Definition isRestartableInitContainer (initContainer : option v1_Container) : bool :=
  match initContainer with
  | None => false
  | Some c =>
      match ctr_RestartPolicy c with
      | None => false
      | Some policy => bool_decide (policy = ContainerRestartPolicyAlways)
      end
  end.

Definition isPodInitializedConditionTrue (status : PodStatusT) : bool :=
  after (for_range (fun _ condition _ =>
           if decide (cond_Type condition <> PodInitialized) then Next tt
           else Return (bool_decide (cond_Status condition = ConditionTrue)))
           (st_Conditions status) tt)
    (fun _ => false).

Definition hasPodReadyCondition (conditions : list PodCondition) : bool :=
  after (for_range (fun _ condition _ =>
           if bool_decide (cond_Type condition = PodReady)
              && bool_decide (cond_Status condition = ConditionTrue)
           then Return true else Next tt) conditions tt)
    (fun _ => false).

(** The later of a date and the last termination of a container. *)
Definition later (date : Z) (c : ContainerStatus) : Z :=
  match stat_LastTerminated c with
  | Some terminated => if date <? FinishedAt terminated then FinishedAt terminated else date
  | None => date
  end.

Definition initial_reason (pod : v1_Pod) : string :=
  let status := pod_Status pod in
  foldl (fun reason condition =>
    if bool_decide (cond_Type condition = PodScheduled)
       && bool_decide (cond_Reason condition = PodReasonSchedulingGated)
    then PodReasonSchedulingGated else reason)
    (if decide (st_Reason status <> "") then st_Reason status else st_Phase status)
    (st_Conditions status).

(** The init containers of the specification by name; of two with one name the last. *)
Definition initContainers (pod : v1_Pod) : gmap string v1_Container :=
  foldl (fun m c => <[ctr_Name c := c]> m) ∅ (pod_InitContainers pod).

(** The variables of the loop over the init containers. *)
Record init_state := mkInit {
  in_restarts : Z;
  in_lastRestartDate : Z;
  restartableRestarts : Z;
  restartableRestartDate : Z;
  in_reason : string;
  initializing : bool
}.

Definition set_reason (st : init_state) (reason : string) : init_state :=
  mkInit (in_restarts st) (in_lastRestartDate st) (restartableRestarts st)
    (restartableRestartDate st) reason true.

(** What the loop counts before it looks at the state of a container. *)
Definition count_init (restartable : bool) (c : ContainerStatus) (st : init_state) : init_state :=
  mkInit (in_restarts st +w stat_RestartCount c)%go (later (in_lastRestartDate st) c)
    (if restartable then (restartableRestarts st +w stat_RestartCount c)%go
     else restartableRestarts st)
    (if restartable then later (restartableRestartDate st) c else restartableRestartDate st)
    (in_reason st) (initializing st).

(** The [switch]: [None] for the cases that continue, the reason for those that end the
    loop. *)
Definition init_reason (restartable : bool) (i total : nat) (c : ContainerStatus) : option string :=
  let waiting := default "" (stat_Waiting c) in
  let pending :=
    if bool_decide (waiting <> "") && bool_decide (waiting <> "PodInitializing")
    then Some ("Init:" +:+ waiting)
    else Some ("Init:" +:+ Itoa (Z.of_nat i) +:+ "/" +:+ Itoa (Z.of_nat total)) in
  match stat_Terminated c with
  | Some t =>
      if ExitCode t =? 0 then None
      else if restartable && bool_decide (stat_Started c = Some true) then None
      else Some (if decide (TermReason t = "") then
                   if negb (Signal t =? 0) then "Init:Signal:" +:+ Itoa (Signal t)
                   else "Init:ExitCode:" +:+ Itoa (ExitCode t)
                 else "Init:" +:+ TermReason t)
  | None =>
      if restartable && bool_decide (stat_Started c = Some true) then None else pending
  end.

Definition init_step (pod : v1_Pod) (i : nat) (c : ContainerStatus) (st : init_state)
    : flow init_state Empty_set :=
  let restartable := isRestartableInitContainer (initContainers pod !! stat_Name c) in
  let st := count_init restartable c st in
  match init_reason restartable i (length (pod_InitContainers pod)) c with
  | None => Next st
  | Some reason => Break (set_reason st reason)
  end.

Definition init_loop (pod : v1_Pod) : init_state :=
  no_return (for_range (init_step pod) (st_InitContainerStatuses (pod_Status pod))
               (mkInit 0 0 0 0 (initial_reason pod) false)).

(** The reason a waiting or terminated container gives the pod. *)
Definition container_problem (c : ContainerStatus) : option string :=
  let waiting := default "" (stat_Waiting c) in
  if decide (waiting <> "") then Some waiting
  else match stat_Terminated c with
       | Some t =>
           Some (if decide (TermReason t <> "") then TermReason t
                 else if negb (Signal t =? 0) then "Signal:" +:+ Itoa (Signal t)
                 else "ExitCode:" +:+ Itoa (ExitCode t))
       | None => None
       end.

(** The loop from the last container to the first: restarts, date, reason, [hasRunning]. *)
Definition container_step (c : ContainerStatus) (st : Z * Z * string * bool) : Z * Z * string * bool :=
  let '(restarts, date, reason, hasRunning) := st in
  let restarts := (restarts +w stat_RestartCount c)%go in
  let date := later date c in
  match container_problem c with
  | Some problem => (restarts, date, problem, hasRunning)
  | None => (restarts, date, reason, hasRunning || (stat_Ready c && stat_Running c))
  end.

Record pod_status := mkPodStatus {
  restarts : Z;
  lastRestartDate : Z;
  restartsStr : string;
  reason : string
}.

(** [elapsed] is [duration.HumanDuration(time.Since(t))]. *)
Definition translateTimestampSince (elapsed : Z -> string) (timestamp : Z) : string :=
  if timestamp =? 0 then "<unknown>" else elapsed timestamp.

(** The counts of ready and of all containers are computed by the code but not returned. *)
Definition PodStatus (elapsed : Z -> string) (pod : v1_Pod) : pod_status :=
  let status := pod_Status pod in
  let st := init_loop pod in
  let '(restarts, date, reason) :=
    if negb (initializing st) || isPodInitializedConditionTrue status then
      let '(restarts, date, reason, hasRunning) :=
        foldr container_step (restartableRestarts st, restartableRestartDate st, in_reason st, false)
          (st_ContainerStatuses status) in
      (restarts, date,
       if bool_decide (reason = "Completed") && hasRunning then
         if hasPodReadyCondition (st_Conditions status) then "Running" else "NotReady"
       else reason)
    else (in_restarts st, in_lastRestartDate st, in_reason st) in
  let reason :=
    if pod_Deleted pod && bool_decide (st_Reason status = NodeUnreachablePodReason) then "Unknown"
    else if pod_Deleted pod then "Terminating" else reason in
  mkPodStatus restarts date
    (if negb (restarts =? 0) && negb (date =? 0)
     then Itoa restarts +:+ " (" +:+ translateTimestampSince elapsed date +:+ " ago)"
     else Itoa restarts)
    reason.

(** ** Events of the informer *)

Record workItem := mkItem {
  oldPod : option v1_Pod;
  newPod : v1_Pod
}.

Definition PodAdded (pod : v1_Pod) : list workItem := [mkItem None pod].

(** The items added to the work queue. *)
Definition PodChanged (elapsed : Z -> string) (old new : v1_Pod) : list workItem :=
  let item := mkItem (Some old) new in
  let o := PodStatus elapsed old in
  let n := PodStatus elapsed new in
  if bool_decide (st_Phase (pod_Status old) <> st_Phase (pod_Status new))
     && bool_decide (st_Phase (pod_Status new) = PodRunning)
  then [item]
  else if (bool_decide (reason o <> reason n) && bool_decide (reason n = PodRunning))
          || (bool_decide (reason o = reason n) && bool_decide (reason n = PodRunning)
              && (restarts n >? restarts o))
  then [item] else [].

(** ** Watchers

    What one [select] of a watcher receives: an event with the pod it is about ([None] for
    an object of another type), the zero event of a closed channel, or the end of the
    context. *)

Inductive received :=
  | Event (deleted : bool) (object : option v1_Pod)
  | Closed
  | ContextDone.

Inductive watch_result :=
  (** the pod or nil, without an error *)
  | Watched (pod : option v1_Pod)
  | ContextError
  | WatchPanics
  (** still waiting *)
  | Watching.

Definition waitPodDeleted (l : list received) : watch_result :=
  after (for_range (fun _ r _ =>
           match r with
           | Event deleted _ => if deleted then Return (Watched None) else Next tt
           | Closed => Next tt
           | ContextDone => Return ContextError
           end) l tt) (fun _ => Watching).

Definition waitPodRunning (l : list received) : watch_result :=
  after (for_range (fun _ r _ =>
           match r with
           | Event _ (Some pod) =>
               if decide (st_Phase (pod_Status pod) = PodRunning) then Return (Watched None) else Next tt
           | Event _ None | Closed => Return WatchPanics
           | ContextDone => Return ContextError
           end) l tt) (fun _ => Watching).

(** The loop over the expected annotations. *)
Definition same_annotations `{RangeOrder} (s : site) (annotations current : gmap string string) : bool :=
  no_return (for_range (fun _ '(k, v) _ =>
    if decide (current !! k = Some v) then Next true else Break false) (visit s annotations) false).

Definition WaitPod `{RangeOrder} (s : site) (annotations : gmap string string) (l : list received)
    : watch_result :=
  after (for_range (fun i r _ =>
           match r with
           | Event _ (Some pod) =>
               if decide (st_Phase (pod_Status pod) = PodRunning) then
                 if same_annotations (i :: s) annotations (pod_Annotations pod)
                 then Return (Watched (Some pod)) else Next tt
               else Next tt
           | Event _ None | Closed => Return WatchPanics
           | ContextDone => Return ContextError
           end) l tt) (fun _ => Watching).

(** * Lemmas *)

(** The restartable init containers count, and the init containers that let the loop go on. *)
Definition restartable (pod : v1_Pod) (c : ContainerStatus) : bool :=
  isRestartableInitContainer (initContainers pod !! stat_Name c).

Definition blocked (pod : v1_Pod) (i : nat) (c : ContainerStatus) : option string :=
  init_reason (restartable pod c) i (length (pod_InitContainers pod)) c.

Definition passed (pod : v1_Pod) (l : list ContainerStatus) : Prop :=
  forall i c, l !! i = Some c -> blocked pod i c = None.

(** The restarts [PodStatus] reports for a pod past its initialization. *)
Definition total_restarts (pod : v1_Pod) : Z :=
  zsum (stat_RestartCount <$> base.filter (fun c => restartable pod c = true)
                                (st_InitContainerStatuses (pod_Status pod)))
  + zsum (stat_RestartCount <$> st_ContainerStatuses (pod_Status pod)).

Definition problems (pod : v1_Pod) : list string :=
  omap container_problem (st_ContainerStatuses (pod_Status pod)).

(** A container that keeps the pod running. *)
Definition runs (c : ContainerStatus) : bool :=
  bool_decide (container_problem c = None) && (stat_Ready c && stat_Running c).

(** What the loop over the init containers has counted after [l]. *)
Definition counted (pod : v1_Pod) (l : list ContainerStatus) (st : init_state) : Prop :=
  in_restarts st = wrap (zsum (stat_RestartCount <$> l)) /\
  restartableRestarts st =
    wrap (zsum (stat_RestartCount <$> base.filter (fun c => restartable pod c = true) l)).

Lemma counted_snoc pod l c st : counted pod l st ->
  counted pod (l ++ [c]) (count_init (restartable pod c) c st).
Proof.
  intros [Hr Hrr]. unfold counted. rewrite filter_app, !fmap_app, !zsum_app. simpl.
  rewrite Hr. cbn beta. rewrite wrap_add_l, Z.add_0_r. split; [done|].
  destruct (restartable pod c) eqn:E.
  - rewrite filter_cons_True, filter_nil by done. simpl. rewrite Hrr. cbn beta. by rewrite wrap_add_l, Z.add_0_r.
  - rewrite filter_cons_False, filter_nil by congruence. simpl. by rewrite Hrr, Z.add_0_r.
Qed.

Lemma init_loop_spec pod :
  let l := st_InitContainerStatuses (pod_Status pod) in
  let st := init_loop pod in
  (passed pod l /\ counted pod l st /\ in_reason st = initial_reason pod /\ initializing st = false) \/
  (exists l1 c l2 r, l = l1 ++ c :: l2 /\ passed pod l1 /\ blocked pod (length l1) c = Some r /\
     counted pod (l1 ++ [c]) st /\ in_reason st = r /\ initializing st = true).
Proof.
  intros l. simpl. unfold init_loop. fold l.
  apply (for_range_inv (init_step pod)
    (fun l1 st => passed pod l1 /\ counted pod l1 st /\ in_reason st = initial_reason pod /\
                  initializing st = false)
    (fun o => (passed pod l /\ counted pod l (no_return o) /\
               in_reason (no_return o) = initial_reason pod /\ initializing (no_return o) = false) \/
       (exists l1 c l2 r, l = l1 ++ c :: l2 /\ passed pod l1 /\ blocked pod (length l1) c = Some r /\
         counted pod (l1 ++ [c]) (no_return o) /\ in_reason (no_return o) = r /\
         initializing (no_return o) = true))).
  - done.
  - intros l1 c l2 st Hl (Hp & Hc & Hr & Hi). unfold init_step.
    fold (restartable pod c). fold (blocked pod (length l1) c).
    pose proof (counted_snoc pod l1 c st Hc) as Hc'.
    destruct (blocked pod (length l1) c) as [r|] eqn:Hb; simpl.
    + right. exists l1, c, l2, r. done.
    + split; [|done]. intros i c' [Hi'|[Hlen Hc'']]%lookup_app_Some; [by apply Hp|].
      apply list_lookup_singleton_Some in Hc'' as [Hi' <-]. by replace i with (length l1) by lia.
  - intros st Hst. by left.
Qed.

(** The loop over the containers: the first problem in the order of the list is the reason. *)
Lemma container_loop l m d r h :
  exists d', foldr container_step (wrap m, d, r, h) l =
    (wrap (m + zsum (stat_RestartCount <$> l)), d',
     default r (head (omap container_problem l)), h || existsb runs l).
Proof.
  induction l as [|c l (d' & IH)]; simpl.
  { exists d. by rewrite Z.add_0_r, orb_false_r. }
  rewrite IH. exists (later d' c). simpl. rewrite wrap_add_l.
  replace (m + zsum (stat_RestartCount <$> l) + stat_RestartCount c)
    with (m + (stat_RestartCount c + zsum (stat_RestartCount <$> l))) by lia.
  unfold runs. destruct (container_problem c) as [problem|]; simpl; [done|].
  f_equal. by destruct h, (existsb _ l), (stat_Ready c), (stat_Running c).
Qed.

Lemma PodStatus_past_init elapsed pod :
  passed pod (st_InitContainerStatuses (pod_Status pod)) -> pod_Deleted pod = false ->
  let r := default (initial_reason pod) (head (problems pod)) in
  restarts (PodStatus elapsed pod) = wrap (total_restarts pod) /\
  reason (PodStatus elapsed pod) =
    (if bool_decide (r = "Completed") && existsb runs (st_ContainerStatuses (pod_Status pod))
     then if hasPodReadyCondition (st_Conditions (pod_Status pod)) then "Running" else "NotReady"
     else r).
Proof.
  intros Hpassed Hdel r. unfold PodStatus.
  destruct (init_loop_spec pod) as [(_ & [_ Hrr] & Hreason & Hinit)|(l1 & c & l2 & ? & Hl & _ & Hb & _)].
  - rewrite Hinit, Hdel, Hrr, Hreason. simpl.
    destruct (container_loop (st_ContainerStatuses (pod_Status pod))
      (zsum (stat_RestartCount <$> base.filter (fun c => restartable pod c = true)
                                     (st_InitContainerStatuses (pod_Status pod))))
      (restartableRestartDate (init_loop pod)) (initial_reason pod) false) as (d' & ->).
    done.
  - exfalso. rewrite (Hpassed (length l1) c) in Hb; [done|]. by rewrite Hl, list_lookup_middle.
Qed.

(** A pod past its initialization that is neither deleted nor evicted nor gated. *)
Definition live (pod : v1_Pod) : Prop :=
  passed pod (st_InitContainerStatuses (pod_Status pod)) /\ pod_Deleted pod = false /\
  st_Phase (pod_Status pod) = PodRunning /\ initial_reason pod = PodRunning /\
  is_int (total_restarts pod).

(** Such a pod is up when no container waits or has terminated; or when the first that does
    has completed, another one runs, and the pod is ready.  A problem whose text is itself
    [Running] is not seen as one. *)
Definition up (pod : v1_Pod) : Prop :=
  match head (problems pod) with
  | None => True
  | Some problem =>
      problem = PodRunning \/
      problem = "Completed" /\ existsb runs (st_ContainerStatuses (pod_Status pod)) = true /\
      hasPodReadyCondition (st_Conditions (pod_Status pod)) = true
  end.

Lemma live_status elapsed pod : live pod ->
  restarts (PodStatus elapsed pod) = total_restarts pod /\
  (reason (PodStatus elapsed pod) = PodRunning <-> up pod).
Proof.
  intros (Hp & Hdel & _ & Hinit & Hint).
  destruct (PodStatus_past_init elapsed pod Hp Hdel) as [-> ->].
  split; [by apply wrap_id|]. rewrite Hinit. unfold up.
  destruct (head (problems pod)) as [p|]; [|done]. simpl.
  destruct (decide (p = "Completed")) as [->|Hc].
  - rewrite bool_decide_eq_true_2 by done. destruct (existsb _ _); simpl; [|naive_solver].
    destruct (hasPodReadyCondition _); naive_solver.
  - rewrite bool_decide_eq_false_2 by done. simpl. naive_solver.
Qed.

(** ** Watchers *)

(** A received item that [WaitPod] waits past. *)
Definition skipped (annotations : gmap string string) (r : received) : Prop :=
  exists d pod, r = Event d (Some pod) /\
    ~ (st_Phase (pod_Status pod) = PodRunning /\ annotations <> ∅ /\
       annotations ⊆ pod_Annotations pod).

Lemma same_annotations_spec `{RangeOrder} s annotations current :
  same_annotations s annotations current = true <-> annotations <> ∅ /\ annotations ⊆ current.
Proof.
  unfold same_annotations.
  apply (for_range_inv _
    (fun l1 b => (b = true <-> l1 <> []) /\ forall k v, (k, v) ∈ l1 -> current !! k = Some v)
    (fun o => no_return o = true <-> annotations <> ∅ /\ annotations ⊆ current)).
  - split; [done|]. by intros k v ?%elem_of_nil.
  - intros l1 [k v] l2 b Hl [Hb Hl1]. case_decide as Hk.
    + split; [split; [by intros _ []%app_eq_nil|done]|].
      intros k' v' [?|[= -> ->]%list_elem_of_singleton]%elem_of_app; [by apply Hl1|done].
    + simpl. split; [done|]. intros [_ Hsub]. destruct Hk.
      eapply lookup_weaken; [|done]. apply (elem_of_visit s). rewrite Hl. set_solver.
  - intros b [Hb Hl]. simpl. rewrite Hb. split.
    + intros Hne. split.
      * intros ->. apply Hne. pose proof (visit_perm _ _ s (∅ : gmap string string)) as Hp.
        rewrite map_to_list_empty in Hp. by apply Permutation_nil_r in Hp.
      * apply map_subseteq_spec. intros k v Hk. by apply Hl, (elem_of_visit s).
    + intros [Hne _] Hnil. apply Hne, map_empty. intros k. apply eq_None_not_Some.
      intros [v Hk]. apply (elem_of_visit s) in Hk. rewrite Hnil in Hk. by apply elem_of_nil in Hk.
Qed.

(** The result of [WaitPod] on one item that it does not wait past. *)
Definition wait_result `{RangeOrder} (annotations : gmap string string) (r : received)
    : option watch_result :=
  match r with
  | Event _ (Some pod) =>
      if decide (st_Phase (pod_Status pod) = PodRunning /\ annotations <> ∅ /\
                 annotations ⊆ pod_Annotations pod)
      then Some (Watched (Some pod)) else None
  | Event _ None | Closed => Some WatchPanics
  | ContextDone => Some ContextError
  end.

(** * Properties *)

Section properties.

(** C37: For a pod past its initialization, [PodStatus] reports the restarts of its containers
    and of its restartable init containers, and as the reason the one of the first
    container, in the order of the status, that waits or has terminated; only if all run is it
    the pod's own.  A completed container next to a running one counts as running or not
    ready by the pod's condition. *)
Theorem PodStatus_reason elapsed pod :
  passed pod (st_InitContainerStatuses (pod_Status pod)) -> pod_Deleted pod = false ->
  let r := default (initial_reason pod) (head (problems pod)) in
  restarts (PodStatus elapsed pod) = wrap (total_restarts pod) /\
  reason (PodStatus elapsed pod) =
    (if bool_decide (r = "Completed") && existsb runs (st_ContainerStatuses (pod_Status pod))
     then if hasPodReadyCondition (st_Conditions (pod_Status pod)) then "Running" else "NotReady"
     else r).
Proof. apply PodStatus_past_init. Qed.

(** While a pod initializes, the first init container that is not done gives the reason,
    and the restarts are those of the init containers up to it. *)
Theorem PodStatus_initializing elapsed pod l1 c l2 r :
  st_InitContainerStatuses (pod_Status pod) = l1 ++ c :: l2 ->
  passed pod l1 -> blocked pod (length l1) c = Some r ->
  isPodInitializedConditionTrue (pod_Status pod) = false -> pod_Deleted pod = false ->
  reason (PodStatus elapsed pod) = r /\
  restarts (PodStatus elapsed pod) = wrap (zsum (stat_RestartCount <$> l1 ++ [c])).
Proof.
  intros Hl Hp Hb Hcond Hdel. unfold PodStatus. rewrite Hcond, Hdel.
  destruct (init_loop_spec pod) as [(Hall & _)|(l1' & c' & l2' & r' & Hl' & Hp' & Hb' & [Hr _] & Hreason & ->)].
  - exfalso. rewrite (Hall (length l1) c) in Hb; [done|]. by rewrite Hl, list_lookup_middle.
  - simpl. rewrite Hreason, Hr. rewrite Hl in Hl'.
    assert (length l1 = length l1') as Hlen.
    { destruct (Nat.lt_trichotomy (length l1) (length l1')) as [Hlt|[|Hlt]]; [|done|]; exfalso.
      - rewrite (Hp' (length l1) c) in Hb; [done|].
        rewrite <- (lookup_app_l l1' (c' :: l2')), <- Hl' by done. by apply list_lookup_middle.
      - rewrite (Hp (length l1') c') in Hb'; [done|].
        rewrite <- (lookup_app_l l1 (c :: l2)), Hl' by done. by apply list_lookup_middle. }
    apply app_inj_1 in Hl' as [<- [= <- <-]]; [|done]. split; [congruence|done].
Qed.

(** C38: An update of a running pod is queued exactly when the pod is up after it and either was
    not up before it or its restarts have grown.  So the setter sees a restart when the pod
    is up again: beside a completed container that is when the pod is ready. *)
Theorem PodChanged_queues_restarts elapsed old new :
  live old -> live new ->
  (PodChanged elapsed old new <> [] <->
   up new /\ (~ up old \/ total_restarts old < total_restarts new)).
Proof.
  intros Hold Hnew. destruct (live_status elapsed old Hold) as [Hro Ho].
  destruct (live_status elapsed new Hnew) as [Hrn Hn]. unfold PodChanged. rewrite Hro, Hrn.
  destruct Hold as (_ & _ & Hpo & _), Hnew as (_ & _ & Hpn & _). rewrite Hpo, Hpn.
  rewrite (bool_decide_eq_false_2 (PodRunning <> PodRunning)) by naive_solver.
  rewrite andb_false_l, <- Ho, <- Hn, Z.gtb_ltb.
  destruct (decide (reason (PodStatus elapsed new) = PodRunning)) as [Er|Er].
  - rewrite Er. destruct (decide (reason (PodStatus elapsed old) = PodRunning)) as [Eo|Eo].
    + rewrite Eo, bool_decide_eq_false_2, !bool_decide_eq_true_2 by naive_solver. simpl.
      destruct (_ <? _) eqn:Hlt; to_prop; naive_solver lia.
    + rewrite bool_decide_eq_true_2, bool_decide_eq_true_2 by naive_solver. simpl. naive_solver.
  - rewrite !(bool_decide_eq_false_2 (_ = PodRunning)) by done.
    rewrite !andb_false_r. simpl. naive_solver.
Qed.

(** [WaitPod] answers the first item that is not a pod still to wait for: a running pod with
    all the annotations is returned, the end of the context is an error, and a watch that
    closes or reports an error object makes it panic.  Without annotations to look for
    it never returns a pod. *)
Theorem WaitPod_first `{RangeOrder} s annotations l :
  match WaitPod s annotations l with
  | Watching => Forall (skipped annotations) l
  | r => exists l1 x l2, l = l1 ++ x :: l2 /\ Forall (skipped annotations) l1 /\
      wait_result annotations x = Some r
  end.
Proof.
  unfold WaitPod.
  apply (for_range_inv _ (fun l1 _ => Forall (skipped annotations) l1)
    (fun o => match after o (fun _ => Watching) with
              | Watching => Forall (skipped annotations) l
              | r => exists l1 x l2, l = l1 ++ x :: l2 /\ Forall (skipped annotations) l1 /\
                  wait_result annotations x = Some r
              end)); [done| |done].
  intros l1 x l2 [] Hl Hl1. destruct x as [d [pod|]| |]; [|by eexists l1, _, l2..].
  destruct (same_annotations (length l1 :: s) annotations (pod_Annotations pod)) eqn:Hsame;
    [apply same_annotations_spec in Hsame|]; case_decide as Hphase.
  - eexists l1, _, l2. split; [done|]. split; [done|]. simpl. by rewrite decide_True by naive_solver.
  - apply Forall_app_2; [done|]. constructor; [|done]. exists d, pod. naive_solver.
  - apply Forall_app_2; [done|]. constructor; [|done]. exists d, pod. split; [done|].
    intros (_ & Hann). apply (same_annotations_spec (length l1 :: s)) in Hann. congruence.
  - apply Forall_app_2; [done|]. constructor; [|done]. exists d, pod. naive_solver.
Qed.
End properties.

(** ** Witnesses *)

Module events_example.
Definition running (restarts : Z) : ContainerStatus :=
  mk_ContainerStatus "app" "docker://1" true None restarts None true None None.

Definition crashing (restarts : Z) : ContainerStatus :=
  mk_ContainerStatus "app" "docker://1" false None restarts (Some "CrashLoopBackOff") false None None.

Definition init_done : ContainerStatus :=
  mk_ContainerStatus "init" "docker://0" false None 1 None false
    (Some (mk_Terminated 0 0 "Completed" 5)) None.

Definition init_failed : ContainerStatus :=
  mk_ContainerStatus "setup" "docker://2" false None 2 None false
    (Some (mk_Terminated 3 0 "" 5)) None.

Definition named (name : string) : v1_Container := mk_v1_Container name ∅ ∅ [] [] [] [] None.

Definition pod (phase : string) (inits apps : list ContainerStatus) : v1_Pod :=
  mk_v1_Pod "default" "pod" "uid" ∅ false "node" [named "init"; named "setup"] [named "app"] []
    (mk_PodStatus phase "" [] inits apps).

Definition completed : ContainerStatus :=
  mk_ContainerStatus "job" "docker://3" false None 0 None false (Some (mk_Terminated 0 0 "Completed" 5)) None.

(** A completed container first, then a running one with some restarts. *)
Definition beside_completed (restarts : Z) (ready : bool) : v1_Pod :=
  mk_v1_Pod "default" "pod" "uid" ∅ false "node" [] [named "job"; named "app"] []
    (mk_PodStatus "Running" "" [mk_PodCondition PodReady (if ready then "True" else "False") ""] []
       [completed; running restarts]).
End events_example.

Section witnesses.
Import events_example.

Lemma init_passed phase apps :
  passed (pod phase [init_done] apps) (st_InitContainerStatuses (pod_Status (pod phase [init_done] apps))).
Proof. intros [|i] c; simpl; [intros [= <-]; reflexivity|discriminate]. Defined.

Lemma PodStatus_reason_witness :
  restarts (PodStatus (fun _ => "5s") (pod "Running" [init_done] [crashing 3])) = wrap (0 + (3 + 0)) /\
  reason (PodStatus (fun _ => "5s") (pod "Running" [init_done] [crashing 3])) = "CrashLoopBackOff".
Proof.
  exact (PodStatus_reason (fun _ => "5s") (pod "Running" [init_done] [crashing 3])
           (init_passed _ _) eq_refl).
Defined.

Lemma PodStatus_initializing_witness :
  reason (PodStatus (fun _ => "5s") (pod "Pending" [init_done; init_failed] [])) = "Init:ExitCode:3" /\
  restarts (PodStatus (fun _ => "5s") (pod "Pending" [init_done; init_failed] [])) = wrap (1 + (2 + 0)).
Proof.
  exact (PodStatus_initializing (fun _ => "5s") (pod "Pending" [init_done; init_failed] [])
           [init_done] init_failed [] "Init:ExitCode:3" eq_refl (init_passed "Pending" [])
           eq_refl eq_refl eq_refl).
Defined.

Lemma PodChanged_queues_restarts_witness :
  PodChanged (fun _ => "5s") (pod "Running" [init_done] [running 3])
    (pod "Running" [init_done] [running 4]) <> [].
Proof.
  apply (PodChanged_queues_restarts (fun _ => "5s") (pod "Running" [init_done] [running 3])
           (pod "Running" [init_done] [running 4])).
  - split; [apply init_passed|]. repeat split; vm_compute; discriminate.
  - split; [apply init_passed|]. repeat split; vm_compute; discriminate.
  - split; [exact I|right; reflexivity].
Defined.

(** Beside a completed container a restart is not queued before the pod is ready again; the
    update that makes it ready is. *)
Example restart_beside_completed :
  PodChanged (fun _ => "5s") (beside_completed 3 true) (beside_completed 4 false) = [] /\
  PodChanged (fun _ => "5s") (beside_completed 4 false) (beside_completed 4 true) <> [].
Proof. split; [vm_compute; reflexivity|vm_compute; discriminate]. Qed.
End witnesses.
