(* ===== verification/K8sClient.v ===== *)
(** * The Kubernetes client: [pkg/k8sclient/k8sclient.go]

    The decisions of the client around the client libraries ([k8s.io/client-go],
    [k8s.io/apimachinery], [resty], [jsoniter], [expfmt]), which are fields of [Kube]: one
    [Kube] says what the libraries, the API server and the kubelet answer at one time.  A
    call of client-go gives a pointer and an error.  The node of this process is looked up
    once and kept; [Client] is that state. *)

From S2P Require Import Prelude GoStrings K8s PodApi.
From Stdlib Require Import Ascii.
Local Open Scope Z_scope.

Definition dquote : string := String "034" "".

Record NodeAddress := mkAddress { addr_Type : string; Address : string }.

Record v1_Node := mkNode {
  node_Labels : gmap string string;
  node_Addresses : list NodeAddress;
  KubeletPort : Z
}.

Definition NodeInternalIP : string := "InternalIP".

Inductive build_error := ConfigNotExist | ConfigInvalid.

(** What is sent to the API to change an object. *)
Inductive patch_type := MergePatchType | StrategicMergePatchType.

(** The patch of [SetPodAnnotation]: the text of each annotation's value. *)
Record update := mkUpdate { Annotations : gmap string string }.

(** What a watcher delivers: a pod, or some other object. *)
Definition watch_event : Type := option v1_Pod.

Record Kube := {
  rest_config : Type;
  clientset : Type;
  tls_config : Type;
  volume : Type;
  (** the environment of the process *)
  HomeDir : string;
  NODE_NAME : string;
  Hostname : option string;
  (** building clients *)
  BuildConfigFromFlags : string -> rest_config + build_error;
  InClusterConfig : option rest_config;
  NewForConfig : rest_config -> option clientset;
  (** the API *)
  Nodes_Get : clientset -> string -> option v1_Node * bool;
  Pods_Get : clientset -> string -> string -> option v1_Pod * bool;
  Pods_List : clientset -> string -> option (list v1_Pod);
  Pods_Watch : clientset -> v1_Pod -> option (list watch_event);
  Pods_Patch : clientset -> string -> string -> patch_type -> update -> bool;
  PVC_Get : clientset -> string -> string -> option volume;
  PV_Get : clientset -> string -> option volume;
  PV_Patch : clientset -> string -> patch_type -> string -> option volume;
  (** [transport.TLSConfigFor], nil if no transport security is asked for *)
  TLSConfigFor : rest_config -> option (option tls_config);
  BearerToken : rest_config -> option string;
  (** the kubelet: the body of the answer, and its decoders *)
  Http_Get : tls_config -> option string -> string -> option string;
  decode_pods : string -> option (list v1_Pod);
  decode_metrics : string -> option (list (string * string))
}.

(** A pointer that comes with an error may be used only if the error is nil. *)
Definition pointer {A} (r : option A * bool) : res unit (option A) :=
  if r.2 then Ok r.1 else Err tt.

Section client.
Context (kube : Kube).

Definition createRestConfig : res unit (rest_config kube) :=
  let kubeConfigFilePath :=
    if decide (HomeDir kube = "") then "" else HomeDir kube +:+ "/.kube/config" in
  match BuildConfigFromFlags kube kubeConfigFilePath with
  | inl config => Ok config
  | inr ConfigNotExist =>
      match InClusterConfig kube with
      | Some config => Ok config
      | None => Err tt
      end
  | inr ConfigInvalid => Err tt
  end.

Definition createClientSet : res unit (clientset kube) :=
  config ← createRestConfig;
  match NewForConfig kube config with
  | Some clientset => Ok clientset
  | None => Err tt
  end.

Definition ClientSet : res unit (clientset kube) := createClientSet.
Definition RestConfig : res unit (rest_config kube) := createRestConfig.

(** [Ok None] for the nil map. *)
Definition GetNodeLabels : res unit (option (gmap string string)) :=
  cSet ← createClientSet;
  if decide (NODE_NAME kube = "") then Ok None
  else
    nodes ← pointer (Nodes_Get kube cSet (NODE_NAME kube));
    match nodes with
    | None => Panic NilDereference
    | Some node => Ok (Some (node_Labels node))
    end.

(** Whether [json.Marshal] accepts the text between quotes as the body of a JSON string: it
    has no bare quote or control character, and each escape is complete. *)
Definition is_hex (c : ascii) : bool :=
  let n := N_of_ascii c in
  ((48 <=? n) && (n <=? 57) || (65 <=? n) && (n <=? 70) || (97 <=? n) && (n <=? 102))%N.

Definition is_escape (c : ascii) : bool :=
  match c with
  | "034" | "092" | "/" | "b" | "f" | "n" | "r" | "t" => true
  | _ => false
  end%char.

(** [pending] is the number of hexadecimal digits still due, [escaped] whether a backslash
    was the last character. *)
Fixpoint string_body (pending : nat) (escaped : bool) (s : string) : bool :=
  match s with
  | EmptyString => bool_decide (pending = 0%nat) && negb escaped
  | String c s =>
      match pending with
      | S pending => is_hex c && string_body pending false s
      | O =>
          if escaped then
            if decide (c = "u"%char) then string_body 4 false s
            else is_escape c && string_body 0 false s
          else if decide (c = "092"%char) then string_body 0 true s
          else negb (bool_decide (c = "034"%char)) && (32 <=? N_of_ascii c)%N && string_body 0 false s
      end
  end.

Definition SetPodAnnotation (pod : v1_Pod) (key value : string) : res unit unit :=
  cSet ← createClientSet;
  let merge := mkUpdate {[key := dquote +:+ value +:+ dquote]} in
  if negb (string_body 0 false value) then Err tt
  else if Pods_Patch kube cSet (pod_Namespace pod) (pod_Name pod) MergePatchType merge
       then Ok tt else Err tt.

Definition RefreshPod (pod : v1_Pod) : res unit (option v1_Pod) :=
  cSet ← createClientSet;
  pointer (Pods_Get kube cSet (pod_Namespace pod) (pod_Name pod)).

Definition GetPod (namespace podName : string) : res unit (option v1_Pod) :=
  cSet ← createClientSet;
  pointer (Pods_Get kube cSet namespace podName).

(** The events until one shows the container ready; the channel may be closed before. *)
Fixpoint wait_ready (containerName : string) (events : list watch_event) : option ContainerStatus :=
  match events with
  | [] => None
  | None :: events => wait_ready containerName events
  | Some pod :: events =>
      match List.find (fun c => bool_decide (stat_Name c = containerName) && stat_Ready c)
              (st_ContainerStatuses (pod_Status pod)) with
      | Some c => Some c
      | None => wait_ready containerName events
      end
  end.

(** [Ok None] is the nil status without an error. *)
Definition GetRunningContainer (pod : v1_Pod) (containerName : string)
    : res unit (option ContainerStatus) :=
  cSet ← createClientSet;
  pod ← RefreshPod pod;
  match pod with
  | None => Panic NilDereference
  | Some pod =>
      match Pods_Watch kube cSet pod with
      | None => Err tt
      | Some events => Ok (wait_ready containerName events)
      end
  end.

Definition of_option {A} (o : option A) : res unit A :=
  match o with Some a => Ok a | None => Err tt end.

Definition GetPVC (namespace pvcName : string) : res unit (volume kube) :=
  cSet ← createClientSet; of_option (PVC_Get kube cSet namespace pvcName).

Definition GetPV (pvName : string) : res unit (volume kube) :=
  cSet ← createClientSet; of_option (PV_Get kube cSet pvName).

Definition in_braces (field value : string) : string :=
  "{" +:+ dquote +:+ field +:+ dquote +:+ ":" +:+ value +:+ "}".

Definition PatchPVReclaimPolicy (pvName policy : string) : res unit (volume kube) :=
  cSet ← createClientSet;
  let data := in_braces "spec" (in_braces "persistentVolumeReclaimPolicy" (dquote +:+ policy +:+ dquote)) in
  of_option (PV_Patch kube cSet pvName StrategicMergePatchType data).

Definition PatchPVClearClaimRef (pvName : string) : res unit (volume kube) :=
  cSet ← createClientSet;
  let data := "{" +:+ dquote +:+ "spec" +:+ dquote +:+ ":{" +:+ dquote +:+ "claimRef" +:+ dquote +:+ ": null}}" in
  of_option (PV_Patch kube cSet pvName StrategicMergePatchType data).

Definition GetMyPods : res unit (list v1_Pod) :=
  cSet ← createClientSet;
  of_option (Pods_List kube cSet ("spec.nodeName=" +:+ NODE_NAME kube)).

(** ** This node and its kubelet *)

(** [once] and [thisNode]. *)
Record Client := mkClient { once_done : bool; thisNode : option v1_Node }.

Definition lookup_node (old : option v1_Node) : option v1_Node :=
  match (if decide (NODE_NAME kube = "") then Hostname kube else Some (NODE_NAME kube)) with
  | None => old
  | Some nodeName =>
      match createClientSet with
      | Ok cSet => (Nodes_Get kube cSet nodeName).1
      | _ => old
      end
  end.

Definition GetThisNode (st : Client) : Client * option v1_Node :=
  if once_done st then (st, thisNode st)
  else let node := lookup_node (thisNode st) in (mkClient true node, node).

(** The last internal address. *)
Definition kubelet_address (node : v1_Node) : string :=
  foldl (fun ipAddress ipInfo =>
    if decide (addr_Type ipInfo = NodeInternalIP) then Address ipInfo else ipAddress)
    "" (node_Addresses node).

Definition kubelet_url (node : v1_Node) (resource : string) : string :=
  "https://" +:+ kubelet_address node +:+ ":" +:+ Itoa (KubeletPort node) +:+ "/" +:+ resource.

(** The request to the kubelet that both functions make. *)
Definition ask_kubelet (config : rest_config kube) (node : option v1_Node) (resource : string)
    : res unit string :=
  match node with
  | None => Panic NilDereference
  | Some node =>
      tlsConfig ← of_option (TLSConfigFor kube config);
      match tlsConfig with
      | None => Panic NilDereference
      | Some tlsConfig =>
          of_option (Http_Get kube tlsConfig
            ((fun token => "Bearer " +:+ token) <$> BearerToken kube config) (kubelet_url node resource))
      end
  end.

Definition GetPodsFromKubelet (st : Client) : Client * res unit (list v1_Pod) :=
  match createRestConfig with
  | Ok config =>
      let '(st, node) := GetThisNode st in
      (st, body ← ask_kubelet config node "pods"; of_option (decode_pods kube body))
  | Err e => (st, Err e)
  | Panic p => (st, Panic p)
  end.

Definition GetMetricsFromKubelet (st : Client) (cadvisor : bool)
    : Client * res unit (list (string * string)) :=
  match createRestConfig with
  | Ok config =>
      let '(st, node) := GetThisNode st in
      (st, body ← ask_kubelet config node (if cadvisor then "metrics/cadvisor" else "metrics");
           of_option (decode_metrics kube body))
  | Err e => (st, Err e)
  | Panic p => (st, Panic p)
  end.
End client.

Arguments rest_config : clear implicits.
Arguments clientset : clear implicits.

(** ** The interface of the setter

    [kube_at n] answers the [n]-th call; a pod pointer is nil only with an error. *)
#[export] Instance client_api (kube_at : nat -> Kube) (st : Client) : PodApi := {|
  PodApi.RefreshPod := fun n pod =>
    match RefreshPod (kube_at n) pod with Ok p => p | _ => None end;
  PodApi.SetPodAnnotation := fun n pod key value => is_ok (SetPodAnnotation (kube_at n) pod key value);
  PodApi.GetPodsFromKubelet := (GetPodsFromKubelet (kube_at 0%nat) st).2
|}.

(** * Lemmas *)

Lemma GetThisNode_done kube st : once_done (GetThisNode kube st).1 = true.
Proof. unfold GetThisNode. by destruct (once_done st) eqn:E. Qed.

Lemma GetThisNode_again kube kube' st :
  GetThisNode kube' (GetThisNode kube st).1 = ((GetThisNode kube st).1, (GetThisNode kube st).2).
Proof. unfold GetThisNode at 1. rewrite GetThisNode_done. unfold GetThisNode. by destruct (once_done st). Qed.

Lemma GetPodsFromKubelet_kept kube kube' st config : createRestConfig kube' = Ok config ->
  GetPodsFromKubelet kube' (GetThisNode kube st).1 =
    ((GetThisNode kube st).1,
     body ← ask_kubelet kube' config (GetThisNode kube st).2 "pods"; of_option (decode_pods kube' body)).
Proof. intros Hc. unfold GetPodsFromKubelet. by rewrite Hc, GetThisNode_again. Qed.

(** A string without quotes, backslashes and control characters is accepted as it is. *)
Definition plain_char (c : ascii) : bool :=
  negb (bool_decide (c = "034"%char)) && negb (bool_decide (c = "092"%char)) && (32 <=? N_of_ascii c)%N.

Fixpoint plain_text (s : string) : bool :=
  match s with EmptyString => true | String c s => plain_char c && plain_text s end.

Lemma string_body_plain s : plain_text s = true -> string_body 0 false s = true.
Proof.
  induction s as [|c s IH]; simpl; [done|]. unfold plain_char.
  intros [[[Hq Hb]%andb_prop Hn]%andb_prop Hs]%andb_prop. to_prop. rewrite decide_False by done.
  rewrite bool_decide_eq_false_2 by done. rewrite Hn. by apply IH.
Qed.

(** * Properties *)

Section properties.

(** The node is looked up once per process.  If the first attempt finds neither a node name
    nor a host name, every later request for the pods of the kubelet panics; if the API
    refused it with an empty node, every later request goes to [https://:0/pods].  What the
    API answers later does not matter. *)
Theorem node_lookup_never_repeated kube kube' config :
  let st := (GetThisNode kube (mkClient false None)).1 in
  createRestConfig kube' = Ok config ->
  (NODE_NAME kube = "" -> Hostname kube = None ->
     GetPodsFromKubelet kube' st = (st, Panic NilDereference)) /\
  (forall cSet, NODE_NAME kube <> "" -> createClientSet kube = Ok cSet ->
     Nodes_Get kube cSet (NODE_NAME kube) = (Some (mkNode ∅ [] 0), false) ->
     forall tls, TLSConfigFor kube' config = Some (Some tls) ->
     GetPodsFromKubelet kube' st =
       (st, body ← of_option (Http_Get kube' tls
              ((fun token => "Bearer " +:+ token) <$> BearerToken kube' config) "https://:0/pods");
            of_option (decode_pods kube' body))).
Proof.
  intros st Hc. unfold st. rewrite (GetPodsFromKubelet_kept kube kube' _ config Hc). split.
  - intros Hname Hhost. unfold GetThisNode. simpl. unfold lookup_node.
    rewrite decide_True, Hhost by done. done.
  - intros cSet Hname Hset Hget tls Htls. unfold GetThisNode. simpl. unfold lookup_node.
    rewrite decide_False by done. rewrite Hset, Hget. simpl. by rewrite Htls.
Qed.

(** The annotation of a pod: a value without quotes, backslashes and control characters is
    sent as one merge patch for this pod that sets the key to the quoted value and nothing
    else, and the call fails exactly if the patch is refused; a value with a bare quote is
    never sent. *)
Theorem SetPodAnnotation_patches kube pod key value cSet : createClientSet kube = Ok cSet ->
  (plain_text value = true ->
     SetPodAnnotation kube pod key value =
       if Pods_Patch kube cSet (pod_Namespace pod) (pod_Name pod) MergePatchType
            (mkUpdate {[key := dquote +:+ value +:+ dquote]})
       then Ok tt else Err tt) /\
  (forall a b, plain_text a = true -> value = a +:+ dquote +:+ b ->
     SetPodAnnotation kube pod key value = Err tt).
Proof.
  intros Hc. unfold SetPodAnnotation. rewrite Hc. simpl. split.
  - intros Hv. by rewrite string_body_plain.
  - intros a b Ha ->. assert (string_body 0 false (a +:+ dquote +:+ b) = false) as ->; [|done].
    induction a as [|c a IH]; simpl in *; [done|]. unfold plain_char in Ha.
    apply andb_prop in Ha as [[[Hq Hb]%andb_prop Hn]%andb_prop Ha]. to_prop.
    rewrite decide_False by done. rewrite (IH Ha). by rewrite andb_false_r.
Qed.

(** The client is configured from the file in the home directory; only if that file does not
    exist from the cluster the process runs in. *)
Theorem createRestConfig_source kube config : createRestConfig kube = Ok config <->
  let file := if decide (HomeDir kube = "") then "" else HomeDir kube +:+ "/.kube/config" in
  BuildConfigFromFlags kube file = inl config \/
  BuildConfigFromFlags kube file = inr ConfigNotExist /\ InClusterConfig kube = Some config.
Proof.
  unfold createRestConfig. simpl.
  destruct (BuildConfigFromFlags kube _) as [c|[]]; [|destruct (InClusterConfig kube)|]; naive_solver.
Qed.
End properties.

(** ** Witnesses *)

Module client_example.
(** A cluster whose API refuses the first request. *)
Definition cluster (answers : bool) : Kube := {|
  rest_config := unit; clientset := unit; tls_config := unit; volume := unit;
  HomeDir := ""; NODE_NAME := "node"; Hostname := None;
  BuildConfigFromFlags := fun _ => inr ConfigNotExist;
  InClusterConfig := Some tt;
  NewForConfig := fun _ => Some tt;
  Nodes_Get := fun _ _ =>
    if answers then (Some (mkNode ∅ [mkAddress "Hostname" "n1"; mkAddress "InternalIP" "10.0.0.1"] 10250), true)
    else (Some (mkNode ∅ [] 0), false);
  Pods_Get := fun _ _ _ => (None, answers);
  Pods_List := fun _ _ => Some [];
  Pods_Watch := fun _ _ => Some [];
  Pods_Patch := fun _ _ _ _ _ => answers;
  PVC_Get := fun _ _ _ => None;
  PV_Get := fun _ _ => None;
  PV_Patch := fun _ _ _ _ => None;
  TLSConfigFor := fun _ => Some (Some tt);
  BearerToken := fun _ => Some "secret";
  Http_Get := fun _ _ url => if decide (url = "https://10.0.0.1:10250/pods") then Some "" else None;
  decode_pods := fun _ => Some [];
  decode_metrics := fun _ => Some []
|}.
End client_example.

Section witnesses.
Import client_example.

(** A look-up that succeeds reaches the kubelet. *)
Example kubelet_reached :
  (GetPodsFromKubelet (cluster true) (mkClient false None)).2 = Ok [].
Proof. vm_compute. reflexivity. Qed.

Lemma node_lookup_never_repeated_witness :
  let st := (GetThisNode (cluster false) (mkClient false None)).1 in
  GetPodsFromKubelet (cluster true) st = (st, Err tt).
Proof.
  intros st. unfold st. destruct (node_lookup_never_repeated (cluster false) (cluster true) tt eq_refl) as [_ Hempty].
  rewrite (Hempty tt ltac:(discriminate) eq_refl eq_refl tt eq_refl). vm_compute. reflexivity.
Defined.

Lemma SetPodAnnotation_patches_witness pod :
  SetPodAnnotation (cluster true) pod "bonc.k8s.io/cpusets-configured" "true" = Ok tt.
Proof.
  destruct (SetPodAnnotation_patches (cluster true) pod "bonc.k8s.io/cpusets-configured" "true" tt eq_refl)
    as [Hsend _]. rewrite Hsend by reflexivity. reflexivity.
Defined.
End witnesses.
