(* ===== verification/PodWatch.v ===== *)
(** * Waiting for a pod: [pkg/k8sclient/pod.go], lines 17-114

    A watcher is made for the name of a pod in a namespace and read until the function has
    its answer.  [K8sClient] gives the client, [PodEvents] the loops over what is received.
    The API's side of a watch is an argument: the items that come, in their order. *)

From S2P Require Import Prelude GoStrings K8s PodEvents K8sClient.
Local Open Scope Z_scope.

Section watch.
Context `{RangeOrder} (kube : Kube).
(** [fields.OneTermEqualSelector] as text, and [Watch] in a namespace. *)
Context (OneTermEqualSelector : string -> string -> string).
Context (Watch : clientset kube -> string -> string -> option (list received)).

Definition ObjectNameField : string := "metadata.name".

Definition CreatePodWatcher (namespace resName : string) : res unit (list received) :=
  clientset ← createClientSet kube;
  of_option (Watch clientset namespace (OneTermEqualSelector ObjectNameField resName)).

Definition waitPodDeleted (namespace resName : string) : res unit watch_result :=
  watcher ← CreatePodWatcher namespace resName; Ok (PodEvents.waitPodDeleted watcher).

Definition waitPodRunning (namespace resName : string) : res unit watch_result :=
  watcher ← CreatePodWatcher namespace resName; Ok (PodEvents.waitPodRunning watcher).

Definition WaitPod (s : site) (namespace podName : string) (annotations : gmap string string)
    : res unit watch_result :=
  watcher ← CreatePodWatcher namespace podName; Ok (PodEvents.WaitPod s annotations watcher).

(** What the API promises: the pods of a watch match its selector, and are of its namespace
    unless that is empty. *)
Definition watch_selects : Prop := forall clientset namespace name items deleted pod,
  Watch clientset namespace (OneTermEqualSelector ObjectNameField name) = Some items ->
  Event deleted (Some pod) ∈ items ->
  pod_Name pod = name /\ (namespace = "" \/ pod_Namespace pod = namespace).

(** * Lemmas *)

Lemma CreatePodWatcher_Ok namespace name items : CreatePodWatcher namespace name = Ok items ->
  exists clientset, createClientSet kube = Ok clientset /\
    Watch clientset namespace (OneTermEqualSelector ObjectNameField name) = Some items.
Proof.
  unfold CreatePodWatcher. destruct (createClientSet kube) as [cs|e|p]; simpl; [|done..].
  destruct (Watch cs _ _) as [l|] eqn:Hw; [|done]. intros [= <-]. by exists cs.
Qed.

Lemma wait_result_pod annotations x pod : wait_result annotations x = Some (Watched (Some pod)) ->
  (exists deleted, x = Event deleted (Some pod)) /\ st_Phase (pod_Status pod) = PodRunning /\
    annotations <> ∅ /\ annotations ⊆ pod_Annotations pod.
Proof.
  destruct x as [deleted [p|]| |]; simpl; [|done..]. case_decide as Hp; [|done].
  intros [= ->]. split; [by eexists|done].
Qed.

(** * Properties *)

(** [WaitPod] gives back a running pod of that name, of the namespace if one is given, that
    carries all the annotations asked for; asked for none, it gives back none. *)
Theorem WaitPod_named s namespace podName annotations pod :
  watch_selects -> WaitPod s namespace podName annotations = Ok (Watched (Some pod)) ->
  pod_Name pod = podName /\ (namespace = "" \/ pod_Namespace pod = namespace) /\
  st_Phase (pod_Status pod) = PodRunning /\
  annotations ⊆ pod_Annotations pod /\ annotations <> ∅.
Proof.
  intros Hsel. unfold WaitPod. destruct (CreatePodWatcher _ _) as [items|e|p] eqn:Hw; simpl; [|done..].
  apply CreatePodWatcher_Ok in Hw as (cs & _ & Hitems). intros [= Hwait].
  pose proof (WaitPod_first s annotations items) as Hfirst. rewrite Hwait in Hfirst.
  destruct Hfirst as (l1 & x & l2 & -> & _ & Hx). apply wait_result_pod in Hx as [[deleted ->] Hpod].
  destruct (Hsel cs namespace podName _ deleted pod Hitems) as [Hname Hns]; [set_solver|].
  by destruct Hpod as (Hp & Hne & Hsub).
Qed.

(** A function that waits ends with an error, and without a watch, exactly if no watcher can
    be made. *)
Theorem wait_needs_watcher s namespace podName annotations :
  WaitPod s namespace podName annotations = Err tt <-> CreatePodWatcher namespace podName = Err tt.
Proof. unfold WaitPod. destruct (CreatePodWatcher _ _) as [items|[]|p]; simpl; done. Qed.

(** The type of an event is not looked at: the deletion of a pod that was running ends the
    wait as if it ran. *)
Theorem deleted_pod_runs s namespace podName annotations pod items :
  CreatePodWatcher namespace podName = Ok (Event true (Some pod) :: items) ->
  st_Phase (pod_Status pod) = PodRunning -> annotations <> ∅ -> annotations ⊆ pod_Annotations pod ->
  waitPodRunning namespace podName = Ok (Watched None) /\
  WaitPod s namespace podName annotations = Ok (Watched (Some pod)).
Proof.
  intros Hw Hphase Hne Hsub. unfold waitPodRunning, WaitPod. rewrite Hw. simpl.
  unfold PodEvents.waitPodRunning, PodEvents.WaitPod, for_range. simpl.
  rewrite !decide_True by done. split; [done|].
  by rewrite (proj2 (same_annotations_spec (0%nat :: s) annotations (pod_Annotations pod))).
Qed.
End watch.

(** ** Witnesses *)

Section witnesses.
#[local] Existing Instance range_forward.
Import events_example client_example.

Definition annotated : v1_Pod :=
  mk_v1_Pod "default" "pod" "uid" {["key" := "value"]} false "node" [] [] []
    (mk_PodStatus PodRunning "" [] [] []).

Definition pending_pod : v1_Pod := pod "Pending" [] [].

(** Selectors are written with an equals sign; the watch of the one pod shows it pending,
    then running. *)
Definition equals (k v : string) : string := k +:+ "=" +:+ v.

Definition watch_pod (_ : unit) (namespace selector : string) : option (list received) :=
  if decide (namespace = "default" /\ selector = "metadata.name=pod")
  then Some [Event false (Some pending_pod); Event true (Some annotated)] else Some [].

Lemma watch_pod_selects : watch_selects (cluster true) equals watch_pod.
Proof.
  intros cs namespace name items deleted p Hw Hin. unfold watch_pod in Hw. case_decide as Hsel.
  - destruct Hsel as [-> Hname]. apply (append_inj_l "metadata.name=") in Hname as ->. injection Hw as <-.
    rewrite !elem_of_cons, elem_of_nil in Hin.
    destruct Hin as [[= -> ->]|[[= -> ->]|[]]]; (split; [done|by right]).
  - injection Hw as <-. by apply elem_of_nil in Hin.
Defined.

Lemma WaitPod_named_witness :
  WaitPod (cluster true) equals watch_pod [] "default" "pod" {["key" := "value"]} = Ok (Watched (Some annotated)) /\
  pod_Name annotated = "pod".
Proof.
  assert (WaitPod (cluster true) equals watch_pod [] "default" "pod" {["key" := "value"]} =
    Ok (Watched (Some annotated))) as Hw by (vm_compute; reflexivity).
  split; [exact Hw|].
  exact (proj1 (WaitPod_named (cluster true) equals watch_pod [] "default" "pod" {["key" := "value"]} annotated
    watch_pod_selects Hw)).
Defined.
End witnesses.
