(* ===== verification/CpuInfo.v ===== *)
(** * The number of CPUs: [pkg/utils/cpuinfo.go]

    [GetCpuInfo] counts the processors of [/proc/cpuinfo]; [pkg/sethandler] takes [Cores] as
    the number of CPUs of the machine.  The file is a list of lines, each short enough for
    the scanner, and [runtime.NumCPU] an argument. *)

From S2P Require Import Prelude GoStrings.
From Stdlib Require Import Ascii.
Local Open Scope Z_scope.

Record CpuInfo := mkCpuInfo {
  Vendor : string;
  Model : string;
  Speed : string;
  Cache : Z;
  Cpus : Z;
  Cores : Z;
  Threads : Z
}.

Definition tab : ascii := "009".

(** A match of [\t+: ] at the start of a string: what follows it. *)
Fixpoint after_tabs (s : string) : option string :=
  match s with
  | EmptyString => None
  | String c s =>
      if decide (c = tab) then after_tabs s
      else if HasPrefix (String c s) ": " then Some (TrimPrefix (String c s) ": ") else None
  end.

Definition match_separator (s : string) : option string :=
  match s with
  | String c s => if decide (c = tab) then after_tabs s else None
  | EmptyString => None
  end.

(** [cpuRegTwoColumns.Split(s, 2)]. *)
Fixpoint two_columns (s : string) : string * option string :=
  match match_separator s with
  | Some rest => ("", Some rest)
  | None =>
      match s with
      | EmptyString => ("", None)
      | String c s => let '(key, value) := two_columns s in (String c key, value)
      end
  end.

(** One line; a line that is just [processor] has no second column. *)
Definition scan_line (core : gset string) (line : string) : res Empty_set (gset string) :=
  let '(key, value) := two_columns line in
  if decide (key = "processor") then
    match value with
    | Some cpuID => Ok ({[cpuID]} ∪ core)
    | None => Panic IndexOutOfRange
    end
  else Ok core.

Fixpoint scan (lines : list string) (core : gset string) : res Empty_set (gset string) :=
  match lines with
  | [] => Ok core
  | line :: lines => core ← scan_line core line; scan lines core
  end.

(** [None] if the file cannot be opened. *)
Definition GetCpuInfo (numCPU : Z) (cpuinfo : option (list string)) : res Empty_set CpuInfo :=
  match cpuinfo with
  | None => Ok (mkCpuInfo "" "" "" 0 0 0 numCPU)
  | Some lines =>
      core ← scan lines ∅;
      Ok (mkCpuInfo "" "" "" 0 0 (Z.of_nat (size core)) numCPU)
  end.

(** * Lemmas *)

Definition no_tab (s : string) : Prop := forall a b, s <> a +:+ String tab b.

Lemma no_tab_cons c s : no_tab (String c s) -> c <> tab /\ no_tab s.
Proof.
  intros Hs. split.
  - intros ->. by apply (Hs "" s).
  - intros a b ->. by apply (Hs (String c a) b).
Qed.

(** What the kernel prints: a name, padded with tabs, and a value. *)
Definition field (key : string) (tabs : nat) (value : string) : string :=
  key +:+ String tab (Nat.iter tabs (String tab) (": " +:+ value)).

Lemma after_tabs_field tabs value : after_tabs (Nat.iter tabs (String tab) (": " +:+ value)) = Some value.
Proof. induction tabs as [|tabs IH]; [|exact IH]. simpl. by destruct value. Qed.

Lemma two_columns_field key tabs value : no_tab key ->
  two_columns (field key tabs value) = (key, Some value).
Proof.
  unfold field. induction key as [|c key IH]; intros Hk.
  - rewrite append_nil_l. cbn [two_columns match_separator]. rewrite decide_True by done.
    by rewrite after_tabs_field.
  - apply no_tab_cons in Hk as [Hc Hk]. rewrite append_cons. cbn [two_columns match_separator].
    rewrite decide_False by done. by rewrite (IH Hk).
Qed.

(** A processor as the kernel describes it: its number first, then other fields, and an empty
    line. *)
Record block := mkBlock { number : string; other_fields : list (string * nat * string) }.

Definition print_block (b : block) : list string :=
  field "processor" 0 (number b) :: ((fun '(key, tabs, value) => field key tabs value) <$> other_fields b) ++ [""].

Definition plain_block (b : block) : Prop :=
  Forall (fun '(key, _, _) => no_tab key /\ key <> "processor") (other_fields b).

Lemma no_tab_processor : no_tab "processor".
Proof. intros a b Hab. do 10 (destruct a as [|? a]; [discriminate|simplify_eq/=]). Qed.

Lemma scan_app l l' core core' : scan l core = Ok core' -> scan (l ++ l') core = scan l' core'.
Proof.
  revert core. induction l as [|line l IH]; intros core; simpl; [by intros [= ->]|].
  destruct (scan_line core line) as [core1|[]|p]; simpl; [apply IH|done].
Qed.

Lemma scan_fields fs core : Forall (fun '(key, _, _) => no_tab key /\ key <> "processor") fs ->
  scan ((fun '(key, tabs, value) => field key tabs value) <$> fs) core = Ok core.
Proof.
  induction 1 as [|[[key tabs] value] fs [Hk Hp] _ IH]; [done|]. cbn [fmap list_fmap scan].
  unfold scan_line. rewrite two_columns_field, decide_False by done. exact IH.
Qed.

Lemma scan_block b core : plain_block b -> scan (print_block b) core = Ok ({[number b]} ∪ core).
Proof.
  intros Hb. unfold print_block. cbn [scan]. unfold scan_line at 1.
  rewrite two_columns_field by apply no_tab_processor. rewrite decide_True by done.
  change (scan (((fun '(key, tabs, value) => field key tabs value) <$> other_fields b) ++ [""])
    ({[number b]} ∪ core) = Ok ({[number b]} ∪ core)).
  by rewrite (scan_app _ [""] _ _ (scan_fields _ _ Hb)).
Qed.

Lemma scan_blocks bs core : Forall plain_block bs ->
  scan (bs ≫= print_block) core = Ok (list_to_set (number <$> bs) ∪ core).
Proof.
  intros Hbs. revert core. induction Hbs as [|b bs Hb _ IH]; intros core.
  - simpl. f_equal. set_solver.
  - change (scan (print_block b ++ (bs ≫= print_block)) core =
      Ok (({[number b]} ∪ list_to_set (number <$> bs)) ∪ core)).
    rewrite (scan_app _ _ _ _ (scan_block b core Hb)), IH. f_equal. set_solver.
Qed.

(** * Properties *)

(** On a file the kernel prints, [Cores] is the number of processors it describes, whatever
    else is said of them. *)
Theorem GetCpuInfo_counts numCPU bs : Forall plain_block bs -> NoDup (number <$> bs) ->
  exists info, GetCpuInfo numCPU (Some (bs ≫= print_block)) = Ok info /\
    Cores info = Z.of_nat (length bs) /\ Threads info = numCPU.
Proof.
  intros Hbs Hnd. unfold GetCpuInfo. rewrite (scan_blocks bs ∅ Hbs). eexists. split; [done|]. simpl.
  split; [|done]. rewrite union_empty_r_L, size_list_to_set by done. by rewrite length_fmap.
Qed.

Lemma GetCpuInfo_counts_witness :
  exists info, GetCpuInfo 2 (Some ([mkBlock "0" [("BogoMIPS", 0%nat, "200.00"); ("CPU part", 0%nat, "0xd01")];
      mkBlock "1" []] ≫= print_block)) = Ok info /\ Cores info = 2 /\ Threads info = 2.
Proof.
  apply (GetCpuInfo_counts 2 [mkBlock "0" [("BogoMIPS", 0%nat, "200.00"); ("CPU part", 0%nat, "0xd01")];
    mkBlock "1" []]).
  - assert (forall key, forallb (fun c => negb (bool_decide (c = tab))) (String.list_ascii_of_string key) = true ->
      no_tab key) as Hno.
    { induction key as [|c key IH]; intros Hk a b; [by destruct a|]. simpl in Hk.
      apply andb_prop in Hk as [Hc Hk]. to_prop. destruct a as [|c' a]; intros [= -> Heq]; [done|].
      by apply (IH Hk a b). }
    repeat constructor; try (apply Hno; reflexivity); discriminate.
  - apply (bool_decide_unpack _). vm_compute. exact I.
Defined.
