(* ===== verification/FakeLscpu.v ===== *)
(** * The stand-in for [lscpu]: [cmd/fakelscpu/fakelscpu.go]

    A test double: it prints one of two prepared files, by the column asked for. *)

From S2P Require Import Prelude GoStrings.
From Stdlib Require Import Ascii.

Definition fakeCoreTopology : string := "/testdata/fakelscpu.core".
Definition fakeNodeTopology : string := "/testdata/fakelscpu.node".

(** What is printed, [None] if the file cannot be read; [mode] is the flag [-p]. *)
Definition main (mode : string) (Getenv : string -> string) (ReadFile : string -> option string)
    : option string :=
  let topologyFilesDir := Getenv "POOLER_TEST_DIR" in
  match ReadFile (topologyFilesDir +:+
          (if Contains mode "core" then fakeCoreTopology else fakeNodeTopology)) with
  | None => None
  | Some file => Some (file +:+ String "010" "")
  end.

(** The two columns [lscpu] is asked for: cores and NUMA nodes. *)
Lemma main_columns Getenv ReadFile : Getenv "POOLER_TEST_DIR" = "/tmp" ->
  main "cpu,core" Getenv ReadFile =
    (fun file => file +:+ String "010" "") <$> ReadFile "/tmp/testdata/fakelscpu.core" /\
  main "cpu,node" Getenv ReadFile =
    (fun file => file +:+ String "010" "") <$> ReadFile "/tmp/testdata/fakelscpu.node".
Proof.
  intros Hdir. unfold main. rewrite Hdir. change (Contains "cpu,core" "core") with true.
  change (Contains "cpu,node" "core") with false. split; [by destruct (ReadFile _)|by destruct (ReadFile _)].
Qed.
