(* ===== verification/SetHandler.v ===== *)
(** * The choice of cpusets: [pkg/sethandler/controller.go], lines 244-295 and 336-459

    Which pods are handled, and which CPUs a container has to
    run on: its shared pool, the CPUs of the devices the kubelet recorded for it, or the
    default pool. *)

From S2P Require Import Prelude GoStrings Cpuset K8s Pools Checkpoint.
From Stdlib Require Import Ascii.
Local Open Scope Z_scope.

Definition MaxRetryCount : nat := 5.

Definition containerPrefixList : list string := ["docker://"; "containerd://"].

(** ** Containers of a pod *)

Definition trimContainerPrefix (contName : string) : string :=
  after (for_range (fun _ prefix _ =>
           if HasPrefix contName prefix then Return (TrimPrefix contName prefix) else Next tt)
           containerPrefixList tt)
    (fun _ => contName).

Definition determineCid (podStatus : PodStatusT) (containerName : string) : string :=
  after (for_range (fun _ containerStatus _ =>
           if decide (stat_Name containerStatus = containerName)
           then Return (trimContainerPrefix (stat_ContainerID containerStatus)) else Next tt)
           (st_ContainerStatuses podStatus) tt)
    (fun _ => "").

Definition containerIDInPodStatus (podStatus : PodStatusT) (containerDirName : string) : bool :=
  after (for_range (fun _ containerStatus _ =>
           if Contains containerDirName (trimContainerPrefix (stat_ContainerID containerStatus))
           then Return true else Next tt)
           (st_ContainerStatuses podStatus) tt)
    (fun _ => false).

Definition gatherAllContainers (pod : v1_Pod) : gmap string Z :=
  after (for_range (fun _ containerStatus workingContainers =>
           if decide (stat_ContainerID containerStatus = "") then Return ∅
           else Next (<[stat_Name containerStatus := 0]> workingContainers))
           (st_ContainerStatuses (pod_Status pod)) ∅)
    (fun workingContainers => workingContainers).

Definition isPodReadyForProcessing (pod : v1_Pod) : bool :=
  if bool_decide (pod_NodeName pod = "")
     || negb (bool_decide (length (st_ContainerStatuses (pod_Status pod)) = length (pod_Containers pod)))
  then false
  else
    after (for_range (fun _ cStatus _ =>
             if decide (stat_ContainerID cStatus = "") then Return false else Next tt)
             (st_ContainerStatuses (pod_Status pod)) tt)
      (fun _ => true).

(** [shouldPodBeHandled]: [refresh i] is what the [i]-th read of the pod from the API gives,
    [None] for an error. *)
Fixpoint refresh_loop (refresh : nat -> option v1_Pod) (pod : v1_Pod) (i fuel : nat)
    : v1_Pod + bool * v1_Pod :=
  match fuel with
  | O => inl pod
  | S fuel =>
      match refresh i with
      | None => inr (false, pod)
      | Some newPod =>
          if isPodReadyForProcessing newPod then inl newPod
          else refresh_loop refresh pod (S i) fuel
      end
  end.

Definition shouldPodBeHandled (setterNodeName : string) (refresh : nat -> option v1_Pod)
    (pod : v1_Pod) : bool * v1_Pod :=
  if bool_decide (st_Phase (pod_Status pod) = PodSucceeded)
     || bool_decide (st_Phase (pod_Status pod) = PodFailed)
  then (false, pod)
  else after (refresh_loop refresh pod 0 MaxRetryCount)
         (fun pod =>
            if decide (setterNodeName <> pod_NodeName pod) then (false, pod) else (true, pod)).

(** ** The cpuset of a container *)

Inductive setter_error :=
  | CheckpointNotAccessible
  | CheckpointNotDecoded
  | BadDeviceID (e : num_error)
  | CloudphoneSetEmpty.

Section handler.
Context `{CPUSetLib} `{RangeOrder}.

(** The configuration and the environment of the setter: the checkpoint file and its
    decoders, the number of CPUs of the machine, the topology library. *)
Record HandlerEnv := {
  poolConfig : PoolConfig;
  checkpoint_file : option string;
  json_File : string -> option File;
  json_NewFile : string -> option NewFile;
  numOfCpus : Z;
  HTTopology : gmap Z string;
  AddHTSiblingsToCPUSet : CPUSet -> gmap Z string -> CPUSet
}.
Implicit Types (env : HandlerEnv) (s : site).

Definition calculateFinalExclusiveSet env (exclusiveCpus : list string) : res setter_error CPUSet :=
  after (for_range (fun _ deviceID setBuilder =>
           match Atoi deviceID with
           | (_, Some e) => Return (Err (BadDeviceID e))
           | (deviceIDasInt, None) =>
               match go_rem deviceIDasInt (numOfCpus env) with
               | Ok cpu => Next (cs_Union setBuilder [cs_New [cpu]])
               | Err e => Return (Err e)
               | Panic p => Return (Panic p)
               end
           end) exclusiveCpus (cs_New []))
    (fun setBuilder => Ok setBuilder).

Definition read_checkpoint s env : res setter_error File :=
  match checkpoint_file env with
  | None => Err CheckpointNotAccessible
  | Some buf =>
      match json_File env buf with
      | Some cp => Ok cp
      | None =>
          match json_NewFile env buf with
          | None => Err CheckpointNotDecoded
          | Some newCpFile => Ok (TranslateNewCheckpointToOld s newCpFile)
          end
      end
  end.

(** The device IDs recorded for a container and a resource. *)
Definition recorded_ids (cp : File) (pod : v1_Pod) (container : v1_Container)
    (resource : string) : list string :=
  foldl (fun deviceIDs entry =>
    if bool_decide (PodUID entry = pod_UID pod) && bool_decide (ContainerName entry = ctr_Name container)
       && bool_decide (ResourceName entry = resource)
    then deviceIDs ++ DeviceIDs entry else deviceIDs) [] cp.

Definition getListOfAllocatedExclusiveCpus s env (exclusivePoolName : string) (pod : v1_Pod)
    (container : v1_Container) : res setter_error CPUSet :=
  cp ← read_checkpoint s env;
  let deviceIDs := recorded_ids cp pod container exclusivePoolName in
  if decide (deviceIDs = []) then Ok cs_zero
  else calculateFinalExclusiveSet env deviceIDs.

(** The CPUs of the pool's core map on one NUMA node, as [determineCorrectCpuset] unites
    them. *)
Definition node_cores s (coreMap : gmap Z Topology) (numaNodeIdx : Z) : CPUSet :=
  foldl (fun realCPUSet '(_, v) =>
    if Node v =? numaNodeIdx then cs_Union realCPUSet [realCPUSet; cs_New [Core v]]
    else realCPUSet) (cs_New []) (visit s coreMap).

(** The branches for one requested resource; the state is [sharedCPUSet] and
    [exclusiveCPUSet]. *)
Definition shared_branch s env (st : CPUSet * CPUSet)
    : flow (CPUSet * CPUSet) (res setter_error (CPUSet * CPUSet)) :=
  Next (CPUset (SelectPool (0%nat :: s) (poolConfig env) SharedPoolID), st.2).

Definition exclusive_branch s env (pod : v1_Pod) (container : v1_Container)
    (resource : string) (st : CPUSet * CPUSet)
    : flow (CPUSet * CPUSet) (res setter_error (CPUSet * CPUSet)) :=
  match getListOfAllocatedExclusiveCpus (0%nat :: s) env resource pod container with
  | Ok exclusiveCPUSet =>
      match go_index (Split resource "/"%char) 1 with
      | Ok exclusivePoolName =>
          Next (st.1,
                if decide (HTPolicy (SelectPool (1%nat :: s) (poolConfig env) exclusivePoolName)
                           = MultiThreadHTPolicy)
                then AddHTSiblingsToCPUSet env exclusiveCPUSet (HTTopology env)
                else exclusiveCPUSet)
      | Err e => Return (Err e)
      | Panic p => Return (Panic p)
      end
  | Err e => Return (Err e)
  | Panic p => Return (Panic p)
  end.

Definition cloudphone_branch s env (pod : v1_Pod) (container : v1_Container)
    (resource : string) : res setter_error (CPUSet * CPUSet) :=
  cloudphoneCPUSet ← getListOfAllocatedExclusiveCpus (0%nat :: s) env resource pod container;
  cloudphonePoolName ← go_index (Split resource "/"%char) 1;
  if cs_IsEmpty cloudphoneCPUSet then Err CloudphoneSetEmpty
  else
    first ← go_index (cs_List cloudphoneCPUSet) 0;
    let coreMap := CoreMap (SelectPool (1%nat :: s) (poolConfig env) cloudphonePoolName) in
    let numaNodeIdx := Node (default zero_topology (coreMap !! first)) in
    Ok (cloudphoneCPUSet,
        node_cores (3%nat :: s)
          (CoreMap (SelectPool (2%nat :: s) (poolConfig env) cloudphonePoolName)) numaNodeIdx).

(** How the loop classifies a resource. *)
Definition is_kind (resource kind : string) : bool :=
  Contains resource resourceBaseName && Contains resource kind.

Definition resource_step s env (pod : v1_Pod) (container : v1_Container) (resource : string)
    (st : CPUSet * CPUSet) : flow (CPUSet * CPUSet) (res setter_error (CPUSet * CPUSet)) :=
  if is_kind resource SharedPoolID then shared_branch s env st
  else if is_kind resource ExclusivePoolID then exclusive_branch s env pod container resource st
  else if is_kind resource CloudphonePoolID
  then Return (cloudphone_branch s env pod container resource)
  else Next st.

(** The set the emulated CPU directory is made for, and the set of the cgroup. *)
Definition determineCorrectCpuset s env (pod : v1_Pod) (container : v1_Container)
    : res setter_error (CPUSet * CPUSet) :=
  after (for_range (fun i '(resource, _) st =>
           resource_step (i :: 0%nat :: s) env pod container resource st)
           (visit (1%nat :: s) (ctr_Requests container)) (cs_zero, cs_zero))
    (fun '(sharedCPUSet, exclusiveCPUSet) =>
       if negb (cs_IsEmpty sharedCPUSet) || negb (cs_IsEmpty exclusiveCPUSet)
       then let set := cs_Union sharedCPUSet [exclusiveCPUSet] in Ok (set, set)
       else let set := CPUset (SelectPool (2%nat :: s) (poolConfig env) DefaultPoolID) in
            Ok (set, set)).
End handler.

Arguments HandlerEnv {_}.

(** ** Containers: lemmas *)

Lemma determineCid_find st name status :
  NoDup (stat_Name <$> st_ContainerStatuses st) -> status ∈ st_ContainerStatuses st ->
  stat_Name status = name -> determineCid st name = trimContainerPrefix (stat_ContainerID status).
Proof.
  intros Hnd Hin <-. unfold determineCid.
  apply (for_range_inv _ (fun l1 _ => status ∉ l1)).
  - by apply not_elem_of_nil.
  - intros l1 x l2 _ Hl Hl1. case_decide as Hx.
    + rewrite Hl in Hin, Hnd. rewrite fmap_app, fmap_cons in Hnd.
      apply NoDup_app in Hnd as (_ & _ & [Hx2 _]%NoDup_cons).
      apply elem_of_app in Hin as [Hin|Hin]; [done|]. apply elem_of_cons in Hin as [->|Hin]; [done|].
      exfalso. apply Hx2. rewrite Hx. by apply list_elem_of_fmap_2.
    + rewrite elem_of_app, list_elem_of_singleton. intros [?| ->]; done.
  - done.
Qed.

Lemma trimContainerPrefix_runtime prefix id :
  prefix ∈ containerPrefixList -> trimContainerPrefix (prefix +:+ id) = id.
Proof.
  intros Hp. unfold trimContainerPrefix, containerPrefixList, for_range in *.
  rewrite !elem_of_cons, elem_of_nil in Hp. destruct Hp as [->|[->|[]]]; simpl.
  - rewrite HasPrefix_app. simpl. apply TrimPrefix_app.
  - change (HasPrefix ("containerd://" +:+ id) "docker://") with false. simpl.
    rewrite HasPrefix_app. simpl. apply TrimPrefix_app.
Qed.

Lemma gather_loop l (m : gmap string Z) :
  match for_range (R := gmap string Z) (fun _ containerStatus workingContainers =>
           if decide (stat_ContainerID containerStatus = "") then Return ∅
           else Next (<[stat_Name containerStatus := 0]> workingContainers)) l m with
  | inl m' => Forall (fun c => stat_ContainerID c <> "") l /\
      forall n, is_Some (m' !! n) <-> is_Some (m !! n) \/ n ∈ stat_Name <$> l
  | inr m' => m' = ∅ /\ Exists (fun c => stat_ContainerID c = "") l
  end.
Proof.
  apply (for_range_inv _ (fun l1 m' => Forall (fun c => stat_ContainerID c <> "") l1 /\
      forall n, is_Some (m' !! n) <-> is_Some (m !! n) \/ n ∈ stat_Name <$> l1)); [| |done].
  - split; [done|]. intros n. simpl. rewrite elem_of_nil. tauto.
  - intros l1 c l2 m' -> [Hall Hm]. case_decide as Hc.
    + split; [done|]. apply Exists_app. right. by left.
    + split; [apply Forall_app_2; [done|by constructor]|]. intros n.
      rewrite fmap_app, elem_of_app. simpl. rewrite list_elem_of_singleton, lookup_insert_is_Some, Hm.
      destruct (decide (stat_Name c = n)); naive_solver.
Qed.

(** ** Readiness *)

(** The first ready version among the [n] reads, all of which before it succeed; or the version
    of the event, when all [n] succeed and none is ready. *)
Definition unready (o : option v1_Pod) : Prop :=
  exists q, o = Some q /\ isPodReadyForProcessing q = false.

Definition version_that_counts (refresh : nat -> option v1_Pod) (pod : v1_Pod) (n : nat) (p : v1_Pod) : Prop :=
  (exists i, (i < n)%nat /\ refresh i = Some p /\ isPodReadyForProcessing p = true /\
     forall j, (j < i)%nat -> unready (refresh j)) \/
  (p = pod /\ forall i, (i < n)%nat -> unready (refresh i)).

Lemma refresh_loop_from refresh pod i fuel p :
  refresh_loop refresh pod i fuel = inl p <-> version_that_counts (fun j => refresh (i + j)%nat) pod fuel p.
Proof.
  revert i. induction fuel as [|fuel IH]; intros i; simpl.
  { split; [intros [= ->]; right; split; [done|lia]|]. intros [(j & Hj & _)|[-> _]]; [lia|done]. }
  destruct (refresh i) as [q|] eqn:Hq.
  2: { split; [done|]. intros [([|j] & Hj & Hp & _ & Hbefore)|[-> Hall]].
       - rewrite Nat.add_0_r in Hp. congruence.
       - destruct (Hbefore 0%nat) as (? & Hp' & _); [lia|]. rewrite Nat.add_0_r in Hp'. congruence.
       - destruct (Hall 0%nat) as (? & Hp' & _); [lia|]. rewrite Nat.add_0_r in Hp'. congruence. }
  destruct (isPodReadyForProcessing q) eqn:Hr.
  { split.
    - intros [= <-]. left. exists 0%nat. rewrite Nat.add_0_r. split; [lia|]. do 2 (split; [done|]). lia.
    - intros [([|j] & Hj & Hp & _ & Hbefore)|[-> Hall]].
      + rewrite Nat.add_0_r in Hp. congruence.
      + destruct (Hbefore 0%nat) as (? & Hp' & ?); [lia|]. rewrite Nat.add_0_r in Hp'. congruence.
      + destruct (Hall 0%nat) as (? & Hp' & ?); [lia|]. rewrite Nat.add_0_r in Hp'. congruence. }
  rewrite IH. unfold version_that_counts. cbn beta.
  assert (forall j, (S i + j)%nat = (i + S j)%nat) as Hs by lia. setoid_rewrite Hs. clear Hs IH.
  assert (unready (refresh (i + 0)%nat)) as Hi by (rewrite Nat.add_0_r; by exists q).
  split; (intros [(j & Hj & Hp & Hrp & Hbefore)|[-> Hall]]; [left|right]).
  - exists (S j). split; [lia|]. do 2 (split; [done|]).
    intros [|k] Hk; [done|]. apply Hbefore. lia.
  - split; [done|]. intros [|k] Hk; [done|]. apply Hall. lia.
  - destruct j as [|j]; [rewrite Nat.add_0_r in Hp; congruence|]. exists j.
    split; [lia|]. do 2 (split; [done|]). intros k Hk. apply Hbefore. lia.
  - split; [done|]. intros k Hk. apply Hall. lia.
Qed.

Lemma refresh_loop_version refresh pod n p :
  refresh_loop refresh pod 0 n = inl p <-> version_that_counts refresh pod n p.
Proof. apply refresh_loop_from. Qed.

Lemma refresh_loop_false refresh pod i fuel b q : refresh_loop refresh pod i fuel = inr (b, q) -> b = false.
Proof.
  revert i. induction fuel as [|fuel IH]; intros i; simpl; [done|].
  destruct (refresh i) as [r|]; [|by intros [= <- _]]. destruct (isPodReadyForProcessing r); [done|apply IH].
Qed.

(** ** Recorded devices *)

Definition records (cp : File) (pod : v1_Pod) (container : v1_Container) (resource : string)
    : list PodDevicesEntry :=
  filter (fun e => PodUID e = pod_UID pod /\ ContainerName e = ctr_Name container /\
                   ResourceName e = resource) cp.

Lemma recorded_ids_records cp pod container resource :
  recorded_ids cp pod container resource = concat (DeviceIDs <$> records cp pod container resource).
Proof.
  unfold recorded_ids, records, File in *.
  match goal with |- foldl ?f _ _ = _ =>
    assert (forall ids, foldl f ids cp = ids ++ concat (DeviceIDs <$>
      filter (fun e => PodUID e = pod_UID pod /\ ContainerName e = ctr_Name container /\
                       ResourceName e = resource) cp)) as Hgen; [|apply Hgen]
  end.
  induction cp as [|e cp IH]; intros ids; [by rewrite app_nil_r|].
  cbn [foldl]. rewrite filter_cons, IH. case_decide as He.
  - destruct He as (H1 & H2 & H3). rewrite !bool_decide_eq_true_2 by done.
    simpl. by rewrite <- (assoc_L (++)).
  - do 3 case_bool_decide; simpl; tauto.
Qed.

Section handler_lemmas.
Context `{CPUSetLaws} `{RangeOrder}.
Implicit Types (env : HandlerEnv) (s : site).

(** Round trip with the device IDs of the plugin: their CPUs. *)
Lemma calculateFinalExclusiveSet_ids env (ids : list Z) :
  0 < numOfCpus env -> Forall is_int ids ->
  exists set, calculateFinalExclusiveSet env (Itoa <$> ids) = Ok set /\
    set ≡ cs_New ((fun id => Z.rem id (numOfCpus env)) <$> ids).
Proof.
  intros Hn Hids. unfold calculateFinalExclusiveSet.
  rewrite (for_range_next _ (fun set id => cs_Union set [cs_New [Z.rem (Atoi id).1 (numOfCpus env)]])).
  - simpl. eexists. split; [done|].
    assert (forall set, foldl (fun set id => cs_Union set [cs_New [Z.rem (Atoi id).1 (numOfCpus env)]])
        set (Itoa <$> ids)
      = foldl (fun set cpu => cs_Union set [cs_New [cpu]]) set
          ((fun id => Z.rem id (numOfCpus env)) <$> ids)) as ->.
    { induction Hids as [|id ids Hid _ IH]; intros set; [done|].
      rewrite !fmap_cons. cbn [foldl]. by rewrite IH, Atoi_Itoa. }
    intros c. rewrite contains_foldl_add, !contains_New.
    by rewrite (bool_decide_eq_false_2 (c ∈ [])) by by apply not_elem_of_nil.
  - intros i id set (z & -> & Hz)%list_elem_of_fmap. rewrite Forall_forall in Hids.
    rewrite Atoi_Itoa by auto. simpl. unfold go_rem. by rewrite (proj2 (Z.eqb_neq _ 0)) by lia.
Qed.

Lemma getList_ids s env resource pod container cp (ids : list Z) :
  read_checkpoint s env = Ok cp -> 0 < numOfCpus env -> Forall is_int ids -> ids <> [] ->
  recorded_ids cp pod container resource ≡ₚ Itoa <$> ids ->
  exists set, getListOfAllocatedExclusiveCpus s env resource pod container = Ok set /\
    set ≡ cs_New ((fun id => Z.rem id (numOfCpus env)) <$> ids).
Proof.
  intros Hcp Hn Hids Hne Hrec. unfold getListOfAllocatedExclusiveCpus. rewrite Hcp. simpl.
  destruct (Permutation_map_inv Itoa ids Hrec) as (ids' & Heq & Hperm).
  change (recorded_ids cp pod container resource = Itoa <$> ids') in Heq. rewrite Heq.
  rewrite decide_False.
  2: { intros ->%fmap_nil_inv. apply Hne. by apply Permutation_nil. }
  destruct (calculateFinalExclusiveSet_ids env ids' Hn) as (set & Hset & Hequiv).
  { by rewrite <- Hperm. }
  exists set. split; [done|]. rewrite Hequiv. intros c. rewrite !contains_New.
  apply bool_decide_ext. by rewrite Hperm.
Qed.

(** ** The loop over the requested resources *)

(** A container without cloudphone CPUs and with at most one exclusive resource. *)
Record pool_requests s env (pod : v1_Pod) (container : v1_Container) (exclusive : string)
    (sharedSet exclusiveSet : CPUSet) : Prop := {
  pr_shared s' : CPUset (SelectPool s' (poolConfig env) SharedPoolID) = sharedSet;
  pr_no_cloudphone r : is_Some (ctr_Requests container !! r) ->
    is_kind r SharedPoolID = false -> is_kind r ExclusivePoolID = false ->
    is_kind r CloudphonePoolID = false;
  pr_one_exclusive r : is_Some (ctr_Requests container !! r) ->
    is_kind r SharedPoolID = false -> is_kind r ExclusivePoolID = true -> r = exclusive;
  pr_exclusive : is_Some (ctr_Requests container !! exclusive) ->
    forall s' st, exists set, exclusive_branch s' env pod container exclusive st = Next (st.1, set)
      /\ set ≡ exclusiveSet
}.

Definition wants (kind : string -> bool) (l : list (string * string)) : bool :=
  existsb (fun x => kind x.1) l.

Lemma wants_snoc kind l x : wants kind (l ++ [x]) = wants kind l || kind x.1.
Proof. unfold wants. rewrite existsb_app. simpl. by rewrite orb_false_r. Qed.

Lemma wants_perm kind l l' : l ≡ₚ l' -> wants kind l = wants kind l'.
Proof.
  intros Hl. apply eq_iff_eq_true. unfold wants. rewrite !existsb_exists.
  setoid_rewrite <- list_elem_of_In. by setoid_rewrite Hl.
Qed.

Definition shared_kind (r : string) : bool := is_kind r SharedPoolID.
Definition exclusive_kind (r : string) : bool := negb (is_kind r SharedPoolID) && is_kind r ExclusivePoolID.

Definition only_if (b : bool) (set : CPUSet) : CPUSet := if b then set else cs_zero.

Lemma resource_loop s s' env pod container exclusive sharedSet exclusiveSet :
  pool_requests s env pod container exclusive sharedSet exclusiveSet ->
  let l := visit s' (ctr_Requests container) in
  exists sh ex,
    for_range (fun i '(resource, _) st => resource_step (i :: 0%nat :: s) env pod container resource st)
      l (cs_zero, cs_zero) = inl (sh, ex) /\
    sh ≡ only_if (wants shared_kind l) sharedSet /\ ex ≡ only_if (wants exclusive_kind l) exclusiveSet.
Proof.
  intros [Hsh Hnc Hone Hex] l. unfold l.
  apply (for_range_inv _ (fun l1 '(sh, ex) =>
      sh ≡ only_if (wants shared_kind l1) sharedSet /\ ex ≡ only_if (wants exclusive_kind l1) exclusiveSet)
    (fun o => exists sh ex, o = inl (sh, ex) /\
      sh ≡ only_if (wants shared_kind (visit s' (ctr_Requests container))) sharedSet /\
      ex ≡ only_if (wants exclusive_kind (visit s' (ctr_Requests container))) exclusiveSet)).
  - done.
  - intros l1 [r v] l2 [sh ex] Hl [Hs He].
    assert (is_Some (ctr_Requests container !! r)) as Hr.
    { exists v. apply (elem_of_visit s'). rewrite Hl. set_solver. }
    rewrite !wants_snoc. unfold resource_step, shared_kind, exclusive_kind in *. simpl.
    destruct (is_kind r SharedPoolID) eqn:K1; simpl.
    { rewrite orb_true_r, orb_false_r. split; [|done]. simpl. by rewrite Hsh. }
    destruct (is_kind r ExclusivePoolID) eqn:K2; simpl.
    { rewrite orb_false_r, orb_true_r. pose proof (Hone r Hr K1 K2) as ->.
      destruct (Hex Hr (length l1 :: 0%nat :: s) (sh, ex)) as (set & -> & Hset). by split. }
    rewrite (Hnc r Hr K1 K2), !orb_false_r. by split.
  - intros [sh ex] [Hs He]. by exists sh, ex.
Qed.

Lemma determineCorrectCpuset_loop s env pod container exclusive sharedSet exclusiveSet :
  pool_requests s env pod container exclusive sharedSet exclusiveSet ->
  let l := map_to_list (ctr_Requests container) in
  let sh := only_if (wants shared_kind l) sharedSet in
  let ex := only_if (wants exclusive_kind l) exclusiveSet in
  exists set, determineCorrectCpuset s env pod container = Ok (set, set) /\
    if cs_IsEmpty sh && cs_IsEmpty ex
    then exists s', set = CPUset (SelectPool s' (poolConfig env) DefaultPoolID)
    else set ≡ cs_Union sh [ex].
Proof.
  intros Hreq l sh ex. unfold determineCorrectCpuset.
  destruct (resource_loop s (1%nat :: s) env pod container exclusive sharedSet exclusiveSet Hreq)
    as (sh' & ex' & -> & Hs & He). simpl.
  rewrite (wants_perm _ _ l) in Hs by apply visit_perm.
  rewrite (wants_perm _ _ l) in He by apply visit_perm.
  change (sh' ≡ sh) in Hs. change (ex' ≡ ex) in He.
  rewrite <- (empty_proper _ _ Hs), <- (empty_proper _ _ He).
  destruct (cs_IsEmpty sh'), (cs_IsEmpty ex'); simpl; eexists; (split; [done|]).
  { eauto. }
  all: apply union_proper; [done|]; by constructor.
Qed.

(** ** What the kubelet recorded *)

(** The devices the checkpoint, in either layout, lists for a container and a resource. *)
Definition checkpoint_records env (pod : v1_Pod) (container : v1_Container) (resource : string)
    (devices : list string) : Prop :=
  exists buf, checkpoint_file env = Some buf /\
    match json_File env buf with
    | Some cp =>
        concat (DeviceIDs <$> filter (fun e => PodUID e = pod_UID pod /\
          ContainerName e = ctr_Name container /\ ResourceName e = resource) cp) ≡ₚ devices
    | None => exists newCp, json_NewFile env buf = Some newCp /\
        concat (all_devices <$> (new_DeviceIDs <$> filter (fun e => new_PodUID e = pod_UID pod /\
          new_ContainerName e = ctr_Name container /\ new_ResourceName e = resource) newCp)) ≡ₚ devices
    end.

(** The translation keeps the devices of every container and resource. *)
Lemma translated_records s pod container resource newCp :
  concat (DeviceIDs <$> records (TranslateNewCheckpointToOld s newCp) pod container resource) ≡ₚ
  concat (all_devices <$> (new_DeviceIDs <$> filter (fun e => new_PodUID e = pod_UID pod /\
    new_ContainerName e = ctr_Name container /\ new_ResourceName e = resource) newCp)).
Proof.
  unfold records, TranslateNewCheckpointToOld, File, NewFile in *.
  assert (forall (f : nat -> NewPodDevicesEntry -> PodDevicesEntry),
    (forall i e, same_entry e (f i e)) ->
    concat (DeviceIDs <$> filter (fun e => PodUID e = pod_UID pod /\
        ContainerName e = ctr_Name container /\ ResourceName e = resource) (imap f newCp)) ≡ₚ
    concat (all_devices <$> (new_DeviceIDs <$>
      filter (fun e => new_PodUID e = pod_UID pod /\ new_ContainerName e = ctr_Name container /\
                       new_ResourceName e = resource) newCp))) as Hgen.
  { induction newCp as [|e newCp IH]; intros f Hf; [done|].
    rewrite imap_cons, !filter_cons. destruct (Hf 0%nat e) as (H1' & H2' & H3' & Hd).
    rewrite H1', H2', H3'. specialize (IH (f ∘ S) ltac:(intros; apply Hf)).
    case_decide; [|done]. simpl. by rewrite Hd, IH. }
  apply Hgen. intros i e. apply flatten_entry_same.
Qed.

Lemma read_checkpoint_records s env pod container resource devices :
  checkpoint_records env pod container resource devices ->
  exists cp, read_checkpoint s env = Ok cp /\ recorded_ids cp pod container resource ≡ₚ devices.
Proof.
  intros (buf & Hfile & Hrec). unfold read_checkpoint. rewrite Hfile.
  destruct (json_File env buf) as [cp|].
  - exists cp. split; [done|]. by rewrite recorded_ids_records.
  - destruct Hrec as (newCp & -> & Hrec). eexists. split; [done|].
    by rewrite recorded_ids_records, translated_records.
Qed.

(** The CPUs of the recorded devices, whatever their round, and their siblings if the
    policy asks for them. *)
Definition device_cpus env (ids : list Z) : CPUSet := cs_New ((fun id => Z.rem id (numOfCpus env)) <$> ids).

Definition recorded_set env (policy : string) (ids : list Z) : CPUSet :=
  if decide (policy = MultiThreadHTPolicy)
  then AddHTSiblingsToCPUSet env (device_cpus env ids) (HTTopology env) else device_cpus env ids.

Definition recorded_cpu env (policy : string) (ids : list Z) (c : Z) : Prop :=
  (exists id, id ∈ ids /\ c = Z.rem id (numOfCpus env)) \/
  policy = MultiThreadHTPolicy /\ sibling_of (HTTopology env) (device_cpus env ids) c.

(** The exclusive resource of a container: its pool and what is recorded for it. *)
Record exclusive_recorded env (pod : v1_Pod) (container : v1_Container)
    (resource poolName policy : string) (ids : list Z) : Prop := {
  er_pool : exists base rest, Split resource "/"%char = base :: poolName :: rest;
  er_policy s' : HTPolicy (SelectPool s' (poolConfig env) poolName) = policy;
  er_devices : checkpoint_records env pod container resource (Itoa <$> ids);
  er_ids : Forall is_int ids;
  er_machine : 0 < numOfCpus env
}.

Lemma getList_recorded s env pod container resource (ids : list Z) :
  checkpoint_records env pod container resource (Itoa <$> ids) -> Forall is_int ids -> 0 < numOfCpus env ->
  exists set, getListOfAllocatedExclusiveCpus s env resource pod container = Ok set /\
    set ≡ device_cpus env ids.
Proof.
  intros Hrec Hids Hn. destruct (read_checkpoint_records s _ _ _ _ _ Hrec) as (cp & Hcp & Hperm).
  destruct (decide (ids = [])) as [->|Hne]; [|by apply (getList_ids s env resource pod container cp)].
  exists cs_zero. unfold getListOfAllocatedExclusiveCpus. rewrite Hcp. simpl.
  apply Permutation_nil_r in Hperm. rewrite Hperm. split; [done|].
  intros c. unfold device_cpus. rewrite contains_zero, contains_New.
  by rewrite bool_decide_eq_false_2 by apply not_elem_of_nil.
Qed.

Lemma siblings_proper (f : CPUSet -> gmap Z string -> CPUSet) `{!SiblingLaws f} (s t : CPUSet) ht :
  s ≡ t -> f s ht ≡ f t ht.
Proof.
  intros Hst c. apply eq_iff_eq_true. by rewrite !contains_siblings, Hst, (sibling_of_equiv _ _ _ _ Hst).
Qed.

Lemma exclusive_branch_recorded s env `{!SiblingLaws (AddHTSiblingsToCPUSet env)} pod container
    resource poolName policy ids st :
  exclusive_recorded env pod container resource poolName policy ids ->
  exists set, exclusive_branch s env pod container resource st = Next (st.1, set) /\
    set ≡ recorded_set env policy ids.
Proof.
  intros [(base & rest & Hsplit) Hpolicy Hrec Hids Hn]. unfold exclusive_branch.
  destruct (getList_recorded (0%nat :: s) env pod container resource ids Hrec Hids Hn) as (set & -> & Hset).
  rewrite Hsplit. change (go_index (base :: poolName :: rest) 1) with (Ok (E := setter_error) poolName). cbv beta iota.
  rewrite Hpolicy. eexists. split; [done|]. unfold recorded_set.
  case_decide; [by apply siblings_proper|done].
Qed.

Lemma contains_recorded env `{!SiblingLaws (AddHTSiblingsToCPUSet env)} policy ids c :
  cs_Contains (recorded_set env policy ids) c = true <-> recorded_cpu env policy ids c.
Proof.
  assert (cs_Contains (device_cpus env ids) c = true <->
    exists id, id ∈ ids /\ c = Z.rem id (numOfCpus env)) as Hdev.
  { unfold device_cpus. rewrite contains_New, bool_decide_eq_true, list_elem_of_fmap. naive_solver. }
  unfold recorded_set, recorded_cpu. case_decide; [rewrite contains_siblings|]; rewrite Hdev; tauto.
Qed.

(** A container without cloudphone CPUs and with at most one exclusive resource, whose
    devices are recorded. *)
Record recorded_requests env (pod : v1_Pod) (container : v1_Container)
    (resource poolName policy : string) (sharedSet : CPUSet) (ids : list Z) : Prop := {
  rr_shared s' : CPUset (SelectPool s' (poolConfig env) SharedPoolID) = sharedSet;
  rr_no_cloudphone r : is_Some (ctr_Requests container !! r) ->
    is_kind r SharedPoolID = false -> is_kind r ExclusivePoolID = false ->
    is_kind r CloudphonePoolID = false;
  rr_one_exclusive r : is_Some (ctr_Requests container !! r) ->
    is_kind r SharedPoolID = false -> is_kind r ExclusivePoolID = true -> r = resource;
  rr_exclusive : is_Some (ctr_Requests container !! resource) ->
    exclusive_recorded env pod container resource poolName policy ids
}.

Lemma recorded_pool_requests s env `{!SiblingLaws (AddHTSiblingsToCPUSet env)} pod container
    resource poolName policy sharedSet ids :
  recorded_requests env pod container resource poolName policy sharedSet ids ->
  pool_requests s env pod container resource sharedSet (recorded_set env policy ids).
Proof.
  intros [Hsh Hnc Hone Hex]. split; [done..|]. intros Hr s' st.
  by apply (exclusive_branch_recorded s' env pod container resource poolName), Hex.
Qed.

(** Some requested resource is of a kind. *)
Definition asks_for (container : v1_Container) (kind : string -> bool) : Prop :=
  exists r, is_Some (ctr_Requests container !! r) /\ kind r = true.

Lemma wants_asks container kind : wants kind (map_to_list (ctr_Requests container)) = true <-> asks_for container kind.
Proof.
  unfold wants, asks_for. rewrite existsb_exists. setoid_rewrite <- list_elem_of_In. split.
  - intros ([r v] & Hin%elem_of_map_to_list & Hk). exists r. split; [by exists v|done].
  - intros (r & [v Hv] & Hk). exists (r, v). by rewrite elem_of_map_to_list.
Qed.

(** The CPUs a container is entitled to. *)
Definition entitled env (container : v1_Container) (policy : string) (sharedSet : CPUSet) (ids : list Z)
    (c : Z) : Prop :=
  asks_for container shared_kind /\ cs_Contains sharedSet c = true \/
  asks_for container exclusive_kind /\ recorded_cpu env policy ids c.

Lemma contains_only_if b (set : CPUSet) c :
  cs_Contains (only_if b set) c = true <-> b = true /\ cs_Contains set c = true.
Proof. destruct b; simpl; [tauto|]. rewrite contains_zero. naive_solver. Qed.

Lemma contains_entitled env `{!SiblingLaws (AddHTSiblingsToCPUSet env)} container policy sharedSet ids c :
  let l := map_to_list (ctr_Requests container) in
  cs_Contains (cs_Union (only_if (wants shared_kind l) sharedSet)
    [only_if (wants exclusive_kind l) (recorded_set env policy ids)]) c = true <->
  entitled env container policy sharedSet ids c.
Proof.
  intros l. unfold l. rewrite contains_Union. simpl. rewrite orb_false_r, orb_true_iff, !contains_only_if.
  unfold entitled. by rewrite contains_recorded, !wants_asks by done.
Qed.
End handler_lemmas.

(** * Properties *)

Section properties.
Context `{CPUSetLaws} `{RangeOrder}.
Implicit Types (env : HandlerEnv) (s : site).

(** C11: A container without cloudphone CPUs and with at most one exclusive resource runs on
    exactly the CPUs it is entitled to: those of the shared pool, if it requests shared CPUs,
    and those of the devices the kubelet's checkpoint lists for it, its pod and its exclusive
    resource, reduced to physical CPUs, with their siblings if the policy of the pool is
    [multiThreaded].  When these are none, it runs on a pool whose name starts with
    [default].  The order in which maps are visited does not matter. *)
Theorem determineCorrectCpuset_pools s env `{!SiblingLaws (AddHTSiblingsToCPUSet env)} pod container
    resource poolName policy sharedSet ids :
  recorded_requests env pod container resource poolName policy sharedSet ids ->
  exists set, determineCorrectCpuset s env pod container = Ok (set, set) /\
    ((exists c, entitled env container policy sharedSet ids c) ->
       forall c, cs_Contains set c = true <-> entitled env container policy sharedSet ids c) /\
    ((forall c, ~ entitled env container policy sharedSet ids c) ->
       exists s', set = CPUset (SelectPool s' (poolConfig env) DefaultPoolID)).
Proof.
  intros Hreq. destruct (determineCorrectCpuset_loop s env pod container resource sharedSet
    (recorded_set env policy ids)) as (set & Hdet & Hset); [by eapply recorded_pool_requests|].
  exists set. split; [done|].
  pose proof (contains_entitled env container policy sharedSet ids) as Hent. cbv zeta in Hent.
  setoid_rewrite <- Hent. clear Hent.
  set (sh := only_if _ sharedSet) in *. set (ex := only_if _ (recorded_set _ _ _)) in *.
  destruct (cs_IsEmpty sh && cs_IsEmpty ex) eqn:He.
  - split; [|done]. intros [c Hc]. rewrite andb_true_iff, !IsEmpty_spec in He.
    rewrite contains_Union in Hc. simpl in Hc. destruct He as [H1' H2']. by rewrite H1', H2' in Hc.
  - split; [intros _ c; by rewrite Hset|]. intros Hno. exfalso. apply not_true_iff_false in He. apply He.
    rewrite andb_true_iff, !IsEmpty_spec.
    split; intros c; specialize (Hno c); apply not_true_is_false; intros Hc; apply Hno;
      rewrite contains_Union; simpl; rewrite Hc; [done|]. by rewrite orb_true_r.
Qed.

(** The CPUs the setter takes from a checkpoint of either layout are exactly those of the
    device IDs recorded for the pod, container and resource, reduced to physical CPUs; the
    order of the NUMA nodes does not matter. *)
Theorem exclusive_cpus_of_checkpoint s env pod container resource (ids : list Z) :
  checkpoint_records env pod container resource (Itoa <$> ids) -> Forall is_int ids -> 0 < numOfCpus env ->
  exists set, getListOfAllocatedExclusiveCpus s env resource pod container = Ok set /\
    set ≡ device_cpus env ids.
Proof. apply getList_recorded. Qed.

(** A cloudphone container gets the CPUs recorded for it, and its cgroup the cores of
    its pool on the NUMA node of its lowest CPU. *)
Theorem cloudphone_branch_spec s env pod container resource poolName pool set first rest :
  getListOfAllocatedExclusiveCpus (0%nat :: s) env resource pod container = Ok set ->
  go_index (E := setter_error) (Split resource "/"%char) 1 = Ok poolName ->
  (forall s', SelectPool s' (poolConfig env) poolName = pool) ->
  cs_List set = first :: rest ->
  exists cores, cloudphone_branch s env pod container resource = Ok (set, cores) /\
    forall c, cs_Contains cores c = true <->
      exists k topol, CoreMap pool !! k = Some topol /\ Core topol = c /\
        Node topol = Node (default zero_topology (CoreMap pool !! first)).
Proof.
  intros Hlist Hname Hpool Hfirst. unfold cloudphone_branch. rewrite Hlist. simpl. rewrite Hname. simpl.
  rewrite (not_IsEmpty set first) by by eapply head_List.
  rewrite Hfirst. simpl. rewrite !Hpool. eexists. split; [done|].
  set (node := Node (default zero_topology (CoreMap pool !! first))). intros c.
  setoid_rewrite <- (elem_of_visit (3%nat :: s)). unfold node_cores.
  assert (forall l acc, cs_Contains (foldl (fun realCPUSet '(_, v) =>
      if Node v =? node then cs_Union realCPUSet [realCPUSet; cs_New [Core v]] else realCPUSet)
      acc l) c = true <->
    cs_Contains acc c = true \/ exists (k : Z) topol, (k, topol) ∈ l /\ Core topol = c /\ Node topol = node)
    as Hgen.
  { clear -H0. induction l as [|[k t] l IH]; intros acc; simpl; [set_solver|].
    rewrite IH. setoid_rewrite elem_of_cons. destruct (Node t =? node) eqn:E; to_prop.
    - rewrite contains_Union. simpl.
      rewrite contains_New, orb_false_r, !orb_true_iff, bool_decide_eq_true, list_elem_of_singleton.
      split; [intros [[?|[?| ->]]|(k' & t' & ? & ? & ?)]; eauto 10|].
      intros [?|(k' & t' & [[= -> ->]|?] & ? & ?)]; eauto 10.
    - split; [intros [?|(k' & t' & ? & ? & ?)]; eauto 10|].
      intros [?|(k' & t' & [[= -> ->]|?] & ? & ?)]; [eauto|done|eauto 10]. }
  rewrite Hgen, contains_New, bool_decide_eq_true, elem_of_nil.
  split; [by intros [[]|]|by right].
Qed.

(** C39: A pod is handled exactly if it had not finished at the event, its version that counts
    could be read, and that version is assigned to this node.  The version that counts is the
    first ready one among five reads or, when none of the five is ready, the one of the
    event; a read that fails before a ready version is found drops the pod. *)
Theorem shouldPodBeHandled_spec setterNodeName refresh pod p :
  shouldPodBeHandled setterNodeName refresh pod = (true, p) <->
  pod_NodeName p = setterNodeName /\
  st_Phase (pod_Status pod) <> PodSucceeded /\ st_Phase (pod_Status pod) <> PodFailed /\
  version_that_counts refresh pod MaxRetryCount p.
Proof.
  unfold shouldPodBeHandled. destruct (_ || _) eqn:Hphase.
  { rewrite orb_true_iff, !bool_decide_eq_true in Hphase. split; [done|]. tauto. }
  rewrite orb_false_iff, !bool_decide_eq_false in Hphase. destruct Hphase as [Hs Hf].
  rewrite <- refresh_loop_version.
  destruct (refresh_loop _ _ _ _) as [q|[b q]] eqn:Hloop; simpl.
  - case_decide as Hnode; naive_solver.
  - apply refresh_loop_false in Hloop as ->. naive_solver.
Qed.

(** [gatherAllContainers] lists exactly the containers of the status, or nothing at all
    as long as one of them has no container ID. *)
Theorem gatherAllContainers_spec pod :
  let statuses := st_ContainerStatuses (pod_Status pod) in
  (Forall (fun c => stat_ContainerID c <> "") statuses ->
     forall n, is_Some (gatherAllContainers pod !! n) <-> n ∈ stat_Name <$> statuses) /\
  (Exists (fun c => stat_ContainerID c = "") statuses -> gatherAllContainers pod = ∅).
Proof.
  simpl. unfold gatherAllContainers.
  pose proof (gather_loop (st_ContainerStatuses (pod_Status pod)) ∅) as Hloop.
  destruct (for_range _ _ _) as [m|m]; simpl; destruct Hloop as [Ha Hb].
  - split.
    + intros _ n. rewrite Hb, lookup_empty. split; [by intros [[]|]|by right].
    + intros (c & Hc & Hid)%Exists_exists. rewrite Forall_forall in Ha. by destruct (Ha c Hc).
  - subst. split; [|done]. intros Hall. apply Exists_exists in Hb as (c & Hc & Hid).
    rewrite Forall_forall in Hall. by destruct (Hall c Hc).
Qed.

(** The container ID the setter looks for in the cgroup tree is the runtime's ID of
    exactly that container, without the prefix of the runtime. *)
Theorem determineCid_spec st status prefix id :
  NoDup (stat_Name <$> st_ContainerStatuses st) -> status ∈ st_ContainerStatuses st ->
  prefix ∈ containerPrefixList -> stat_ContainerID status = prefix +:+ id ->
  determineCid st (stat_Name status) = id.
Proof.
  intros Hnd Hin Hp Hid. rewrite (determineCid_find st _ status) by done.
  rewrite Hid. by apply trimContainerPrefix_runtime.
Qed.
End properties.

(** ** A concrete node

    Pools [exclusive_a] (CPUs 1 and 2), [exclusive_b] (CPU 3), [shared_a] (CPUs 4 and 5) and
    [cloudphone_a] on a machine of 8 CPUs; the kubelet recorded devices 1 and 10 (CPU 2) of
    [exclusive_a] and device 3 of [exclusive_b]. *)

Module setter_example.
#[local] Existing Instance list_cpuset.lib.

Definition pool_of (cpus : list Z) (coreMap : gmap Z Topology) : Pool :=
  @mkPool list_cpuset.lib cpus "" SingleThreadHTPolicy 1 "" 0 coreMap.

Definition cloudphone : Pool :=
  pool_of [6; 7] (list_to_map [(6, mkTopology 6 0 []); (7, mkTopology 7 0 []); (0, mkTopology 0 1 [])]).

Definition config : PoolConfig :=
  @mkPoolConfig list_cpuset.lib (list_to_map
    [("exclusive_a", pool_of [1; 2] ∅); ("exclusive_b", pool_of [3] ∅);
     ("shared_a", pool_of [4; 5] ∅); ("cloudphone_a", cloudphone)]) ∅.

Definition newCp : NewFile :=
  [mkNewEntry "uid" "app" "bonc.k8s.io/exclusive_a" (list_to_map [(0, ["1"]); (1, ["10"])]);
   mkNewEntry "uid" "app" "bonc.k8s.io/exclusive_b" (list_to_map [(0, ["3"])]);
   mkNewEntry "uid" "app" "bonc.k8s.io/cloudphone_a" (list_to_map [(0, ["7"; "6"])])].

Definition env : HandlerEnv := {|
  poolConfig := config;
  checkpoint_file := Some "";
  json_File := fun _ => None;
  json_NewFile := fun _ => Some newCp;
  numOfCpus := 8;
  HTTopology := ∅;
  AddHTSiblingsToCPUSet := list_cpuset.add_siblings
|}.

Definition app (requests : list (string * string)) : v1_Container :=
  mk_v1_Container "app" ∅ (list_to_map requests) [] [] [] [] None.

Definition status (id : string) : ContainerStatus :=
  mk_ContainerStatus "app" id true None 0 None true None None.

Definition pod (phase id : string) : v1_Pod :=
  mk_v1_Pod "default" "pod" "uid" ∅ false "node" [] [app []] []
    (mk_PodStatus phase "" [] [] [status id]).

Definition mixed : v1_Container :=
  app [("bonc.k8s.io/exclusive_a", "2"); ("bonc.k8s.io/shared_a", "500"); ("memory", "1Gi")].

Definition two_exclusive : v1_Container :=
  app [("bonc.k8s.io/exclusive_a", "2"); ("bonc.k8s.io/exclusive_b", "1")].

Definition phones : @CPUSet list_cpuset.lib := [7; 6].

Definition shared_cpus : @CPUSet list_cpuset.lib := [4; 5].

(** The CPUs the setter chooses, or nothing. *)
Definition chosen (r : res setter_error (CPUSet * CPUSet)) : list Z :=
  match r with Ok (_, set) => cs_List set | _ => [] end.
End setter_example.

(** A container that requests two exclusive pools is given the CPUs of only one of them,
    and which one depends on the order in which the requests happen to be visited. *)
Theorem two_exclusive_pools_lose_cpus :
  let pod := setter_example.pod "Running" "docker://1" in
  let container := setter_example.two_exclusive in
  let cp := TranslateNewCheckpointToOld (H := range_forward) [] setter_example.newCp in
  recorded_ids cp pod container "bonc.k8s.io/exclusive_a" = ["10"; "1"] /\
  recorded_ids cp pod container "bonc.k8s.io/exclusive_b" = ["3"] /\
  setter_example.chosen (@determineCorrectCpuset list_cpuset.lib range_forward []
    setter_example.env pod container) = [3] /\
  setter_example.chosen (@determineCorrectCpuset list_cpuset.lib range_backward []
    setter_example.env pod container) = [1; 2].
Proof. repeat split; vm_compute; reflexivity. Qed.

(** ** Witnesses *)

Section witnesses.
#[local] Existing Instance list_cpuset.lib.
#[local] Existing Instance list_cpuset.laws.
#[local] Existing Instance range_forward.
Import setter_example.

Lemma shared_pool_selected s' : CPUset (SelectPool s' config SharedPoolID) = shared_cpus.
Proof.
  rewrite (SelectPool_unique s' config SharedPoolID "shared_a" (pool_of [4; 5] ∅)).
  - reflexivity.
  - vm_cast_no_check (@eq_refl (option Pool) (Some (pool_of [4; 5] ∅))).
  - reflexivity.
  - intros name [p Hp] Hprefix. apply elem_of_list_to_map_2 in Hp.
    rewrite !elem_of_cons, elem_of_nil in Hp. naive_solver.
Defined.

Lemma single_pool_selected s' name pool :
  Pools config !! name = Some pool ->
  forallb (fun x : string * Pool => negb (HasPrefix x.1 name) || bool_decide (x.1 = name))
    (map_to_list (Pools config)) = true ->
  SelectPool s' config name = pool.
Proof.
  intros Hname Hall. apply (SelectPool_unique s' config name name pool); [done|apply HasPrefix_refl|].
  intros name' [p Hp] Hprefix. apply elem_of_map_to_list in Hp.
  rewrite forallb_forall in Hall. specialize (Hall _ (proj1 (list_elem_of_In _ _) Hp)). simpl in Hall.
  rewrite Hprefix in Hall. simpl in Hall. by to_prop.
Defined.

Lemma mixed_recorded :
  checkpoint_records env (pod "Running" "docker://1") mixed "bonc.k8s.io/exclusive_a" (Itoa <$> [10; 1]).
Proof.
  exists "". split; [reflexivity|]. exists newCp. split; [reflexivity|]. vm_compute. reflexivity.
Defined.

Lemma mixed_requests :
  recorded_requests env (pod "Running" "docker://1") mixed "bonc.k8s.io/exclusive_a" "exclusive_a"
    SingleThreadHTPolicy shared_cpus [10; 1].
Proof.
  split.
  - apply shared_pool_selected.
  - intros r [v Hr]. apply elem_of_list_to_map_2 in Hr. rewrite !elem_of_cons, elem_of_nil in Hr.
    destruct Hr as [[= -> ->]|[[= -> ->]|[[= -> ->]|[]]]]; vm_compute; auto; discriminate.
  - intros r [v Hr]. apply elem_of_list_to_map_2 in Hr. rewrite !elem_of_cons, elem_of_nil in Hr.
    destruct Hr as [[= -> ->]|[[= -> ->]|[[= -> ->]|[]]]]; vm_compute; auto; discriminate.
  - intros _. split; [by eexists _, _| |apply mixed_recorded|apply (bool_decide_unpack _); vm_compute; exact I|reflexivity].
    intros s'. change (poolConfig env) with config.
    rewrite (single_pool_selected _ "exclusive_a" (pool_of [1; 2] ∅)); [reflexivity| |vm_compute; reflexivity].
    vm_cast_no_check (@eq_refl (option Pool) (Some (pool_of [1; 2] ∅))).
Defined.

Lemma determineCorrectCpuset_pools_witness :
  exists set, determineCorrectCpuset [] env (pod "Running" "docker://1") mixed = Ok (set, set) /\
    forall c, cs_Contains set c = true <-> entitled env mixed SingleThreadHTPolicy shared_cpus [10; 1] c.
Proof.
  destruct (@determineCorrectCpuset_pools _ list_cpuset.laws range_forward [] env list_cpuset.siblings (pod "Running" "docker://1") mixed
    "bonc.k8s.io/exclusive_a" "exclusive_a" SingleThreadHTPolicy shared_cpus [10; 1] mixed_requests)
    as (set & Hdet & Hset & _).
  exists set. split; [exact Hdet|]. apply Hset. exists 4. left. split; [|reflexivity].
  exists "bonc.k8s.io/shared_a". split; [eexists; vm_compute; reflexivity|reflexivity].
Defined.

Lemma exclusive_cpus_of_checkpoint_witness :
  exists set, getListOfAllocatedExclusiveCpus [] env "bonc.k8s.io/exclusive_a"
      (pod "Running" "docker://1") mixed = Ok set /\ set ≡ device_cpus env [10; 1].
Proof.
  apply (exclusive_cpus_of_checkpoint [] env (pod "Running" "docker://1") mixed "bonc.k8s.io/exclusive_a" [10; 1]);
    [apply mixed_recorded|apply (bool_decide_unpack _); vm_compute; exact I|reflexivity].
Defined.

Lemma cloudphone_branch_spec_witness :
  exists cores, cloudphone_branch [] env (pod "Running" "docker://1") mixed "bonc.k8s.io/cloudphone_a"
      = Ok (phones, cores) /\ cs_Contains cores 7 = true.
Proof.
  destruct (cloudphone_branch_spec [] env (pod "Running" "docker://1") mixed "bonc.k8s.io/cloudphone_a"
    "cloudphone_a" cloudphone phones 6 [7]) as (cores & Hb & Hc).
  - vm_compute. reflexivity.
  - reflexivity.
  - intros s'. apply single_pool_selected; [|vm_compute; reflexivity].
    vm_cast_no_check (@eq_refl (option Pool) (Some cloudphone)).
  - reflexivity.
  - exists cores. split; [exact Hb|]. apply Hc. exists 7, (mkTopology 7 0 []).
    split; [vm_compute; reflexivity|]. split; reflexivity.
Defined.

Lemma shouldPodBeHandled_spec_witness :
  exists p, shouldPodBeHandled "node" (fun i => Some (pod "Running" (if decide (i = 2%nat)
      then "docker://1" else ""))) (pod "Pending" "") = (true, p) /\ pod_NodeName p = "node".
Proof.
  eexists. split; [vm_compute; reflexivity|].
  eapply (shouldPodBeHandled_spec "node" (fun i => Some (pod "Running" (if decide (i = 2%nat)
      then "docker://1" else ""))) (pod "Pending" "")).
  vm_compute. reflexivity.
Defined.

Lemma determineCid_spec_witness : determineCid (pod_Status (pod "Running" "docker://1")) "app" = "1".
Proof.
  apply (determineCid_spec (pod_Status (pod "Running" "docker://1")) (status "docker://1") "docker://" "1").
  - apply NoDup_singleton.
  - left.
  - left.
  - reflexivity.
Defined.
End witnesses.
