(* ===== verification/ProcessStarter.v ===== *)
(** * The process starter: [cmd/process-starter/process_starter.go]

    The program that the webhook puts in front of a container's processes: it reads the
    annotation, waits until the setter has written the cpuset, and starts the processes with
    their CPU affinity.  The file with the annotations, the environment, the cgroup file and
    the JSON decoders are arguments. *)

From S2P Require Import Prelude GoStrings Cpuset Pools Annotation.
Local Open Scope Z_scope.

Inductive starter_error :=
  | ScannerError
  | StringNotDecoded
  | ContainersNotDecoded.

(** [readCPUAnnotation]: the lines of [/etc/podinfo/annotations] (none if it cannot be
    opened), whether the scanner failed after them, and the decoders of a JSON string and of
    the containers.  No annotation gives no containers. *)
Definition readCPUAnnotation (lines : list string) (scan_error : bool)
    (json_string : string -> option string) (json_containers : string -> option (list Container))
    : res starter_error (list Container) :=
  let ann := after (for_range (fun _ str _ =>
                 if Contains str "bonc.k8s.io/cpus=" then Return (Replace1 str "bonc.k8s.io/cpus=" "")
                 else Next tt) lines tt) (fun _ => "") in
  if decide (ann = "") then Ok []
  else if scan_error then Err ScannerError
  else match json_string ann with
       | None => Err StringNotDecoded
       | Some s =>
           match json_containers s with
           | None => Err ContainersNotDecoded
           | Some containers => Ok containers
           end
       end.

(** The CPUs the thread is bound to and the CPUs left, or [None] for the nil slice of "not
    enough". *)
Definition setAffinity (nbrCPUs : Z) (cpuList : list Z) : res unit (option (list Z * list Z)) :=
  if Z.of_nat (length cpuList) <? nbrCPUs then Ok None
  else if nbrCPUs <? 0 then Panic SliceBounds
  else Ok (Some (take (Z.to_nat nbrCPUs) cpuList, drop (Z.to_nat nbrCPUs) cpuList)).

(** [unix.SchedSetaffinity(0, cpuset)], whose error is ignored: the kernel refuses the empty set,
    and the affinity stays what it was.  The call binds the thread that makes it. *)
Definition SchedSetaffinity (cpus : list Z) (affinity : option (list Z)) : option (list Z) :=
  if decide (cpus = []) then affinity else Some cpus.

Section starter.
Context `{CPUSetLib}.

(** ** [pollCPUSetCompletion] *)

Record poll_state := mkPoll {
  cs : CPUSet;
  expCpus : CPUSet;
  exclusiveCPUSet : CPUSet;
  sharedCPUSet : CPUSet;
  cloudphoneCPUSet : CPUSet
}.

Definition poll_start : poll_state := mkPoll cs_zero cs_zero cs_zero cs_zero cs_zero.

(** The [switch] of the loop body: the new state, and whether to go on to the comparison
    (else [continue]). *)
Definition read_expected (Getenv : string -> string) (st : poll_state) : poll_state * bool :=
  let poolType := Getenv "CPU_POOLS" in
  if decide (poolType = CloudphonePoolID) then
    let cloudphone := (cs_Parse (Getenv "CLOUDPHONE_CPUS")).1 in
    let st := mkPoll (cs st) (expCpus st) (exclusiveCPUSet st) (sharedCPUSet st) cloudphone in
    if cs_IsEmpty cloudphone then (st, false)
    else
      let numaCPUSet := (cs_Parse (Getenv "NUMA_CPUS")).1 in
      if cs_IsEmpty numaCPUSet then (st, false)
      else (mkPoll (cs st) numaCPUSet (exclusiveCPUSet st) (sharedCPUSet st) cloudphone, true)
  else if decide (poolType = ExclusivePoolID +:+ "&" +:+ SharedPoolID) then
    let exclusive := (cs_Parse (Getenv "EXCLUSIVE_CPUS")).1 in
    let shared := (cs_Parse (Getenv "SHARED_CPUS")).1 in
    if cs_IsEmpty exclusive || cs_IsEmpty shared
    then (mkPoll (cs st) (expCpus st) exclusive shared (cloudphoneCPUSet st), false)
    else (mkPoll (cs st) (cs_Union exclusive [shared]) exclusive shared (cloudphoneCPUSet st), true)
  else if decide (poolType = ExclusivePoolID) then
    let exclusive := (cs_Parse (Getenv "EXCLUSIVE_CPUS")).1 in
    if cs_IsEmpty exclusive
    then (mkPoll (cs st) (expCpus st) exclusive (sharedCPUSet st) (cloudphoneCPUSet st), false)
    else (mkPoll (cs st) exclusive exclusive (sharedCPUSet st) (cloudphoneCPUSet st), true)
  else if decide (poolType = SharedPoolID) then
    let shared := (cs_Parse (Getenv "SHARED_CPUS")).1 in
    if cs_IsEmpty shared
    then (mkPoll (cs st) (expCpus st) (exclusiveCPUSet st) shared (cloudphoneCPUSet st), false)
    else (mkPoll (cs st) shared (exclusiveCPUSet st) shared (cloudphoneCPUSet st), true)
  else (st, true).

Inductive poll_result :=
  (** [os.Exit(1)] *)
  | Exit
  | Done (cloudphoneCPUs exclusiveCPUs sharedCPUs : list Z).

Definition poll_iterations : nat := 90.

(** [cgroup i] is the first line of the cgroup file in iteration [i], [None] if it cannot
    be opened. *)
Fixpoint poll_from (Getenv : string -> string) (cgroup : nat -> option string)
    (i fuel : nat) (st : poll_state) : poll_result :=
  match fuel with
  | O => Exit
  | S fuel =>
      let '(st, ready) := read_expected Getenv st in
      if ready then
        match cgroup i with
        | None => Exit
        | Some cgCPUSet =>
            let cs := (cs_Parse cgCPUSet).1 in
            if cs_Equals (expCpus st) cs
            then Done (cs_List (cloudphoneCPUSet st)) (cs_List (exclusiveCPUSet st))
                   (cs_List (sharedCPUSet st))
            else poll_from Getenv cgroup (S i) fuel
                   (mkPoll cs (expCpus st) (exclusiveCPUSet st) (sharedCPUSet st)
                      (cloudphoneCPUSet st))
        end
      else poll_from Getenv cgroup (S i) fuel st
  end.

Definition pollCPUSetCompletion (Getenv : string -> string) (cgroup : nat -> option string)
    : poll_result :=
  poll_from Getenv cgroup 0 poll_iterations poll_start.
End starter.

(** ** [main]

    What the starter does is a sequence of processes, each with the CPUs of the last
    [SchedSetaffinity] before it that the kernel accepts ([None]: none yet).  The call binds
    one thread only, and nothing in the code keeps the goroutine on that thread until the
    process is started: the log says which CPUs were set for a process, and the Go scheduler
    decides whether it starts there.  CPU numbers are below 1024, the size of
    [unix.CPUSet].  The last process of a container replaces the starter, if [Exec]
    succeeds. *)

Record started := mkStarted {
  st_process : string;
  st_args : list string;
  st_cpus : option (list Z);
  st_replaces : bool
}.

Inductive outcome :=
  (** replaced by a process *)
  | Replaced
  (** [os.Exit(1)] *)
  | Exited1
  | Panicked
  (** the last [Exec] failed: [main] returns *)
  | Returned.

Section main.
(** whether [syscall.Exec] of a program succeeds *)
Context (exec_ok : string -> bool).

(** The processes of one container; [inl] hands on the exclusive CPUs left and the
    affinity of the thread. *)
Fixpoint start_processes (sharedCPUs : list Z) (ps : list Process) (exclCPUs : list Z)
    (affinity : option (list Z)) (log : list started)
    : (list Z * option (list Z) * list started) + (outcome * list started) :=
  match ps with
  | [] => inl (exclCPUs, affinity, log)
  | process :: ps =>
      let bound :=
        if HasPrefix (PoolName process) "exclusive" then
          match setAffinity (CPUs process) exclCPUs with
          | Ok (Some (cpus, rest)) => inl (rest, SchedSetaffinity cpus affinity)
          | Ok None => inr Exited1
          | _ => inr Panicked
          end
        else
          match setAffinity (Z.of_nat (length sharedCPUs)) sharedCPUs with
          | Ok (Some (cpus, _)) => inl (exclCPUs, SchedSetaffinity cpus affinity)
          | Ok None => inl (exclCPUs, affinity)
          | _ => inr Panicked
          end in
      match bound with
      | inr o => inr (o, log)
      | inl (exclCPUs, affinity) =>
          let is_last := bool_decide (ps = []) in
          let log := log ++ [mkStarted (ProcName process) (Args process) affinity is_last] in
          if is_last && exec_ok (ProcName process) then inr (Replaced, log)
          else start_processes sharedCPUs ps exclCPUs affinity log
      end
  end.

(** The loop over the containers, then the command of the pod's own specification. *)
Fixpoint start_containers (myContainerName : string) (sharedCPUs : list Z) (osArgs : list string)
    (containers : list Container) (exclCPUs : list Z) (affinity : option (list Z))
    (log : list started) : outcome * list started :=
  match containers with
  | [] =>
      match osArgs with
      | _ :: prog :: args =>
          (if exec_ok prog then Replaced else Returned, log ++ [mkStarted prog args affinity true])
      | _ => (Panicked, log)
      end
  | container :: containers =>
      if decide (Name container <> myContainerName)
      then start_containers myContainerName sharedCPUs osArgs containers exclCPUs affinity log
      else
        match start_processes sharedCPUs (Processes container) exclCPUs affinity log with
        | inr r => r
        | inl (exclCPUs, affinity, log) =>
            start_containers myContainerName sharedCPUs osArgs containers exclCPUs affinity log
        end
  end.

Definition main `{CPUSetLib} (annotation : res starter_error (list Container))
    (myContainerName : string) (Getenv : string -> string) (cgroup : nat -> option string)
    (osArgs : list string) : outcome * list started :=
  match annotation with
  | Ok containers =>
      if decide (myContainerName = "") then (Panicked, [])
      else match pollCPUSetCompletion Getenv cgroup with
           | Exit => (Exited1, [])
           | Done _ exclCPUs sharedCPUs =>
               start_containers myContainerName sharedCPUs osArgs containers exclCPUs None []
           end
  | _ => (Panicked, [])
  end.
End main.

(** ** Waiting: lemmas *)

Section poll_lemmas.
Context `{CPUSetLaws}.

Definition with_cs (c : CPUSet) (st : poll_state) : poll_state :=
  mkPoll c (expCpus st) (exclusiveCPUSet st) (sharedCPUSet st) (cloudphoneCPUSet st).

(** The environment does not change: reading it again gives the same sets. *)
Lemma read_expected_again Getenv st0 st b c :
  read_expected Getenv st0 = (st, b) -> read_expected Getenv (with_cs c st) = (with_cs c st, b).
Proof.
  unfold read_expected, with_cs. intros Hread.
  repeat (case_decide || split_match); simplify_eq/=; try done; congruence.
Qed.

Lemma with_cs_id st : with_cs (cs st) st = st.
Proof. by destruct st. Qed.

Lemma poll_not_ready Getenv cgroup i fuel st0 st :
  read_expected Getenv st0 = (st, false) -> poll_from Getenv cgroup i fuel st0 = Exit.
Proof.
  revert i st0. induction fuel as [|fuel IH]; intros i st0 Hread; simpl; [done|].
  rewrite Hread. apply (IH (S i) st). rewrite <- (with_cs_id st). by eapply read_expected_again.
Qed.

Lemma poll_from_spec Getenv cgroup i fuel st0 st :
  read_expected Getenv st0 = (st, true) ->
  match poll_from Getenv cgroup i fuel st0 with
  | Done c e s =>
      c = cs_List (cloudphoneCPUSet st) /\ e = cs_List (exclusiveCPUSet st) /\
      s = cs_List (sharedCPUSet st) /\
      exists j line, (i <= j < i + fuel)%nat /\ cgroup j = Some line /\ (cs_Parse line).1 ≡ expCpus st
  | Exit => forall j line, (i <= j < i + fuel)%nat -> cgroup j = Some line ->
      (forall k, (i <= k < j)%nat -> is_Some (cgroup k)) -> ~ (cs_Parse line).1 ≡ expCpus st
  end.
Proof.
  revert i st0 st. induction fuel as [|fuel IH]; intros i st0 st Hread; simpl; [intros; lia|].
  rewrite Hread. destruct (cgroup i) as [line|] eqn:Hi.
  2: { intros j line Hj Hl Hbefore. destruct (decide (j = i)) as [->|]; [congruence|].
       destruct (Hbefore i) as [? ?]; [lia|congruence]. }
  destruct (cs_Equals (expCpus st) (cs_Parse line).1) eqn:Heq.
  - apply Equals_equiv in Heq. do 3 (split; [done|]). exists i, line. split; [lia|]. by split.
  - pose proof (read_expected_again Getenv st0 st true (cs_Parse line).1 Hread) as Hagain.
    specialize (IH (S i) _ _ Hagain). unfold with_cs in IH at 1.
    destruct (poll_from _ _ _ _ _) as [|c e s].
    + intros j line' Hj Hl Hbefore. destruct (decide (j = i)) as [->|].
      * rewrite Hi in Hl. injection Hl as <-. intros Heq'. symmetry in Heq'.
        apply Equals_equiv in Heq'. congruence.
      * apply (IH j line'); [lia|done|]. intros k Hk. apply Hbefore. lia.
    + destruct IH as (Hc & He & Hs & j & line' & Hj & Hl). simpl in Hc, He, Hs.
      do 3 (split; [done|]). exists j, line'. split; [lia|done].
Qed.
End poll_lemmas.

(** ** Affinity: lemmas *)

Definition on_exclusive (p : Process) : bool := HasPrefix (PoolName p) "exclusive".

(** The CPUs an exclusive process was bound to; one that asks for none is bound to none. *)
Definition exclusive_part (p : Process) (e : started) : list Z :=
  if on_exclusive p && negb (CPUs p =? 0) then default [] (st_cpus e) else [].

Lemma exclusive_part_bound p name args cpus affinity last :
  on_exclusive p = true -> Z.of_nat (length cpus) = CPUs p ->
  exclusive_part p (mkStarted name args (SchedSetaffinity cpus affinity) last) = cpus.
Proof.
  intros Hp Hlen. unfold exclusive_part, SchedSetaffinity. rewrite Hp, <- Hlen. simpl.
  case_decide as Hcpus; [by subst|]. destruct cpus; [done|]. by rewrite (proj2 (Z.eqb_neq _ 0)).
Qed.

Lemma exclusive_part_other p e : on_exclusive p = false -> exclusive_part p e = [].
Proof. intros Hp. unfold exclusive_part. by rewrite Hp. Qed.

Definition log_of (r : (list Z * option (list Z) * list started) + (outcome * list started))
    : list started :=
  match r with inl (_, _, log) => log | inr (_, log) => log end.

Lemma setAffinity_spec nbr l :
  match setAffinity nbr l with
  | Ok (Some (cpus, rest)) => l = cpus ++ rest /\ Z.of_nat (length cpus) = nbr
  | Ok None => Z.of_nat (length l) < nbr
  | _ => nbr < 0
  end.
Proof.
  unfold setAffinity. destruct (_ <? nbr) eqn:E1; to_prop; [done|].
  destruct (nbr <? 0) eqn:E2; to_prop; [done|]. rewrite take_drop. split; [done|].
  rewrite length_take. lia.
Qed.

(** Why the process after the first [n] is not started: there is none, or it is exclusive and
    the CPUs left do not give it what it asks for. *)
Definition stopped_at (ps : list Process) (n : nat) (rest : list Z) : Prop :=
  match ps !! n with
  | None => True
  | Some p => on_exclusive p = true /\ (CPUs p < 0 \/ Z.of_nat (length rest) < CPUs p)
  end.

(** What the log [new] of the processes [ps] says about the exclusive CPUs. *)
Definition bound_in_order (ps : list Process) (new : list started) : Prop :=
  Forall2 (fun p e => st_process e = ProcName p /\ st_args e = Args p /\
    (on_exclusive p = true -> Z.of_nat (length (exclusive_part p e)) = CPUs p))
    (take (length new) ps) new.

(** The exclusive processes started so far share out a prefix of the exclusive CPUs, in
    order, each with as many as it asks for. *)
Lemma start_processes_spec exec_ok shared ps excl affinity log :
  exists new rest,
    log_of (start_processes exec_ok shared ps excl affinity log) = log ++ new /\
    excl = concat (zip_with exclusive_part ps new) ++ rest /\
    bound_in_order ps new /\ stopped_at ps (length new) rest.
Proof.
  revert excl affinity log. induction ps as [|p ps IH]; intros excl affinity log; simpl.
  { exists [], excl. rewrite app_nil_r. repeat split; constructor. }
  fold (on_exclusive p). set (e a := mkStarted (ProcName p) (Args p) a (bool_decide (ps = []))).
  assert (forall excl' a part, excl = part ++ excl' -> exclusive_part p (e a) = part ->
    (on_exclusive p = true -> Z.of_nat (length part) = CPUs p) ->
    exists new rest,
      log_of (if bool_decide (ps = []) && exec_ok (ProcName p) then inr (Replaced, log ++ [e a])
              else start_processes exec_ok shared ps excl' a (log ++ [e a])) = log ++ new /\
      excl = concat (zip_with exclusive_part (p :: ps) new) ++ rest /\
      bound_in_order (p :: ps) new /\ stopped_at (p :: ps) (length new) rest) as Hgo.
  { intros excl' a part Hexcl Hpart Hlen. destruct (_ && _) eqn:Hlast.
    - exists [e a], excl'. simpl. rewrite Hpart, zip_with_nil_r. simpl. rewrite app_nil_r.
      split; [done|]. split; [done|].
      split; [unfold bound_in_order; simpl; rewrite take_0; constructor; [by rewrite Hpart|done]|].
      apply andb_true_iff in Hlast as [->%bool_decide_eq_true_1 _]. done.
    - destruct (IH excl' a (log ++ [e a])) as (new & rest & Hlog & Hex & Hall & Hstop).
      exists (e a :: new), rest. rewrite Hlog, <- (assoc_L (++)). split; [done|].
      simpl. rewrite Hpart, <- (assoc_L (++)), <- Hex. split; [done|].
      split; [|done]. unfold bound_in_order. simpl. constructor; [by rewrite Hpart|done]. }
  assert (on_exclusive p = true /\ (CPUs p < 0 \/ Z.of_nat (length excl) < CPUs p) ->
    exists new rest, log = log ++ new /\
      excl = concat (zip_with exclusive_part (p :: ps) new) ++ rest /\
      bound_in_order (p :: ps) new /\ stopped_at (p :: ps) (length new) rest) as Hstop.
  { intros Hp. exists [], excl. rewrite app_nil_r. repeat split; [constructor|naive_solver..]. }
  destruct (on_exclusive p) eqn:Hp.
  - pose proof (setAffinity_spec (CPUs p) excl) as Haff.
    destruct (setAffinity (CPUs p) excl) as [[[cpus rest]|]| |]; [|by apply Hstop; auto..].
    destruct Haff as [Hex Hlen]. apply (Hgo rest _ cpus); [done| |done].
    by apply exclusive_part_bound.
  - pose proof (setAffinity_spec (Z.of_nat (length shared)) shared) as Haff.
    destruct (setAffinity _ shared) as [[[cpus rest]|]| |]; [|by exfalso; simpl in Haff; lia..].
    apply (Hgo excl _ []); [done| |done]. by apply exclusive_part_other.
Qed.

(** * Properties *)

Section properties.
Context `{CPUSetLaws}.

(** C21: The wait ends only when the cgroup holds exactly the CPUs the environment announces,
    and then returns the announced sets; it gives up only if in none of the 90 rounds the
    cgroup, as long as it can be read, held them. *)
Theorem pollCPUSetCompletion_spec Getenv cgroup st :
  read_expected Getenv poll_start = (st, true) ->
  match pollCPUSetCompletion Getenv cgroup with
  | Done c e s =>
      c = cs_List (cloudphoneCPUSet st) /\ e = cs_List (exclusiveCPUSet st) /\
      s = cs_List (sharedCPUSet st) /\
      exists j line, (j < poll_iterations)%nat /\ cgroup j = Some line /\
        (cs_Parse line).1 ≡ expCpus st
  | Exit => forall j line, (j < poll_iterations)%nat -> cgroup j = Some line ->
      (forall k, (k < j)%nat -> is_Some (cgroup k)) -> ~ (cs_Parse line).1 ≡ expCpus st
  end.
Proof.
  intros Hread. unfold pollCPUSetCompletion.
  pose proof (poll_from_spec Getenv cgroup 0 poll_iterations poll_start st Hread) as Hspec.
  destruct (poll_from _ _ _ _ _) as [|c e s].
  - intros j line Hj Hl Hbefore. apply (Hspec j line); [lia|done|]. intros k Hk. apply Hbefore. lia.
  - destruct Hspec as (-> & -> & -> & j & line & Hj & Hl). do 3 (split; [done|]).
    exists j, line. split; [lia|done].
Qed.

(** When a set that the pools of the container need is empty or missing, the starter
    does not start anything, whatever the cgroup holds: it exits. *)
Theorem pollCPUSetCompletion_missing Getenv cgroup st :
  read_expected Getenv poll_start = (st, false) -> pollCPUSetCompletion Getenv cgroup = Exit.
Proof. apply poll_not_ready. Qed.

(** C20: The exclusive processes of a container are bound to consecutive, disjoint parts of
    the container's exclusive CPUs, in the order of the annotation, each to as many CPUs as
    it asks for, by the last call of [SchedSetaffinity] before its start; every process is started with its own name and arguments, up to one whose
    share is not left, or all of them. *)
Theorem exclusive_affinity exec_ok shared ps excl affinity log :
  exists new rest,
    log_of (start_processes exec_ok shared ps excl affinity log) = log ++ new /\
    excl = concat (zip_with exclusive_part ps new) ++ rest /\
    bound_in_order ps new /\ stopped_at ps (length new) rest.
Proof. apply start_processes_spec. Qed.

(** A negative CPU count passes the validity check of the annotation's decoder, but the
    starter panics on it before it starts the process. *)
Theorem negative_cpus_panic exec_ok shared p ps excl affinity log :
  ProcName p <> "" -> on_exclusive p = true -> CPUs p < 0 ->
  valid_process p /\
  start_processes exec_ok shared (p :: ps) excl affinity log = inr (Panicked, log).
Proof.
  intros Hname Hex Hneg. split; [split; [done|lia]|]. simpl. fold (on_exclusive p). rewrite Hex.
  unfold setAffinity. rewrite (proj2 (Z.ltb_ge _ _)) by lia. by rewrite (proj2 (Z.ltb_lt _ 0)).
Qed.

(** In a container without shared CPUs the kernel refuses the empty set, and a process of no
    exclusive pool keeps the CPUs of the exclusive process before it. *)
Theorem no_shared_keeps_affinity exec_ok p ps excl affinity log :
  on_exclusive p = false ->
  start_processes exec_ok [] (p :: ps) excl affinity log =
    let e := mkStarted (ProcName p) (Args p) affinity (bool_decide (ps = [])) in
    if bool_decide (ps = []) && exec_ok (ProcName p) then inr (Replaced, log ++ [e])
    else start_processes exec_ok [] ps excl affinity (log ++ [e]).
Proof. intros Hp. simpl. fold (on_exclusive p). by rewrite Hp. Qed.

(** [readCPUAnnotation] decodes the text after the first line's marker
    [bonc.k8s.io/cpus=]; a text that does not decode is an error, an empty one is no
    annotation. *)
Theorem readCPUAnnotation_first before text after_ json_string json_containers :
  Forall (fun l => Contains l "bonc.k8s.io/cpus=" = false) before -> text <> "" ->
  readCPUAnnotation (before ++ ("bonc.k8s.io/cpus=" +:+ text) :: after_) false
    json_string json_containers =
  match json_string text with
  | None => Err StringNotDecoded
  | Some s => match json_containers s with
              | None => Err ContainersNotDecoded
              | Some containers => Ok containers
              end
  end.
Proof.
  intros Hbefore Htext. unfold readCPUAnnotation.
  assert (after (for_range (fun _ str _ =>
      if Contains str "bonc.k8s.io/cpus=" then Return (Replace1 str "bonc.k8s.io/cpus=" "")
      else Next tt) (before ++ ("bonc.k8s.io/cpus=" +:+ text) :: after_) tt) (fun _ => "") = text) as ->.
  { unfold for_range. generalize 0%nat. induction Hbefore as [|l before Hl _ IH]; intros i.
    - cbn [app loop_from]. rewrite HasPrefix_Contains by apply HasPrefix_app. simpl. by destruct text.
    - cbn [app loop_from]. rewrite Hl. apply IH. }
  by rewrite decide_False.
Qed.
End properties.

(** ** Witnesses *)

Module starter_example.
Definition Getenv (pools : string) (key : string) : string :=
  if decide (key = "CPU_POOLS") then pools
  else if decide (key = "EXCLUSIVE_CPUS") then "1-2"
  else if decide (key = "SHARED_CPUS") then "4" else "".

(** The setter writes the set in the third second. *)
Definition cgroup (i : nat) : option string := Some (if (i <? 3)%nat then "0-7" else "1,2,4").
End starter_example.

Section witnesses.
#[local] Existing Instance list_cpuset.lib.
Import starter_example.

Definition mixed_state : poll_state := (read_expected (Getenv "exclusive&shared") poll_start).1.

Lemma mixed_poll : pollCPUSetCompletion (Getenv "exclusive&shared") cgroup = Done [] [1; 2] [4].
Proof. vm_compute. reflexivity. Qed.

Lemma answered {A} (p : A * bool) b : p.2 = b -> p = (p.1, b).
Proof. intros <-. apply surjective_pairing. Defined.

Lemma mixed_expected : (read_expected (Getenv "exclusive&shared") poll_start).2 = true.
Proof. vm_compute. reflexivity. Defined.

Lemma cloudphone_expected : (read_expected (Getenv "cloudphone") poll_start).2 = false.
Proof. vm_compute. reflexivity. Defined.

Lemma pollCPUSetCompletion_spec_witness :
  exists j line, (j < poll_iterations)%nat /\ cgroup j = Some line /\
    (cs_Parse line).1 ≡ expCpus mixed_state.
Proof.
  pose proof (@pollCPUSetCompletion_spec _ list_cpuset.laws (Getenv "exclusive&shared") cgroup
    mixed_state (answered _ _ mixed_expected)) as Hspec.
  rewrite mixed_poll in Hspec. destruct Hspec as (_ & _ & _ & Hspec). exact Hspec.
Defined.

Lemma pollCPUSetCompletion_missing_witness :
  pollCPUSetCompletion (Getenv "cloudphone") cgroup = Exit.
Proof.
  apply (pollCPUSetCompletion_missing (Getenv "cloudphone") cgroup
           (read_expected (Getenv "cloudphone") poll_start).1 (answered _ _ cloudphone_expected)).
Defined.

Lemma no_shared_keeps_affinity_witness :
  start_processes (fun _ => true) [] [mkProcess "/bin/log" [] 100 "default"] [2] (Some [1]) [] =
    inr (Replaced, [mkStarted "/bin/log" [] (Some [1]) true]).
Proof.
  exact (no_shared_keeps_affinity (fun _ => true) (mkProcess "/bin/log" [] 100 "default") [] [2] (Some [1]) [] eq_refl).
Defined.

Lemma negative_cpus_panic_witness :
  start_processes (fun _ => true) [4] [mkProcess "/bin/app" [] (-1) "exclusive_a"] [1; 2] None []
    = inr (Panicked, []).
Proof.
  apply (negative_cpus_panic (fun _ => true) [4] (mkProcess "/bin/app" [] (-1) "exclusive_a")
           [] [1; 2] None []); [discriminate|reflexivity|reflexivity].
Defined.

Lemma readCPUAnnotation_first_witness :
  readCPUAnnotation ["name=x"; "bonc.k8s.io/cpus=text"; "z=y"] false Some (fun _ => Some []) = Ok [].
Proof.
  apply (readCPUAnnotation_first ["name=x"] "text" ["z=y"] Some (fun _ => Some []));
    [repeat constructor|discriminate].
Defined.
End witnesses.
