(* ===== verification/FileSystem.v ===== *)
(** * The file system the setter works on

    Directories and files as a tree with the calls of [os] and [path/filepath] (both of Go's
    standard library) that [pkg/utils] and [pkg/sethandler] make.  A path is absolute and
    clean and is given by its components.  Modes, owners and symbolic links are left out.  A
    call fails where the tree does not allow it, and where [OS] says that the system
    refuses it; a refused call changes nothing. *)

From S2P Require Import Prelude GoStrings.
From Stdlib Require Import Ascii.
Local Open Scope Z_scope.

Abbreviation path := (list string).

Definition slash : ascii := "/".

(** [/a/b] for the components [a] and [b]. *)
Definition path_string (p : path) : string := foldr (fun name s => "/" +:+ name +:+ s) "" p.

Definition parse_path (s : string) : path := base.filter (fun name => name <> "") (Split s slash).

(** The entries of a directory are in the order of their names, as [os.ReadDir] gives them. *)
Inductive tree : Type :=
  | File (content : string)
  | Dir (entries : list (string * tree)).

Definition is_dir (t : tree) : bool := match t with Dir _ => true | File _ => false end.

(** ** Entries *)

Fixpoint find_entry (name : string) (es : list (string * tree)) : option tree :=
  match es with
  | [] => None
  | (n, t) :: es => if decide (name = n) then Some t else find_entry name es
  end.

Fixpoint set_entry (name : string) (t : tree) (es : list (string * tree)) : list (string * tree) :=
  match es with
  | [] => [(name, t)]
  | (n, t') :: es' =>
      match String.compare name n with
      | Eq => (name, t) :: es'
      | Lt => (name, t) :: es
      | Gt => (n, t') :: set_entry name t es'
      end
  end.

Definition del_entry (name : string) (es : list (string * tree)) : list (string * tree) :=
  base.filter (fun e => e.1 <> name) es.

(** ** Lookup *)

Fixpoint lookup_tree (p : path) (t : tree) : option tree :=
  match p, t with
  | [], _ => Some t
  | name :: p, Dir es => t' ← find_entry name es; lookup_tree p t'
  | _ :: _, File _ => None
  end.

#[export] Instance tree_lookup : Lookup path tree tree := lookup_tree.

(** What is at a path, without what is below it. *)
Inductive kind :=
  | AFile (content : string)
  | ADirectory.

#[export] Instance kind_eq_dec : EqDecision kind.
Proof. solve_decision. Defined.

Definition kind_of (t : tree) : kind :=
  match t with File c => AFile c | Dir _ => ADirectory end.

Definition kind_at (t : tree) (p : path) : option kind := kind_of <$> t !! p.

(** ** Changes *)

Fixpoint write_file (p : path) (content : string) (t : tree) : option tree :=
  match p, t with
  | [name], Dir es =>
      match find_entry name es with
      | Some (Dir _) => None
      | _ => Some (Dir (set_entry name (File content) es))
      end
  | name :: p, Dir es =>
      t' ← find_entry name es;
      t'' ← write_file p content t';
      Some (Dir (set_entry name t'' es))
  | _, _ => None
  end.

Fixpoint mkdir_all (p : path) (t : tree) : option tree :=
  match p, t with
  | _, File _ => None
  | [], Dir _ => Some t
  | name :: p, Dir es =>
      t' ← mkdir_all p (default (Dir []) (find_entry name es));
      Some (Dir (set_entry name t' es))
  end.

Fixpoint remove_all (p : path) (t : tree) : tree :=
  match p, t with
  | [name], Dir es => Dir (del_entry name es)
  | name :: p, Dir es =>
      match find_entry name es with
      | Some t' => Dir (set_entry name (remove_all p t') es)
      | None => t
      end
  | _, _ => t
  end.

(** ** The calls of [os] *)

(** The paths on which the system refuses a call. *)
Record OS := mkOS {
  stat_fails : path -> bool;
  readdir_fails : path -> bool;
  read_fails : path -> bool;
  write_fails : path -> bool;
  mkdir_fails : path -> bool;
  remove_fails : path -> bool
}.

Definition willing_os : OS :=
  mkOS (fun _ => false) (fun _ => false) (fun _ => false) (fun _ => false) (fun _ => false)
    (fun _ => false).

Definition Stat (os : OS) (fs : tree) (p : path) : option tree :=
  if stat_fails os p then None else fs !! p.

Definition ReadFile (os : OS) (fs : tree) (p : path) : option string :=
  if read_fails os p then None
  else match fs !! p with Some (File c) => Some c | _ => None end.

Definition ReadDir (os : OS) (fs : tree) (p : path) : option (list (string * tree)) :=
  if readdir_fails os p then None
  else match fs !! p with Some (Dir es) => Some es | _ => None end.

Definition WriteFile (os : OS) (fs : tree) (p : path) (content : string) : option tree :=
  if write_fails os p then None else write_file p content fs.

Definition MkdirAll (os : OS) (fs : tree) (p : path) : option tree :=
  if mkdir_fails os p then None else mkdir_all p fs.

Definition RemoveAll (os : OS) (fs : tree) (p : path) : option tree :=
  if remove_fails os p then None else Some (remove_all p fs).

(** ** [filepath.Walk]

    The function called on each path gets whether it is a directory and whether an error
    occurred; it changes the state and returns nil, [SkipDir] or an error. *)

Inductive walk_ret :=
  | WalkOn
  | SkipDir
  | WalkErr.

(** The loop over the names of a directory: [skipped] is the call for an entry whose
    information cannot be read, [visit] the walk of an entry. *)
Fixpoint walk_names {S} (info_fails : string -> bool) (skipped : string -> S -> S * walk_ret)
    (visit : string -> tree -> S -> S * walk_ret) (es : list (string * tree)) (st : S)
    : S * walk_ret :=
  match es with
  | [] => (st, WalkOn)
  | (name, t) :: es =>
      if info_fails name then
        match skipped name st with
        | (st, WalkErr) => (st, WalkErr)
        | (st, _) => walk_names info_fails skipped visit es st
        end
      else
        match visit name t st with
        | (st, WalkOn) => walk_names info_fails skipped visit es st
        | (st, SkipDir) =>
            if is_dir t then walk_names info_fails skipped visit es st else (st, SkipDir)
        | (st, WalkErr) => (st, WalkErr)
        end
  end.

Section walk.
Context {S : Type} (os : OS) (fn : path -> bool -> bool -> S -> S * walk_ret).

Fixpoint walk (p : path) (t : tree) (st : S) {struct t} : S * walk_ret :=
  match t with
  | File _ => fn p false false st
  | Dir es =>
      let failed := readdir_fails os p in
      let '(st, r) := fn p true failed st in
      match failed, r with
      | false, WalkOn =>
          walk_names (fun name => stat_fails os (p ++ [name]))
            (fun name => fn (p ++ [name]) false true) (fun name => walk (p ++ [name])) es st
      | _, _ => (st, r)
      end
  end.

(** The state at the end, and whether [Walk] returns nil. *)
Definition Walk (fs : tree) (root : path) (st : S) : S * bool :=
  let '(st, r) :=
    match Stat os fs root with
    | None => fn root false true st
    | Some t => walk root t st
    end in
  (st, match r with WalkErr => false | _ => true end).
End walk.

(** * Lemmas *)

(** Induction over a tree, with the hypothesis for the entries of a directory. *)
Lemma tree_entries_ind (P : tree -> Prop) :
  (forall c, P (File c)) ->
  (forall es, Forall (fun e => P e.2) es -> P (Dir es)) ->
  forall t, P t.
Proof.
  intros Hfile Hdir. fix IH 1. intros [c|es]; [apply Hfile|]. apply Hdir.
  induction es as [|[name t] es IHes]; constructor; [apply IH|done].
Qed.

(** ** Entries *)

Lemma compare_refl (s : string) : String.compare s s = Eq.
Proof. pose proof (String.compare_antisym s s). by destruct (String.compare s s). Qed.

Lemma find_set_entry name m t es :
  find_entry m (set_entry name t es) = if decide (m = name) then Some t else find_entry m es.
Proof.
  induction es as [|[n t'] es IH]; simpl; [done|].
  destruct (String.compare name n) eqn:E; simpl.
  - apply String.compare_eq_iff in E as <-. by case_decide.
  - by case_decide.
  - rewrite IH. destruct (decide (m = n)) as [->|]; [|done]. rewrite decide_False; [done|].
    intros ->. by rewrite compare_refl in E.
Qed.

Lemma find_del_entry name m es :
  find_entry m (del_entry name es) = if decide (m = name) then None else find_entry m es.
Proof.
  unfold del_entry. induction es as [|[n t] es IH]; simpl; [by case_decide|].
  destruct (decide (n = name)) as [->|Hn].
  - rewrite filter_cons_False by naive_solver. rewrite IH. by repeat case_decide.
  - rewrite filter_cons_True by done. simpl. rewrite IH. repeat case_decide; congruence.
Qed.

Lemma find_entry_elem name t es : find_entry name es = Some t -> (name, t) ∈ es.
Proof.
  induction es as [|[n t'] es IH]; simpl; [done|]. case_decide as Hn.
  - intros [= ->]. subst. left.
  - intros ?. right. by apply IH.
Qed.

Lemma find_entry_None name es : find_entry name es = None -> name ∉ es.*1.
Proof.
  induction es as [|[n t] es IH]; simpl; [by intros _ ?%elem_of_nil|].
  case_decide; [done|]. intros ?. rewrite elem_of_cons. naive_solver.
Qed.

Lemma elem_find_entry name t es : NoDup es.*1 -> (name, t) ∈ es -> find_entry name es = Some t.
Proof.
  induction es as [|[n t'] es IH]; simpl; [by intros _ ?%elem_of_nil|].
  rewrite NoDup_cons, elem_of_cons. intros [Hn Hnd] [[= -> ->]|Hin]; [by rewrite decide_True|].
  rewrite decide_False; [by apply IH|]. intros ->. apply Hn, list_elem_of_fmap. by exists (n, t).
Qed.

(** ** What is where *)

Lemma kind_at_nil t : kind_at t [] = Some (kind_of t).
Proof. by destruct t. Qed.

Lemma kind_at_Dir name p es :
  kind_at (Dir es) (name :: p) = t ← find_entry name es; kind_at t p.
Proof. unfold kind_at, lookup, tree_lookup. simpl. by destruct (find_entry name es). Qed.

Lemma kind_at_File name p c : kind_at (File c) (name :: p) = None.
Proof. done. Qed.

Lemma lookup_Dir name p es : Dir es !! (name :: p) = t ← find_entry name es; t !! p.
Proof. done. Qed.

Lemma lookup_tree_app (t : tree) p q : t !! (p ++ q) = t' ← t !! p; t' !! q.
Proof.
  unfold lookup, tree_lookup. revert t. induction p as [|name p IH]; intros t; [by destruct t|].
  destruct t as [c|es]; simpl; [done|].
  destruct (find_entry name es); simpl; [apply IH|done].
Qed.

Lemma kind_at_app t p q : kind_at t (p ++ q) = t' ← t !! p; kind_at t' q.
Proof. unfold kind_at. rewrite lookup_tree_app. by destruct (t !! p). Qed.

Lemma kind_at_Some t p k : kind_at t p = Some k <-> exists t', t !! p = Some t' /\ kind_of t' = k.
Proof. unfold kind_at. destruct (t !! p); simpl; naive_solver. Qed.

Lemma kind_at_directory t p : kind_at t p = Some ADirectory <-> exists es, t !! p = Some (Dir es).
Proof.
  rewrite kind_at_Some. split; [intros ([] & ? & ?); simplify_eq/=; eauto|].
  intros [es ->]. by exists (Dir es).
Qed.

Lemma kind_at_file t p c : kind_at t p = Some (AFile c) <-> t !! p = Some (File c).
Proof. rewrite kind_at_Some. split; [intros ([] & ? & ?); naive_solver|]. intros ->. by exists (File c). Qed.

(** Below a file there is nothing; above a path that exists there are directories. *)
Lemma kind_at_parent t p q k : q <> [] -> kind_at t (p ++ q) = Some k -> kind_at t p = Some ADirectory.
Proof.
  intros Hq. rewrite kind_at_app. destruct (t !! p) as [[c|es]|] eqn:E; simpl; [|intros _|done].
  - by destruct q.
  - apply kind_at_directory. eauto.
Qed.

Lemma prefix_dir (t : tree) p : kind_at t p = Some ADirectory ->
  forall q, q `prefix_of` p -> kind_at t q = Some ADirectory.
Proof.
  intros Hp q [[|n r] ->]; [by rewrite app_nil_r in Hp|]. by apply (kind_at_parent t q (n :: r) ADirectory).
Qed.

(** ** What the changes change *)

Lemma write_file_cons name n p c es :
  write_file (name :: n :: p) c (Dir es) =
    t' ← find_entry name es; t'' ← write_file (n :: p) c t'; Some (Dir (set_entry name t'' es)).
Proof. done. Qed.

Lemma remove_all_cons name n p es :
  remove_all (name :: n :: p) (Dir es) =
    match find_entry name es with
    | Some t' => Dir (set_entry name (remove_all (n :: p) t') es)
    | None => Dir es
    end.
Proof. done. Qed.

Lemma write_file_single name c es :
  write_file [name] c (Dir es) =
    match find_entry name es with
    | Some (Dir _) => None
    | _ => Some (Dir (set_entry name (File c) es))
    end.
Proof. done. Qed.

#[global] Arguments write_file : simpl never.
#[global] Arguments remove_all : simpl never.

Lemma kind_at_write p c t t' q : write_file p c t = Some t' ->
  kind_at t' q = if decide (q = p) then Some (AFile c) else kind_at t q.
Proof.
  revert t t' q. induction p as [|name p IH]; intros t t' q; [by destruct t|].
  destruct t as [c0|es]; [by destruct p|]. destruct q as [|m q].
  { intros Hw. rewrite decide_False by done. revert Hw.
    destruct p as [|n p]; [rewrite write_file_single; destruct (find_entry name es) as [[]|]; by intros [= <-]|].
    rewrite write_file_cons. destruct (find_entry name es) as [t1|]; simpl; [|done].
    destruct (write_file (n :: p) c t1); simpl; [by intros [= <-]|done]. }
  destruct p as [|name' p].
  - assert (forall old, find_entry name es = old -> (forall es', old <> Some (Dir es')) ->
      Some (Dir (set_entry name (File c) es)) = Some t' ->
      kind_at t' (m :: q) = if decide (m :: q = [name]) then Some (AFile c) else kind_at (Dir es) (m :: q)) as Hput.
    { intros old Hold Hnot [= <-]. rewrite !kind_at_Dir, find_set_entry.
      destruct (decide (m = name)) as [->|Hm]; simpl; [|by rewrite decide_False by congruence].
      destruct q as [|m' q]; [by rewrite decide_True|]. rewrite decide_False by done.
      rewrite Hold. destruct old as [[c'|es']|]; simpl; [done|by destruct (Hnot es')|done]. }
    rewrite write_file_single. destruct (find_entry name es) as [[c'|es']|] eqn:E; [|done|];
      intros Hw; (eapply Hput; [reflexivity|done|exact Hw]).
  - rewrite write_file_cons. destruct (find_entry name es) as [t1|] eqn:E; simpl; [|done].
    destruct (write_file (name' :: p) c t1) as [t2|] eqn:Hw; simpl; [|done]. intros [= <-].
    rewrite !kind_at_Dir, find_set_entry. destruct (decide (m = name)) as [->|Hm]; simpl.
    + rewrite E. simpl. rewrite (IH t1 t2 q Hw).
      destruct (decide (q = name' :: p)) as [->|]; [by rewrite decide_True|].
      by rewrite decide_False by congruence.
    + by rewrite decide_False by congruence.
Qed.

Lemma write_file_Some p name c t : kind_at t p = Some ADirectory ->
  kind_at t (p ++ [name]) <> Some ADirectory -> is_Some (write_file (p ++ [name]) c t).
Proof.
  revert t. induction p as [|n p IH]; intros [c0|es]; rewrite ?kind_at_nil; simpl app; try done.
  - intros _. rewrite kind_at_Dir, write_file_single. destruct (find_entry name es) as [[]|]; simpl; eauto.
    by rewrite kind_at_nil.
  - rewrite !kind_at_Dir. destruct (find_entry n es) as [t1|] eqn:Hn'; simpl; [|done].
    intros Hp Hn. destruct (IH t1 Hp Hn) as [t2 Hw]. destruct (p ++ [name]) eqn:E; [by destruct p|].
    rewrite write_file_cons, Hn'. simpl. rewrite Hw. simpl. eauto.
Qed.

Lemma write_file_parent p name c t t' : write_file (p ++ [name]) c t = Some t' ->
  kind_at t p = Some ADirectory /\ kind_at t (p ++ [name]) <> Some ADirectory.
Proof.
  revert t t'. induction p as [|n p IH]; intros [c0|es] t'; simpl app; [done| |by destruct (p ++ [name])|].
  - rewrite kind_at_nil, kind_at_Dir, write_file_single. by destruct (find_entry name es) as [[]|].
  - rewrite !kind_at_Dir. destruct (p ++ [name]) as [|n' p'] eqn:E; [by destruct p|].
    rewrite write_file_cons. destruct (find_entry n es) as [t1|]; simpl; [|done].
    destruct (write_file (n' :: p') c t1) as [t2|] eqn:Hw; simpl; [|done]. intros _.
    specialize (IH t1). by apply (IH t2).
Qed.

Lemma kind_at_mkdir p t t' q : mkdir_all p t = Some t' ->
  kind_at t' q = if decide (q `prefix_of` p) then Some ADirectory else kind_at t q.
Proof.
  revert t t' q. induction p as [|name p IH]; intros [c|es] t' q; simpl; try done.
  - intros [= <-]. destruct q as [|m q]; [by rewrite kind_at_nil, decide_True by apply prefix_nil|].
    rewrite decide_False; [done|]. by intros ?%prefix_nil_inv.
  - destruct (mkdir_all p _) as [t1|] eqn:Hm; simpl; [|done]. intros [= <-].
    destruct q as [|m q]; [by rewrite decide_True by apply prefix_nil|].
    rewrite !kind_at_Dir, find_set_entry. destruct (decide (m = name)) as [->|Hne]; simpl.
    + rewrite (IH _ _ q Hm). destruct (decide (q `prefix_of` p)) as [Hq|Hq].
      * by rewrite decide_True by by apply prefix_cons.
      * rewrite decide_False by by intros ?%prefix_cons_inv_2.
        destruct (find_entry name es) as [t0|]; simpl; [done|].
        destruct q; [by destruct Hq; apply prefix_nil|done].
    + rewrite decide_False; [done|]. by intros ?%prefix_cons_inv_1.
Qed.

Lemma mkdir_all_Some p t : (forall q c, q `prefix_of` p -> kind_at t q <> Some (AFile c)) ->
  is_Some (mkdir_all p t).
Proof.
  revert t. induction p as [|name p IH]; intros [c|es] Hno; simpl; eauto.
  - by destruct (Hno [] c); [apply prefix_nil|].
  - by destruct (Hno [] c); [apply prefix_nil|].
  - destruct (IH (default (Dir []) (find_entry name es))) as [t' ->]; [|simpl; eauto].
    intros q c Hq Hk. apply (Hno (name :: q) c); [by apply prefix_cons|]. rewrite kind_at_Dir.
    destruct (find_entry name es); [done|]. by destruct q.
Qed.

Lemma kind_at_remove p t q : p <> [] ->
  kind_at (remove_all p t) q = if decide (p `prefix_of` q) then None else kind_at t q.
Proof.
  intros Hp. revert t q. induction p as [|name p IH]; intros t q; [done|].
  destruct t as [c|es].
  { replace (remove_all _ _) with (File c) by by destruct p. destruct q; simpl.
    - done.
    - by case_decide. }
  destruct q as [|m q].
  { rewrite decide_False by by intros ?%prefix_nil_inv.
    destruct p as [|n p]; [done|]. rewrite remove_all_cons. by destruct (find_entry name es). }
  destruct p as [|name' p].
  - change (remove_all [name] (Dir es)) with (Dir (del_entry name es)).
    rewrite !kind_at_Dir, find_del_entry. destruct (decide (m = name)) as [->|Hne].
    + by rewrite decide_True by by apply prefix_cons, prefix_nil.
    + rewrite decide_False; [done|]. by intros ?%prefix_cons_inv_1.
  - rewrite remove_all_cons.
    destruct (find_entry name es) as [t1|] eqn:E.
    + rewrite !kind_at_Dir, find_set_entry. destruct (decide (m = name)) as [->|Hne]; simpl.
      * rewrite IH, E by done. simpl. destruct (decide (name' :: p `prefix_of` q)) as [Hq|Hq].
        -- by rewrite decide_True by by apply prefix_cons.
        -- rewrite decide_False; [done|]. by intros ?%prefix_cons_inv_2.
      * rewrite decide_False; [done|]. by intros ?%prefix_cons_inv_1.
    + case_decide as Hpre; [|done]. pose proof (prefix_cons_inv_1 _ _ _ _ Hpre) as <-.
      by rewrite kind_at_Dir, E.
Qed.

(** ** Paths that do not meet *)

Definition apart (p q : path) : Prop := ~ p `prefix_of` q /\ ~ q `prefix_of` p.

#[export] Instance apart_symmetric : Symmetric apart.
Proof. intros p q [? ?]. done. Qed.

Lemma apart_cons name p q : apart (name :: p) (name :: q) -> apart p q.
Proof. intros [H1 H2]. split; intros H; [apply H1|apply H2]; by apply prefix_cons. Qed.

Lemma apart_app p q r s : apart p q -> apart (p ++ r) (q ++ s).
Proof.
  revert q. induction p as [|n p IH]; intros [|m q] [H1 H2];
    [by destruct H1; apply prefix_nil|by destruct H1; apply prefix_nil
    |by destruct H2; apply prefix_nil|].
  destruct (decide (n = m)) as [->|Hn]; [|by split; intros ?%prefix_cons_inv_1].
  destruct (IH q) as [H3 H4]; [by apply (apart_cons m)|].
  split; intros ?%prefix_cons_inv_2; auto.
Qed.

Lemma apart_siblings p n m : n <> m -> apart (p ++ [n]) (p ++ [m]).
Proof. intros Hn. split; intros ?%prefix_app_inv%prefix_cons_inv_1; congruence. Qed.

Lemma lookup_write_apart p c t t' q : write_file p c t = Some t' -> apart p q -> t' !! q = t !! q.
Proof.
  unfold lookup, tree_lookup. revert t t' q.
  induction p as [|n p IH]; intros t t' q Hw Hap.
  { destruct Hap as [[] _]. apply prefix_nil. }
  destruct q as [|m q]; [destruct Hap as [_ []]; apply prefix_nil|].
  destruct t as [c0|es]; [by destruct p|]. destruct p as [|n' p].
  - rewrite write_file_single in Hw. destruct (decide (m = n)) as [->|Hm].
    { destruct Hap as [[] _]. apply prefix_cons, prefix_nil. }
    assert (Some (Dir (set_entry n (File c) es)) = Some t') as [= <-].
    { by destruct (find_entry n es) as [[]|]. }
    simpl. by rewrite find_set_entry, decide_False.
  - rewrite write_file_cons in Hw. destruct (find_entry n es) as [t1|] eqn:E; simpl in Hw; [|done].
    destruct (write_file (n' :: p) c t1) as [t2|] eqn:Hw'; simpl in Hw; [|done].
    injection Hw as <-. simpl. rewrite find_set_entry.
    destruct (decide (m = n)) as [->|Hm]; [|done]. rewrite E. simpl.
    by apply (IH t1 t2 q Hw'), (apart_cons n).
Qed.

Lemma lookup_mkdir p t t' q : mkdir_all p t = Some t' -> ~ q `prefix_of` p -> t' !! q = t !! q.
Proof.
  unfold lookup, tree_lookup. revert t t' q.
  induction p as [|n p IH]; intros t t' q Hw Hq.
  { destruct t as [|es]; [done|]. by injection Hw as <-. }
  destruct q as [|m q]; [destruct Hq; apply prefix_nil|]. destruct t as [c|es]; [done|].
  simpl in Hw. destruct (mkdir_all p _) as [t1|] eqn:Hm; simpl in Hw; [|done]. injection Hw as <-.
  simpl. rewrite find_set_entry. destruct (decide (m = n)) as [->|]; [|done]. simpl.
  assert (~ q `prefix_of` p) as Hq' by by intros ?; apply Hq, prefix_cons.
  rewrite (IH _ t1 q Hm Hq'). destruct (find_entry n es) as [t2|]; simpl; [done|].
  destruct q; [|done]. destruct Hq'. apply prefix_nil.
Qed.

(** ** Laying a tree over a file system

    [overlay dst src k]: what is where after the tree [src] was copied to [dst] in [k].  What
    [src] has replaces what was there, the rest stays, and [dst] and the directories above it
    exist.  [CopyDir] and the archives both do this. *)

Fixpoint strip_prefix (p q : path) : option path :=
  match p, q with
  | [], _ => Some q
  | n :: p, m :: q => if decide (n = m) then strip_prefix p q else None
  | _ :: _, [] => None
  end.

Lemma strip_prefix_Some p q r : strip_prefix p q = Some r <-> q = p ++ r.
Proof.
  revert q. induction p as [|n p IH]; intros [|m q]; simpl; [naive_solver..|].
  case_decide as Hn; [rewrite IH|]; naive_solver.
Qed.

Lemma strip_prefix_app p r : strip_prefix p (p ++ r) = Some r.
Proof. by apply strip_prefix_Some. Qed.

Lemma strip_prefix_None p q : strip_prefix p q = None <-> ~ p `prefix_of` q.
Proof.
  destruct (strip_prefix p q) as [r|] eqn:E.
  - apply strip_prefix_Some in E as ->. split; [done|]. intros []. by apply prefix_app_r.
  - split; [|done]. intros _ [r ->]. by rewrite strip_prefix_app in E.
Qed.

Definition kinds := path -> option kind.

Definition overlay (dst : path) (src k : kinds) : kinds := fun q =>
  match strip_prefix dst q with
  | Some r => match src r with Some x => Some x | None => k q end
  | None => if decide (q `prefix_of` dst) then Some ADirectory else k q
  end.

(** Nothing is in the way: no file where a directory goes, no directory where a file goes. *)
Definition fits (dst : path) (src k : kinds) : Prop :=
  (forall q c, q `prefix_of` dst -> q <> dst -> k q <> Some (AFile c)) /\
  (forall r c, src r = Some ADirectory -> k (dst ++ r) <> Some (AFile c)) /\
  (forall r c, src r = Some (AFile c) -> k (dst ++ r) <> Some ADirectory).

#[export] Instance overlay_proper dst src :
  Proper (pointwise_relation path (=) ==> pointwise_relation path (=)) (overlay dst src).
Proof. intros k k' Hk q. unfold overlay. by rewrite (Hk q). Qed.

#[export] Instance fits_proper dst src : Proper (pointwise_relation path (=) ==> iff) (fits dst src).
Proof. intros k k' Hk. unfold fits. by setoid_rewrite Hk. Qed.

(** ** What the calls do, as overlays *)

Lemma write_overlay dst c fs fs' : write_file dst c fs = Some fs' ->
  forall q, kind_at fs' q = overlay dst (kind_at (File c)) (kind_at fs) q.
Proof.
  intros Hw q. rewrite (kind_at_write _ _ _ _ q Hw). unfold overlay.
  destruct (strip_prefix dst q) as [r|] eqn:E.
  - apply strip_prefix_Some in E as ->. destruct r as [|n r].
    + by rewrite app_nil_r, decide_True.
    + rewrite decide_False; [done|]. intros H%(f_equal length). rewrite length_app in H.
      simpl in H. lia.
  - apply strip_prefix_None in E. rewrite decide_False by by intros ->.
    case_decide as Hq; [|done]. destruct dst as [|name p _] using rev_ind; [by destruct fs|].
    apply write_file_parent in Hw as [Hp _]. destruct Hq as [r Hr].
    destruct r as [|x r _] using rev_ind; [by rewrite app_nil_r in Hr; subst; destruct E|].
    rewrite (assoc_L (++)) in Hr. apply app_inj_tail in Hr as [-> _].
    destruct r as [|x' r]; [by rewrite app_nil_r in Hp|]. by eapply (kind_at_parent _ _ (x' :: r)).
Qed.

Lemma mkdir_overlay dst fs fs' : mkdir_all dst fs = Some fs' ->
  forall q, kind_at fs' q = overlay dst (kind_at (Dir [])) (kind_at fs) q.
Proof.
  intros Hm q. rewrite (kind_at_mkdir _ _ _ q Hm). unfold overlay.
  destruct (strip_prefix dst q) as [r|] eqn:E; [|done].
  apply strip_prefix_Some in E as ->. destruct r as [|n r].
  - by rewrite app_nil_r, decide_True.
  - rewrite decide_False; [by rewrite kind_at_Dir|].
    intros H%prefix_length. rewrite length_app in H. simpl in H. lia.
Qed.

(** ** A directory is laid over entry by entry *)

Lemma find_entry_snoc m n t es : n ∉ es.*1 ->
  find_entry m (es ++ [(n, t)]) = if decide (m = n) then Some t else find_entry m es.
Proof.
  induction es as [|[n' t'] es IH]; simpl; [by case_decide|].
  rewrite not_elem_of_cons. intros [Hn Hes]. rewrite IH by done. repeat case_decide; congruence.
Qed.

Lemma find_entry_not_elem n es : n ∉ es.*1 -> find_entry n es = None.
Proof.
  intros Hn. destruct (find_entry n es) as [t|] eqn:E; [|done].
  destruct Hn. apply find_entry_elem in E. apply list_elem_of_fmap. by exists (n, t).
Qed.

(** Above [dst] the two may differ: an archive makes [dst] itself only at the end. *)
Definition laid (dst : path) (es : list (string * tree)) (k k' : kinds) : Prop :=
  (forall q, ~ q `prefix_of` dst -> k' q = overlay dst (kind_at (Dir es)) k q) /\
  (forall q c, q `prefix_of` dst -> k' q <> Some (AFile c)).

Lemma overlay_snoc dst es n t k k' : n ∉ es.*1 -> laid dst es k k' ->
  forall q, overlay (dst ++ [n]) (kind_at t) k' q = overlay dst (kind_at (Dir (es ++ [(n, t)]))) k q.
Proof.
  intros Hn [Hk _] q. unfold overlay in *.
  destruct (decide (q `prefix_of` dst)) as [Hq|Hq].
  - destruct (strip_prefix (dst ++ [n]) q) as [r|] eqn:E.
    { apply strip_prefix_Some in E as ->. exfalso. apply prefix_length in Hq.
      rewrite !length_app in Hq. simpl in Hq. lia. }
    rewrite decide_True by by apply prefix_app_r.
    destruct (strip_prefix dst q) as [r|] eqn:E'; [|done].
    apply strip_prefix_Some in E' as ->. destruct r as [|x r]; [by rewrite kind_at_nil|].
    exfalso. apply prefix_length in Hq. rewrite !length_app in Hq. simpl in Hq. lia.
  - specialize (Hk q Hq). rewrite Hk.
    destruct (strip_prefix dst q) as [r|] eqn:E.
    + apply strip_prefix_Some in E as ->. destruct r as [|m r]; [by rewrite app_nil_r in Hq|].
      rewrite !kind_at_Dir, find_entry_snoc by done. destruct (decide (m = n)) as [->|Hm]; simpl.
      * rewrite find_entry_not_elem by done. simpl.
        replace (dst ++ n :: r) with ((dst ++ [n]) ++ r) by by rewrite <- (assoc_L (++)).
        by rewrite strip_prefix_app.
      * assert (strip_prefix (dst ++ [n]) (dst ++ m :: r) = None) as ->.
        { apply strip_prefix_None. intros ?%prefix_app_inv%prefix_cons_inv_1. congruence. }
        rewrite decide_False; [done|]. intros ?%prefix_app_inv%prefix_cons_inv_1. congruence.
    + rewrite (decide_False (P := q `prefix_of` dst)) by done.
      assert (strip_prefix (dst ++ [n]) q = None) as ->.
      { apply strip_prefix_None in E. apply strip_prefix_None. intros [r ->]. apply E.
        rewrite <- (assoc_L (++)). by apply prefix_app_r. }
      rewrite decide_False; [done|]. intros [r Hr]. destruct r as [|x r _] using rev_ind.
      * rewrite app_nil_r in Hr. subst q. apply strip_prefix_None in E. apply E. by apply prefix_app_r.
      * rewrite (assoc_L (++)) in Hr. apply app_inj_tail in Hr as [Hr _]. apply Hq. by exists r.
Qed.

Lemma laid_start dst t k : kind_of t = ADirectory -> fits dst (kind_at t) k -> laid dst [] k k.
Proof.
  intros Ht (Hup & Hdir & _). split.
  - intros q Hq. unfold overlay. destruct (strip_prefix dst q) as [r|] eqn:E.
    + apply strip_prefix_Some in E as ->. destruct r as [|n r]; [by rewrite app_nil_r in Hq|].
      by rewrite kind_at_Dir.
    + by rewrite decide_False.
  - intros q c Hq. destruct (decide (q = dst)) as [->|Hne]; [|by apply Hup].
    rewrite <- (app_nil_r dst). apply Hdir. by rewrite kind_at_nil, Ht.
Qed.

Lemma laid_overlay dst es k k' :
  (forall q, k' q = overlay dst (kind_at (Dir es)) k q) -> laid dst es k k'.
Proof.
  intros Hk. split; [by intros q _|]. intros q c Hq. rewrite Hk. unfold overlay.
  destruct (strip_prefix dst q) as [r|] eqn:E; [|by rewrite decide_True].
  apply strip_prefix_Some in E as ->. destruct r as [|n r]; [by rewrite kind_at_nil|].
  exfalso. apply prefix_length in Hq. rewrite !length_app in Hq. simpl in Hq. lia.
Qed.

Lemma fits_entry dst es1 n t es2 k k' :
  NoDup (es1 ++ (n, t) :: es2).*1 -> fits dst (kind_at (Dir (es1 ++ (n, t) :: es2))) k ->
  laid dst es1 k k' -> fits (dst ++ [n]) (kind_at t) k'.
Proof.
  intros Hnd (_ & Hdir & Hfile) [Hk Hup].
  assert (find_entry n (es1 ++ (n, t) :: es2) = Some t) as Hfind.
  { apply elem_find_entry; [done|]. apply elem_of_app. right. left. }
  assert (forall r, k' ((dst ++ [n]) ++ r) = k (dst ++ n :: r)) as Hsame.
  { intros r. rewrite <- (assoc_L (++)). simpl. rewrite Hk.
    - unfold overlay. rewrite strip_prefix_app, kind_at_Dir, find_entry_not_elem; [done|].
      rewrite fmap_app in Hnd. apply NoDup_app in Hnd as (_ & Hdisj & _). intros Hin.
      apply (Hdisj n Hin). left.
    - intros H%prefix_length. rewrite length_app in H. simpl in H. lia. }
  split; [|split].
  - intros q c Hq Hne. apply Hup. destruct Hq as [r Hr].
    destruct r as [|x r _] using rev_ind; [by rewrite app_nil_r in Hr|].
    rewrite (assoc_L (++)) in Hr. apply app_inj_tail in Hr as [-> _]. by apply prefix_app_r.
  - intros r c Hr. rewrite Hsame. apply (Hdir (n :: r)). by rewrite kind_at_Dir, Hfind.
  - intros r c Hr. rewrite Hsame. apply (Hfile (n :: r) c). by rewrite kind_at_Dir, Hfind.
Qed.

Lemma laid_finish dst es k k' : laid dst es k k' ->
  forall q, overlay dst (kind_at (Dir [])) k' q = overlay dst (kind_at (Dir es)) k q.
Proof.
  intros [Hk _] q. destruct (decide (q `prefix_of` dst)) as [Hq|Hq].
  - unfold overlay. destruct (strip_prefix dst q) as [[|n r]|] eqn:E; [by rewrite !kind_at_nil| |].
    + apply strip_prefix_Some in E as ->. apply prefix_length in Hq.
      rewrite length_app in Hq. simpl in Hq. lia.
    + by rewrite !decide_True.
  - rewrite <- (Hk q Hq). unfold overlay. destruct (strip_prefix dst q) as [[|n r]|] eqn:E.
    + apply strip_prefix_Some in E as ->. by rewrite app_nil_r in Hq.
    + by rewrite kind_at_Dir.
    + by rewrite decide_False.
Qed.

(** A file is laid over its directory. *)
Lemma overlay_parent p n c k q :
  overlay (p ++ [n]) (kind_at (File c)) (overlay p (kind_at (Dir [])) k) q =
  overlay (p ++ [n]) (kind_at (File c)) k q.
Proof.
  unfold overlay at 1 3. destruct (strip_prefix (p ++ [n]) q) as [r|] eqn:E.
  - apply strip_prefix_Some in E as ->. destruct (kind_at (File c) r); [done|].
    unfold overlay. rewrite <- (assoc_L (++)), strip_prefix_app. done.
  - case_decide as Hq; [done|]. unfold overlay. destruct (strip_prefix p q) as [[|m r]|] eqn:E'.
    + apply strip_prefix_Some in E' as ->. rewrite app_nil_r in Hq. by destruct Hq; apply prefix_app_r.
    + by rewrite kind_at_Dir.
    + rewrite decide_False; [done|]. intros ?. by apply Hq, prefix_app_r.
Qed.

(** ** Trees whose directories name each entry once, and how deep they are *)

Fixpoint height (t : tree) : nat :=
  match t with
  | File _ => 0
  | Dir es => S (foldr (fun e h => Nat.max (height e.2) h) 0%nat es)
  end.

Fixpoint distinct (t : tree) : Prop :=
  match t with
  | File _ => True
  | Dir es => NoDup es.*1 /\ foldr (fun e P => distinct e.2 /\ P) True es
  end.

Lemma distinct_Dir es : distinct (Dir es) <-> NoDup es.*1 /\ Forall (fun e => distinct e.2) es.
Proof.
  simpl. f_equiv. induction es as [|e es IH]; simpl; [by rewrite Forall_nil|].
  by rewrite Forall_cons, IH.
Qed.

Lemma height_entry e es : e ∈ es -> (height e.2 < height (Dir es))%nat.
Proof.
  induction es as [|e' es IH]; simpl; [by intros ?%elem_of_nil|].
  rewrite elem_of_cons. intros [->|Hin]; [lia|]. specialize (IH Hin). simpl in IH. lia.
Qed.

Lemma lookup_elem es n t r : NoDup es.*1 -> (n, t) ∈ es -> Dir es !! (n :: r) = t !! r.
Proof. intros Hnd Hin. by rewrite lookup_Dir, (elem_find_entry n t es Hnd Hin). Qed.

Lemma lookup_child (fs : tree) p es n t : fs !! p = Some (Dir es) -> NoDup es.*1 -> (n, t) ∈ es ->
  fs !! (p ++ [n]) = Some t.
Proof.
  intros Hp Hnd Hin. rewrite lookup_tree_app, Hp. change (Dir es !! [n] = Some t).
  by rewrite (lookup_elem es n t).
Qed.

Lemma lookup_entry (fs : tree) p es1 n t es2 : fs !! p = Some (Dir (es1 ++ (n, t) :: es2)) ->
  NoDup (es1 ++ (n, t) :: es2).*1 -> fs !! (p ++ [n]) = Some t.
Proof.
  intros Hp Hnd. eapply lookup_child; [done..|]. apply elem_of_app. right. left.
Qed.

(** ** Well-formed trees: the entries of every directory are in strict order *)

Definition before (a b : string) : Prop := String.compare a b = Lt.

#[export] Instance before_transitive : Transitive before.
Proof.
  unfold before. intros a. induction a as [|x a IH]; intros [|y b] [|z c]; simpl; try done.
  unfold Ascii.compare.
  destruct (N.compare_spec (N_of_ascii x) (N_of_ascii y)) as [Hxy|Hxy|Hxy]; [| |done];
    destruct (N.compare_spec (N_of_ascii y) (N_of_ascii z)) as [Hyz|Hyz|Hyz]; try done.
  - rewrite (proj2 (N.compare_eq_iff _ _)) by congruence. apply IH.
  - intros _ _. by rewrite (proj2 (N.compare_lt_iff _ _)) by lia.
  - intros _ _. by rewrite (proj2 (N.compare_lt_iff _ _)) by lia.
  - intros _ _. by rewrite (proj2 (N.compare_lt_iff _ _)) by lia.
Qed.

Fixpoint well_formed (t : tree) : Prop :=
  match t with
  | File _ => True
  | Dir es => StronglySorted before es.*1 /\ foldr (fun e P => well_formed e.2 /\ P) True es
  end.

Lemma well_formed_Dir es :
  well_formed (Dir es) <-> StronglySorted before es.*1 /\ Forall (fun e => well_formed e.2) es.
Proof.
  simpl. f_equiv. induction es as [|e es IH]; simpl; [by rewrite Forall_nil|].
  by rewrite Forall_cons, IH.
Qed.

Lemma sorted_NoDup l : StronglySorted before l -> NoDup l.
Proof.
  induction 1 as [|n l _ IH Hn]; [apply NoDup_nil_2|]. apply NoDup_cons_2; [|done].
  intros Hin. rewrite Forall_forall in Hn. specialize (Hn n Hin). unfold before in Hn.
  by rewrite compare_refl in Hn.
Qed.

Lemma well_formed_distinct t : well_formed t -> distinct t.
Proof.
  induction t as [c|es IH] using tree_entries_ind; [done|].
  rewrite well_formed_Dir, distinct_Dir. intros [Hs Hes]. split; [by apply sorted_NoDup|].
  rewrite Forall_forall in *. auto.
Qed.

Lemma set_entry_names name t es m : m ∈ (set_entry name t es).*1 -> m = name \/ m ∈ es.*1.
Proof.
  induction es as [|[n t'] es IH]; simpl.
  - intros ?%list_elem_of_singleton. by left.
  - destruct (String.compare name n); simpl; rewrite !elem_of_cons; naive_solver.
Qed.

Lemma set_entry_sorted name t es : StronglySorted before es.*1 ->
  StronglySorted before (set_entry name t es).*1.
Proof.
  induction es as [|[n t'] es IH]; simpl; [intros _; repeat constructor|].
  intros [Hs Hn]%StronglySorted_inv. destruct (String.compare name n) eqn:E; simpl.
  - apply String.compare_eq_iff in E as ->. by constructor.
  - constructor; [by constructor|]. constructor; [done|].
    eapply Forall_impl; [done|]. intros m Hm. by transitivity n.
  - constructor; [by apply IH|]. apply Forall_forall. intros m [->|Hm]%set_entry_names.
    + unfold before. by rewrite String.compare_antisym, E.
    + rewrite Forall_forall in Hn. by apply Hn.
Qed.

Lemma set_entry_well_formed name t es : well_formed t -> well_formed (Dir es) ->
  well_formed (Dir (set_entry name t es)).
Proof.
  rewrite !well_formed_Dir. intros Ht [Hs Hes]. split; [by apply set_entry_sorted|].
  clear Hs. induction es as [|[n t'] es IH]; simpl; [by constructor|].
  apply Forall_cons in Hes as [Ht' Hes].
  destruct (String.compare name n); repeat constructor; auto.
Qed.

Lemma find_entry_well_formed name t es : well_formed (Dir es) -> find_entry name es = Some t ->
  well_formed t.
Proof.
  rewrite well_formed_Dir. intros [_ Hes] Hf%find_entry_elem. rewrite Forall_forall in Hes.
  by apply (Hes (name, t)).
Qed.

Lemma lookup_well_formed t p t' : well_formed t -> t !! p = Some t' -> well_formed t'.
Proof.
  unfold lookup, tree_lookup. revert t. induction p as [|n p IH]; intros t Ht; [by destruct t; intros [= <-]|].
  destruct t as [c|es]; simpl; [done|]. destruct (find_entry n es) as [t1|] eqn:E; simpl; [|done].
  apply IH. by eapply find_entry_well_formed.
Qed.

Lemma write_file_well_formed p c t t' : well_formed t -> write_file p c t = Some t' -> well_formed t'.
Proof.
  revert t t'. induction p as [|n p IH]; intros t t' Ht Hw; [by destruct t|].
  destruct t as [c0|es]; [by destruct p|]. destruct p as [|n' p].
  - rewrite write_file_single in Hw.
    destruct (find_entry n es) as [[]|]; simplify_eq; by apply set_entry_well_formed.
  - rewrite write_file_cons in Hw. destruct (find_entry n es) as [t1|] eqn:E; simpl in Hw; [|done].
    destruct (write_file (n' :: p) c t1) as [t2|] eqn:Hw'; simpl in Hw; [|done]. simplify_eq.
    apply set_entry_well_formed; [|done]. eapply IH; [|done]. by eapply find_entry_well_formed.
Qed.

Lemma mkdir_all_well_formed p t t' : well_formed t -> mkdir_all p t = Some t' -> well_formed t'.
Proof.
  revert t t'. induction p as [|n p IH]; intros [c|es] t' Ht Hm; simpl in Hm; simplify_eq; [done|].
  destruct (mkdir_all p _) as [t1|] eqn:Hm1; simpl in Hm; [|done]. simplify_eq.
  apply set_entry_well_formed; [|done]. eapply IH; [|done].
  destruct (find_entry n es) as [t2|] eqn:E; simpl; [by eapply find_entry_well_formed|].
  by repeat constructor.
Qed.

Lemma del_entry_sorted name es : StronglySorted before es.*1 ->
  StronglySorted before (del_entry name es).*1.
Proof.
  unfold del_entry. induction es as [|[n t] es IH]; simpl; [done|].
  intros [Hs Hn]%StronglySorted_inv. destruct (decide (n = name)) as [->|].
  - rewrite filter_cons_False by naive_solver. by apply IH.
  - rewrite filter_cons_True by done. simpl. constructor; [by apply IH|].
    rewrite Forall_forall in Hn |- *. intros m ([m' t'] & -> & [_ Hin]%list_elem_of_filter)%list_elem_of_fmap.
    apply Hn, list_elem_of_fmap. by exists (m', t').
Qed.

Lemma remove_all_well_formed p t : well_formed t -> well_formed (remove_all p t).
Proof.
  revert t. induction p as [|n p IH]; intros t Ht; [by destruct t|].
  destruct t as [c0|es]; [by destruct p|]. destruct p as [|n' p].
  - change (remove_all [n] (Dir es)) with (Dir (del_entry n es)).
    rewrite well_formed_Dir in *. destruct Ht as [Hs Hes]. split; [by apply del_entry_sorted|].
    rewrite Forall_forall in *. intros e [_ He]%list_elem_of_filter. by apply Hes.
  - rewrite remove_all_cons. destruct (find_entry n es) as [t1|] eqn:E; [|done].
    apply set_entry_well_formed; [|done]. apply IH. by eapply find_entry_well_formed.
Qed.

(** ** The depth of a tree from what is where *)

Lemma height_kinds t h : distinct t ->
  (forall p, kind_at t p = Some ADirectory -> (length p < h)%nat) -> (height t <= h)%nat.
Proof.
  revert h. induction t as [c|es IH] using tree_entries_ind; intros h Hd Hh; simpl; [lia|].
  apply distinct_Dir in Hd as [Hnd Hd].
  destruct h as [|h]; [specialize (Hh []); simpl in Hh; rewrite kind_at_nil in Hh; by specialize (Hh eq_refl); lia|].
  apply le_n_S. assert (forall e, e ∈ es -> (height e.2 <= h)%nat) as Hall.
  { intros [n t] He. rewrite Forall_forall in IH, Hd. apply (IH (n, t)); [done|by apply (Hd (n, t))|].
    intros p Hp. specialize (Hh (n :: p)). simpl in Hh. apply Nat.succ_lt_mono, Hh.
    by rewrite kind_at_Dir, (elem_find_entry n t). }
  clear -Hall. induction es as [|e es IHl]; simpl; [lia|].
  pose proof (Hall e ltac:(left)). apply Nat.max_lub; [done|]. apply IHl. intros. apply Hall. by right.
Qed.

Lemma kinds_height t p : kind_at t p = Some ADirectory -> (length p < height t)%nat.
Proof.
  revert p. induction t as [c|es IH] using tree_entries_ind; intros [|n p]; simpl; try done; [lia|].
  rewrite kind_at_Dir. destruct (find_entry n es) as [t|] eqn:E; simpl; [|done]. intros Hp.
  apply find_entry_elem in E. rewrite Forall_forall in IH. specialize (IH (n, t) E p Hp).
  pose proof (height_entry (n, t) es E) as Hh. simpl in *. lia.
Qed.
