(* ===== verification/Files.v ===== *)
(** * Copies and archives: [pkg/utils/file.go], [pkg/utils/compress.go]

    The functions work on the tree of [FileSystem]; the contents of an archive are a list of
    entries, since the tar and gzip formats are those of the standard library.  File modes
    are left out.  [CopyDir] follows the directory it reads, which may grow while it is
    copied: it has fuel, and the theorems give the amount that suffices. *)

From S2P Require Import Prelude GoStrings FileSystem.
Local Open Scope Z_scope.

(** ** [file.go] *)

Definition PathExists (os : OS) (fs : tree) (p : path) : res unit bool :=
  if stat_fails os p then Err tt
  else match fs !! p with Some _ => Ok true | None => Ok false end.

Definition IsDir (os : OS) (fs : tree) (p : path) : bool :=
  match Stat os fs p with None => false | Some t => is_dir t end.

Definition IsFile (os : OS) (fs : tree) (p : path) : bool := negb (IsDir os fs p).

(** [os.Open]: files and directories can be opened. *)
Definition Open (os : OS) (fs : tree) (p : path) : option tree :=
  if read_fails os p then None else fs !! p.

(** [os.ReadDir] reads to the end and never returns [io.EOF]: the branch for it is dead. *)
Definition IsEmpty (os : OS) (fs : tree) (name : path) : res unit bool :=
  match Open os fs name with
  | None => Err tt
  | Some _ =>
      match ReadDir os fs name with
      | None => Err tt
      | Some _ => Ok false
      end
  end.

(** The file system afterwards, and whether the error is nil. *)
Definition CopyFile (os : OS) (fs : tree) (src dst : path) : tree * bool :=
  match Open os fs src with
  | None => (fs, false)
  | Some _ =>
      match WriteFile os fs dst "" with
      | None => (fs, false)
      | Some fs =>
          match fs !! src with
          | Some (File content) =>
              match WriteFile os fs dst content with
              | None => (fs, false)
              | Some fs => (fs, match Stat os fs src with Some _ => true | None => false end)
              end
          | _ => (fs, false)
          end
      end
  end.

Fixpoint CopyDir (fuel : nat) (os : OS) (fs : tree) (src dst : path) : option (tree * bool) :=
  match fuel with
  | O => None
  | S fuel =>
      match Stat os fs src with
      | None => Some (fs, false)
      | Some _ =>
          match MkdirAll os fs dst with
          | None => Some (fs, false)
          | Some fs =>
              match ReadDir os fs src with
              | None => Some (fs, false)
              | Some fds =>
                  fs ← foldl (fun acc '(name, fd) =>
                         fs ← acc;
                         let srcfp := src ++ [name] in
                         let dstfp := dst ++ [name] in
                         if is_dir fd then fst <$> CopyDir fuel os fs srcfp dstfp
                         else Some (CopyFile os fs srcfp dstfp).1) (Some fs) fds;
                  Some (fs, true)
              end
          end
      end
  end.

(** ** [compress.go]: writing *)

(** An entry of an archive: a directory or a file, its name by components, its data. *)
Record tar_entry := mkTar {
  tar_is_dir : bool;
  tar_name : path;
  tar_data : string
}.

(** The writer: the entries so far, and whether a header lacks its data, after which
    [WriteHeader] fails. *)
Record tar_writer := mkWriter {
  written : list tar_entry;
  lacks_data : bool
}.

Definition write_header (w : tar_writer) (e : tar_entry) : option tar_writer :=
  if lacks_data w then None else Some (mkWriter (written w ++ [e]) false).

(** The writer afterwards, and whether the error is nil. *)
Definition tarFile (os : OS) (fs : tree) (srcBase srcRelative : path) (content : string)
    (w : tar_writer) : tar_writer * bool :=
  let filepath := srcBase ++ srcRelative in
  match write_header w (mkTar false srcRelative content) with
  | None => (w, false)
  | Some w' =>
      match ReadFile os fs filepath with
      | None => (if decide (content = "") then w' else mkWriter (written w) true, false)
      | Some _ => (w', true)
      end
  end.

(** The loop over the entries of a directory: [inr] when the information on one cannot be
    read, which ends the function.  The errors of the entries themselves are dropped. *)
Fixpoint tar_entries (info_fails : string -> bool) (write : string -> tree -> tar_writer -> tar_writer)
    (es : list (string * tree)) (w : tar_writer) : tar_writer + tar_writer :=
  match es with
  | [] => inl w
  | (name, t) :: es =>
      if info_fails name then inr w else tar_entries info_fails write es (write name t w)
  end.

Fixpoint tarDir (os : OS) (fs : tree) (srcBase srcRelative : path) (t : tree) (w : tar_writer)
    {struct t} : tar_writer * bool :=
  match t with
  | File content => tarFile os fs srcBase srcRelative content w
  | Dir es =>
      let dirPath := srcBase ++ srcRelative in
      if readdir_fails os dirPath then (w, false)
      else
        match tar_entries (fun name => stat_fails os (dirPath ++ [name]))
                (fun name t w => (tarDir os fs srcBase (srcRelative ++ [name]) t w).1) es w
        with
        | inr w => (w, false)
        | inl w =>
            if decide (srcRelative = []) then (w, true)
            else match write_header w (mkTar true srcRelative "") with
                 | None => (w, false)
                 | Some w => (w, true)
                 end
        end
  end.

(** The archive and whether [TarGZ] returns nil; [dst] is created before the tree is read.
    [path.Split] of a clean path gives its parent and its last component. *)
Definition TarGZ (os : OS) (fs : tree) (dst src : path) : option (tar_writer * bool) :=
  match Stat os fs src with
  | None => None
  | Some _ =>
      match WriteFile os fs dst "" with
      | None => None
      | Some fs =>
          let srcRelative := match last src with Some name => [name] | None => [] end in
          match fs !! src with
          | None => None
          | Some t =>
              let '(w, ok) := tarDir os fs (removelast src) srcRelative t (mkWriter [] false) in
              Some (w, ok && negb (lacks_data w))
          end
      end
  end.

(** ** [compress.go]: reading *)

(** [path.Join] of a clean path and a name that may contain [.] and [..]. *)
Definition Join_path (p name : path) : path :=
  foldl (fun p n =>
    if decide (n = "" \/ n = ".") then p
    else if decide (n = "..") then removelast p else p ++ [n]) p name.

(** [None]: the file cannot be created, which ends [UnTarGZ]. *)
Definition unTarFile (os : OS) (fs : tree) (dstFile : path) (data : string) : option tree :=
  fs ← WriteFile os fs dstFile "";
  WriteFile os fs dstFile data.

(** One entry; the errors of [MkdirAll] are dropped. *)
Definition untar_entry (os : OS) (dstDir : path) (fs : tree) (e : tar_entry) : option tree :=
  let dstFullPath := Join_path dstDir (tar_name e) in
  if tar_is_dir e then Some (default fs (MkdirAll os fs dstFullPath))
  else unTarFile os (default fs (MkdirAll os fs (removelast dstFullPath))) dstFullPath (tar_data e).

Fixpoint untar (os : OS) (dstDir : path) (fs : tree) (es : list tar_entry) : tree * bool :=
  match es with
  | [] => (fs, true)
  | e :: es =>
      match untar_entry os dstDir fs e with
      | None => (default fs (MkdirAll os fs (removelast (Join_path dstDir (tar_name e)))), false)
      | Some fs => untar os dstDir fs es
      end
  end.

(** The archive is [None] if its compression is not valid; else its entries, and whether they
    end well.  The result is the file system and whether the error is nil. *)
Definition UnTarGZ (os : OS) (fs : tree) (dstDir : path) (archive : option (list tar_entry * bool))
    : tree * bool :=
  match archive with
  | None => (fs, false)
  | Some (es, complete) =>
      let '(fs, ok) := untar os dstDir fs es in (fs, ok && complete)
  end.

(** *** [TestTarGZFunc], [TestUnTarGZFunc]

    One tree in the working directory and its archive there; [read_archive] reads the bytes of
    an archive.  A directory in its place cannot be read. *)
Definition test_tree : string := "categraf-v0.3.37-linux-amd64".
Definition test_archive : string := test_tree +:+ ".tar.gz".

Definition TestTarGZFunc (os : OS) (fs : tree) (cwd : path) : option (tar_writer * bool) :=
  TarGZ os fs (cwd ++ [test_archive]) (cwd ++ [test_tree]).

Definition TestUnTarGZFunc (os : OS) (fs : tree) (cwd : path)
    (read_archive : string -> option (list tar_entry * bool)) : tree * bool :=
  match Open os fs (cwd ++ [test_archive]) with
  | None => (fs, false)
  | Some (Dir _) => UnTarGZ os fs cwd None
  | Some (File c) => UnTarGZ os fs cwd (read_archive c)
  end.

(** * Lemmas *)

(** What a call that lays [t] over [dst] promises: [dst] holds [t], and nothing apart from
    [dst] is touched. *)
Definition laid_over (dst : path) (t fs fs' : tree) : Prop :=
  (forall q, kind_at fs' q = overlay dst (kind_at t) (kind_at fs) q) /\
  (forall q, apart dst q -> fs' !! q = fs !! q).

Lemma laid_over_write os dst c fs : write_fails os dst = false ->
  (exists p name, dst = p ++ [name] /\ kind_at fs p = Some ADirectory) ->
  kind_at fs dst <> Some ADirectory ->
  exists fs', WriteFile os fs dst c = Some fs' /\ laid_over dst (File c) fs fs'.
Proof.
  intros Hos (p & name & -> & Hp) Hnot. unfold WriteFile. rewrite Hos.
  destruct (write_file_Some p name c fs Hp Hnot) as [fs' Hw]. exists fs'. split; [done|].
  split; [by apply write_overlay|]. intros q Hq. by apply (lookup_write_apart (p ++ [name]) c).
Qed.

Lemma laid_over_mkdir os dst fs : mkdir_fails os dst = false ->
  (forall q c, q `prefix_of` dst -> kind_at fs q <> Some (AFile c)) ->
  exists fs', MkdirAll os fs dst = Some fs' /\ laid_over dst (Dir []) fs fs' /\
    forall q, ~ q `prefix_of` dst -> fs' !! q = fs !! q.
Proof.
  intros Hos Hno. unfold MkdirAll. rewrite Hos.
  destruct (mkdir_all_Some dst fs Hno) as [fs' Hm]. exists fs'. split; [done|].
  assert (forall q, ~ q `prefix_of` dst -> fs' !! q = fs !! q) as Hq
    by by intros q Hq; apply (lookup_mkdir dst).
  split; [|done]. split; [by apply mkdir_overlay|]. intros q [_ Hap]. by apply Hq.
Qed.

(** Writing twice leaves what the second call wrote. *)
Lemma laid_over_rewrite dst c c' fs fs1 fs2 :
  laid_over dst (File c) fs fs1 -> laid_over dst (File c') fs1 fs2 -> laid_over dst (File c') fs fs2.
Proof.
  intros [Hk1 Ha1] [Hk2 Ha2]. split; [|intros q Hq; by rewrite Ha2, Ha1].
  intros q. rewrite Hk2. unfold overlay. rewrite Hk1. unfold overlay.
  destruct (strip_prefix dst q) as [[|n r]|]; [by rewrite !kind_at_nil|done|].
  by case_decide.
Qed.

Lemma CopyFile_lays fs src dst c :
  fs !! src = Some (File c) -> apart src dst ->
  (exists p name, dst = p ++ [name] /\ kind_at fs p = Some ADirectory) ->
  kind_at fs dst <> Some ADirectory ->
  exists fs', CopyFile willing_os fs src dst = (fs', true) /\ laid_over dst (File c) fs fs'.
Proof.
  intros Hsrc Hap Hparent Hnot. unfold CopyFile, Open. rewrite Hsrc. simpl.
  destruct (laid_over_write willing_os dst "" fs) as (fs1 & -> & Hfs1); [done..|].
  assert (fs1 !! src = Some (File c)) as ->.
  { rewrite <- Hsrc. destruct Hfs1 as [_ Ha]. by apply Ha. }
  destruct Hfs1 as [Hk1 Ha1].
  destruct (laid_over_write willing_os dst c fs1) as (fs2 & -> & Hfs2); [done| | |].
  - destruct Hparent as (p & name & -> & Hp). exists p, name. split; [done|]. rewrite Hk1.
    unfold overlay. destruct (strip_prefix _ p) as [r|] eqn:E.
    + apply strip_prefix_Some in E. apply (f_equal length) in E. rewrite !length_app in E.
      simpl in E. lia.
    + by rewrite decide_True by by apply prefix_app_r.
  - rewrite Hk1. unfold overlay.
    by rewrite <- (app_nil_r dst) at 2; rewrite strip_prefix_app, kind_at_nil.
  - unfold Stat. simpl. destruct Hfs2 as [Hk2 Ha2]. rewrite Ha2, Ha1, Hsrc by done.
    exists fs2. split; [done|]. eapply laid_over_rewrite; split; eauto.
Qed.

(** The loop of [CopyDir] over the entries read. *)
Definition copy_entries (fuel : nat) (os : OS) (src dst : path) (fds : list (string * tree))
    (acc : option tree) : option tree :=
  foldl (fun acc '(name, fd) =>
    fs ← acc;
    if is_dir fd then fst <$> CopyDir fuel os fs (src ++ [name]) (dst ++ [name])
    else Some (CopyFile os fs (src ++ [name]) (dst ++ [name])).1) acc fds.
#[global] Arguments copy_entries : simpl never.

(** [CopyDir] does what it says for a tree it fits, with fuel for its depth. *)
Definition copies (fuel : nat) (t : tree) : Prop :=
  forall fs src dst, is_dir t = true -> fs !! src = Some t -> apart src dst ->
    fits dst (kind_at t) (kind_at fs) ->
    exists fs', CopyDir fuel willing_os fs src dst = Some (fs', true) /\ laid_over dst t fs fs'.

Lemma apart_entry src dst (n : string) : apart src dst -> apart src (dst ++ [n]).
Proof. intros H. rewrite <- (app_nil_r src). by apply apart_app. Qed.

Lemma laid_is_dir dst es k fs : (forall q, kind_at fs q = overlay dst (kind_at (Dir es)) k q) ->
  kind_at fs dst = Some ADirectory.
Proof.
  intros ->. unfold overlay. rewrite <- (app_nil_r dst) at 2.
  by rewrite strip_prefix_app, kind_at_nil.
Qed.

(** One entry: a directory by recursion, a file by [CopyFile]. *)
Lemma copy_entry fuel fs0 fs src dst es1 n t es2 :
  copies fuel t -> NoDup (es1 ++ (n, t) :: es2).*1 ->
  fs !! src = Some (Dir (es1 ++ (n, t) :: es2)) -> apart src dst ->
  fits dst (kind_at (Dir (es1 ++ (n, t) :: es2))) (kind_at fs0) ->
  laid_over dst (Dir es1) fs0 fs ->
  exists fs', copy_entries fuel willing_os src dst [(n, t)] (Some fs) = Some fs' /\
    laid_over dst (Dir (es1 ++ [(n, t)])) fs0 fs'.
Proof.
  intros Hcp Hnd Hsrc Hap Hfits [Hk Ha].
  pose proof (laid_overlay dst es1 _ _ Hk) as Hlaid.
  pose proof (fits_entry dst es1 n t es2 _ _ Hnd Hfits Hlaid) as Hfit.
  pose proof (lookup_entry fs src es1 n t es2 Hsrc Hnd) as Hfs.
  assert (apart (src ++ [n]) (dst ++ [n])) as Hapn by by apply apart_app.
  assert (exists fs', copy_entries fuel willing_os src dst [(n, t)] (Some fs) = Some fs' /\
    laid_over (dst ++ [n]) t fs fs') as (fs' & Hcopy & Hk' & Ha').
  { unfold copy_entries. simpl. destruct (is_dir t) eqn:Ht.
    - destruct (Hcp fs (src ++ [n]) (dst ++ [n])) as (fs' & -> & Hfs'); [done..|]. by exists fs'.
    - destruct t as [c|]; [|done].
      destruct (CopyFile_lays fs (src ++ [n]) (dst ++ [n]) c) as (fs' & -> & Hfs'); [done..| | |].
      + exists dst, n. split; [done|]. by eapply laid_is_dir.
      + destruct Hfit as (_ & _ & Hfile). rewrite <- (app_nil_r (dst ++ [n])). by apply (Hfile [] c).
      + by exists fs'. }
  exists fs'. split; [done|]. split.
  - intros q. rewrite Hk'. apply overlay_snoc; [|done].
    rewrite fmap_app in Hnd. apply NoDup_app in Hnd as (_ & Hdisj & _).
    intros Hin. apply (Hdisj n Hin). left.
  - intros q Hq. rewrite Ha', Ha; [done|done|]. rewrite <- (app_nil_r q). by apply apart_app.
Qed.

Lemma copy_entries_lays fuel fs0 src dst es2 es1 fs :
  Forall (fun e => copies fuel e.2) es2 -> NoDup (es1 ++ es2).*1 ->
  fs0 !! src = Some (Dir (es1 ++ es2)) -> apart src dst ->
  fits dst (kind_at (Dir (es1 ++ es2))) (kind_at fs0) ->
  laid_over dst (Dir es1) fs0 fs ->
  exists fs', copy_entries fuel willing_os src dst es2 (Some fs) = Some fs' /\
    laid_over dst (Dir (es1 ++ es2)) fs0 fs'.
Proof.
  revert es1 fs. induction es2 as [|[n t] es2 IH]; intros es1 fs Hcp Hnd Hsrc Hap Hfits Hlaid.
  { rewrite app_nil_r in *. by exists fs. }
  apply Forall_cons in Hcp as [Ht Hcp].
  destruct (copy_entry fuel fs0 fs src dst es1 n t es2) as (fs1 & Hone & Hfs1);
    [done|done| |done..|].
  - destruct Hlaid as [_ Ha]. rewrite Ha; [done|by symmetry].
  - replace (es1 ++ (n, t) :: es2) with ((es1 ++ [(n, t)]) ++ es2) in *
      by by rewrite <- (assoc_L (++)).
    destruct (IH (es1 ++ [(n, t)]) fs1) as (fs2 & Hrest & Hfs2); [done..|].
    exists fs2. split; [|done]. revert Hone Hrest. unfold copy_entries. simpl. by intros ->.
Qed.

Lemma CopyDir_lays t : distinct t -> forall fuel, (height t < fuel)%nat -> copies fuel t.
Proof.
  induction t as [c|es IH] using tree_entries_ind; intros Hd fuel Hfuel fs src dst Hdir Hsrc Hap Hfits;
    [done|].
  apply distinct_Dir in Hd as [Hnd Hd]. destruct fuel as [|fuel]; [lia|]. simpl. unfold Stat.
  simpl. rewrite Hsrc.
  destruct (laid_over_mkdir willing_os dst fs) as (fs1 & -> & Hfs1 & _); [done| |].
  { intros q c Hq. destruct Hfits as (Hup & Hdirs & _).
    destruct (decide (q = dst)) as [->|]; [|by apply Hup].
    rewrite <- (app_nil_r dst). by apply Hdirs. }
  unfold ReadDir. simpl. destruct Hfs1 as [Hk1 Ha1].
  rewrite Ha1, Hsrc by by symmetry.
  destruct (copy_entries_lays fuel fs src dst es [] fs1) as (fs2 & Hall & Hfs2); [|done..|].
  - rewrite Forall_forall in IH, Hd |- *. intros e He. apply IH; [done|by apply Hd|].
    pose proof (height_entry e es He). lia.
  - unfold copy_entries in Hall. rewrite Hall. simpl. by exists fs2.
Qed.

(** ** Archives *)

(** The names that [path.Join] leaves alone. *)
Definition plain_name (n : string) : Prop := n <> "" /\ n <> "." /\ n <> "..".

Fixpoint plain (t : tree) : Prop :=
  match t with
  | File _ => True
  | Dir es => foldr (fun e P => plain_name e.1 /\ plain e.2 /\ P) True es
  end.

Lemma plain_Dir es : plain (Dir es) <-> Forall (fun e => plain_name e.1 /\ plain e.2) es.
Proof.
  simpl. induction es as [|e es IH]; simpl; [by rewrite Forall_nil|].
  rewrite Forall_cons, IH. tauto.
Qed.

Lemma Join_path_plain p l : Forall plain_name l -> Join_path p l = p ++ l.
Proof.
  unfold Join_path. revert p. induction l as [|n l IH]; intros p Hl; simpl; [by rewrite app_nil_r|].
  apply Forall_cons in Hl as [(H1 & H2 & H3) Hl]. rewrite decide_False by tauto.
  rewrite decide_False by done. rewrite IH by done. by rewrite <- (assoc_L (++)).
Qed.

(** The entries of a tree: a directory comes after what it holds. *)
Fixpoint entries_of (rel : path) (t : tree) : list tar_entry :=
  match t with
  | File c => [mkTar false rel c]
  | Dir es =>
      foldr (fun e l => entries_of (rel ++ [e.1]) e.2 ++ l) [] es ++
      (if decide (rel = []) then [] else [mkTar true rel ""])
  end.

Lemma tarDir_entries fs base t : distinct t -> forall rel w,
  fs !! (base ++ rel) = Some t -> lacks_data w = false ->
  tarDir willing_os fs base rel t w = (mkWriter (written w ++ entries_of rel t) false, true).
Proof.
  induction t as [c|es IH] using tree_entries_ind; intros Hd rel w Hfs Hw.
  - simpl. unfold tarFile, write_header, ReadFile. simpl. by rewrite Hw, Hfs.
  - apply distinct_Dir in Hd as [Hnd Hd]. simpl.
    assert (forall es2 es1 w, es1 ++ es2 = es -> lacks_data w = false ->
      tar_entries (fun _ => false)
        (fun name t w => (tarDir willing_os fs base (rel ++ [name]) t w).1) es2 w =
      inl (mkWriter (written w ++
        foldr (fun e l => entries_of (rel ++ [e.1]) e.2 ++ l) [] es2) false)) as Hloop.
    { induction es2 as [|[n t] es2 IHl]; intros es1 w' Hes Hw'; simpl.
      - rewrite app_nil_r. destruct w'; simpl in *. by subst.
      - assert ((n, t) ∈ es) as Hin by (subst es; apply elem_of_app; right; left).
        rewrite Forall_forall in IH, Hd. rewrite (IH (n, t) Hin).
        + simpl. rewrite (IHl (es1 ++ [(n, t)])); [|by rewrite <- (assoc_L (++))|done].
          simpl. by rewrite <- (assoc_L (++)).
        + by apply (Hd (n, t)).
        + simpl. rewrite (assoc_L (++)). subst es. by eapply lookup_entry.
        + done. }
    rewrite (Hloop es [] w) by done. unfold write_header. simpl.
    case_decide; [by rewrite app_nil_r|]. by rewrite <- (assoc_L (++)).
Qed.

(** One file of an archive: the directories above it, then its data. *)
Lemma untar_file_lays dst rel n c fs : Forall plain_name (rel ++ [n]) ->
  fits ((dst ++ rel) ++ [n]) (kind_at (File c)) (kind_at fs) ->
  exists fs', untar_entry willing_os dst fs (mkTar false (rel ++ [n]) c) = Some fs' /\
    laid_over ((dst ++ rel) ++ [n]) (File c) fs fs'.
Proof.
  intros Hplain (Hup & _ & Hfile). unfold untar_entry. simpl.
  rewrite Join_path_plain by done. rewrite (assoc_L (++)), removelast_last.
  set (p := dst ++ rel) in *.
  destruct (laid_over_mkdir willing_os p fs) as (fs1 & -> & [Hk1 _] & Ha1); [done| |].
  { intros q c' Hq. apply Hup; [by apply prefix_app_r|]. intros ->.
    apply prefix_length in Hq. rewrite length_app in Hq. simpl in Hq. lia. }
  assert (kind_at fs1 p = Some ADirectory) as Hp1 by by eapply laid_is_dir.
  assert (kind_at fs1 (p ++ [n]) <> Some ADirectory) as Hn1.
  { rewrite Hk1. unfold overlay. rewrite strip_prefix_app, kind_at_Dir. simpl.
    rewrite <- (app_nil_r (p ++ [n])). by apply (Hfile [] c). }
  unfold unTarFile. simpl.
  destruct (laid_over_write willing_os (p ++ [n]) "" fs1) as (fs2 & -> & Hfs2);
    [done|by exists p, n|done|]. simpl.
  destruct (laid_over_write willing_os (p ++ [n]) c fs2) as (fs3 & -> & Hfs3); [done| | |].
  - exists p, n. split; [done|]. destruct Hfs2 as [Hk2 _]. rewrite Hk2. unfold overlay.
    rewrite (proj2 (strip_prefix_None (p ++ [n]) p)).
    + by rewrite decide_True by by apply prefix_app_r.
    + intros H%prefix_length. rewrite length_app in H. simpl in H. lia.
  - destruct Hfs2 as [Hk2 _]. rewrite Hk2. unfold overlay.
    rewrite <- (app_nil_r (p ++ [n])) at 2. by rewrite strip_prefix_app, kind_at_nil.
  - exists fs3. split; [done|].
    destruct (laid_over_rewrite _ _ _ _ _ _ Hfs2 Hfs3) as [Hk3 Ha3]. split.
    + intros q. rewrite Hk3. rewrite <- (overlay_parent p n c (kind_at fs)).
      by apply (overlay_proper (p ++ [n]) (kind_at (File c)) (kind_at fs1)).
    + intros q Hq. rewrite Ha3 by done. apply Ha1. intros Hpre. destruct Hq as [_ []].
      by apply prefix_app_r.
Qed.

(** The entries of a tree, unpacked, lay the tree over the place. *)
Lemma untar_lays dst t : distinct t -> plain t -> forall rel fs more,
  rel <> [] -> Forall plain_name rel -> fits (dst ++ rel) (kind_at t) (kind_at fs) ->
  exists fs', untar willing_os dst fs (entries_of rel t ++ more) = untar willing_os dst fs' more /\
    laid_over (dst ++ rel) t fs fs'.
Proof.
  induction t as [c|es IH] using tree_entries_ind; intros Hd Hp rel fs more Hrel Hplain Hfits.
  { destruct rel as [|n rel _] using rev_ind; [done|]. rewrite (assoc_L (++)) in *.
    destruct (untar_file_lays dst rel n c fs Hplain Hfits) as (fs' & He & Hfs').
    exists fs'. split; [|done]. simpl. by rewrite He. }
  apply distinct_Dir in Hd as [Hnd Hd]. apply plain_Dir in Hp.
  assert (forall es2 es1 fs1 more, es1 ++ es2 = es -> laid (dst ++ rel) es1 (kind_at fs) (kind_at fs1) ->
    (forall q, apart (dst ++ rel) q -> fs1 !! q = fs !! q) ->
    exists fs2, untar willing_os dst fs1
        (foldr (fun e l => entries_of (rel ++ [e.1]) e.2 ++ l) [] es2 ++ more) =
      untar willing_os dst fs2 more /\
      laid (dst ++ rel) es (kind_at fs) (kind_at fs2) /\
      forall q, apart (dst ++ rel) q -> fs2 !! q = fs !! q) as Hloop.
  { induction es2 as [|[n t] es2 IHl]; intros es1 fs1 more' Hes Hl Ha; simpl.
    { rewrite app_nil_r in Hes. subst. by exists fs1. }
    assert ((n, t) ∈ es) as Hin by (subst es; apply elem_of_app; right; left).
    rewrite Forall_forall in IH, Hd, Hp. destruct (Hp (n, t) Hin) as [Hn Ht].
    rewrite <- (assoc_L (++)).
    destruct (IH (n, t) Hin (Hd _ Hin) Ht (rel ++ [n]) fs1
      (foldr (fun e l => entries_of (rel ++ [e.1]) e.2 ++ l) [] es2 ++ more'))
      as (fs2 & Heq & Hk2 & Ha2).
    - by destruct rel.
    - apply Forall_app_2; [done|by constructor].
    - rewrite (assoc_L (++)). subst es. by eapply fits_entry.
    - simpl in Heq. rewrite Heq. rewrite (assoc_L (++)) in Hk2, Ha2.
      apply (IHl (es1 ++ [(n, t)])); [by rewrite <- (assoc_L (++))| |].
      + apply laid_overlay. intros q. rewrite Hk2. apply overlay_snoc; [|done].
        subst es. rewrite fmap_app in Hnd. apply NoDup_app in Hnd as (_ & Hdisj & _).
        intros Hn'. apply (Hdisj n Hn'). left.
      + intros q Hq. rewrite Ha2, Ha; [done|done|]. rewrite <- (app_nil_r q). by apply apart_app. }
  simpl. rewrite decide_False by done. rewrite <- (assoc_L (++)).
  destruct (Hloop es [] fs ([mkTar true rel ""] ++ more)) as (fs2 & -> & Hl & Ha); [done| |done|].
  { by apply (laid_start _ (Dir es)). }
  simpl. unfold untar_entry. simpl. rewrite Join_path_plain by done.
  destruct (laid_over_mkdir willing_os (dst ++ rel) fs2) as (fs3 & -> & [Hk3 Ha3] & _); [done| |].
  { destruct Hl as [_ Hl]. exact Hl. }
  exists fs3. split; [done|]. split.
  - intros q. rewrite Hk3. by apply laid_finish.
  - intros q Hq. by rewrite Ha3, Ha.
Qed.

(** ** What an archive cannot reach *)

(** A name without [..] stays below the directory it is joined to. *)
Lemma Join_path_below p l : ".." ∉ l -> exists r, Join_path p l = p ++ r.
Proof.
  unfold Join_path. revert p. induction l as [|n l IH]; intros p Hl; simpl.
  { exists []. by rewrite app_nil_r. }
  apply not_elem_of_cons in Hl as [Hn Hl]. case_decide; [by apply IH|].
  rewrite decide_False by done. destruct (IH (p ++ [n]) Hl) as [r ->].
  exists (n :: r). by rewrite <- (assoc_L (++)).
Qed.

Lemma MkdirAll_apart os fs p q : ~ q `prefix_of` p -> default fs (MkdirAll os fs p) !! q = fs !! q.
Proof.
  intros Hq. unfold MkdirAll. destruct (mkdir_fails os p); [done|].
  destruct (mkdir_all p fs) as [fs'|] eqn:Hm; [|done]. by apply (lookup_mkdir p).
Qed.

Lemma WriteFile_apart os fs p c fs' q : WriteFile os fs p c = Some fs' -> apart p q -> fs' !! q = fs !! q.
Proof.
  unfold WriteFile. destruct (write_fails os p); [done|]. apply lookup_write_apart.
Qed.

Lemma removelast_prefix (p : path) : removelast p `prefix_of` p.
Proof.
  destruct p as [|n p _] using rev_ind; [done|]. rewrite removelast_last. by apply prefix_app_r.
Qed.

Lemma untar_apart os dst fs es q : Forall (fun e => ".." ∉ tar_name e) es -> apart dst q ->
  (untar os dst fs es).1 !! q = fs !! q.
Proof.
  intros Hes Hq. revert fs. induction es as [|e es IH]; intros fs; simpl; [done|].
  apply Forall_cons in Hes as [He Hes]. destruct (Join_path_below dst (tar_name e) He) as [r Hr].
  assert (apart (dst ++ r) q) as Hap by (rewrite <- (app_nil_r q); by apply apart_app).
  assert (~ q `prefix_of` removelast (dst ++ r)) as Hup.
  { intros Hpre. destruct Hap as [_ []]. etrans; [done|]. apply removelast_prefix. }
  destruct (untar_entry os dst fs e) as [fs'|] eqn:E; simpl.
  - rewrite (IH Hes). revert E. unfold untar_entry. rewrite Hr. destruct (tar_is_dir e).
    + intros [= <-]. apply MkdirAll_apart, Hap.
    + unfold unTarFile. destruct (WriteFile os _ (dst ++ r) "") as [fs1|] eqn:Hw1; simpl; [|done].
      intros Hw2. rewrite (WriteFile_apart _ _ _ _ _ _ Hw2 Hap), (WriteFile_apart _ _ _ _ _ _ Hw1 Hap).
      by apply MkdirAll_apart.
  - rewrite Hr. by apply MkdirAll_apart.
Qed.

(** ** What a copy never does, whatever the system refuses *)

(** Only [dst] is touched, and no directory goes away. *)
Definition keeps (dst : path) (fs fs' : tree) : Prop :=
  (forall q, apart dst q -> kind_at fs' q = kind_at fs q) /\
  (forall q, kind_at fs q = Some ADirectory -> kind_at fs' q = Some ADirectory).

Lemma keeps_refl dst fs : keeps dst fs fs.
Proof. done. Qed.

Lemma keeps_trans dst fs1 fs2 fs3 : keeps dst fs1 fs2 -> keeps dst fs2 fs3 -> keeps dst fs1 fs3.
Proof. intros [H1 H2] [H3 H4]. split; [intros q Hq; by rewrite H3, H1|auto]. Qed.

Lemma keeps_below dst r fs fs' : keeps (dst ++ r) fs fs' -> keeps dst fs fs'.
Proof.
  intros [H1 H2]. split; [|done]. intros q Hq. apply H1. rewrite <- (app_nil_r q). by apply apart_app.
Qed.

Lemma WriteFile_keeps os fs p c fs' : WriteFile os fs p c = Some fs' -> keeps p fs fs'.
Proof.
  unfold WriteFile. destruct (write_fails os p); [done|]. intros Hw.
  split; intros q Hq; rewrite (kind_at_write _ _ _ _ q Hw).
  - rewrite decide_False; [done|]. intros ->. by destruct Hq.
  - rewrite decide_False; [done|]. intros ->.
    destruct p as [|n p _] using rev_ind; [by destruct fs|].
    by apply write_file_parent in Hw as [_ Hn].
Qed.

Lemma MkdirAll_keeps os fs p fs' : MkdirAll os fs p = Some fs' -> keeps p fs fs'.
Proof.
  unfold MkdirAll. destruct (mkdir_fails os p); [done|]. intros Hm.
  split; intros q Hq; rewrite (kind_at_mkdir _ _ _ q Hm); [|by case_decide].
  rewrite decide_False; [done|apply Hq].
Qed.

Lemma CopyFile_keeps os fs src dst : keeps dst fs (CopyFile os fs src dst).1.
Proof.
  unfold CopyFile. destruct (Open os fs src); [|apply keeps_refl].
  destruct (WriteFile os fs dst "") as [fs1|] eqn:H1; [|apply keeps_refl].
  apply WriteFile_keeps in H1. destruct (fs1 !! src) as [[c|]|]; [|done..].
  destruct (WriteFile os fs1 dst c) as [fs2|] eqn:H2; [|done].
  apply WriteFile_keeps in H2. by eapply keeps_trans.
Qed.

Lemma copy_entries_None fuel os src dst fds : copy_entries fuel os src dst fds None = None.
Proof. unfold copy_entries. induction fds as [|[n t] fds IH]; [done|apply IH]. Qed.

Lemma copy_entries_cons fuel os src dst n t fds fs :
  copy_entries fuel os src dst ((n, t) :: fds) (Some fs) =
    copy_entries fuel os src dst fds
      (if is_dir t then fst <$> CopyDir fuel os fs (src ++ [n]) (dst ++ [n])
       else Some (CopyFile os fs (src ++ [n]) (dst ++ [n])).1).
Proof. done. Qed.

Lemma CopyDir_keeps fuel os : forall fs src dst fs' ok,
  CopyDir fuel os fs src dst = Some (fs', ok) -> keeps dst fs fs'.
Proof.
  induction fuel as [|fuel IH]; intros fs src dst fs' ok; simpl; [done|].
  destruct (Stat os fs src); [|by intros [= <- _]].
  destruct (MkdirAll os fs dst) as [fs1|] eqn:Hm; [|by intros [= <- _]].
  apply MkdirAll_keeps in Hm.
  destruct (ReadDir os fs1 src) as [fds|]; [|by intros [= <- _]].
  fold (copy_entries fuel os src dst fds (Some fs1)).
  assert (forall fs2 fs3, keeps dst fs fs2 -> copy_entries fuel os src dst fds (Some fs2) = Some fs3 ->
    keeps dst fs fs3) as Hloop.
  { induction fds as [|[n tn] fds IHl]; intros fs2 fs3 Hfs2; [by intros [= <-]|].
    rewrite copy_entries_cons. destruct (is_dir tn).
    - destruct (CopyDir fuel os fs2 _ _) as [[fs4 ok4]|] eqn:Hc; simpl;
        [|by rewrite copy_entries_None].
      apply IHl. eapply keeps_trans; [done|]. by eapply keeps_below, IH.
    - apply IHl. eapply keeps_trans; [done|]. eapply keeps_below, CopyFile_keeps. }
  destruct (copy_entries _ _ _ _ _ _) as [fs3|] eqn:Hc; simpl; [|done].
  intros [= <- _]. by eapply Hloop.
Qed.

(** Reading an archive removes no directory either. *)
Lemma untar_directories os dst fs es q : kind_at fs q = Some ADirectory ->
  kind_at (untar os dst fs es).1 q = Some ADirectory.
Proof.
  assert (forall fs p, kind_at fs q = Some ADirectory ->
    kind_at (default fs (MkdirAll os fs p)) q = Some ADirectory) as Hmk.
  { intros fs1 p Hq. destruct (MkdirAll os fs1 p) eqn:Hm; [|done]. by apply MkdirAll_keeps in Hm as [_ Hm]; apply Hm. }
  revert fs. induction es as [|e es IH]; intros fs Hq; simpl; [done|].
  destruct (untar_entry os dst fs e) as [fs'|] eqn:E; simpl; [|by apply Hmk].
  apply IH. revert E. unfold untar_entry. destruct (tar_is_dir e); [intros [= <-]; by apply Hmk|].
  unfold unTarFile. destruct (WriteFile os _ _ "") as [fs1|] eqn:H1; simpl; [|done].
  intros H2. apply (WriteFile_keeps _ _ _ _ _ H2), (WriteFile_keeps _ _ _ _ _ H1). by apply Hmk.
Qed.

Lemma find_entry_split n t es : find_entry n es = Some t ->
  exists es1 es2, es = es1 ++ (n, t) :: es2 /\ n ∉ es1.*1.
Proof.
  induction es as [|[m t'] es IH]; simpl; [done|]. case_decide as Hm.
  - intros [= ->]. subst m. exists [], es. split; [done|]. by intros ?%elem_of_nil.
  - intros (es1 & es2 & -> & Hn)%IH. exists ((m, t') :: es1), es2. split; [done|].
    simpl. rewrite not_elem_of_cons. done.
Qed.

(** The state in which a copy of [src] into its own [n] goes down one more level. *)
Definition descends (fs : tree) (src : path) (n : string) : Prop :=
  kind_at fs src = Some ADirectory /\ (forall c, kind_at fs (src ++ [n]) <> Some (AFile c)) /\
  kind_at fs (src ++ [n; n]) = None.

(** The directory the copy is made into is among the entries read afterwards. *)
Lemma descends_into fs src n : descends fs src n -> exists fs1 ea t eb,
  MkdirAll willing_os fs (src ++ [n]) = Some fs1 /\ fs1 !! src = Some (Dir (ea ++ (n, t) :: eb)) /\
  is_dir t = true /\ (n ∉ ea.*1) /\
  kind_at fs1 (src ++ [n]) = Some ADirectory /\ kind_at fs1 (src ++ [n; n]) = None.
Proof.
  intros (Hsrc & Hn & Hnn).
  destruct (laid_over_mkdir willing_os (src ++ [n]) fs) as (fs1 & Hm & [Hk1 Ha1] & _); [done| |].
  { intros q c [r Hr]. destruct r as [|x r _] using rev_ind; [by rewrite app_nil_r in Hr; subst|].
    rewrite (assoc_L (++)) in Hr. apply app_inj_tail in Hr as [-> _].
    destruct r as [|y r]; [by rewrite app_nil_r in Hsrc; rewrite Hsrc|].
    by rewrite (kind_at_parent fs q (y :: r) ADirectory). }
  assert (kind_at fs1 (src ++ [n]) = Some ADirectory) as Hn1 by by eapply laid_is_dir.
  assert (kind_at fs1 (src ++ [n; n]) = None) as Hnn1.
  { rewrite Hk1. unfold overlay. replace (src ++ [n; n]) with ((src ++ [n]) ++ [n])
      by by rewrite <- (assoc_L (++)).
    rewrite strip_prefix_app, kind_at_Dir. simpl. by rewrite <- (assoc_L (++)). }
  assert (kind_at fs1 src = Some ADirectory) as [es1 Hes1]%kind_at_directory.
  { by apply (kind_at_parent fs1 src [n] ADirectory). }
  assert (exists t, find_entry n es1 = Some t /\ is_dir t = true) as (t & Hfind & Ht).
  { pose proof Hn1 as H1. rewrite kind_at_app, Hes1 in H1. simpl in H1. rewrite kind_at_Dir in H1.
    destruct (find_entry n es1) as [[c|es]|]; [done| |done]. by exists (Dir es). }
  apply find_entry_split in Hfind as (ea & eb & -> & Hna). by exists fs1, ea, t, eb.
Qed.

Lemma CopyDir_descends n fuel : forall fs src, descends fs src n ->
  CopyDir fuel willing_os fs src (src ++ [n]) = None.
Proof.
  induction fuel as [|fuel IH]; intros fs src Hdesc; simpl; [done|].
  destruct (descends_into fs src n Hdesc) as (fs1 & ea & t & eb & -> & Hes1 & Ht & Hna & Hn1 & Hnn1).
  destruct Hdesc as (Hsrc & _ & _). apply kind_at_directory in Hsrc as [es0 Hes0].
  unfold Stat. simpl. rewrite Hes0. unfold ReadDir. simpl. rewrite Hes1.
  fold (copy_entries fuel willing_os src (src ++ [n]) (ea ++ (n, t) :: eb) (Some fs1)).
  clear Hes1 es0 Hes0.
  assert (copy_entries fuel willing_os src (src ++ [n]) (ea ++ (n, t) :: eb) (Some fs1) = None)
    as ->; [|done].
  induction ea as [|[m tm] ea IHa] in fs1, Hn1, Hnn1, Hna |- *.
  - simpl. rewrite copy_entries_cons, Ht. rewrite (IH fs1 (src ++ [n])); [apply copy_entries_None|].
    split; [done|]. rewrite <- !(assoc_L (++)). simpl. rewrite Hnn1. split; [done|].
    replace (src ++ [n; n; n]) with ((src ++ [n; n]) ++ [n]) by by rewrite <- (assoc_L (++)).
    destruct (kind_at fs1 ((src ++ [n; n]) ++ [n])) as [k|] eqn:Hk; [|done].
    apply kind_at_parent in Hk; congruence.
  - simpl. simpl in Hna. apply not_elem_of_cons in Hna as [Hm Hna]. rewrite copy_entries_cons.
    assert (forall fs2, keeps ((src ++ [n]) ++ [m]) fs1 fs2 ->
      copy_entries fuel willing_os src (src ++ [n]) (ea ++ (n, t) :: eb) (Some fs2) = None) as Hgo.
    { intros fs2 [Hap Hdir]. apply IHa; [done|by apply Hdir|].
      rewrite Hap; [done|]. replace (src ++ [n; n]) with ((src ++ [n]) ++ [n])
        by by rewrite <- (assoc_L (++)). by apply apart_siblings. }
    destruct (is_dir tm).
    + destruct (CopyDir fuel _ _ _ _) as [[fs2 ok]|] eqn:Hc; simpl; [|apply copy_entries_None].
      apply Hgo. by eapply CopyDir_keeps.
    + apply Hgo, CopyFile_keeps.
Qed.

(** ** The tree stays well-formed *)

Lemma WriteFile_well_formed os fs p c fs' :
  well_formed fs -> WriteFile os fs p c = Some fs' -> well_formed fs'.
Proof. unfold WriteFile. destruct (write_fails os p); [done|]. apply write_file_well_formed. Qed.

Lemma MkdirAll_well_formed os fs p fs' :
  well_formed fs -> MkdirAll os fs p = Some fs' -> well_formed fs'.
Proof. unfold MkdirAll. destruct (mkdir_fails os p); [done|]. apply mkdir_all_well_formed. Qed.

Lemma MkdirAll_default_well_formed os fs p :
  well_formed fs -> well_formed (default fs (MkdirAll os fs p)).
Proof.
  intros Hfs. destruct (MkdirAll os fs p) eqn:Hm; [|done]. by eapply MkdirAll_well_formed.
Qed.

#[export] Hint Resolve WriteFile_well_formed MkdirAll_well_formed MkdirAll_default_well_formed : pooler.

Lemma CopyFile_well_formed os fs src dst : well_formed fs -> well_formed (CopyFile os fs src dst).1.
Proof.
  intros Hfs. unfold CopyFile. destruct (Open os fs src); [|done].
  destruct (WriteFile os fs dst "") as [fs1|] eqn:H1; [|done].
  destruct (fs1 !! src) as [[c|]|]; simpl; [|by eauto with pooler..].
  destruct (WriteFile os fs1 dst c) as [fs2|] eqn:H2; simpl; eauto with pooler.
Qed.

Lemma CopyDir_well_formed fuel os : forall fs src dst fs' ok,
  well_formed fs -> CopyDir fuel os fs src dst = Some (fs', ok) -> well_formed fs'.
Proof.
  induction fuel as [|fuel IH]; intros fs src dst fs' ok Hfs; simpl; [done|].
  destruct (Stat os fs src); [|by intros [= <- _]].
  destruct (MkdirAll os fs dst) as [fs1|] eqn:Hm; [|by intros [= <- _]].
  destruct (ReadDir os fs1 src) as [fds|]; [|intros [= <- _]; by eauto with pooler].
  fold (copy_entries fuel os src dst fds (Some fs1)).
  assert (forall fs2 fs3, well_formed fs2 -> copy_entries fuel os src dst fds (Some fs2) = Some fs3 ->
    well_formed fs3) as Hloop.
  { induction fds as [|[n tn] fds IHl]; intros fs2 fs3 Hfs2; [by intros [= <-]|].
    rewrite copy_entries_cons. destruct (is_dir tn).
    - destruct (CopyDir fuel os fs2 _ _) as [[fs4 ok4]|] eqn:Hc; simpl;
        [|by rewrite copy_entries_None].
      apply IHl. by eapply IH.
    - by apply IHl, CopyFile_well_formed. }
  destruct (copy_entries _ _ _ _ _ _) as [fs3|] eqn:Hc; simpl; [|done].
  intros [= <- _]. eapply Hloop; [|done]. by eauto with pooler.
Qed.

Lemma untar_well_formed os dst fs es : well_formed fs -> well_formed (untar os dst fs es).1.
Proof.
  revert fs. induction es as [|e es IH]; intros fs Hfs; simpl; [done|].
  destruct (untar_entry os dst fs e) as [fs'|] eqn:E; simpl; [|by eauto with pooler].
  apply IH. revert E. unfold untar_entry. destruct (tar_is_dir e); [intros [= <-]; by eauto with pooler|].
  unfold unTarFile. destruct (WriteFile os _ _ "") as [fs1|] eqn:H1; simpl; [|done].
  eauto with pooler.
Qed.

(** What is packed comes out of the archive as it was. *)
Lemma pack_unpack t name src archive fs dst fs' :
  distinct t -> plain t -> plain_name name -> fs !! (src ++ [name]) = Some t ->
  apart archive (src ++ [name]) -> is_Some (write_file archive "" fs) ->
  fits (dst ++ [name]) (kind_at t) (kind_at fs') ->
  exists w fs'', TarGZ willing_os fs archive (src ++ [name]) = Some (w, true) /\
    UnTarGZ willing_os fs' dst (Some (written w, true)) = (fs'', true) /\
    (forall q, kind_at fs'' q = overlay (dst ++ [name]) (kind_at t) (kind_at fs') q) /\
    (forall q, apart (dst ++ [name]) q -> fs'' !! q = fs' !! q).
Proof.
  intros Hd Hp Hname Hsrc Hap [fs1 Hw] Hfits.
  unfold TarGZ, Stat, WriteFile. simpl. rewrite Hsrc, Hw.
  assert (fs1 !! (src ++ [name]) = Some t) as Hsrc1
    by by rewrite (lookup_write_apart _ _ _ _ _ Hw Hap).
  rewrite Hsrc1, last_snoc, removelast_last.
  rewrite (tarDir_entries fs1 src t Hd [name]) by done. simpl.
  destruct (untar_lays dst t Hd Hp [name] fs' []) as (fs'' & Hun & Hk & Ha);
    [done|by constructor|done|].
  eexists _, fs''. split; [done|]. simpl. rewrite app_nil_r in Hun. rewrite Hun. done.
Qed.

(** The two functions in turn bring back a tree that was lost meanwhile, if the archive can be read. *)
Lemma test_functions_restore t fs cwd fs' read_archive c :
  distinct t -> plain t -> fs !! (cwd ++ [test_tree]) = Some t ->
  is_Some (write_file (cwd ++ [test_archive]) "" fs) ->
  fits (cwd ++ [test_tree]) (kind_at t) (kind_at fs') ->
  exists w, TestTarGZFunc willing_os fs cwd = Some (w, true) /\
    (fs' !! (cwd ++ [test_archive]) = Some (File c) -> read_archive c = Some (written w, true) ->
     exists fs'', TestUnTarGZFunc willing_os fs' cwd read_archive = (fs'', true) /\
       forall q, kind_at fs'' q = overlay (cwd ++ [test_tree]) (kind_at t) (kind_at fs') q).
Proof.
  intros Hd Hp Hsrc Hw Hfits.
  destruct (pack_unpack t test_tree cwd (cwd ++ [test_archive]) fs cwd fs') as (w & fs'' & Htar & Hun & Hk & _);
    [done|done|by split_and!|done| |done|done|].
  - split; intros [k Hk]; apply (f_equal length) in Hk as Hlen; rewrite !length_app in Hlen; simpl in Hlen;
      (destruct k; [|simpl in Hlen; lia]); rewrite app_nil_r in Hk; by apply app_inj_tail in Hk as [_ Hk].
  - exists w. split; [done|]. intros Hc Hr. exists fs''. unfold TestUnTarGZFunc, Open. simpl. by rewrite Hc, Hr.
Qed.

(** * Properties *)

Section properties.

(** C34: [CopyDir] of a tree to a place apart from it, with nothing in the way, returns: with
    one unit of fuel more than the tree is deep it succeeds, the place holds the tree, what
    was there and is not in the tree stays, and nothing else changes. *)
Theorem CopyDir_copies t fs src dst fuel :
  distinct t -> is_dir t = true -> fs !! src = Some t -> apart src dst ->
  fits dst (kind_at t) (kind_at fs) -> (height t < fuel)%nat ->
  exists fs', CopyDir fuel willing_os fs src dst = Some (fs', true) /\
    (forall q, kind_at fs' q = overlay dst (kind_at t) (kind_at fs) q) /\
    (forall q, apart dst q -> fs' !! q = fs !! q).
Proof. intros Hd Hdir Hsrc Hap Hfits Hfuel. by apply (CopyDir_lays t Hd fuel). Qed.

(** [CopyDir] of a directory into a new directory of its own never returns, whatever the
    fuel: each level finds the copy it has just made. *)
Theorem CopyDir_into_itself fs src n fuel :
  kind_at fs src = Some ADirectory -> kind_at fs (src ++ [n]) = None ->
  CopyDir fuel willing_os fs src (src ++ [n]) = None.
Proof.
  intros Hsrc Hn. apply CopyDir_descends. split; [done|]. split; [by rewrite Hn|].
  replace (src ++ [n; n]) with ((src ++ [n]) ++ [n]) by by rewrite <- (assoc_L (++)).
  destruct (kind_at fs ((src ++ [n]) ++ [n])) as [k|] eqn:Hk; [|done].
  apply kind_at_parent in Hk; congruence.
Qed.

(** C35: Round trip: what [TarGZ] packs, [UnTarGZ] unpacks.  The archive of a tree, unpacked
    in any file system where nothing is in the way, lays the tree under its own name in the
    target directory and touches nothing else. *)
Theorem TarGZ_UnTarGZ_roundtrip t name src archive fs dst fs' :
  distinct t -> plain t -> plain_name name -> fs !! (src ++ [name]) = Some t ->
  apart archive (src ++ [name]) -> is_Some (write_file archive "" fs) ->
  fits (dst ++ [name]) (kind_at t) (kind_at fs') ->
  exists w fs'', TarGZ willing_os fs archive (src ++ [name]) = Some (w, true) /\
    UnTarGZ willing_os fs' dst (Some (written w, true)) = (fs'', true) /\
    (forall q, kind_at fs'' q = overlay (dst ++ [name]) (kind_at t) (kind_at fs') q) /\
    (forall q, apart (dst ++ [name]) q -> fs'' !! q = fs' !! q).
Proof. apply pack_unpack. Qed.

(** C36: Whatever the archive and whatever the system refuses: as long as no name has a [..],
    [UnTarGZ] changes nothing apart from the target directory and the directories above it. *)
Theorem UnTarGZ_stays_inside os fs dst es complete q :
  Forall (fun e => ".." ∉ tar_name e) es -> apart dst q ->
  (UnTarGZ os fs dst (Some (es, complete))).1 !! q = fs !! q.
Proof.
  intros Hes Hq. unfold UnTarGZ. pose proof (untar_apart os dst fs es q Hes Hq) as H.
  by destruct (untar os dst fs es).
Qed.
End properties.

(** ** Witnesses *)

Module files_example.
Definition cpu0 : tree := Dir [("online", File "1"); ("topology", Dir [("core_id", File "0")])].

Definition fs : tree :=
  Dir [("dev", Dir [("cpu0", cpu0)]); ("etc", Dir [("passwd", File "root")]); ("tmp", Dir [])].

(** Where the entry [../etc/passwd] goes. *)
Definition escaping : list tar_entry := [mkTar false [".."; "etc"; "passwd"] "mine"].
End files_example.

Section witnesses.
Import files_example.

Lemma cpu0_distinct : distinct cpu0.
Proof. repeat (split || constructor || set_solver). Defined.

Lemma cpu0_plain : plain cpu0.
Proof. repeat split; discriminate. Defined.

(** Nothing is where [p] would go. *)
Lemma fits_new p n t (k : kinds) : (forall r, k ((p ++ [n]) ++ r) = None) ->
  (forall q, q `prefix_of` p -> k q = Some ADirectory) -> fits (p ++ [n]) (kind_at t) k.
Proof.
  intros Hnew Hup. split; [|split; intros r c _; by rewrite Hnew].
  intros q c [r Hr] Hne. destruct r as [|x r _] using rev_ind; [by rewrite app_nil_r in Hr|].
  rewrite (assoc_L (++)) in Hr. apply app_inj_tail in Hr as [-> _].
  by rewrite Hup by by apply prefix_app_r.
Defined.

Lemma CopyDir_copies_witness :
  exists fs', CopyDir 3 willing_os fs ["dev"; "cpu0"] ["tmp"; "cpu1"] = Some (fs', true) /\
    (forall q, kind_at fs' q = overlay ["tmp"; "cpu1"] (kind_at cpu0) (kind_at fs) q) /\
    (forall q, apart ["tmp"; "cpu1"] q -> fs' !! q = fs !! q).
Proof.
  apply (CopyDir_copies cpu0 fs ["dev"; "cpu0"] ["tmp"; "cpu1"] 3); [apply cpu0_distinct|done|done| | |].
  - split; intros ?%prefix_cons_inv_1; discriminate.
  - apply (fits_new ["tmp"] "cpu1"); [by intros r|]. by apply prefix_dir.
  - vm_compute. lia.
Defined.

Lemma CopyDir_into_itself_witness : CopyDir 40 willing_os fs ["dev"] ["dev"; "copy"] = None.
Proof. apply (CopyDir_into_itself fs ["dev"] "copy" 40); reflexivity. Defined.

Lemma TarGZ_UnTarGZ_roundtrip_witness :
  exists w fs'', TarGZ willing_os fs ["tmp"; "cpu.tar.gz"] ["dev"; "cpu0"] = Some (w, true) /\
    UnTarGZ willing_os fs ["tmp"] (Some (written w, true)) = (fs'', true) /\
    (forall q, kind_at fs'' q = overlay ["tmp"; "cpu0"] (kind_at cpu0) (kind_at fs) q) /\
    (forall q, apart ["tmp"; "cpu0"] q -> fs'' !! q = fs !! q).
Proof.
  apply (TarGZ_UnTarGZ_roundtrip cpu0 "cpu0" ["dev"] ["tmp"; "cpu.tar.gz"] fs ["tmp"] fs);
    [apply cpu0_distinct|apply cpu0_plain|repeat split; discriminate|done| | |].
  - split; intros ?%prefix_cons_inv_1; discriminate.
  - by eexists.
  - apply (fits_new ["tmp"] "cpu0"); [by intros r|]. by apply prefix_dir.
Defined.

Lemma UnTarGZ_stays_inside_witness :
  (UnTarGZ willing_os fs ["tmp"] (Some (entries_of ["cpu0"] cpu0, true))).1 !! ["etc"; "passwd"] =
    Some (File "root").
Proof.
  rewrite (UnTarGZ_stays_inside willing_os fs ["tmp"] (entries_of ["cpu0"] cpu0) true ["etc"; "passwd"]).
  - reflexivity.
  - simpl. repeat constructor; simpl; set_solver.
  - split; intros ?%prefix_cons_inv_1; discriminate.
Defined.

(** An entry with [..] in its name overwrites a file outside the target directory. *)
Theorem UnTarGZ_escapes :
  (UnTarGZ willing_os fs ["tmp"] (Some (escaping, true))).1 !! ["etc"; "passwd"] = Some (File "mine").
Proof. reflexivity. Qed.
End witnesses.
