(* ===== verification/CpuDirectory.v ===== *)
(** * The emulated CPU directory: [pkg/sethandler/controller.go], lines 461-546

    [applyCpusToContainer] makes the directory that a container sees as
    [/sys/devices/system/cpu]: it clears the container's directory, unpacks the embedded
    archive, copies [cpu0] once per further CPU, and writes the lists.  Creating the
    temporary directory ([k8s.io/utils/temp]) and the archive are in [DirEnv]; log output is
    left out. *)

From S2P Require Import Prelude GoStrings Cpuset FileSystem Files.
Local Open Scope Z_scope.

Inductive dir_error :=
  | BaseNotCreated
  | BaseNotRead
  | NoTempDir
  | ArchiveNotOpened
  | ArchiveNotUnpacked
  | CpuDirNotCopied
  | CpuNotCreated
  | CpuNotCopied
  | ListNotWritten.

(** A computation changes the file system and returns a value or an error, or does not end
    ([None]). *)
Definition dirM (A : Type) : Type := tree -> option (tree * (dir_error + A)).

#[export] Instance dirM_ret : MRet dirM := fun A a fs => Some (fs, inr a).

#[export] Instance dirM_bind : MBind dirM := fun A B f m fs =>
  match m fs with
  | Some (fs, inr a) => f a fs
  | Some (fs, inl e) => Some (fs, inl e)
  | None => None
  end.

(** A call whose failure is returned as [e]. *)
Definition call (e : dir_error) (f : tree -> option tree) : dirM unit := fun fs =>
  match f fs with
  | Some fs' => Some (fs', inr tt)
  | None => Some (fs, inl e)
  end.

(** A call whose failure is ignored. *)
Definition ignore (f : tree -> option tree) : dirM unit := fun fs => Some (default fs (f fs), inr tt).

Definition get_fs : dirM tree := fun fs => Some (fs, inr fs).

Definition throw {A} (e : dir_error) : dirM A := fun fs => Some (fs, inl e).

Fixpoint for_each {A S} (f : A -> S -> dirM S) (l : list A) (s : S) : dirM S :=
  match l with
  | [] => mret s
  | x :: l => s ← f x s; for_each f l s
  end.

(** [defer f()]: the call is made at the end, whatever happened. *)
Definition deferred {A} (f : tree -> option tree) (m : dirM A) : dirM A := fun fs =>
  match m fs with
  | Some (fs, r) => Some (default fs (f fs), r)
  | None => None
  end.

Record DirEnv := {
  cpuRoot : path;
  (** where the temporary directory for a container is made *)
  temp_dir : string -> option path;
  (** [CPUFS.Open(CPUInfrastructure)] and what the archive holds *)
  cpu_archive : option (option (list tar_entry * bool))
}.

Definition unpack (os : OS) (dst : path) (archive : option (list tar_entry * bool)) : dirM unit :=
  fun fs => let '(fs, ok) := UnTarGZ os fs dst archive in
            Some (fs, if ok then inr tt else inl ArchiveNotUnpacked).

Definition copy_dir (fuel : nat) (os : OS) (e : dir_error) (src dst : path) : dirM unit := fun fs =>
  match CopyDir fuel os fs src dst with
  | Some (fs, ok) => Some (fs, if ok then inr tt else inl e)
  | None => None
  end.

(** The directory exists afterwards, without entries as far as they can be removed.
    [utils.IsEmpty] never says that a directory is empty. *)
Definition clear_base (os : OS) (base : path) : dirM unit :=
  fs ← get_fs;
  let exists_ := match PathExists os fs base with Ok b => b | _ => false end in
  _ ← (if exists_ then mret tt else call BaseNotCreated (fun fs => MkdirAll os fs base));
  fs ← get_fs;
  let empty := match IsEmpty os fs base with Ok b => b | _ => false end in
  if empty then mret tt
  else match ReadDir os fs base with
       | None => throw BaseNotRead
       | Some entries =>
           for_each (fun entry _ => ignore (fun fs => RemoveAll os fs (base ++ [entry.1]))) entries tt
       end.

Section cpu_directory.
Context `{CPUSetLib}.

(** The name [cpu<n>]. *)
Definition cpu_name (n : Z) : string := "cpu" +:+ Itoa n.

(** The loop over the CPUs after the first, by their index. *)
Definition add_cpu (fuel : nat) (os : OS) (base : path) (id : Z) (virtualCpuSet : CPUSet)
    : dirM CPUSet :=
  let virtualCpuSet := cs_Union virtualCpuSet [cs_New [id + 1]] in
  let cpuNumDir := base ++ [cpu_name (id + 1)] in
  _ ← call CpuNotCreated (fun fs => MkdirAll os fs cpuNumDir);
  _ ← copy_dir fuel os CpuNotCopied (base ++ ["cpu0"]) cpuNumDir;
  mret virtualCpuSet.

Definition write_lists (os : OS) (base : path) (cpuSet virtualCpuSet : CPUSet) : dirM unit :=
  _ ← call ListNotWritten (fun fs =>
        WriteFile os fs (base ++ ["kernel_max"]) (Itoa (Z.of_nat (length (cs_List cpuSet)) - 1)));
  for_each (fun file _ => call ListNotWritten (fun fs =>
    WriteFile os fs (base ++ [file]) (cs_String virtualCpuSet))) ["online"; "possible"; "present"] tt.

(** What happens between the creation of the temporary directory and its removal. *)
Definition fill_base (fuel : nat) (os : OS) (env : DirEnv) (tmpDir base : path) (cpuSet : CPUSet)
    : dirM unit :=
  match cpu_archive env with
  | None => throw ArchiveNotOpened
  | Some archive =>
      _ ← unpack os tmpDir archive;
      _ ← copy_dir fuel os CpuDirNotCopied (tmpDir ++ ["cpu"]) base;
      virtualCpuSet ←
        (if (1 <? Z.of_nat (length (cs_List cpuSet)))
         then for_each (add_cpu fuel os base) (seqZ 0 (Z.of_nat (length (cs_List cpuSet)) - 1)) (cs_New [0])
         else mret (cs_New [0]));
      write_lists os base cpuSet virtualCpuSet
  end.

Definition applyCpusToContainer (fuel : nat) (os : OS) (env : DirEnv)
    (namespace podName containerName containerID : string) (cpuSet : CPUSet) : dirM unit :=
  let base := cpuRoot env ++ [namespace; podName; containerName] in
  _ ← clear_base os base;
  match temp_dir env containerID with
  | None => throw NoTempDir
  | Some tmpDir =>
      _ ← ignore (mkdir_all tmpDir);
      deferred (fun fs => RemoveAll os fs tmpDir) (fill_base fuel os env tmpDir base cpuSet)
  end.
End cpu_directory.

(** * Lemmas *)

Lemma dirM_bind_ok {A B} (m : dirM A) (f : A -> dirM B) fs fs' a :
  m fs = Some (fs', inr a) -> (m ≫= f) fs = f a fs'.
Proof. unfold mbind, dirM_bind. by intros ->. Qed.

Lemma call_ok e f fs fs' : f fs = Some fs' -> call e f fs = Some (fs', inr tt).
Proof. unfold call. by intros ->. Qed.

(** ** What is in a directory *)

Definition describes (fs : tree) (base : path) (k : kinds) : Prop :=
  kind_at fs base = Some ADirectory /\ forall n r, kind_at fs (base ++ n :: r) = k (n :: r).

(** [src] laid over the entry [n]. *)
Definition set_at (n : string) (src k : kinds) : kinds := fun p =>
  match p with
  | m :: r => if decide (m = n) then match src r with Some x => Some x | None => k p end else k p
  | [] => k p
  end.

Lemma overlay_entry b n m r src k :
  overlay (b ++ [n]) src k (b ++ m :: r) =
    if decide (m = n) then match src r with Some x => Some x | None => k (b ++ m :: r) end
    else k (b ++ m :: r).
Proof.
  unfold overlay. destruct (decide (m = n)) as [->|Hm].
  - replace (b ++ n :: r) with ((b ++ [n]) ++ r) by by rewrite <- (assoc_L (++)).
    by rewrite strip_prefix_app.
  - rewrite (proj2 (strip_prefix_None _ _)).
    + rewrite decide_False; [done|]. intros ?%prefix_app_inv%prefix_cons_inv_1. congruence.
    + intros ?%prefix_app_inv%prefix_cons_inv_1. congruence.
Qed.

Lemma describes_laid fs fs' base n t k : describes fs base k -> laid_over (base ++ [n]) t fs fs' ->
  describes fs' base (set_at n (kind_at t) k).
Proof.
  intros [Hb Hk] [Hl _]. split.
  - rewrite Hl. unfold overlay. rewrite (proj2 (strip_prefix_None _ _)).
    + by rewrite decide_True by by apply prefix_app_r.
    + intros H%prefix_length. rewrite length_app in H. simpl in H. lia.
  - intros m r. rewrite Hl, overlay_entry, Hk. done.
Qed.

Lemma describes_ext fs base k k' : describes fs base k -> (forall n r, k (n :: r) = k' (n :: r)) ->
  describes fs base k'.
Proof. intros [Hb Hk] Heq. split; [done|]. intros n r. by rewrite Hk. Qed.

(** Nothing changes apart from two places. *)
Definition only_at (p q : path) (fs fs' : tree) : Prop :=
  forall r, apart p r -> apart q r -> kind_at fs' r = kind_at fs r.

Lemma only_at_trans p q fs1 fs2 fs3 : only_at p q fs1 fs2 -> only_at p q fs2 fs3 -> only_at p q fs1 fs3.
Proof. intros H1 H2 r Hp Hq. by rewrite H2, H1. Qed.

Lemma only_at_laid p q n t fs fs' : laid_over (p ++ [n]) t fs fs' -> only_at p q fs fs'.
Proof.
  intros [_ Ha] r Hp _. unfold kind_at. rewrite Ha; [done|].
  rewrite <- (app_nil_r r). by apply apart_app.
Qed.

Lemma describes_apart fs fs' base k : describes fs base k ->
  (forall r, kind_at fs' (base ++ r) = kind_at fs (base ++ r)) -> describes fs' base k.
Proof.
  intros [Hb Hk] Hsame. split; [|intros n r; by rewrite Hsame].
  rewrite <- (app_nil_r base), Hsame, app_nil_r. done.
Qed.

(** ** Clearing *)

Lemma remove_entries base (es : list (string * tree)) fs : exists fs',
  for_each (fun entry _ => ignore (fun fs => RemoveAll willing_os fs (base ++ [entry.1]))) es tt fs =
    Some (fs', inr tt) /\
  (well_formed fs -> well_formed fs') /\
  forall q, kind_at fs' q =
    if decide (Exists (fun n => base ++ [n] `prefix_of` q) es.*1) then None else kind_at fs q.
Proof.
  revert fs. induction es as [|[n t] es IH]; intros fs; simpl.
  { by exists fs. }
  destruct (IH (remove_all (base ++ [n]) fs)) as (fs' & Hrun & Hwf & Hk). exists fs'.
  split; [by erewrite dirM_bind_ok by done|].
  split; [intros H; by apply Hwf, remove_all_well_formed|]. intros q. rewrite Hk.
  rewrite kind_at_remove by by destruct base.
  destruct (decide (base ++ [n] `prefix_of` q)) as [Hq|Hq].
  - rewrite (decide_True (P := Exists _ (n :: _))) by by constructor. by case_decide.
  - destruct (decide (Exists _ es.*1)) as [He|He].
    + by rewrite decide_True by by apply Exists_cons_tl.
    + rewrite decide_False; [done|]. rewrite Exists_cons. tauto.
Qed.

Lemma clear_base_ok base fs :
  well_formed fs -> (forall q c, q `prefix_of` base -> kind_at fs q <> Some (AFile c)) ->
  exists fs', clear_base willing_os base fs = Some (fs', inr tt) /\ well_formed fs' /\
    describes fs' base (fun _ => None) /\ forall q, apart base q -> kind_at fs' q = kind_at fs q.
Proof.
  intros Hwf Hno. unfold clear_base. erewrite dirM_bind_ok by done. unfold PathExists. simpl.
  assert (exists fs1, (if match match fs !! base with Some _ => Ok true | None => Ok (E:=unit) false end
                           with Ok b => b | _ => false end
                       then mret tt else call BaseNotCreated (fun fs => MkdirAll willing_os fs base)) fs
      = Some (fs1, inr tt) /\ well_formed fs1 /\ kind_at fs1 base = Some ADirectory /\
    forall q, apart base q -> kind_at fs1 q = kind_at fs q) as (fs1 & Hrun & Hwf1 & Hb & Hap).
  { destruct (fs !! base) as [t|] eqn:Hbase; simpl.
    - exists fs. split; [done|]. split; [done|]. split; [|done]. unfold kind_at. rewrite Hbase.
      destruct t as [c|es]; [|done]. destruct (Hno base c); [done|]. unfold kind_at. by rewrite Hbase.
    - destruct (laid_over_mkdir willing_os base fs) as (fs1 & Hm & [Hk Ha] & _); [done|done|].
      exists fs1. split; [by apply call_ok|]. split; [by eauto with pooler|].
      split; [by eapply laid_is_dir|]. intros q Hq. unfold kind_at. by rewrite Ha. }
  erewrite dirM_bind_ok by exact Hrun. erewrite dirM_bind_ok by done.
  apply kind_at_directory in Hb as Hb'. destruct Hb' as [es Hes].
  unfold IsEmpty, Open, ReadDir. simpl. rewrite Hes.
  destruct (remove_entries base es fs1) as (fs2 & Hrm & Hwf2 & Hk2).
  exists fs2. split; [done|]. split; [by apply Hwf2|]. split; [split|].
  - rewrite Hk2, decide_False; [done|]. intros (n & _ & H%prefix_length)%Exists_exists.
    rewrite length_app in H. simpl in H. lia.
  - intros n r. rewrite Hk2. case_decide as Hex; [done|]. rewrite kind_at_app, Hes. simpl.
    rewrite kind_at_Dir. destruct (find_entry n es) as [t|] eqn:Hf; [|done]. destruct Hex.
    apply Exists_exists. exists n. split; [|by exists r; rewrite <- (assoc_L (++))].
    apply find_entry_elem in Hf. apply list_elem_of_fmap. by exists (n, t).
  - intros q Hq. rewrite Hk2, decide_False; [by apply Hap|].
    intros (n & _ & Hpre)%Exists_exists. destruct Hq as [[] _]. etrans; [|exact Hpre].
    by apply prefix_app_r.
Qed.

(** ** The copies of [cpu0] *)

Lemma cpu_name_inj n m : 0 <= n -> 0 <= m -> cpu_name n = cpu_name m -> n = m.
Proof. unfold cpu_name. intros Hn Hm [= H]. by apply Itoa_inj_nonneg. Qed.

(** The directory that holds [C] with the entry [cpu0], of kinds [D], copied [j] times. *)
Definition cpus_at (C D : kinds) (j : nat) : kinds := fun p =>
  match p with
  | name :: r => if decide (name ∈ cpu_name <$> seqZ 1 (Z.of_nat j)) then D r else C p
  | [] => C p
  end.

Lemma elem_of_cpu_names name j :
  name ∈ cpu_name <$> seqZ 1 (Z.of_nat j) <-> exists i, name = cpu_name i /\ 1 <= i <= Z.of_nat j.
Proof.
  rewrite list_elem_of_fmap. f_equiv. intros i. rewrite elem_of_seqZ. f_equiv. lia.
Qed.

Lemma cpu0_not_copied j : "cpu0" ∉ cpu_name <$> seqZ 1 (Z.of_nat j).
Proof.
  intros (i & Hi & Hij)%elem_of_cpu_names. change "cpu0" with (cpu_name 0) in Hi.
  apply cpu_name_inj in Hi; lia.
Qed.

Section copies.
Context `{CPUSetLaws}.
Context (base : path) (C D : kinds) (depth : nat).

(** What the loop needs of the unpacked directory. *)
Definition has_cpu0 : Prop :=
  (forall r, C ("cpu0" :: r) = D r) /\ D [] = Some ADirectory /\
  (forall i r, 1 <= i -> C (cpu_name i :: r) = None) /\
  (forall r, D r = Some ADirectory -> (length r < depth)%nat).

(** The next copy [cpu<j+1>] is a new name. *)
Lemma next_name j (name := cpu_name (Z.of_nat j + 1)) : has_cpu0 ->
  (name ∉ cpu_name <$> seqZ 1 (Z.of_nat j)) /\ name <> "cpu0" /\ forall r, cpus_at C D j (name :: r) = None.
Proof.
  intros (_ & _ & Hnew & _).
  assert (name ∉ cpu_name <$> seqZ 1 (Z.of_nat j)) as Hname.
  { intros (i & Hi & Hij)%elem_of_cpu_names. apply cpu_name_inj in Hi; lia. }
  split; [done|]. split; [|intros r; simpl; rewrite decide_False by done; apply Hnew; lia].
  intros Hn. change "cpu0" with (cpu_name 0) in Hn. apply cpu_name_inj in Hn; lia.
Qed.

(** The directory of [cpu0], while others are made beside it. *)
Lemma cpu0_tree fs name k j : has_cpu0 -> well_formed fs -> name <> "cpu0" ->
  describes fs base (set_at name k (cpus_at C D j)) ->
  exists t, fs !! (base ++ ["cpu0"]) = Some t /\ is_dir t = true /\ well_formed t /\ forall r, kind_at t r = D r.
Proof.
  intros (HC0 & HD & _) Hwf Hname [_ Hk].
  assert (forall r, kind_at fs ((base ++ ["cpu0"]) ++ r) = D r) as Hcpu0.
  { intros r. rewrite <- (assoc_L (++)). change (["cpu0"] ++ r) with ("cpu0" :: r). rewrite (Hk "cpu0" r).
    unfold set_at. rewrite decide_False by done. unfold cpus_at. by rewrite decide_False by apply cpu0_not_copied. }
  assert (kind_at fs (base ++ ["cpu0"]) = Some ADirectory) as [es Hes]%kind_at_directory.
  { by rewrite <- (app_nil_r (base ++ ["cpu0"])), Hcpu0. }
  exists (Dir es). split; [done|]. split; [done|]. split; [by eapply lookup_well_formed|].
  intros r. by rewrite <- Hcpu0, kind_at_app, Hes.
Qed.

(** A tree can be laid over a new empty directory. *)
Lemma fits_empty fs name k t : is_dir t = true -> (forall r, k (name :: r) = None) ->
  describes fs base (set_at name (kind_at (Dir [])) k) -> fits (base ++ [name]) (kind_at t) (kind_at fs).
Proof.
  intros Hdir Hfree [Hb Hk].
  assert (forall r x, kind_at fs ((base ++ [name]) ++ r) = Some x -> r = [] /\ x = ADirectory) as Hr.
  { intros r x. rewrite <- (assoc_L (++)). simpl. rewrite Hk. unfold set_at. rewrite decide_True by done.
    destruct r as [|m r]; [rewrite kind_at_nil; naive_solver|]. rewrite kind_at_Dir. simpl. by rewrite Hfree. }
  split; [|split].
  - intros q c [r Hq] Hne. destruct r as [|x r _] using rev_ind; [by rewrite app_nil_r in Hq|].
    rewrite (assoc_L (++)) in Hq. apply app_inj_tail in Hq as [Hq _].
    rewrite (prefix_dir fs base); [done|done|by exists r].
  - intros r c _ H'. apply Hr in H' as [_ [=]].
  - intros r c H1 H2. apply Hr in H2 as [-> _]. rewrite kind_at_nil in H1. by destruct t.
Qed.

(** With the copy made, one more CPU is there. *)
Lemma cpus_at_next t j (name := cpu_name (Z.of_nat j + 1)) m r : has_cpu0 -> (forall r, kind_at t r = D r) ->
  set_at name (kind_at t) (set_at name (kind_at (Dir [])) (cpus_at C D j)) (m :: r) = cpus_at C D (S j) (m :: r).
Proof.
  intros Hcpu Hkt. destruct (next_name j Hcpu) as (Hname & _ & Hfree). fold name in Hname, Hfree.
  assert (Z.of_nat (S j) = Z.of_nat j + 1) as HS by lia. unfold set_at. destruct (decide (m = name)) as [->|Hm].
  - rewrite Hkt, (Hfree r). unfold cpus_at. rewrite HS, (decide_True (P := name ∈ _)).
    + destruct (D r) eqn:Er; [done|]. destruct r; [|done]. destruct Hcpu as (_ & HD & _). congruence.
    + apply list_elem_of_fmap. exists (Z.of_nat j + 1). split; [done|]. rewrite elem_of_seqZ. lia.
  - unfold cpus_at. rewrite HS. apply decide_ext. rewrite !list_elem_of_fmap.
    split; intros (i & -> & Hi); exists i; (split; [done|]); rewrite elem_of_seqZ in *;
      (destruct (decide (i = Z.of_nat j + 1)) as [->|]; [done|lia]).
Qed.

Lemma add_cpu_ok fuel fs v j :
  has_cpu0 -> well_formed fs -> describes fs base (cpus_at C D j) -> (depth < fuel)%nat ->
  exists fs', add_cpu fuel willing_os base (Z.of_nat j) v fs =
      Some (fs', inr (cs_Union v [cs_New [Z.of_nat j + 1]])) /\
    well_formed fs' /\ describes fs' base (cpus_at C D (S j)) /\
    forall q, apart base q -> kind_at fs' q = kind_at fs q.
Proof.
  intros Hcpu Hwf Hdesc Hfuel. unfold add_cpu. set (name := cpu_name (Z.of_nat j + 1)).
  destruct (next_name j Hcpu) as (_ & Hname & Hfree). fold name in Hname, Hfree.
  destruct (laid_over_mkdir willing_os (base ++ [name]) fs) as (fs1 & Hm & Hl1 & _); [done| |].
  { intros q c [r Hr]. destruct r as [|x r _] using rev_ind.
    - rewrite app_nil_r in Hr. subst q. destruct Hdesc as [_ Hk]. by rewrite Hk, Hfree.
    - rewrite (assoc_L (++)) in Hr. apply app_inj_tail in Hr as [Hr _].
      rewrite (prefix_dir fs base); [done|apply Hdesc|by exists r]. }
  erewrite dirM_bind_ok by by apply call_ok.
  pose proof (describes_laid _ _ _ _ _ _ Hdesc Hl1) as Hdesc1.
  assert (Hwf1 : well_formed fs1) by by eauto with pooler.
  destruct (cpu0_tree fs1 name _ j Hcpu Hwf1 Hname Hdesc1) as (t & Ht & Hdir & Hwft & Hkt).
  destruct (CopyDir_lays t (well_formed_distinct t Hwft) fuel) with
    (fs := fs1) (src := base ++ ["cpu0"]) (dst := base ++ [name]) as (fs2 & Hcopy & Hl2);
    [|done|done|by apply apart_siblings|by apply (fits_empty fs1 name (cpus_at C D j) t)|].
  { eapply Nat.le_lt_trans; [|done]. apply height_kinds; [by apply well_formed_distinct|].
    intros p Hp. apply Hcpu. by rewrite <- Hkt. }
  pose proof (describes_laid _ _ _ _ _ _ Hdesc1 Hl2) as Hdesc2.
  erewrite dirM_bind_ok by (unfold copy_dir; by rewrite Hcopy).
  exists fs2. split; [done|]. split; [eapply CopyDir_well_formed; [exact Hwf1|exact Hcopy]|]. split.
  - eapply describes_ext; [done|]. intros m r. by apply cpus_at_next.
  - intros q Hq. unfold kind_at. destruct Hl1 as [_ Ha1], Hl2 as [_ Ha2].
    rewrite Ha2, Ha1; [done|rewrite <- (app_nil_r q); by apply apart_app..].
Qed.
(** The CPUs numbered from zero. *)
Definition virtual_cpus (v : CPUSet) (j : nat) : Prop :=
  forall c, cs_Contains v c = true <-> 0 <= c <= Z.of_nat j.

Lemma virtual_cpus_add v j : virtual_cpus v j ->
  virtual_cpus (cs_Union v [cs_New [Z.of_nat j + 1]]) (S j).
Proof.
  intros Hv c. specialize (Hv c). rewrite contains_add, orb_true_iff, bool_decide_eq_true, Hv. lia.
Qed.

Lemma virtual_cpus_start : virtual_cpus (cs_New [0]) 0.
Proof. intros c. rewrite contains_New, bool_decide_eq_true, list_elem_of_singleton. lia. Qed.

Lemma add_cpus_ok fuel k j fs v :
  has_cpu0 -> well_formed fs -> describes fs base (cpus_at C D j) -> (depth < fuel)%nat ->
  virtual_cpus v j ->
  exists fs' v', for_each (add_cpu fuel willing_os base) (seqZ (Z.of_nat j) (Z.of_nat k)) v fs =
      Some (fs', inr v') /\
    virtual_cpus v' (j + k) /\ well_formed fs' /\ describes fs' base (cpus_at C D (j + k)) /\
    forall q, apart base q -> kind_at fs' q = kind_at fs q.
Proof.
  intros Hhas. revert j fs v. induction k as [|k IH]; intros j fs v Hwf Hd Hfuel Hv.
  { exists fs, v. rewrite Nat.add_0_r. done. }
  rewrite seqZ_cons by lia. simpl for_each.
  destruct (add_cpu_ok fuel fs v j) as (fs1 & Hrun & Hwf1 & Hd1 & Ha1); [done..|].
  erewrite dirM_bind_ok by exact Hrun.
  replace (Z.succ (Z.of_nat j)) with (Z.of_nat (S j)) by lia.
  replace (Z.pred (Z.of_nat (S k))) with (Z.of_nat k) by lia.
  destruct (IH (S j) fs1 (cs_Union v [cs_New [Z.of_nat j + 1]]))
    as (fs2 & v' & Hrest & Hv' & Hwf2 & Hd2 & Ha2); [done..|by apply virtual_cpus_add|].
  exists fs2, v'. replace (j + S k)%nat with (S j + k)%nat by lia.
  split_and!; [done..|]. intros q Hq. by rewrite Ha2, Ha1.
Qed.
End copies.

(** ** The lists *)

Definition list_names : list string := ["kernel_max"; "online"; "possible"; "present"].

Lemma write_entry_ok base n c fs k :
  well_formed fs -> describes fs base k -> k [n] <> Some ADirectory ->
  exists fs', WriteFile willing_os fs (base ++ [n]) c = Some fs' /\ well_formed fs' /\
    describes fs' base (set_at n (kind_at (File c)) k) /\
    forall q, apart base q -> kind_at fs' q = kind_at fs q.
Proof.
  intros Hwf Hd Hk. destruct (laid_over_write willing_os (base ++ [n]) c fs) as (fs' & Hw & Hl); [done| | |].
  - exists base, n. split; [done|apply Hd].
  - destruct Hd as [_ Hd]. by rewrite Hd.
  - exists fs'. split; [done|]. split; [by eauto with pooler|]. split; [by eapply describes_laid|].
    intros q Hq. destruct Hl as [_ Ha]. unfold kind_at. rewrite Ha; [done|].
    rewrite <- (app_nil_r q). by apply apart_app.
Qed.

(** The entries of the finished directory: the lists, and else what was there. *)
Definition with_lists (kernel_max cpus : string) (k : kinds) : kinds := fun p =>
  match p with
  | [n] =>
      if decide (n = "kernel_max") then Some (AFile kernel_max)
      else if decide (n ∈ ["online"; "possible"; "present"]) then Some (AFile cpus) else k p
  | _ => k p
  end.

Lemma write_lists_ok `{CPUSetLib} base (cpuSet v : CPUSet) fs k :
  well_formed fs -> describes fs base k ->
  (forall n, n ∈ list_names -> k [n] <> Some ADirectory) ->
  exists fs', write_lists willing_os base cpuSet v fs = Some (fs', inr tt) /\ well_formed fs' /\
    describes fs' base
      (with_lists (Itoa (Z.of_nat (length (cs_List cpuSet)) - 1)) (cs_String v) k) /\
    forall q, apart base q -> kind_at fs' q = kind_at fs q.
Proof.
  intros Hwf Hd Hk. unfold write_lists.
  assert (forall n, n ∈ list_names -> forall m c k', m <> n -> k' [n] <> Some ADirectory ->
    set_at m (kind_at (File c)) k' [n] <> Some ADirectory) as Hkeep.
  { intros n _ m c k' Hm Hk'. unfold set_at. by rewrite decide_False by congruence. }
  destruct (write_entry_ok base "kernel_max" (Itoa (Z.of_nat (length (cs_List cpuSet)) - 1)) fs k)
    as (fs1 & Hw1 & Hwf1 & Hd1 & Ha1); [done..|apply Hk; left|].
  destruct (write_entry_ok base "online" (cs_String v) fs1 _ Hwf1 Hd1)
    as (fs2 & Hw2 & Hwf2 & Hd2 & Ha2); [apply Hkeep, Hk; [set_solver|done|set_solver]|].
  destruct (write_entry_ok base "possible" (cs_String v) fs2 _ Hwf2 Hd2)
    as (fs3 & Hw3 & Hwf3 & Hd3 & Ha3); [repeat (apply Hkeep; [set_solver|done|]); apply Hk; set_solver|].
  destruct (write_entry_ok base "present" (cs_String v) fs3 _ Hwf3 Hd3)
    as (fs4 & Hw4 & Hwf4 & Hd4 & Ha4); [repeat (apply Hkeep; [set_solver|done|]); apply Hk; set_solver|].
  erewrite dirM_bind_ok by by apply call_ok. simpl for_each.
  erewrite dirM_bind_ok by by apply call_ok. erewrite dirM_bind_ok by by apply call_ok.
  erewrite dirM_bind_ok by by apply call_ok.
  exists fs4. split; [done|]. split; [done|]. split.
  - eapply describes_ext; [done|]. intros n r. unfold set_at, with_lists.
    destruct r as [|m r].
    + rewrite !kind_at_nil. simpl. repeat case_decide; try done; set_solver.
    + rewrite !kind_at_File. by repeat case_decide.
  - intros q Hq. by rewrite Ha4, Ha3, Ha2, Ha1.
Qed.

(** ** The archive *)

(** Unpacked in a fresh directory, the archive puts [t] under [cpu] and stays inside. *)
Definition unpacks (archive : option (list tar_entry * bool)) (t : tree) : Prop :=
  forall fs dst, well_formed fs -> describes fs dst (fun _ => None) ->
    exists fs', UnTarGZ willing_os fs dst archive = (fs', true) /\
      (forall r, kind_at fs' ((dst ++ ["cpu"]) ++ r) = kind_at t r) /\
      forall q, apart dst q -> kind_at fs' q = kind_at fs q.

(** The archive that [TarGZ] makes of [t] does. *)
Lemma unpacks_entries t : distinct t -> plain t -> unpacks (Some (entries_of ["cpu"] t, true)) t.
Proof.
  intros Hd Hp fs dst _ [Hb Hk].
  assert (forall r, kind_at fs ((dst ++ ["cpu"]) ++ r) = None) as Hnew.
  { intros r. rewrite <- (assoc_L (++)). apply Hk. }
  destruct (untar_lays dst t Hd Hp ["cpu"] fs []) as (fs' & Hun & Hl & Ha); [done| | |].
  { repeat constructor; discriminate. }
  { split; [|split; intros r c _; by rewrite Hnew]. intros q c [r Hr] Hne.
    destruct r as [|x r _] using rev_ind; [by rewrite app_nil_r in Hr|].
    rewrite (assoc_L (++)) in Hr. apply app_inj_tail in Hr as [Hr _].
    rewrite (prefix_dir fs dst Hb); [done|by exists r]. }
  exists fs'. rewrite app_nil_r in Hun. unfold UnTarGZ. rewrite Hun. split; [done|]. split.
  - intros r. rewrite Hl. unfold overlay. rewrite strip_prefix_app, Hnew.
    by destruct (kind_at t r).
  - intros q Hq. unfold kind_at. rewrite Ha; [done|]. rewrite <- (app_nil_r q). by apply apart_app.
Qed.

(** The embedded directory: [cpu0] is a directory, no further CPU is there, and the lists
    are not directories. *)
Record cpu_tree (t d : tree) : Prop := {
  cpu_tree_cpu0 : forall r, kind_at t ("cpu0" :: r) = kind_at d r;
  cpu_tree_dir : is_dir d = true;
  cpu_tree_new : forall i r, 1 <= i -> kind_at t (cpu_name i :: r) = None;
  cpu_tree_lists : forall n, n ∈ list_names -> kind_at t [n] <> Some ADirectory
}.

Lemma cpu_tree_is_dir t d : cpu_tree t d -> is_dir t = true.
Proof. intros [HC0 Hd _ _]. destruct t; [|done]. specialize (HC0 []). by destruct d. Qed.

Lemma cpu_tree_has_cpu0 t d : cpu_tree t d -> has_cpu0 (kind_at t) (kind_at d) (height t).
Proof.
  intros [HC0 Hd Hnew _]. split_and!; [done|by destruct d|done|].
  intros r Hr. rewrite <- HC0 in Hr. apply kinds_height in Hr. simpl in Hr. lia.
Qed.

Lemma list_name_not_cpu n i : 0 <= i -> n ∈ list_names -> n <> cpu_name i.
Proof.
  unfold cpu_name. intros Hi Hn ->. unfold list_names in Hn. rewrite !elem_of_cons in Hn.
  destruct Hn as [[=]|[[=]|[[=]|[[=]|[]%elem_of_nil]]]].
Qed.

Lemma fits_described base t fs : describes fs base (fun _ => None) -> is_dir t = true ->
  fits base (kind_at t) (kind_at fs).
Proof.
  intros [Hb Hk] Ht. split_and!.
  - intros q c Hq _. by rewrite (prefix_dir fs base Hb q Hq).
  - intros [|n r] c _; [by rewrite app_nil_r, Hb|by rewrite Hk].
  - intros [|n r] c; [rewrite kind_at_nil; by destruct t|by rewrite Hk].
Qed.

(** The directory the container sees: the unpacked tree with [cpu0] copied and the lists. *)
Definition cpu_directory (t d : tree) (count : Z) (cpus : string) : kinds :=
  with_lists (Itoa (count - 1)) cpus (cpus_at (kind_at t) (kind_at d) (Z.to_nat (count - 1))).

Section filled.
Context `{CPUSetLaws}.

(** The loop over the CPUs, run if there is more than one. *)
Lemma copies_loop_ok fuel base t d count fs :
  cpu_tree t d -> (height t < fuel)%nat -> well_formed fs ->
  describes fs base (cpus_at (kind_at t) (kind_at d) 0) ->
  exists fs' v, (if 1 <? count
      then for_each (add_cpu fuel willing_os base) (seqZ 0 (count - 1)) (cs_New [0])
      else mret (cs_New [0])) fs = Some (fs', inr v) /\
    virtual_cpus v (Z.to_nat (count - 1)) /\ well_formed fs' /\
    describes fs' base (cpus_at (kind_at t) (kind_at d) (Z.to_nat (count - 1))) /\
    forall q, apart base q -> kind_at fs' q = kind_at fs q.
Proof.
  intros Htree Hfuel Hwf Hd. destruct (1 <? count) eqn:E; to_prop.
  - destruct (add_cpus_ok base (kind_at t) (kind_at d) (height t) fuel (Z.to_nat (count - 1)) 0
      fs (cs_New [0])) as (fs' & v & Hrun & Hrest);
      [by apply cpu_tree_has_cpu0|done..|apply virtual_cpus_start|].
    exists fs', v. rewrite Z2Nat.id in Hrun by lia. done.
  - exists fs, (cs_New [0]). replace (Z.to_nat (count - 1)) with 0%nat by lia.
    split_and!; [done|apply virtual_cpus_start|done..].
Qed.

(** The copy of the unpacked directory [src], whose kinds are those of [t]. *)
Lemma copy_base_ok fuel src base fs t d :
  cpu_tree t d -> (height t < fuel)%nat -> well_formed fs -> apart src base ->
  (forall r, kind_at fs (src ++ r) = kind_at t r) -> describes fs base (fun _ => None) ->
  exists fs', copy_dir fuel willing_os CpuDirNotCopied src base fs = Some (fs', inr tt) /\
    well_formed fs' /\ describes fs' base (cpus_at (kind_at t) (kind_at d) 0) /\
    forall q, apart base q -> kind_at fs' q = kind_at fs q.
Proof.
  intros Htree Hfuel Hwf Hap Hsrc Hbase. pose proof (cpu_tree_is_dir t d Htree) as Hdir.
  assert (kind_at fs src = Some ADirectory) as [es Hes]%kind_at_directory.
  { rewrite <- (app_nil_r src), Hsrc. by destruct t. }
  assert (forall r, kind_at (Dir es) r = kind_at t r) as Hk
    by (intros r; by rewrite <- Hsrc, kind_at_app, Hes).
  pose proof (well_formed_distinct _ (lookup_well_formed _ _ _ Hwf Hes)) as Hdist.
  destruct (CopyDir_lays (Dir es) Hdist fuel) with (fs := fs) (src := src) (dst := base)
    as (fs' & Hcopy & Hl); [|done..|by apply fits_described|].
  { eapply Nat.le_lt_trans; [|exact Hfuel]. apply height_kinds; [done|].
    intros p Hp. apply kinds_height. by rewrite <- Hk. }
  exists fs'. split; [unfold copy_dir; by rewrite Hcopy|].
  split; [eapply CopyDir_well_formed; [exact Hwf|exact Hcopy]|]. destruct Hl as [Hkl Ha]. split; [split|].
  - by eapply laid_is_dir.
  - intros n r. rewrite Hkl. unfold overlay. rewrite strip_prefix_app, Hk. simpl.
    destruct (kind_at t (n :: r)) eqn:E; [done|]. apply Hbase.
  - intros q Hq. unfold kind_at. by rewrite Ha.
Qed.

Lemma fill_base_ok fuel env tmpDir base cpuSet fs archive t d :
  cpu_archive env = Some archive -> unpacks archive t -> cpu_tree t d -> (height t < fuel)%nat ->
  apart tmpDir base -> well_formed fs ->
  describes fs base (fun _ => None) -> describes fs tmpDir (fun _ => None) ->
  let count := Z.of_nat (length (cs_List cpuSet)) in
  exists fs' v, fill_base fuel willing_os env tmpDir base cpuSet fs = Some (fs', inr tt) /\
    virtual_cpus v (Z.to_nat (count - 1)) /\ well_formed fs' /\
    describes fs' base (cpu_directory t d count (cs_String v)) /\
    forall q, apart base q -> apart tmpDir q -> kind_at fs' q = kind_at fs q.
Proof.
  intros Harch Hun Htree Hfuel Hap Hwf Hbase Htmp count. unfold fill_base. rewrite Harch.
  destruct (Hun fs tmpDir Hwf Htmp) as (fs1 & Hrun & Hcpu & Ha1).
  erewrite dirM_bind_ok by (unfold unpack; by rewrite Hrun).
  assert (well_formed fs1) as Hwf1.
  { pose proof (untar_well_formed willing_os tmpDir fs) as Hw. revert Hrun. unfold UnTarGZ.
    destruct archive as [[es complete]|]; [|done]. specialize (Hw es Hwf).
    destruct (untar willing_os tmpDir fs es). by intros [= <- _]. }
  assert (describes fs1 base (fun _ => None)) as Hbase1.
  { eapply describes_apart; [done|]. intros r. apply Ha1.
    rewrite <- (app_nil_r tmpDir). by apply apart_app. }
  destruct (copy_base_ok fuel (tmpDir ++ ["cpu"]) base fs1 t d)
    as (fs2 & Hcopy & Hwf2 & Hd2 & Ha2); [done..| |done|done|].
  { rewrite <- (app_nil_r base). by apply apart_app. }
  erewrite dirM_bind_ok by exact Hcopy.
  destruct (copies_loop_ok fuel base t d count fs2) as (fs3 & v & Hloop & Hv & Hwf3 & Hd3 & Ha3); [done..|].
  erewrite dirM_bind_ok by exact Hloop.
  destruct (write_lists_ok base cpuSet v fs3 _ Hwf3 Hd3) as (fs4 & Hw & Hwf4 & Hd4 & Ha4).
  { intros n Hn. unfold cpus_at. rewrite decide_False; [by apply (cpu_tree_lists t d)|].
    intros (i & Hi & Hij)%elem_of_cpu_names. by apply (list_name_not_cpu n i) in Hn; [|lia]. }
  exists fs4, v. split_and!; [done..|]. intros q Hqb Hqt. by rewrite Ha4, Ha3, Ha2, Ha1.
Qed.

(** The temporary directory is made beside the cleared one. *)
Lemma make_temp_ok tmpDir base fs :
  well_formed fs -> describes fs base (fun _ => None) -> apart tmpDir base ->
  (forall q c, q `prefix_of` tmpDir -> apart base q -> kind_at fs q <> Some (AFile c)) ->
  kind_at fs tmpDir = None ->
  exists fs', ignore (mkdir_all tmpDir) fs = Some (fs', inr tt) /\ well_formed fs' /\
    describes fs' base (fun _ => None) /\ describes fs' tmpDir (fun _ => None) /\
    forall q, apart tmpDir q -> kind_at fs' q = kind_at fs q.
Proof.
  intros Hwf Hb Hap Hno Hnew.
  destruct (laid_over_mkdir willing_os tmpDir fs) as (fs' & Hm & [Hk Ha] & _); [done| |].
  { intros q c Hq. destruct (decide (q `prefix_of` base)) as [Hqb|Hqb].
    - destruct Hb as [Hb _]. by rewrite (prefix_dir fs base Hb q Hqb).
    - apply Hno; [done|]. split; [|done]. intros Hbq. destruct Hap as [_ []]. by etrans. }
  exists fs'. unfold ignore. unfold MkdirAll in Hm. simpl in Hm. rewrite Hm. split; [done|].
  split; [by eapply mkdir_all_well_formed|]. split; [|split; [split|]].
  - eapply describes_apart; [done|]. intros r. unfold kind_at. rewrite Ha; [done|].
    rewrite <- (app_nil_r tmpDir). by apply apart_app.
  - by eapply laid_is_dir.
  - intros n r. rewrite Hk. unfold overlay. rewrite strip_prefix_app, kind_at_Dir. simpl.
    destruct (kind_at fs (tmpDir ++ n :: r)) eqn:E; [|done]. apply kind_at_parent in E; congruence.
  - intros q Hq. unfold kind_at. by rewrite Ha.
Qed.
Lemma applyCpusToContainer_ok fuel env fs namespace podName containerName containerID cpuSet
    tmpDir archive t d :
  let base := cpuRoot env ++ [namespace; podName; containerName] in
  let count := Z.of_nat (length (cs_List cpuSet)) in
  well_formed fs -> temp_dir env containerID = Some tmpDir -> apart tmpDir base -> tmpDir <> [] ->
  (forall q c, q `prefix_of` base -> kind_at fs q <> Some (AFile c)) ->
  (forall q c, q `prefix_of` tmpDir -> kind_at fs q <> Some (AFile c)) -> kind_at fs tmpDir = None ->
  cpu_archive env = Some archive -> unpacks archive t -> cpu_tree t d -> (height t < fuel)%nat ->
  exists fs' v,
    applyCpusToContainer fuel willing_os env namespace podName containerName containerID cpuSet fs =
      Some (fs', inr tt) /\
    (forall c, cs_Contains v c = true <-> 0 <= c <= Z.max 0 (count - 1)) /\
    describes fs' base (cpu_directory t d count (cs_String v)) /\
    (forall r, kind_at fs' (tmpDir ++ r) = None) /\
    (forall q, apart base q -> apart tmpDir q -> kind_at fs' q = kind_at fs q).
Proof.
  intros base count Hwf Htemp Hap Hne Hb Ht Hnew Harch Hun Htree Hfuel.
  unfold applyCpusToContainer. fold base.
  destruct (clear_base_ok base fs Hwf Hb) as (fs1 & Hclear & Hwf1 & Hd1 & Ha1).
  erewrite dirM_bind_ok by exact Hclear. rewrite Htemp.
  destruct (make_temp_ok tmpDir base fs1) as (fs2 & Hmake & Hwf2 & Hd2 & Hd2' & Ha2); [done..| | |].
  { intros q c Hq Hqb. rewrite Ha1 by done. by apply Ht. }
  { rewrite Ha1; [done|by symmetry]. }
  erewrite dirM_bind_ok by exact Hmake.
  destruct (fill_base_ok fuel env tmpDir base cpuSet fs2 archive t d)
    as (fs3 & v & Hfill & Hv & Hwf3 & Hd3 & Ha3); [done..|].
  exists (remove_all tmpDir fs3), v. unfold deferred. rewrite Hfill. split; [done|].
  fold count in Hv, Hd3. split; [|split; [|split]].
  - intros c. rewrite (Hv c). lia.
  - eapply describes_apart; [done|]. intros r. rewrite kind_at_remove by done. rewrite decide_False; [done|].
    destruct (apart_app tmpDir base [] r Hap) as [H1 _]. by rewrite app_nil_r in H1.
  - intros r. rewrite kind_at_remove by done. by rewrite decide_True by by apply prefix_app_r.
  - intros q Hqb Hqt. rewrite kind_at_remove by done. rewrite decide_False by apply Hqt.
    by rewrite Ha3, Ha2, Ha1.
Qed.
End filled.

(** ** What is never touched, whatever the system refuses *)

(** Only two places change, directories that are not in them stay, and the tree stays
    well-formed. *)
Definition confined (p q : path) (fs fs' : tree) : Prop :=
  (well_formed fs -> well_formed fs') /\ only_at p q fs fs' /\
  forall r, ~ p `prefix_of` r -> ~ q `prefix_of` r -> kind_at fs r = Some ADirectory ->
    kind_at fs' r = Some ADirectory.

#[export] Instance confined_preorder p q : PreOrder (confined p q).
Proof.
  split; [by intros fs|]. intros fs1 fs2 fs3 (Hw1 & H1 & Hd1) (Hw2 & H2 & Hd2).
  split; [auto|]. split; [by eapply only_at_trans|auto].
Qed.

(** A computation that only touches [p] and [q]. *)
Definition stays {A} (p q : path) (m : dirM A) : Prop :=
  forall fs fs' r, m fs = Some (fs', r) -> confined p q fs fs'.

Lemma stays_ret {A} p q (a : A) : stays p q (mret a).
Proof. by intros fs fs' r [= <- _]. Qed.

Lemma stays_throw {A} p q e : stays p q (throw (A := A) e).
Proof. by intros fs fs' r [= <- _]. Qed.

Lemma stays_get_fs p q : stays p q get_fs.
Proof. by intros fs fs' r [= <- _]. Qed.

Lemma stays_bind {A B} p q (m : dirM A) (f : A -> dirM B) :
  stays p q m -> (forall a, stays p q (f a)) -> stays p q (m ≫= f).
Proof.
  intros Hm Hf fs fs' r. unfold mbind, dirM_bind. destruct (m fs) as [[fs1 [e|a]]|] eqn:E; [| |done].
  - intros [= <- _]. by eapply Hm.
  - intros Hrun. etrans; [by eapply Hm|by eapply Hf].
Qed.

Lemma stays_call p q e f : (forall fs fs', f fs = Some fs' -> confined p q fs fs') -> stays p q (call e f).
Proof. intros Hf fs fs' r. unfold call. destruct (f fs) eqn:E; intros [= <- _]; [by apply Hf|done]. Qed.

Lemma stays_ignore p q f : (forall fs fs', f fs = Some fs' -> confined p q fs fs') -> stays p q (ignore f).
Proof.
  intros Hf fs fs' r. unfold ignore. destruct (f fs) eqn:E; intros [= <- _]; [by apply Hf|done].
Qed.

Lemma stays_for_each {A S} p q (f : A -> S -> dirM S) l s :
  (forall x s, stays p q (f x s)) -> stays p q (for_each f l s).
Proof.
  intros Hf. revert s. induction l as [|x l IH]; intros s; simpl; [apply stays_ret|].
  apply stays_bind; [apply Hf|done].
Qed.

Lemma stays_deferred {A} p q f (m : dirM A) : (forall fs fs', f fs = Some fs' -> confined p q fs fs') ->
  stays p q m -> stays p q (deferred f m).
Proof.
  intros Hf Hm fs fs' r. unfold deferred. destruct (m fs) as [[fs1 r1]|] eqn:E; [|done].
  apply Hm in E. destruct (f fs1) eqn:E'; intros [= <- _]; [|done]. etrans; [done|by apply Hf].
Qed.

Create HintDb stays.
#[export] Hint Resolve stays_ret stays_throw stays_get_fs stays_bind stays_call stays_ignore
  stays_for_each stays_deferred : stays.

(** The calls, on a path below one of the two places. *)
Definition below_either (p q r : path) : Prop := p `prefix_of` r \/ q `prefix_of` r.

Lemma below_either_apart p q r x : below_either p q r -> apart p x -> apart q x -> apart r x.
Proof.
  intros [[s ->]|[s ->]] Hp Hq; rewrite <- (app_nil_r x); by apply apart_app.
Qed.

Lemma below_either_app p q r s : below_either p q r -> below_either p q (r ++ s).
Proof. intros [?|?]; [left|right]; by apply prefix_app_r. Qed.

Lemma keeps_confined p q r fs fs' : below_either p q r -> (well_formed fs -> well_formed fs') ->
  keeps r fs fs' -> confined p q fs fs'.
Proof.
  intros Hr Hwf [Hk Hd]. split; [done|]. split; [|auto].
  intros x Hp Hq. apply Hk. by eapply below_either_apart.
Qed.

Lemma MkdirAll_confined os p q r fs fs' : below_either p q r -> MkdirAll os fs r = Some fs' ->
  confined p q fs fs'.
Proof. intros Hr Hm. eapply keeps_confined; [done|by eauto with pooler|by eapply MkdirAll_keeps]. Qed.

Lemma WriteFile_confined os p q r c fs fs' : below_either p q r -> WriteFile os fs r c = Some fs' ->
  confined p q fs fs'.
Proof. intros Hr Hm. eapply keeps_confined; [done|by eauto with pooler|by eapply WriteFile_keeps]. Qed.

Lemma RemoveAll_confined os p q r fs fs' : below_either p q r -> RemoveAll os fs r = Some fs' ->
  confined p q fs fs'.
Proof.
  intros Hr. unfold RemoveAll. destruct (remove_fails os r); intros [= <-].
  split; [apply remove_all_well_formed|]. destruct r as [|n r]; [done|].
  split; [intros x Hp Hq|intros x Hp Hq Hx]; rewrite kind_at_remove by done; rewrite decide_False; [done| |done|].
  - by apply (below_either_apart p q (n :: r) x Hr Hp Hq).
  - intros Hx'. destruct Hr; [apply Hp|apply Hq]; by etrans.
Qed.

Lemma copy_dir_stays fuel os e src dst p q : below_either p q dst -> stays p q (copy_dir fuel os e src dst).
Proof.
  intros Hr fs fs' r. unfold copy_dir. destruct (CopyDir fuel os fs src dst) as [[fs1 ok]|] eqn:E; [|done].
  intros [= <- _]. eapply keeps_confined; [done| |by eapply CopyDir_keeps].
  intros Hwf. by eapply CopyDir_well_formed.
Qed.

(** An archive none of whose names contains [..]. *)
Definition stays_inside (archive : option (list tar_entry * bool)) : Prop :=
  match archive with Some (es, _) => Forall (fun e => ".." ∉ tar_name e) es | None => True end.

Lemma unpack_stays os dst archive p q : below_either p q dst -> stays_inside archive ->
  stays p q (unpack os dst archive).
Proof.
  intros Hr Ha fs fs' r. unfold unpack, UnTarGZ. destruct archive as [[es c]|]; [|by intros [= <- _]].
  pose proof (fun x => untar_apart os dst fs es x Ha) as Hap.
  pose proof (untar_well_formed os dst fs es) as Hwf.
  pose proof (untar_directories os dst fs es) as Hdir.
  destruct (untar os dst fs es) as [fs1 ok]. intros [= <- _]. split; [done|]. split; [|auto].
  intros x Hp Hq. unfold kind_at. simpl in Hap. rewrite Hap; [done|]. by eapply below_either_apart.
Qed.

Lemma clear_base_stays os base q : stays base q (clear_base os base).
Proof.
  unfold clear_base. apply stays_bind; [auto with stays|]. intros fs1. apply stays_bind.
  { destruct (match PathExists _ _ _ with Ok b => b | _ => false end); [auto with stays|].
    apply stays_call. intros. eapply MkdirAll_confined; [by left|done]. }
  intros _. apply stays_bind; [auto with stays|]. intros fs2.
  destruct (match IsEmpty _ _ _ with Ok b => b | _ => false end); [auto with stays|].
  destruct (ReadDir os fs2 base); [|auto with stays]. apply stays_for_each. intros e _.
  apply stays_ignore. intros. eapply RemoveAll_confined; [left; by apply prefix_app_r|done].
Qed.

Lemma fill_base_stays `{CPUSetLib} fuel os env tmpDir base cpuSet :
  (forall archive, cpu_archive env = Some archive -> stays_inside archive) ->
  stays base tmpDir (fill_base fuel os env tmpDir base cpuSet).
Proof.
  intros Ha. unfold fill_base. destruct (cpu_archive env) as [archive|]; [|auto with stays].
  assert (below_either base tmpDir base) as Hb by by left.
  apply stays_bind; [apply unpack_stays; [by right|by apply Ha]|]. intros _.
  apply stays_bind; [by apply copy_dir_stays|]. intros _. apply stays_bind.
  { destruct (1 <? _); [|auto with stays]. apply stays_for_each. intros id v. unfold add_cpu.
    apply stays_bind; [|intros _; apply stays_bind; [|auto with stays]].
    - apply stays_call. intros. eapply MkdirAll_confined; [by apply below_either_app|done].
    - by apply copy_dir_stays, below_either_app. }
  intros v. unfold write_lists. apply stays_bind; [|intros _; apply stays_for_each; intros f _];
    apply stays_call; intros; (eapply WriteFile_confined; [by apply below_either_app|done]).
Qed.

(** The container's directory and the temporary one are all that changes. *)
Lemma applyCpusToContainer_stays `{CPUSetLib} fuel os env namespace podName containerName containerID cpuSet :
  (forall archive, cpu_archive env = Some archive -> stays_inside archive) ->
  let base := cpuRoot env ++ [namespace; podName; containerName] in
  stays base (default base (temp_dir env containerID))
    (applyCpusToContainer fuel os env namespace podName containerName containerID cpuSet).
Proof.
  intros Ha. simpl. unfold applyCpusToContainer. apply stays_bind; [apply clear_base_stays|]. intros _.
  destruct (temp_dir env containerID) as [tmpDir|]; simpl; [|auto with stays].
  assert (below_either (cpuRoot env ++ [namespace; podName; containerName]) tmpDir tmpDir) as Ht by by right.
  apply stays_bind; [|intros _; apply stays_deferred; [|by apply fill_base_stays]].
  - apply stays_ignore. intros fs fs' Hm. eapply (MkdirAll_confined willing_os); [exact Ht|done].
  - intros. by eapply RemoveAll_confined.
Qed.

(** * Properties *)

Section properties.
Context `{CPUSetLaws}.

(** C13: Where nothing is in the way and the system refuses nothing, [applyCpusToContainer]
    succeeds, whatever was in the container's directory before: the directory then holds the
    embedded one with a copy of [cpu0] for each further CPU of the container and none for
    others, the lists name the CPUs from 0 to one less than their number, [kernel_max] is that
    number, and apart from the directory and the temporary one, which is gone, nothing
    changes. *)
Theorem applyCpusToContainer_fills fuel env fs namespace podName containerName containerID cpuSet
    tmpDir archive t d :
  let base := cpuRoot env ++ [namespace; podName; containerName] in
  let count := Z.of_nat (length (cs_List cpuSet)) in
  well_formed fs -> temp_dir env containerID = Some tmpDir -> apart tmpDir base -> tmpDir <> [] ->
  (forall q c, q `prefix_of` base -> kind_at fs q <> Some (AFile c)) ->
  (forall q c, q `prefix_of` tmpDir -> kind_at fs q <> Some (AFile c)) -> kind_at fs tmpDir = None ->
  cpu_archive env = Some archive -> unpacks archive t -> cpu_tree t d -> (height t < fuel)%nat ->
  exists fs' v,
    applyCpusToContainer fuel willing_os env namespace podName containerName containerID cpuSet fs =
      Some (fs', inr tt) /\
    (forall c, cs_Contains v c = true <-> 0 <= c <= Z.max 0 (count - 1)) /\
    describes fs' base (cpu_directory t d count (cs_String v)) /\
    (forall r, kind_at fs' (tmpDir ++ r) = None) /\
    (forall q, apart base q -> apart tmpDir q -> kind_at fs' q = kind_at fs q).
Proof. apply applyCpusToContainer_ok. Qed.
End properties.

(** ** Witness *)

Module directory_example.
Definition embedded : tree :=
  Dir [("cpu0", files_example.cpu0); ("kernel_max", File "0"); ("online", File "0")].

Definition env : DirEnv := {|
  cpuRoot := ["var"; "cpus"];
  temp_dir := fun id => Some ["tmp"; id];
  cpu_archive := Some (Some (entries_of ["cpu"] embedded, true))
|}.

(** A directory of an earlier container of the same name is in the way. *)
Definition fs : tree :=
  Dir [("tmp", Dir []);
       ("var", Dir [("cpus", Dir [("default", Dir [("pod", Dir [("app",
          Dir [("cpu7", Dir [("online", File "1")])])])])])])].
End directory_example.

Section witnesses.
#[local] Existing Instance list_cpuset.lib.
#[local] Existing Instance list_cpuset.laws.
Import directory_example.

Lemma embedded_distinct : distinct embedded.
Proof. repeat (split || constructor || set_solver). Defined.

Lemma embedded_plain : plain embedded.
Proof. repeat split; discriminate. Defined.

Lemma embedded_cpu_tree : cpu_tree embedded files_example.cpu0.
Proof.
  split; [done|done| |].
  - intros i r Hi. unfold embedded. rewrite kind_at_Dir. simpl find_entry.
    rewrite decide_False; [done|]. intros H. change "cpu0" with (cpu_name 0) in H.
    apply cpu_name_inj in H; lia.
  - intros n Hn. unfold list_names in Hn. rewrite !elem_of_cons, elem_of_nil in Hn.
    by destruct Hn as [->|[->|[->|[->|[]]]]].
Defined.

(** No prefix of a directory's path is a file. *)
Lemma no_file_above (t : tree) p : kind_at t p = Some ADirectory ->
  forall q c, q `prefix_of` p -> kind_at t q <> Some (AFile c).
Proof. intros Hp q c Hq. by rewrite (prefix_dir t p Hp q Hq). Defined.

Lemma applyCpusToContainer_fills_witness :
  let base := ["var"; "cpus"; "default"; "pod"; "app"] in
  let count := Z.of_nat (length (cs_List (cs_New [4; 9; 6]))) in
  exists fs' v,
    applyCpusToContainer 4 willing_os env "default" "pod" "app" "1" (cs_New [4; 9; 6]) fs =
      Some (fs', inr tt) /\
    (forall c, cs_Contains v c = true <-> 0 <= c <= Z.max 0 (count - 1)) /\
    describes fs' base (cpu_directory embedded files_example.cpu0 count (cs_String v)) /\
    (forall r, kind_at fs' (["tmp"; "1"] ++ r) = None) /\
    (forall q, apart base q -> apart ["tmp"; "1"] q -> kind_at fs' q = kind_at fs q).
Proof.
  apply (applyCpusToContainer_fills 4 env fs "default" "pod" "app" "1" (cs_New [4; 9; 6])
           ["tmp"; "1"] (Some (entries_of ["cpu"] embedded, true)) embedded files_example.cpu0).
  - repeat (split || constructor).
  - reflexivity.
  - split; intros ?%prefix_cons_inv_1; discriminate.
  - discriminate.
  - by apply no_file_above.
  - intros q c [r Hr]. destruct q as [|n q]; [discriminate|]. simpl in Hr. injection Hr as <- Hr.
    destruct q as [|n q]; [discriminate|]. injection Hr as <- _. by destruct q.
  - reflexivity.
  - reflexivity.
  - apply unpacks_entries; [apply embedded_distinct|apply embedded_plain].
  - apply embedded_cpu_tree.
  - vm_compute. lia.
Defined.
End witnesses.
