(* ===== verification/Cgroup.v ===== *)
(** * The cgroup tree: [pkg/sethandler/controller.go], lines 548-629

    The cpuset of a container is written to the last directory of its cgroup, which
    [filepath.Walk] finds by the container's ID; the cpuset of the infra container to a
    neighbour of it. *)

From S2P Require Import Prelude GoStrings Cpuset K8s Pools SetHandler FileSystem Files.
Local Open Scope Z_scope.

Inductive cgroup_error :=
  | CgroupWalkFailed
  | NoCgroup
  | ChildWalkFailed
  | CpusetNotWritten
  | NoContainerDirectory
  | NoInfraContainer.

(** The two functions [applyCpusetToContainer] gives to [filepath.Walk]. *)
Definition find_cgroup (containerID : string) (p : path) (dir err : bool) (found : option path)
    : option path * walk_ret :=
  if err then (found, WalkErr)
  else if Contains (path_string p) containerID then (Some p, SkipDir)
  else (found, WalkOn).

Definition last_directory (p : path) (dir err : bool) (found : path) : path * walk_ret :=
  if err then (found, WalkErr) else (if dir then p else found, WalkOn).

#[global] Arguments find_cgroup : simpl never.
#[global] Arguments last_directory : simpl never.

Definition cpuset_file (dir : path) : path := dir ++ ["cpuset.cpus"].

Section cgroup.
Context `{CPUSetLib} `{RangeOrder}.

(** The file system afterwards; [Ok None] is the empty path without an error. *)
Definition applyCpusetToContainer (os : OS) (cpusetRoot : path) (fs : tree) (containerID : string)
    (containerCpuset : CPUSet) : tree * res cgroup_error (option path) :=
  if cs_IsEmpty containerCpuset then (fs, Ok None)
  else
    let '(found, ok) := Walk os (find_cgroup containerID) fs cpusetRoot None in
    if negb ok then (fs, Err CgroupWalkFailed)
    else match found with
         | None => (fs, Err NoCgroup)
         | Some returnContainerPath =>
             let '(leaf, ok) := Walk os last_directory fs returnContainerPath returnContainerPath in
             if negb ok then (fs, Err ChildWalkFailed)
             else match WriteFile os fs (cpuset_file leaf) (cs_String containerCpuset) with
                  | None => (fs, Err CpusetNotWritten)
                  | Some fs => (fs, Ok (Some returnContainerPath))
                  end
         end.

(** [filepath.Glob] with the pattern [dir/*], for a [dir] without pattern characters, ignores
    errors. *)
Definition Glob_entries (os : OS) (fs : tree) (dir : path) : list (string * tree) :=
  match Stat os fs dir with
  | Some _ => default [] (ReadDir os fs dir)
  | None => []
  end.

Definition getInfraContainerPath (os : OS) (fs : tree) (podStatus : PodStatusT) (searchPath : path)
    : option path :=
  let dir := removelast searchPath in
  foldl (fun pathToInfraContainer '(name, _) =>
    match Stat os fs (dir ++ [name]) with
    | None => pathToInfraContainer
    | Some t =>
        if is_dir t && negb (containerIDInPodStatus podStatus name)
        then Some (dir ++ [name]) else pathToInfraContainer
    end) None (Glob_entries os fs dir).

Definition applyCpusetToInfraContainer (os : OS) (s : site) (poolConfig : PoolConfig) (fs : tree)
    (podStatus : PodStatusT) (pathToSearchContainer : option path) : tree * res cgroup_error unit :=
  let cpuset := CPUset (SelectPool s poolConfig DefaultPoolID) in
  if cs_IsEmpty cpuset then (fs, Ok tt)
  else match pathToSearchContainer with
       | None => (fs, Err NoContainerDirectory)
       | Some searchPath =>
           match getInfraContainerPath os fs podStatus searchPath with
           | None => (fs, Err NoInfraContainer)
           | Some dir =>
               match WriteFile os fs (cpuset_file dir) (cs_String cpuset) with
               | None => (fs, Err CpusetNotWritten)
               | Some fs => (fs, Ok tt)
               end
           end
       end.
End cgroup.

(** * Lemmas *)

(** ** Walking *)

(** What the function keeps for every path below [p], the walk keeps. *)
Lemma walk_inv {S} os (fn : path -> bool -> bool -> S -> S * walk_ret) (I : S -> Prop) t : forall p st,
  (forall r dir err st, I st -> I (fn (p ++ r) dir err st).1) -> I st -> I (walk os fn p t st).1.
Proof.
  induction t as [c|es IH] using tree_entries_ind; intros p st Hfn Hst; simpl.
  { pose proof (Hfn [] false false st Hst) as Hf. by rewrite app_nil_r in Hf. }
  pose proof (Hfn [] true (readdir_fails os p) st Hst) as Hp. rewrite app_nil_r in Hp.
  destruct (fn p true (readdir_fails os p) st) as [st1 r1]. simpl in Hp.
  assert (forall es2 st, Forall (fun e => e ∈ es) es2 -> I st ->
    I (walk_names (fun name => stat_fails os (p ++ [name])) (fun name => fn (p ++ [name]) false true)
         (fun name => walk os fn (p ++ [name])) es2 st).1) as Hloop.
  { induction es2 as [|[n t] es2 IHl]; intros st2 Hes Hst2; simpl; [done|].
    apply Forall_cons in Hes as [Hin Hes].
    pose proof (Hfn [n] false true st2 Hst2) as Hskip.
    assert (I (walk os fn (p ++ [n]) t st2).1) as Hvisit.
    { rewrite Forall_forall in IH. apply (IH (n, t) Hin); [|done].
      intros r. rewrite <- (assoc_L (++)). apply (Hfn ([n] ++ r)). }
    destruct (stat_fails os (p ++ [n])).
    - destruct (fn (p ++ [n]) false true st2) as [st3 []]; [by apply IHl..|done].
    - destruct (walk os fn (p ++ [n]) t st2) as [st3 []]; [by apply IHl| |done].
      destruct (is_dir t); [by apply IHl|done]. }
  destruct (readdir_fails os p), r1; try done. apply Hloop; [|done]. by apply Forall_forall.
Qed.

Lemma Walk_inv {S} os (fn : path -> bool -> bool -> S -> S * walk_ret) (I : S -> Prop) fs root st :
  (forall r dir err st, I st -> I (fn (root ++ r) dir err st).1) -> I st -> I (Walk os fn fs root st).1.
Proof.
  intros Hfn Hst. unfold Walk. destruct (Stat os fs root) as [t|].
  - pose proof (walk_inv os fn I t root st Hfn Hst) as Hw. by destruct (walk os fn root t st).
  - pose proof (Hfn [] false true st Hst) as Hf. rewrite app_nil_r in Hf.
    by destruct (fn root false true st).
Qed.

Lemma path_string_app p q : path_string (p ++ q) = path_string p +:+ path_string q.
Proof.
  induction p as [|n p IH]; simpl; [done|]. rewrite IH. by rewrite !append_assoc.
Qed.

(** Below a path that names the container every path does. *)
Lemma Contains_below id p q : Contains (path_string p) id = true ->
  Contains (path_string (p ++ q)) id = true.
Proof.
  rewrite path_string_app, !Contains_spec. intros (a & b & ->). exists a, (b +:+ path_string q).
  by rewrite !append_assoc.
Qed.

Lemma find_cgroup_contains os fs root id :
  match (Walk os (find_cgroup id) fs root None).1 with
  | Some p => Contains (path_string p) id = true
  | None => True
  end.
Proof.
  apply (Walk_inv os (find_cgroup id) (fun found => match found with
    | Some p => Contains (path_string p) id = true | None => True end)); [|done].
  intros r dir err st Hst. unfold find_cgroup. destruct err; [done|].
  by destruct (Contains _ id) eqn:E.
Qed.

Lemma last_directory_below os fs p : exists r, (Walk os last_directory fs p p).1 = p ++ r.
Proof.
  apply (Walk_inv os last_directory (fun d => exists r, d = p ++ r)).
  - intros r dir err st Hst. unfold last_directory. destruct err; [done|]. destruct dir; [by exists r|done].
  - exists []. by rewrite app_nil_r.
Qed.

(** ** Finding the cgroup *)

(** Entries whose walk has no effect. *)
Lemma walk_names_pass {S} skipped (visit : string -> tree -> S -> S * walk_ret) l rest st :
  (forall n t, (n, t) ∈ l -> visit n t st = (st, WalkOn)) ->
  walk_names (fun _ => false) skipped visit (l ++ rest) st =
    walk_names (fun _ => false) skipped visit rest st.
Proof.
  induction l as [|[n t] l IH]; intros Hl; simpl; [done|].
  rewrite (Hl n t) by left. apply IH. intros. apply Hl. by right.
Qed.

Lemma NoDup_names_others {A} (es1 es2 : list (string * A)) n t m u :
  NoDup (es1 ++ (n, t) :: es2).*1 -> (m, u) ∈ es1 ++ es2 -> m <> n.
Proof.
  rewrite fmap_app, fmap_cons. intros (_ & Hd & [H2 _]%NoDup_cons)%NoDup_app Hm ->.
  apply elem_of_app in Hm as [Hm|Hm]; apply (list_elem_of_fmap_2 fst) in Hm; [|done].
  apply (Hd _ Hm). left.
Qed.

(** A tree none of whose paths names the container is walked without effect. *)
Lemma walk_no_hit id t : forall p found,
  (forall r, is_Some (t !! r) -> Contains (path_string (p ++ r)) id = false) -> distinct t ->
  walk willing_os (find_cgroup id) p t found = (found, WalkOn).
Proof.
  induction t as [c|es IH] using tree_entries_ind; intros p found Hno Hd; simpl; unfold find_cgroup at 1;
    pose proof (Hno [] ltac:(eauto)) as Hp; rewrite app_nil_r in Hp; rewrite Hp; [done|].
  apply distinct_Dir in Hd as [Hnd Hd]. rewrite <- (app_nil_r es).
  rewrite Forall_forall in IH, Hd. rewrite walk_names_pass; [done|].
  intros n t Hin. apply (IH (n, t) Hin); [|by apply (Hd (n, t))].
  intros r [t' Hr]. rewrite <- (assoc_L (++)). apply (Hno (n :: r)).
  exists t'. by rewrite (lookup_elem es n t).
Qed.

(** The cgroup at [r] below [p] names the container, and every path that does is at or below
    it. *)
Definition unique_hit (id : string) (p r : path) (t : tree) : Prop :=
  Contains (path_string (p ++ r)) id = true /\
  forall r', is_Some (t !! r') -> Contains (path_string (p ++ r')) id = true -> r `prefix_of` r'.

Lemma unique_hit_above id p n r t : unique_hit id p (n :: r) t -> Contains (path_string p) id = false.
Proof.
  intros [_ Hu]. apply not_true_is_false. intros Hp.
  destruct (Hu []) as [k Hk]; [by eexists|by rewrite app_nil_r|done].
Qed.

Lemma unique_hit_below id p n r es t : unique_hit id p (n :: r) (Dir es) -> NoDup es.*1 ->
  (n, t) ∈ es -> unique_hit id (p ++ [n]) r t.
Proof.
  intros [Hc Hu] Hnd Hin. split; [by rewrite <- (assoc_L (++))|].
  intros r' [x Hx] Hr'. rewrite <- (assoc_L (++)) in Hr'.
  apply (prefix_cons_inv_2 n n). apply Hu; [|done]. exists x. by rewrite (lookup_elem es n t).
Qed.

(** The other entries are walked without effect. *)
Lemma unique_hit_beside id p n r es m t found : unique_hit id p (n :: r) (Dir es) -> distinct (Dir es) ->
  (m, t) ∈ es -> m <> n -> walk willing_os (find_cgroup id) (p ++ [m]) t found = (found, WalkOn).
Proof.
  intros [_ Hu] [Hnd Hd]%distinct_Dir Hin Hne. rewrite Forall_forall in Hd.
  apply walk_no_hit; [|by apply (Hd (m, t))].
  intros r' [x Hx]. apply not_true_is_false. intros Hr'. rewrite <- (assoc_L (++)) in Hr'.
  destruct (Hu (m :: r')) as [k Hk]; [|done|simplify_eq/=].
  exists x. by rewrite (lookup_elem es m t).
Qed.

Lemma walk_unique_hit id r : forall t p found es, unique_hit id p r t -> distinct t ->
  t !! r = Some (Dir es) ->
  walk willing_os (find_cgroup id) p t found =
    (Some (p ++ r), match r with [] => SkipDir | _ => WalkOn end).
Proof.
  induction r as [|n r IH]; intros t p found es Hu Hd Hr.
  { destruct t; simplify_eq/=. unfold find_cgroup at 1. destruct Hu as [Hc _].
    rewrite app_nil_r in *. by rewrite Hc. }
  destruct t as [|es']; [done|]. simpl. unfold find_cgroup at 1.
  rewrite (unique_hit_above _ _ _ _ _ Hu). rewrite lookup_Dir in Hr.
  destruct (find_entry n es') as [tn|] eqn:Hn; [|done]. change (tn !! r = Some (Dir es)) in Hr.
  apply find_entry_elem in Hn as Hin.
  pose proof Hd as [Hnd Hall]%distinct_Dir. rewrite Forall_forall in Hall.
  apply list_elem_of_split in Hin as Hsplit. destruct Hsplit as (es1 & es2 & Hes).
  assert (forall m t, (m, t) ∈ es1 ++ es2 -> (m, t) ∈ es' /\ m <> n) as Hbeside.
  { intros m t Hm. rewrite Hes in Hnd |- *. split; [set_solver|].
    by eapply NoDup_names_others. }
  rewrite Hes, walk_names_pass.
  2: { intros m t Hm. destruct (Hbeside m t) as [Hm' Hne]; [set_solver|]. by eapply unique_hit_beside. }
  simpl. rewrite (IH tn (p ++ [n]) found es); [|by eapply unique_hit_below|by apply (Hall (n, tn))|done].
  rewrite <- (app_nil_r es2), <- (assoc_L (++)).
  assert (is_dir tn = true \/ r <> []) as Hcase by (destruct r, tn; simplify_eq/=; auto).
  destruct r as [|m r]; [destruct Hcase as [->|]; [|done]|]; rewrite walk_names_pass; try done;
    intros m' t Hm; (destruct (Hbeside m' t) as [Hm' Hne]; [set_solver|]); by eapply unique_hit_beside.
Qed.

(** ** The last directory *)

(** A directory without directories in it. *)
Definition leaf_dir (t : tree) : Prop :=
  exists es, t = Dir es /\ Forall (fun e => is_dir e.2 = false) es.

Lemma walk_last_directory t : forall p d, distinct t ->
  match t with
  | File _ => walk willing_os last_directory p t d = (d, WalkOn)
  | Dir _ => exists r t', walk willing_os last_directory p t d = (p ++ r, WalkOn) /\
      t !! r = Some t' /\ leaf_dir t'
  end.
Proof.
  induction t as [c|es IH] using tree_entries_ind; intros p d Hd; simpl; [done|].
  unfold last_directory at 1. apply distinct_Dir in Hd as [Hnd Hd].
  assert (forall es2 es1 d, es = es1 ++ es2 ->
    (d = p /\ Forall (fun e => is_dir e.2 = false) es1 \/
     exists r t', d = p ++ r /\ Dir es !! r = Some t' /\ leaf_dir t') ->
    exists r t', walk_names (fun _ => false) (fun name => last_directory (p ++ [name]) false true)
        (fun name => walk willing_os last_directory (p ++ [name])) es2 d = (p ++ r, WalkOn) /\
      Dir es !! r = Some t' /\ leaf_dir t') as Hloop.
  { induction es2 as [|[n t] es2 IHl]; intros es1 d' Hes Hst; simpl.
    { destruct Hst as [[-> Hall]|(r & t' & -> & Hr)]; [|by exists r, t'].
      exists [], (Dir es). rewrite app_nil_r in *. subst es1. split; [done|]. split; [done|].
      by exists es. }
    assert ((n, t) ∈ es) as Hin by (subst es; apply elem_of_app; right; left).
    rewrite Forall_forall in IH, Hd. specialize (IH (n, t) Hin (p ++ [n]) d' (Hd (n, t) Hin)).
    simpl in IH. assert (es = (es1 ++ [(n, t)]) ++ es2) as Hes' by by rewrite <- (assoc_L (++)).
    destruct t as [c|esn].
    - rewrite IH. apply (IHl _ _ Hes'). destruct Hst as [[-> Hall]|Hst]; [left|by right].
      split; [done|]. apply Forall_app_2; [done|]. by constructor.
    - destruct IH as (r & t' & -> & Hr & Hleaf). apply (IHl _ _ Hes'). right.
      exists (n :: r), t'. rewrite <- (assoc_L (++)). split; [done|]. split; [|done].
      by rewrite (lookup_elem es n (Dir esn)). }
  destruct (Hloop es [] p eq_refl) as (r & t' & Hw & Hr); [by left|].
  exists r, t'. split; [exact Hw|done].
Qed.

(** ** The cgroup of a container *)

(** Below the root exactly one cgroup, at [p], names the container: the others that do are
    inside it. *)
Definition cgroup_of (fs : tree) (root p : path) (id : string) : Prop :=
  kind_at fs p = Some ADirectory /\ root `prefix_of` p /\
  Contains (path_string p) id = true /\
  forall q, root `prefix_of` q -> is_Some (kind_at fs q) -> Contains (path_string q) id = true ->
    p `prefix_of` q.

(** The place [applyCpusetToContainer] writes: a directory of the cgroup without directories
    in it. *)
Definition leaf_of (fs : tree) (p d : path) : Prop :=
  p `prefix_of` d /\ kind_at fs d = Some ADirectory /\
  forall n, kind_at fs (d ++ [n]) <> Some ADirectory.

Lemma Walk_find_cgroup fs root p id : well_formed fs -> cgroup_of fs root p id ->
  Walk willing_os (find_cgroup id) fs root None = (Some p, true).
Proof.
  intros Hwf (Hp & [r ->] & Hc & Hu). apply kind_at_directory in Hp as [es Hes].
  assert (exists t, fs !! root = Some t /\ t !! r = Some (Dir es)) as (t & Ht & Hr).
  { rewrite lookup_tree_app in Hes. destruct (fs !! root) as [t|]; [|done]. by exists t. }
  unfold Walk, Stat. simpl. rewrite Ht.
  rewrite (walk_unique_hit id r t root None es); [by destruct r| | |done].
  - split; [done|]. intros r' [x Hx] Hr'.
    apply (prefix_app_inv root). apply Hu; [by apply prefix_app_r| |done].
    rewrite kind_at_app, Ht. simpl. unfold kind_at. by rewrite Hx.
  - by apply well_formed_distinct, (lookup_well_formed fs root).
Qed.

Lemma Walk_last_directory fs p : well_formed fs -> kind_at fs p = Some ADirectory ->
  exists d, Walk willing_os last_directory fs p p = (d, true) /\ leaf_of fs p d.
Proof.
  intros Hwf [es Hes]%kind_at_directory. unfold Walk, Stat. simpl. rewrite Hes.
  destruct (walk_last_directory (Dir es) p p) as (r & t' & -> & Hr & Hleaf).
  { by eapply well_formed_distinct, lookup_well_formed. }
  assert (fs !! (p ++ r) = Some t') as Hd by by rewrite lookup_tree_app, Hes.
  exists (p ++ r). split; [done|]. split; [by apply prefix_app_r|].
  destruct Hleaf as (es' & -> & Hall). split; [unfold kind_at; by rewrite Hd|]. intros n.
  rewrite kind_at_app, Hd. change (kind_at (Dir es') [n] <> Some ADirectory). rewrite kind_at_Dir.
  destruct (find_entry n es') as [t|] eqn:Hf; simpl; [|done].
  apply find_entry_elem in Hf. rewrite Forall_forall in Hall. specialize (Hall _ Hf). by destruct t.
Qed.

Lemma leaf_of_directory fs p d : leaf_of fs p d -> kind_at fs d = Some ADirectory.
Proof. by intros (_ & Hd & _). Qed.

(** A leaf has no directory in it, so the file can be written. *)
Lemma leaf_of_cpuset_file fs p d : leaf_of fs p d -> kind_at fs (cpuset_file d) <> Some ADirectory.
Proof. intros (_ & _ & Hno). apply Hno. Qed.

(** ** The neighbours of a container's cgroup *)

(** A directory that belongs to none of the pod's containers. *)
Definition is_infra (fs : tree) (st : PodStatusT) (parent : path) (name : string) : Prop :=
  kind_at fs (parent ++ [name]) = Some ADirectory /\ containerIDInPodStatus st name = false.

Definition infra_step (os : OS) (fs : tree) (st : PodStatusT) (dir : path) (found : option path)
    (e : string * tree) : option path :=
  match Stat os fs (dir ++ [e.1]) with
  | None => found
  | Some t => if is_dir t && negb (containerIDInPodStatus st e.1) then Some (dir ++ [e.1]) else found
  end.

Lemma getInfraContainerPath_fold os fs st search :
  getInfraContainerPath os fs st search =
    foldl (infra_step os fs st (removelast search)) None (Glob_entries os fs (removelast search)).
Proof.
  unfold getInfraContainerPath. generalize (None (A := path)).
  induction (Glob_entries _ _ _) as [|[n t] es IH]; intros found; [done|]. apply IH.
Qed.

Lemma infra_step_cases os fs st dir found e :
  infra_step os fs st dir found e = found \/
  infra_step os fs st dir found e = Some (dir ++ [e.1]) /\ is_infra fs st dir e.1.
Proof.
  unfold infra_step, Stat, is_infra, kind_at. destruct (stat_fails os _); [by left|].
  destruct (fs !! (dir ++ [e.1])) as [t|]; [|by left].
  destruct (is_dir t && _) eqn:E; [|by left]. apply andb_prop in E as [Hd Hn%negb_true_iff].
  right. by destruct t.
Qed.

Lemma infra_step_hits fs st dir found e : is_infra fs st dir e.1 ->
  infra_step willing_os fs st dir found e = Some (dir ++ [e.1]).
Proof.
  intros [[es Hes]%kind_at_directory Hn]. unfold infra_step, Stat. simpl. by rewrite Hes, Hn.
Qed.

Lemma getInfraContainerPath_is os fs st search p : getInfraContainerPath os fs st search = Some p ->
  exists name, p = removelast search ++ [name] /\ is_infra fs st (removelast search) name.
Proof.
  rewrite getInfraContainerPath_fold.
  apply (foldl_inv _ (fun found => found = Some p -> exists name, p = removelast search ++ [name] /\
    is_infra fs st (removelast search) name)); [done|].
  intros found e Hfound _. destruct (infra_step_cases os fs st (removelast search) found e) as [->|[-> Hi]].
  - done.
  - intros [= <-]. by exists e.1.
Qed.

Lemma getInfraContainerPath_unique fs st search name : is_infra fs st (removelast search) name ->
  (forall m, is_infra fs st (removelast search) m -> m = name) ->
  getInfraContainerPath willing_os fs st search = Some (removelast search ++ [name]).
Proof.
  intros Hinfra Hunique. rewrite getInfraContainerPath_fold. set (dir := removelast search) in *.
  pose proof Hinfra as [Hk _]. apply kind_at_parent in Hk as [es Hes]%kind_at_directory; [|done].
  unfold Glob_entries, Stat, ReadDir. simpl. rewrite Hes. simpl.
  assert (exists t, (name, t) ∈ es) as [t Hin].
  { pose proof Hinfra as [Hk _]. rewrite kind_at_app, Hes in Hk. simpl in Hk. rewrite kind_at_Dir in Hk.
    destruct (find_entry name es) as [t|] eqn:Hf; [|done]. exists t. by apply find_entry_elem. }
  apply list_elem_of_split in Hin as (es1 & es2 & ->).
  rewrite foldl_app. cbn [foldl]. rewrite infra_step_hits by done.
  apply (foldl_inv _ (fun found => found = Some (dir ++ [name]))); [done|].
  intros found e -> _. destruct (infra_step_cases willing_os fs st dir (Some (dir ++ [name])) e)
    as [->|[-> Hi]]; [done|]. by rewrite (Hunique e.1).
Qed.

(** ** Writing without creating: the shape of the tree *)

Definition shape (k : option kind) : option bool :=
  (fun k => match k with AFile _ => false | ADirectory => true end) <$> k.

Definition same_shape (root : path) (fs fs' : tree) : Prop :=
  forall q, root `prefix_of` q -> shape (kind_at fs' q) = shape (kind_at fs q).

#[export] Instance same_shape_preorder root : PreOrder (same_shape root).
Proof. split; [by intros fs q|]. intros fs1 fs2 fs3 H1 H2 q Hq. by rewrite H2, H1. Qed.

Lemma shape_directory k : k = Some ADirectory <-> shape k = Some true.
Proof. by destruct k as [[]|]. Qed.

Lemma shape_Some k : is_Some k <-> is_Some (shape k).
Proof. unfold shape. by rewrite fmap_is_Some. Qed.

Lemma same_shape_directory root fs fs' q : same_shape root fs fs' -> root `prefix_of` q ->
  kind_at fs' q = Some ADirectory <-> kind_at fs q = Some ADirectory.
Proof. intros Hs Hq. by rewrite !shape_directory, (Hs q Hq). Qed.

Lemma same_shape_cgroup root fs fs' p id : same_shape root fs fs' -> cgroup_of fs root p id ->
  cgroup_of fs' root p id.
Proof.
  intros Hs (Hp & Hr & Hc & Hu). split; [by apply (same_shape_directory root fs)|]. split; [done|].
  split; [done|]. intros q Hq Hsome. apply (Hu q Hq). apply shape_Some. rewrite <- (Hs q Hq).
  by apply shape_Some.
Qed.

Lemma same_shape_leaf root fs fs' p d : same_shape root fs fs' -> root `prefix_of` p ->
  leaf_of fs' p d <-> leaf_of fs p d.
Proof.
  intros Hs Hr. unfold leaf_of. split; intros (Hp & Hd & Hno); (split; [done|]);
    assert (root `prefix_of` d) as Hrd by by etrans.
  - split; [by apply (same_shape_directory root fs fs')|]. intros n.
    rewrite <- (same_shape_directory root fs fs') by (done || by apply prefix_app_r). apply Hno.
  - split; [by apply (same_shape_directory root fs fs')|]. intros n.
    rewrite (same_shape_directory root fs fs') by (done || by apply prefix_app_r). apply Hno.
Qed.

Lemma same_shape_infra root fs fs' st parent name : same_shape root fs fs' -> root `prefix_of` parent ->
  is_infra fs' st parent name <-> is_infra fs st parent name.
Proof.
  intros Hs Hr. unfold is_infra. rewrite (same_shape_directory root fs fs'); [done|done|].
  by apply prefix_app_r.
Qed.

(** One file gets new contents. *)
Definition rewrites (file : path) (content : string) (fs fs' : tree) : Prop :=
  forall q, kind_at fs' q = if decide (q = file) then Some (AFile content) else kind_at fs q.

Lemma rewrites_same_shape root file c c' fs fs' : rewrites file c fs fs' ->
  kind_at fs file = Some (AFile c') -> same_shape root fs fs'.
Proof. intros Hw Hf q _. rewrite Hw. case_decide as Hq; [|done]. subst q. by rewrite Hf. Qed.

(** * What is written *)

Section writes.
Context `{CPUSetLib} `{RangeOrder}.

(** If one cgroup below the root names the container and the system refuses nothing, the
    call succeeds: it returns the cgroup, the cpuset of one of its last directories, one
    without children, is the container's, and nothing else changes. *)
Lemma applyCpusetToContainer_sets fs root p id set :
  well_formed fs -> cgroup_of fs root p id -> cs_IsEmpty set = false ->
  exists fs' d, applyCpusetToContainer willing_os root fs id set = (fs', Ok (Some p)) /\
    leaf_of fs p d /\ rewrites (cpuset_file d) (cs_String set) fs fs'.
Proof.
  intros Hwf Hcg Hset. unfold applyCpusetToContainer. rewrite Hset.
  rewrite (Walk_find_cgroup fs root p id Hwf Hcg). simpl.
  destruct (Walk_last_directory fs p Hwf) as (d & -> & Hleaf); [apply Hcg|]. simpl.
  destruct (write_file_Some d "cpuset.cpus" (cs_String set) fs) as [fs' Hw];
    [by eapply leaf_of_directory|by eapply leaf_of_cpuset_file|].
  unfold WriteFile. simpl. unfold cpuset_file at 1. rewrite Hw.
  exists fs', d. split; [done|]. split; [done|]. intros q. by apply kind_at_write.
Qed.

(** If the cgroup has one neighbour that belongs to no container of the pod and the system
    refuses nothing, that neighbour gets the CPUs of the default pool and nothing else
    changes. *)
Lemma applyCpusetToInfraContainer_sets s poolConfig fs st p name :
  let set := CPUset (SelectPool s poolConfig DefaultPoolID) in
  is_infra fs st (removelast p) name -> (forall m, is_infra fs st (removelast p) m -> m = name) ->
  kind_at fs (cpuset_file (removelast p ++ [name])) <> Some ADirectory -> cs_IsEmpty set = false ->
  exists fs', applyCpusetToInfraContainer willing_os s poolConfig fs st (Some p) = (fs', Ok tt) /\
    rewrites (cpuset_file (removelast p ++ [name])) (cs_String set) fs fs'.
Proof.
  intros set Hinfra Hunique Hno Hset. unfold applyCpusetToInfraContainer. fold set. rewrite Hset.
  rewrite (getInfraContainerPath_unique fs st p name) by done.
  destruct (write_file_Some (removelast p ++ [name]) "cpuset.cpus" (cs_String set) fs) as [fs' Hw];
    [apply Hinfra|done|].
  unfold WriteFile, cpuset_file. simpl. rewrite Hw. exists fs'. split; [done|].
  intros q. by apply kind_at_write.
Qed.

Lemma applyCpusetToContainer_well_formed os root fs id set : well_formed fs ->
  well_formed (applyCpusetToContainer os root fs id set).1.
Proof.
  intros Hwf. unfold applyCpusetToContainer. destruct (cs_IsEmpty set); [done|].
  destruct (Walk os (find_cgroup id) fs root None) as [[p|] []]; simpl; [|done..].
  destruct (Walk os last_directory fs p p) as [d []]; simpl; [|done].
  destruct (WriteFile os fs _ _) eqn:Hw; simpl; eauto with pooler.
Qed.

Lemma applyCpusetToInfraContainer_well_formed os s poolConfig fs st search : well_formed fs ->
  well_formed (applyCpusetToInfraContainer os s poolConfig fs st search).1.
Proof.
  intros Hwf. unfold applyCpusetToInfraContainer. destruct (cs_IsEmpty _); [done|].
  destruct search as [p|]; [|done]. destruct (getInfraContainerPath os fs st p); [|done].
  destruct (WriteFile os fs _ _) eqn:Hw; simpl; eauto with pooler.
Qed.

(** Isolation: whatever the tree, the IDs and the failures of the system,
    [applyCpusetToContainer] writes at most one file, the cpuset of a directory whose path
    names the container. *)
Lemma applyCpusetToContainer_isolated os root fs id set q :
  kind_at (applyCpusetToContainer os root fs id set).1 q <> kind_at fs q ->
  exists d, q = cpuset_file d /\ Contains (path_string d) id = true /\
    kind_at (applyCpusetToContainer os root fs id set).1 q = Some (AFile (cs_String set)).
Proof.
  unfold applyCpusetToContainer. destruct (cs_IsEmpty set); [done|].
  pose proof (find_cgroup_contains os fs root id) as Hfound.
  destruct (Walk os (find_cgroup id) fs root None) as [[p|] []]; simpl in *; [|done..].
  destruct (last_directory_below os fs p) as [r Hr].
  destruct (Walk os last_directory fs p p) as [d []]; simpl in *; [|done]. subst d.
  unfold WriteFile. destruct (write_fails os _); [done|].
  destruct (write_file _ _ fs) as [fs'|] eqn:Hw; simpl; [|done].
  rewrite (kind_at_write _ _ _ _ q Hw). case_decide as Hq; [|done]. intros _.
  exists (p ++ r). split; [done|]. split; [by apply Contains_below|done].
Qed.

(** Isolation of the infra container: at most one file changes, the cpuset of a neighbour of
    the given cgroup whose name contains the ID of no container of the pod; it is the cpuset
    of the default pool. *)
Lemma applyCpusetToInfraContainer_isolated os s poolConfig fs st search q :
  let fs' := (applyCpusetToInfraContainer os s poolConfig fs st search).1 in
  kind_at fs' q <> kind_at fs q ->
  exists p name, search = Some p /\ q = cpuset_file (removelast p ++ [name]) /\
    is_infra fs st (removelast p) name /\
    kind_at fs' q = Some (AFile (cs_String (CPUset (SelectPool s poolConfig DefaultPoolID)))).
Proof.
  unfold applyCpusetToInfraContainer. destruct (cs_IsEmpty _); [done|].
  destruct search as [p|]; [|done].
  destruct (getInfraContainerPath os fs st p) as [dir|] eqn:Hdir; [|done].
  apply getInfraContainerPath_is in Hdir as (name & -> & Hinfra).
  unfold WriteFile. destruct (write_fails os _); [done|].
  destruct (write_file _ _ fs) as [fs'|] eqn:Hw; simpl; [|done].
  rewrite (kind_at_write _ _ _ _ q Hw). case_decide as Hq; [|done]. intros _.
  by exists p, name.
Qed.
End writes.

(** * Checking [cgroup_of] by evaluation *)

(** The paths of a tree. *)
Fixpoint paths (t : tree) : list path :=
  match t with
  | File _ => [[]]
  | Dir es => [] :: (fix below es := match es with
                     | [] => []
                     | (n, t) :: es => (cons n <$> paths t) ++ below es
                     end) es
  end.

Lemma elem_of_paths q : forall t, is_Some (kind_at t q) -> q ∈ paths t.
Proof.
  induction q as [|n q IH]; intros t; [intros _; destruct t; left|].
  destruct t as [c|es]; [by rewrite kind_at_File; intros []|].
  rewrite kind_at_Dir. intros Hq. apply elem_of_cons. right.
  induction es as [|[m t] es IHe]; simpl in *; [by destruct Hq|].
  apply elem_of_app. case_decide as Hm; [left|right; by apply IHe].
  subst m. apply list_elem_of_fmap. exists q. split; [done|]. by apply IH.
Qed.

(** [cgroup_of] by evaluation. *)
Lemma cgroup_of_checked fs root p id :
  bool_decide (kind_at fs p = Some ADirectory) && bool_decide (root `prefix_of` p) &&
  Contains (path_string p) id &&
  forallb (fun q => negb (bool_decide (root `prefix_of` q)) || negb (Contains (path_string q) id)
                    || bool_decide (p `prefix_of` q)) (paths fs) = true ->
  cgroup_of fs root p id.
Proof.
  intros [[[Hk Hr]%andb_prop Hc]%andb_prop Hall]%andb_prop. to_prop. repeat split; [done..|].
  intros q Hroot Hq Hid. rewrite forallb_forall in Hall.
  specialize (Hall q (proj1 (list_elem_of_In _ _) (elem_of_paths q fs Hq))).
  rewrite Hid, bool_decide_true in Hall by done. simpl in Hall. by to_prop.
Qed.
