(* ===== verification/Adjust.v ===== *)
(** * Adjusting a pod: [pkg/sethandler/controller.go], lines 222-242 and 297-334

    [adjustContainerSets] chooses the cpuset of each container of a pod, writes it to the
    cgroup and makes the emulated CPU directory; [handlePods] retries it.  The state is the
    file system, which other threads and programs change as well: before each step the next
    of their changes happens.  A step is one of [applyCpusetToContainer],
    [applyCpusToContainer] and [applyCpusetToInfraContainer].  Log output and waiting between
    attempts are left out. *)

From S2P Require Import Prelude GoStrings Cpuset K8s PodApi Pools SetHandler PodEvents FileSystem Files CpuDirectory Cgroup.
Local Open Scope Z_scope.

Definition setterAnnotationKey : string := resourceBaseName +:+ "/cpusets-configured".

Inductive adjust_error :=
  | NoCorrectCpuset (e : setter_error)
  | CpusetNotAdjusted (e : cgroup_error)
  | CpusNotAdjusted (e : dir_error)
  | InfraNotAdjusted (e : cgroup_error)
  | AnnotationNotSet.

(** The file system, and what others will do to it. *)
Record world := mkWorld {
  files : tree;
  others : list (tree -> tree)
}.

(** The next change of the others. *)
Definition interfere (w : world) : world :=
  match others w with
  | [] => w
  | f :: l => mkWorld (f (files w)) l
  end.

(** A computation on the world that returns, fails or panics, or does not end ([None]). *)
Definition adjM (A : Type) : Type := world -> option (world * res adjust_error A).

#[export] Instance adjM_ret : MRet adjM := fun A a w => Some (w, Ok a).

#[export] Instance adjM_bind : MBind adjM := fun A B f m w =>
  match m w with
  | Some (w, Ok a) => f a w
  | Some (w, Err e) => Some (w, Err e)
  | Some (w, Panic p) => Some (w, Panic p)
  | None => None
  end.

(** A result, a step on the file system, and a computation of [CpuDirectory], whose errors
    are rewrapped. *)
Definition value {E A} (wrap : E -> adjust_error) (r : res E A) : adjM A := fun w =>
  Some (w, map_err wrap r).

Definition step {E A} (wrap : E -> adjust_error) (f : tree -> tree * res E A) : adjM A := fun w =>
  let w := interfere w in
  let '(fs, r) := f (files w) in Some (mkWorld fs (others w), map_err wrap r).

Definition dir_step {A} (m : dirM A) : adjM A := fun w =>
  let w := interfere w in
  match m (files w) with
  | Some (fs, inr a) => Some (mkWorld fs (others w), Ok a)
  | Some (fs, inl e) => Some (mkWorld fs (others w), Err (CpusNotAdjusted e))
  | None => None
  end.

Definition crash {A} (p : panic) : adjM A := fun w => Some (w, Panic p).

Definition fail {A} (e : adjust_error) : adjM A := fun w => Some (w, Err e).

Section adjust.
Context `{CPUSetLib} `{RangeOrder} `{PodApi}.

(** The fields of [SetHandler]; [copy_fuel] bounds the depth [CopyDir] goes to. *)
Record SetHandlerT := mkSetHandler {
  sh_env : HandlerEnv;
  sh_os : OS;
  sh_dirs : DirEnv;
  copy_fuel : nat;
  cpusetRoot : path
}.
Implicit Types (s : site) (sh : SetHandlerT).

(** [setHandler.applyCpusToContainer] with the names of the pod. *)
Definition make_cpus sh (pod : v1_Pod) (container : v1_Container) (containerID : string)
    (set : CPUSet) : dirM unit :=
  applyCpusToContainer (copy_fuel sh) (sh_os sh) (sh_dirs sh) (pod_Namespace pod) (pod_Name pod)
    (ctr_Name container) containerID set.

(** The body of the loop over the containers.  The message of an unknown container is built
    from [err], which is nil there. *)
Definition adjust_container s sh (pod : v1_Pod) (container : v1_Container) : adjM (option path) :=
  '(cfgContainerCPUSet, realCPUSet) ←
    value NoCorrectCpuset (determineCorrectCpuset s (sh_env sh) pod container);
  let containerID := determineCid (pod_Status pod) (ctr_Name container) in
  if decide (containerID = "") then crash NilDereference
  else
    pathToContainerCpusetFile ← step CpusetNotAdjusted (fun fs =>
      applyCpusetToContainer (sh_os sh) (cpusetRoot sh) fs containerID realCPUSet);
    _ ← dir_step (make_cpus sh pod container containerID cfgContainerCPUSet);
    mret pathToContainerCpusetFile.

Fixpoint adjust_containers (i : nat) s sh (pod : v1_Pod) (containersToBeSet : gmap string Z)
    (containers : list v1_Container) (pathToContainerCpusetFile : option path) : adjM (option path) :=
  match containers with
  | [] => mret pathToContainerCpusetFile
  | container :: containers =>
      match containersToBeSet !! ctr_Name container with
      | None => adjust_containers (S i) s sh pod containersToBeSet containers pathToContainerCpusetFile
      | Some _ =>
          p ← adjust_container (i :: 0%nat :: s) sh pod container;
          adjust_containers (S i) s sh pod containersToBeSet containers p
      end
  end.

Definition adjustContainerSets (attempt : nat) s sh (pod : v1_Pod) (containersToBeSet : gmap string Z)
    : adjM unit :=
  pathToContainerCpusetFile ← adjust_containers 0 s sh pod containersToBeSet (pod_Containers pod) None;
  _ ← step InfraNotAdjusted (fun fs =>
    applyCpusetToInfraContainer (sh_os sh) (1%nat :: s) (poolConfig (sh_env sh)) fs (pod_Status pod)
      pathToContainerCpusetFile);
  if SetPodAnnotation attempt pod setterAnnotationKey "true" then mret tt else fail AnnotationNotSet.

(** How [handlePods] ends. *)
Inductive outcome :=
  | NotMine
  | NoContainers
  | Adjusted
  | GaveUp (e : adjust_error)
  | Crashed (p : panic).

(** The attempts from the [i]-th on, [last] being the error so far. *)
Fixpoint adjust_retry (n i : nat) s sh (pod : v1_Pod) (containersToBeSet : gmap string Z)
    (last : outcome) (w : world) : option (world * outcome) :=
  match n with
  | O => Some (w, last)
  | S n =>
      match adjustContainerSets i (i :: s) sh pod containersToBeSet w with
      | None => None
      | Some (w, Ok _) => Some (w, Adjusted)
      | Some (w, Panic p) => Some (w, Crashed p)
      | Some (w, Err e) => adjust_retry n (S i) s sh pod containersToBeSet (GaveUp e) w
      end
  end.

(** With no attempt at all the final message would use a nil [err]. *)
Definition handlePods (setterNodeName : string) s sh (item : workItem) (w : world)
    : option (world * outcome) :=
  let '(isItMyPod, pod) :=
    shouldPodBeHandled setterNodeName (fun i => RefreshPod i (newPod item)) (newPod item) in
  if negb isItMyPod then Some (w, NotMine)
  else
    let containersToBeSet := gatherAllContainers pod in
    if decide (containersToBeSet = ∅) then Some (w, NoContainers)
    else adjust_retry MaxRetryCount 0 s sh pod containersToBeSet (Crashed NilDereference) w.
End adjust.

Arguments SetHandlerT {_}.

(** * Lemmas *)

(** ** What a computation does to the world, however it ends *)

Definition respects {A} (R : world -> world -> Prop) (m : adjM A) : Prop :=
  forall w w' r, m w = Some (w', r) -> R w w'.

Section respects.
Context (R : world -> world -> Prop) `{!PreOrder R}.

Lemma respects_bind {A B} (m : adjM A) (f : A -> adjM B) :
  respects R m -> (forall a, respects R (f a)) -> respects R (m ≫= f).
Proof.
  intros Hm Hf w w' r. unfold mbind, adjM_bind. destruct (m w) as [[w1 [a|e|p]]|] eqn:E; [| | |done];
    apply Hm in E; [|by intros [= <- _]..]. intros Hr%Hf. by etrans.
Qed.

Lemma respects_ret {A} (a : A) : respects R (mret a).
Proof. by intros w w' r [= <- _]. Qed.

Lemma respects_bind_value {E A B} wrap (x : res E A) (f : A -> adjM B) :
  (forall a, x = Ok a -> respects R (f a)) -> respects R (value wrap x ≫= f).
Proof.
  intros Hf w w' r. destruct x as [a|e|p]; [apply (Hf a eq_refl)|by intros [= <- _]..].
Qed.

Lemma respects_crash {A} p : respects R (crash (A := A) p).
Proof. by intros w w' r [= <- _]. Qed.

Lemma respects_fail {A} e : respects R (fail (A := A) e).
Proof. by intros w w' r [= <- _]. Qed.

Context (R_interfere : forall w, R w (interfere w)).

Lemma respects_step {E A} wrap (f : tree -> tree * res E A) :
  (forall fs l, R (mkWorld fs l) (mkWorld (f fs).1 l)) -> respects R (step wrap f).
Proof.
  intros Hf w w' r. unfold step. specialize (Hf (files (interfere w)) (others (interfere w))).
  destruct (f (files (interfere w))) as [fs x]. intros [= <- _]. etrans; [apply R_interfere|].
  by destruct (interfere w).
Qed.

Lemma respects_dir_step {A} (m : dirM A) :
  (forall fs fs' l r, m fs = Some (fs', r) -> R (mkWorld fs l) (mkWorld fs' l)) -> respects R (dir_step m).
Proof.
  intros Hm w w' r. unfold dir_step. destruct (m (files (interfere w))) as [[fs1 [e|a]]|] eqn:E; [| |done];
    apply (Hm _ _ (others (interfere w))) in E; intros [= <- _]; (etrans; [apply R_interfere|]);
    by destruct (interfere w).
Qed.
End respects.

Section frame.
Context `{CPUSetLib} `{RangeOrder} `{PodApi}.
Context (sh : SetHandlerT) (pod : v1_Pod).

(** The place of the emulated CPU directory, and of the temporary one. *)
Definition cpu_base (c : v1_Container) : path :=
  cpuRoot (sh_dirs sh) ++ [pod_Namespace pod; pod_Name pod; ctr_Name c].

Definition container_id (c : v1_Container) : string := determineCid (pod_Status pod) (ctr_Name c).

Definition cpu_temp (c : v1_Container) : path :=
  default (cpu_base c) (temp_dir (sh_dirs sh) (container_id c)).

Definition apart_from_cpus (q : path) : Prop :=
  forall c, c ∈ pod_Containers pod -> apart (cpu_base c) q /\ apart (cpu_temp c) q.

(** What may be written elsewhere: the set of a container to a cgroup that names it, and the
    default pool's set to a cgroup that names no container of the pod. *)
Inductive authorised (q : path) (k : option kind) : Prop :=
  | for_container s c cfgSet realSet d
      (Hc : c ∈ pod_Containers pod)
      (Hset : determineCorrectCpuset s (sh_env sh) pod c = Ok (cfgSet, realSet))
      (Hid : container_id c <> "")
      (Hd : Contains (path_string d) (container_id c) = true)
      (Hq : q = cpuset_file d) (Hk : k = Some (AFile (cs_String realSet)))
  | for_infra s parent name
      (Hname : containerIDInPodStatus (pod_Status pod) name = false)
      (Hq : q = cpuset_file (parent ++ [name]))
      (Hk : k = Some (AFile (cs_String (CPUset (SelectPool s (poolConfig (sh_env sh)) DefaultPoolID))))).

(** The others leave the path alone. *)
Definition left_alone (q : path) (w : world) : Prop :=
  Forall (fun f => forall fs, kind_at (f fs) q = kind_at fs q) (others w).

Definition only_authorised (w w' : world) : Prop :=
  forall q, apart_from_cpus q -> left_alone q w ->
    left_alone q w' /\ (kind_at (files w') q = kind_at (files w) q \/ authorised q (kind_at (files w') q)).

#[export] Instance only_authorised_preorder : PreOrder only_authorised.
Proof.
  split; [by split; [|left]|]. intros w1 w2 w3 H12 H23 q Hq Hl.
  destruct (H12 q Hq Hl) as [Hl2 H2]. destruct (H23 q Hq Hl2) as [Hl3 [Heq|]]; (split; [done|]); [|by right].
  by rewrite Heq.
Qed.

Lemma interfere_authorised w : only_authorised w (interfere w).
Proof.
  intros q _ Hl. unfold left_alone, interfere in *. destruct w as [fs [|f l]]; simpl in *; [by split; [|left]|].
  inversion_clear Hl as [|? ? Hf Hl']. split; [done|]. left. apply Hf.
Qed.

(** A step of our own that writes only what is authorised. *)
Lemma own_authorised fs fs' l :
  (forall q, apart_from_cpus q -> kind_at fs' q <> kind_at fs q -> authorised q (kind_at fs' q)) ->
  only_authorised (mkWorld fs l) (mkWorld fs' l).
Proof.
  intros Hown q Hq Hl. split; [done|]. simpl.
  destruct (decide (kind_at fs' q = kind_at fs q)); [by left|right; by apply Hown].
Qed.

Hypothesis archive_inside : forall archive, cpu_archive (sh_dirs sh) = Some archive -> stays_inside archive.

Lemma make_cpus_authorised c set fs fs' l r : c ∈ pod_Containers pod ->
  make_cpus sh pod c (container_id c) set fs = Some (fs', r) ->
  only_authorised (mkWorld fs l) (mkWorld fs' l).
Proof.
  intros Hc Hrun. apply own_authorised. intros q Hq Hne. destruct Hne.
  apply (applyCpusToContainer_stays _ _ _ _ _ _ _ _ archive_inside) in Hrun as (_ & Honly & _).
  destruct (Hq c Hc). by apply Honly.
Qed.

Lemma adjust_container_authorised s c : c ∈ pod_Containers pod ->
  respects only_authorised (adjust_container s sh pod c).
Proof.
  intros Hc. unfold adjust_container. fold (container_id c).
  apply respects_bind_value; [apply _|]. intros [cfgSet realSet] Hset.
  case_decide as Hid; [by apply respects_crash, _|].
  apply respects_bind; [apply _| |intros p; apply respects_bind; [apply _| |intros; by apply respects_ret, _]].
  - apply respects_step; [apply _|apply interfere_authorised|]. intros fs l. apply own_authorised.
    intros q _ Hne. apply applyCpusetToContainer_isolated in Hne as (d & Hq & Hd & Hk).
    by eapply for_container.
  - apply respects_dir_step; [apply _|apply interfere_authorised|]. intros fs fs' l r.
    by apply make_cpus_authorised.
Qed.

Lemma adjust_containers_authorised s toset cs : cs ⊆ pod_Containers pod -> forall i p,
  respects only_authorised (adjust_containers i s sh pod toset cs p).
Proof.
  intros Hcs. induction cs as [|c cs IH]; intros i p; simpl; [apply respects_ret, _|].
  assert (cs ⊆ pod_Containers pod) as Hcs' by set_solver.
  destruct (toset !! ctr_Name c); [|by apply IH].
  apply respects_bind; [apply _|apply adjust_container_authorised; set_solver|]. intros. by apply IH.
Qed.

Lemma adjustContainerSets_authorised attempt s toset :
  respects only_authorised (adjustContainerSets attempt s sh pod toset).
Proof.
  unfold adjustContainerSets. apply respects_bind; [apply _|by apply adjust_containers_authorised|].
  intros p. apply respects_bind; [apply _| |].
  - apply respects_step; [apply _|apply interfere_authorised|]. intros fs l. apply own_authorised.
    intros q _ Hne. apply applyCpusetToInfraContainer_isolated in Hne as (p' & name & _ & Hq & [_ Hname] & Hk).
    by eapply for_infra.
  - intros _. destruct (SetPodAnnotation _ _ _ _); [apply respects_ret, _|apply respects_fail, _].
Qed.

Lemma adjust_retry_authorised n : forall i s toset last w w' o,
  adjust_retry n i s sh pod toset last w = Some (w', o) -> only_authorised w w'.
Proof.
  induction n as [|n IH]; intros i s toset last w w' o; simpl; [by intros [= <- _]|].
  destruct (adjustContainerSets _ _ _ _ _ w) as [[w1 [a|e|p]]|] eqn:E; [| | |done];
    apply adjustContainerSets_authorised in E; [by intros [= <- _]| |by intros [= <- _]].
  intros Hr. etrans; [done|]. by eapply IH.
Qed.
End frame.

(** ** Panics *)

Section crashes.
Context `{CPUSetLib} `{RangeOrder} `{PodApi}.
Context (sh : SetHandlerT) (pod : v1_Pod).

(** Where a panic of the setter comes from. *)
Definition panic_source (p : panic) : Prop :=
  exists c, c ∈ pod_Containers pod /\
    (p = NilDereference /\ container_id pod c = "" \/
     exists s, determineCorrectCpuset s (sh_env sh) pod c = Panic p).

Lemma bind_panics {A B} (m : adjM A) (f : A -> adjM B) w w' p :
  (m ≫= f) w = Some (w', Panic p) ->
  m w = Some (w', Panic p) \/ exists w1 a, m w = Some (w1, Ok a) /\ f a w1 = Some (w', Panic p).
Proof.
  unfold mbind, adjM_bind. destruct (m w) as [[w1 [a|e|q]]|]; [|done|intros [= -> ->]; by left|done]. right. by exists w1, a.
Qed.

Lemma container_never_panics os root fs id set p :
  (applyCpusetToContainer os root fs id set).2 <> Panic p.
Proof.
  unfold applyCpusetToContainer. destruct (cs_IsEmpty set); [done|].
  destruct (Walk _ _ fs root None) as [[q|] []]; simpl; [|done..].
  destruct (Walk _ _ fs q q) as [q' []]; simpl; [|done]. by destruct (WriteFile _ _ _ _).
Qed.

Lemma infra_never_panics os s cfg fs st search p :
  (applyCpusetToInfraContainer os s cfg fs st search).2 <> Panic p.
Proof.
  unfold applyCpusetToInfraContainer. destruct (cs_IsEmpty _); [done|].
  destruct search as [q|]; [|done]. destruct (getInfraContainerPath _ _ _ _); [|done].
  by destruct (WriteFile _ _ _ _).
Qed.

Lemma step_never_panics {E A} wrap (f : tree -> tree * res E A) w w' p :
  (forall fs, (f fs).2 <> Panic p) -> step wrap f w <> Some (w', Panic p).
Proof.
  intros Hf. unfold step. specialize (Hf (files (interfere w))).
  destruct (f (files (interfere w))) as [fs1 [a|e|q]]; [done..|]. simpl in *. congruence.
Qed.

Lemma adjust_container_panics s c w w' p : c ∈ pod_Containers pod ->
  adjust_container s sh pod c w = Some (w', Panic p) -> panic_source p.
Proof.
  intros Hc Hrun. exists c. split; [done|]. unfold adjust_container in Hrun. fold (container_id pod c) in Hrun.
  apply bind_panics in Hrun as [Hrun|(w1 & [cfgSet realSet] & _ & Hrun)].
  { right. exists s. unfold value in Hrun. by destruct (determineCorrectCpuset s (sh_env sh) pod c); simplify_eq/=. }
  case_decide as Hid; [left; by injection Hrun|].
  apply bind_panics in Hrun as [Hrun|(w2 & q & _ & Hrun)].
  { exfalso. revert Hrun. apply step_never_panics. intros. apply container_never_panics. }
  apply bind_panics in Hrun as [Hrun|(w3 & u & _ & Hrun)]; [|done].
  exfalso. unfold dir_step in Hrun. by destruct (make_cpus _ _ _ _ _ _) as [[? []]|].
Qed.

Lemma adjust_containers_panics s toset cs : cs ⊆ pod_Containers pod -> forall i q w w' p,
  adjust_containers i s sh pod toset cs q w = Some (w', Panic p) -> panic_source p.
Proof.
  intros Hcs. induction cs as [|c cs IH]; intros i q w w' p; simpl; [done|].
  assert (cs ⊆ pod_Containers pod) as Hcs' by set_solver.
  destruct (toset !! ctr_Name c); [|by apply IH].
  intros [Hrun|(w1 & q' & _ & Hrun)]%bind_panics; [|by eapply IH].
  eapply adjust_container_panics; [|done]. set_solver.
Qed.

Lemma adjustContainerSets_panics attempt s toset w w' p :
  adjustContainerSets attempt s sh pod toset w = Some (w', Panic p) -> panic_source p.
Proof.
  intros [Hrun|(w1 & q & _ & Hrun)]%bind_panics; [by eapply adjust_containers_panics|].
  apply bind_panics in Hrun as [Hrun|(w2 & u & _ & Hrun)].
  - exfalso. revert Hrun. apply step_never_panics. intros. apply infra_never_panics.
  - by destruct (SetPodAnnotation _ _ _ _).
Qed.

Lemma adjust_retry_panics n : forall i s toset last w w' p,
  adjust_retry n i s sh pod toset last w = Some (w', Crashed p) ->
    (n = 0%nat /\ last = Crashed p) \/ panic_source p.
Proof.
  induction n as [|n IH]; intros i s toset last w w' p; simpl; [by intros [= _ ->]; left|].
  destruct (adjustContainerSets i (i :: s) sh pod toset w) as [[w1 [a|e|q]]|] eqn:E; [done| | |done].
  - intros Hrun%IH. right. by destruct Hrun as [[_ [=]]|].
  - intros [= _ ->]. right. by eapply adjustContainerSets_panics.
Qed.
End crashes.

(** * Properties *)

Section properties.

(** C7: Whatever the system refuses, the API answers and the cgroups look like, and however
    [handlePods] ends: apart from the CPU directories of the pod and the temporary ones, the
    only files that change are cpuset files of cgroups that name a container of the pod,
    which get the set chosen for it, and of cgroups that name none of its containers, which
    get the default pool's; unless it is one of the others that changes the file. *)
Theorem handlePods_isolated `{CPUSetLib} `{RangeOrder} `{PodApi} setterNodeName s sh item w w' o q :
  let pod := (shouldPodBeHandled setterNodeName (fun i => RefreshPod i (newPod item)) (newPod item)).2 in
  (forall archive, cpu_archive (sh_dirs sh) = Some archive -> stays_inside archive) ->
  handlePods setterNodeName s sh item w = Some (w', o) -> apart_from_cpus sh pod q -> left_alone q w ->
  kind_at (files w') q <> kind_at (files w) q -> authorised sh pod q (kind_at (files w') q).
Proof.
  intros pod Ha. unfold handlePods. subst pod.
  destruct (shouldPodBeHandled _ _ _) as [[] pod]; cbn [negb snd]; [|by intros [= <- _]].
  case_decide; [by intros [= <- _]|].
  intros Hrun Hq Hl Hne. apply (adjust_retry_authorised sh pod Ha) in Hrun.
  by destruct (Hrun q Hq Hl) as [_ []].
Qed.

(** C33: A panic while a pod is handled comes from a container without an ID after its runtime's
    prefix is removed, whose error message uses a nil [err], or from [determineCorrectCpuset]
    itself. *)
Theorem handlePods_panics `{CPUSetLib} `{RangeOrder} `{PodApi} setterNodeName s sh item w w' p :
  let pod := (shouldPodBeHandled setterNodeName (fun i => RefreshPod i (newPod item)) (newPod item)).2 in
  handlePods setterNodeName s sh item w = Some (w', Crashed p) -> panic_source sh pod p.
Proof.
  intros pod. unfold handlePods. subst pod.
  destruct (shouldPodBeHandled _ _ _) as [[] pod]; cbn [negb snd]; [|done].
  case_decide; [done|]. by intros [[]|]%adjust_retry_panics.
Qed.
End properties.

(** ** Witnesses *)

Module adjust_example.
#[export] Existing Instance list_cpuset.lib.
#[export] Existing Instance list_cpuset.laws.
#[export] Existing Instance range_forward.

Definition cpuset_entry : string * tree := ("cpuset.cpus", File "0-7").

(** A pod of two containers, the first with a child cgroup, and its infra container. *)
Definition cgroups : tree :=
  Dir [cpuset_entry; ("kubepods", Dir [cpuset_entry; ("pod1",
    Dir [("c0ffee", Dir [cpuset_entry; ("init", Dir [cpuset_entry])]);
         cpuset_entry;
         ("decaf", Dir [cpuset_entry]);
         ("pause", Dir [cpuset_entry])])])].

Definition fs : tree := Dir [("cgroup", cgroups); ("tmp", Dir []); ("var", Dir [("cpus", Dir [])])].

Definition shared_cpus : @CPUSet list_cpuset.lib := [4; 5].
Definition default_cpus : @CPUSet list_cpuset.lib := [0; 1].

Definition pool_of (cpus : list Z) : Pool := @mkPool list_cpuset.lib cpus "" "" 1 "" 0 ∅.

Definition config : PoolConfig :=
  @mkPoolConfig list_cpuset.lib (list_to_map
    [("default", pool_of [0; 1]); ("shared_a", pool_of [4; 5])]) ∅.

Definition env : HandlerEnv := {|
  poolConfig := config;
  checkpoint_file := None;
  json_File := fun _ => None;
  json_NewFile := fun _ => None;
  numOfCpus := 8;
  HTTopology := ∅;
  AddHTSiblingsToCPUSet := fun set _ => set
|}.

Definition dirs : DirEnv := {|
  cpuRoot := ["var"; "cpus"];
  temp_dir := fun id => Some ["tmp"; id];
  cpu_archive := Some (Some (entries_of ["cpu"] directory_example.embedded, true))
|}.

Definition handler_of (env : HandlerEnv) : SetHandlerT := mkSetHandler env willing_os dirs 4 ["cgroup"].

Definition handler : SetHandlerT := handler_of env.

Definition app : v1_Container :=
  mk_v1_Container "app" ∅ {["bonc.k8s.io/shared_a" := "500"]} [] [] [] [] None.
Definition side : v1_Container := mk_v1_Container "side" ∅ ∅ [] [] [] [] None.

Definition status (name id : string) : ContainerStatus := mk_ContainerStatus name id true None 0 None true None None.

Definition pod_with (app_id : string) : v1_Pod :=
  mk_v1_Pod "default" "pod" "uid" ∅ false "node" [] [app; side] []
    (mk_PodStatus "Running" "" [] [] [status "app" app_id; status "side" "docker://decaf"]).

Definition pod : v1_Pod := pod_with "containerd://c0ffee".

(** The API has the pod; the annotation fails twice. *)
Definition api : PodApi := {|
  RefreshPod := fun _ p => Some p;
  SetPodAnnotation := fun n _ _ _ => (2 <=? n)%nat;
  GetPodsFromKubelet := Ok [pod]
|}.
End adjust_example.

Section witnesses.
Import adjust_example.

(** The child of the first container's cgroup is what changes, while someone else writes
    below [/tmp]. *)
Definition note (t : tree) : tree := default t (WriteFile willing_os t ["tmp"; "note"] "1").
Definition busy : world := mkWorld fs [note].

Lemma handlePods_isolated_witness :
  exists w', handlePods (H1 := api) "node" [] handler (mkItem None pod) busy = Some (w', Adjusted) /\
    authorised handler pod ["cgroup"; "kubepods"; "pod1"; "c0ffee"; "init"; "cpuset.cpus"]
      (kind_at (files w') ["cgroup"; "kubepods"; "pod1"; "c0ffee"; "init"; "cpuset.cpus"]).
Proof.
  assert (exists w', handlePods (H1 := api) "node" [] handler (mkItem None pod) busy = Some (w', Adjusted) /\
    kind_at (files w') ["cgroup"; "kubepods"; "pod1"; "c0ffee"; "init"; "cpuset.cpus"] = Some (AFile "4,5"))
    as (w' & Hrun & Hk) by (eexists; split; vm_compute; reflexivity).
  exists w'. split; [done|].
  apply (handlePods_isolated (H1 := api) "node" [] handler (mkItem None pod) busy w' Adjusted).
  - intros archive [= <-]. apply (bool_decide_unpack _). vm_compute. exact I.
  - done.
  - intros c _. split; (split; intros H%prefix_cons_inv_1; discriminate).
  - repeat constructor. intros t. unfold note, WriteFile. simpl.
    destruct (write_file ["tmp"; "note"] "1" t) as [t'|] eqn:Hw; [|done].
    by rewrite (kind_at_write _ _ _ _ _ Hw).
  - rewrite Hk. vm_compute. discriminate.
Defined.

Lemma handlePods_panics_witness : exists w',
  handlePods (H1 := api) "node" [] handler (mkItem None (pod_with "docker://")) busy =
    Some (w', Crashed NilDereference) /\ panic_source handler (pod_with "docker://") NilDereference.
Proof.
  assert (exists w', handlePods (H1 := api) "node" [] handler (mkItem None (pod_with "docker://")) busy =
    Some (w', Crashed NilDereference)) as [w' Hrun] by (eexists; vm_compute; reflexivity).
  exists w'. split; [done|].
  apply (handlePods_panics (H1 := api) "node" [] handler (mkItem None (pod_with "docker://")) busy w'
    NilDereference Hrun).
Defined.
End witnesses.
