(* ===== verification/Deployment.v ===== *)
(** * Nodes on which pods can be adjusted

    What it takes for [handlePods] of [Adjust] to succeed: the CPU directories
    ([cpus_deployed], [cpus_ready]) and the cgroups of a pod ([deployed], [ready]).  The work
    of a handling is a list of steps ([handling_steps]) that does not depend on what the others
    do as long as they keep the node ready; so the theorems hold for every interleaving, and
    two workers can be followed at once ([interleave]). *)

From S2P Require Import Prelude GoStrings Cpuset K8s PodApi Pools SetHandler PodEvents FileSystem Files CpuDirectory Cgroup Adjust.
Local Open Scope Z_scope.

(** ** The IDs of the containers in the status *)

Lemma determineCid_in st name : determineCid st name <> "" ->
  exists c, c ∈ st_ContainerStatuses st /\ trimContainerPrefix (stat_ContainerID c) = determineCid st name.
Proof.
  unfold determineCid.
  apply (for_range_inv _ (fun _ _ => True) (fun o => after o (fun _ => "") <> "" ->
    exists c, c ∈ st_ContainerStatuses st /\
      trimContainerPrefix (stat_ContainerID c) = after o (fun _ => ""))); [done| |done].
  intros l1 c l2 [] Hl _. case_decide; [|done]. intros _. exists c. split; [|done].
  rewrite Hl. apply elem_of_app. right. left.
Qed.

Lemma containerIDInPodStatus_in st c name : c ∈ st_ContainerStatuses st ->
  Contains name (trimContainerPrefix (stat_ContainerID c)) = true -> containerIDInPodStatus st name = true.
Proof.
  intros Hin Hc. unfold containerIDInPodStatus.
  apply (for_range_inv _ (fun l1 _ => c ∉ l1) (fun o => after o (fun _ => false) = true)).
  - apply not_elem_of_nil.
  - intros l1 x l2 [] _ Hno. destruct (Contains name (trimContainerPrefix (stat_ContainerID x))) eqn:E; [done|].
    rewrite elem_of_app, list_elem_of_singleton. intros [?| ->]; [done|congruence].
  - done.
Qed.

(** ** The CPU directories of a node

    [P] says which containers of which pods there are. *)

Record cpu_site := {
  temp_root : path;
  temp_name : string -> string;
  embedded : tree;
  embedded_cpu0 : tree
}.

Section cpu_directories.
Context `{CPUSetLaws}.
Context (sh : SetHandlerT) (P : v1_Pod -> v1_Container -> Prop) (k : cpu_site).

Definition temp_path (id : string) : path := temp_root k ++ [temp_name k id].

Record cpus_deployed : Prop := {
  os_willing : sh_os sh = willing_os;
  cpus_apart : apart (cpusetRoot sh) (cpuRoot (sh_dirs sh));
  temp_apart : apart (cpusetRoot sh) (temp_root k);
  temp_apart_cpus : apart (temp_root k) (cpuRoot (sh_dirs sh));
  temp_made pod c : P pod c ->
    temp_dir (sh_dirs sh) (container_id pod c) = Some (temp_path (container_id pod c));
  archive_known : exists archive, cpu_archive (sh_dirs sh) = Some archive /\
    unpacks archive (embedded k) /\ stays_inside archive;
  embedded_ok : cpu_tree (embedded k) (embedded_cpu0 k);
  fuel_enough : (height (embedded k) < copy_fuel sh)%nat
}.

(** The file system before and after each step. *)
Record cpus_ready (fs : tree) : Prop := {
  ready_well_formed : well_formed fs;
  ready_base pod c q content : P pod c -> q `prefix_of` cpu_base sh pod c ->
    kind_at fs q <> Some (AFile content);
  ready_temp : kind_at fs (temp_root k) = Some ADirectory;
  ready_new pod c : P pod c -> kind_at fs (temp_path (container_id pod c)) = None
}.

Context (Hdep : cpus_deployed).

Lemma below_root_apart q r : cpusetRoot sh `prefix_of` q -> r = cpuRoot (sh_dirs sh) \/ r = temp_root k ->
  forall x, apart (r ++ x) q.
Proof.
  intros [y ->] Hr x. apply apart_app. symmetry.
  destruct Hr as [->| ->]; [by apply cpus_apart|by apply temp_apart].
Qed.

(** Changes below the root of the cgroups do not matter. *)
Lemma cpus_ready_root fs fs' : cpus_ready fs -> well_formed fs' ->
  (forall q, ~ cpusetRoot sh `prefix_of` q -> kind_at fs' q = kind_at fs q) -> cpus_ready fs'.
Proof.
  intros Hr Hwf Hsame.
  assert (forall q r x, r = cpuRoot (sh_dirs sh) \/ r = temp_root k -> q `prefix_of` r ++ x ->
    kind_at fs' q = kind_at fs q) as Hout.
  { intros q r x Hr' Hq. apply Hsame. intros Hroot.
    destruct (below_root_apart q r Hroot Hr' x) as [_ Hn]. done. }
  split; [done| | |].
  - intros pod c q x Hc Hq. rewrite (Hout q (cpuRoot (sh_dirs sh)) _ (or_introl eq_refl) Hq).
    by apply (ready_base fs Hr pod c).
  - rewrite (Hout _ (temp_root k) []); [by apply ready_temp|by right|by rewrite app_nil_r].
  - intros pod c Hc. rewrite (Hout _ (temp_root k) [temp_name k (container_id pod c)]);
      [by apply ready_new|by right|done].
Qed.

(** The prefixes of the place of a CPU directory: above the root of all of them, or below it. *)
Lemma base_prefix pod c q : q `prefix_of` cpu_base sh pod c ->
  q `prefix_of` cpuRoot (sh_dirs sh) \/ cpuRoot (sh_dirs sh) `prefix_of` q.
Proof.
  intros Hq. apply (prefix_weak_total q (cpuRoot (sh_dirs sh)) (cpu_base sh pod c)); [done|].
  by apply prefix_app_r.
Qed.

(** No prefix of a temporary path is a file. *)
Lemma temp_prefix fs pod c q x : cpus_ready fs -> P pod c ->
  q `prefix_of` temp_path (container_id pod c) -> kind_at fs q <> Some (AFile x).
Proof.
  intros Hr Hc [y Hq]. destruct y as [|n y _] using rev_ind.
  - rewrite app_nil_r in Hq. rewrite <- Hq. by rewrite (ready_new fs Hr pod c).
  - unfold temp_path in Hq. rewrite (assoc_L (++)) in Hq. apply app_inj_tail in Hq as [Hq _].
    rewrite (prefix_dir fs (temp_root k)); [done|by apply ready_temp|]. rewrite Hq. by apply prefix_app_r.
Qed.

Lemma make_cpus_runs fs pod c set : cpus_ready fs -> P pod c ->
  exists fs', make_cpus sh pod c (container_id pod c) set fs = Some (fs', inr tt) /\
    confined (cpu_base sh pod c) (temp_path (container_id pod c)) fs fs' /\
    kind_at fs' (cpu_base sh pod c) = Some ADirectory /\
    kind_at fs' (temp_path (container_id pod c)) = None.
Proof.
  intros Hr Hc. destruct (archive_known Hdep) as (archive & Harch & Hun & Hin).
  pose proof (temp_made Hdep pod c Hc) as Htemp.
  assert (apart (temp_path (container_id pod c)) (cpu_base sh pod c)) as Hap
    by (apply apart_app; by apply temp_apart_cpus).
  destruct (applyCpusToContainer_ok (copy_fuel sh) (sh_dirs sh) fs (pod_Namespace pod) (pod_Name pod)
    (ctr_Name c) (container_id pod c) set (temp_path (container_id pod c)) archive (embedded k) (embedded_cpu0 k))
    as (fs' & v & Hrun & _ & [Hbase _] & Hgone & _); [by apply ready_well_formed|done|done
    |unfold temp_path; by destruct (temp_root k)|intros q x; by apply (ready_base fs Hr)
    |intros q x; by apply (temp_prefix fs pod c)|by apply ready_new|done|done
    |by apply embedded_ok|by apply fuel_enough|].
  exists fs'. unfold make_cpus. rewrite (os_willing Hdep). split; [done|].
  apply applyCpusToContainer_stays in Hrun; [|intros a Ha; by rewrite Harch in Ha; injection Ha as <-].
  fold (cpu_base sh pod c) in Hrun. rewrite Htemp in Hrun. split; [done|]. split; [done|].
  rewrite <- (app_nil_r (temp_path _)). apply Hgone.
Qed.

Lemma make_cpus_ok fs pod c set : cpus_ready fs -> P pod c ->
  exists fs', make_cpus sh pod c (container_id pod c) set fs = Some (fs', inr tt) /\ cpus_ready fs' /\
    forall q, cpusetRoot sh `prefix_of` q -> kind_at fs' q = kind_at fs q.
Proof.
  intros Hr Hc. destruct (make_cpus_runs fs pod c set Hr Hc) as (fs' & Hrun & (Hwf & Honly & Hdir) & Hbase & Hgone).
  exists fs'. split; [done|]. split; [|intros q Hq; apply Honly; apply below_root_apart; auto].
  split.
  - by apply Hwf, ready_well_formed.
  - intros pod' c' q x Hc' Hq. destruct (decide (q `prefix_of` cpu_base sh pod c)) as [Hqc|Hqc].
    + by rewrite (prefix_dir fs' _ Hbase q Hqc).
    + rewrite Honly; [by apply (ready_base fs Hr pod' c')| |].
      * split; [|done]. intros Hbq. apply Hqc.
        assert (cpu_base sh pod c = q) as ->; [|done].
        apply (prefix_length_eq _ _ Hbq). apply prefix_length in Hq. unfold cpu_base in *.
        rewrite !length_app in *. done.
      * destruct (base_prefix pod' c' q Hq) as [Hup|[y ->]].
        -- exfalso. apply Hqc. etrans; [done|by apply prefix_app_r].
        -- apply apart_app. by apply temp_apart_cpus.
  - apply Hdir; [| |by apply ready_temp].
    + intros [y Hy]. apply (temp_apart_cpus Hdep). exists ([pod_Namespace pod; pod_Name pod; ctr_Name c] ++ y).
      by rewrite (assoc_L (++)).
    + intros Hy%prefix_length. unfold temp_path in Hy. rewrite length_app in Hy. simpl in Hy. lia.
  - intros pod' c' Hc'. unfold temp_path in *.
    destruct (decide (temp_name k (container_id pod' c') = temp_name k (container_id pod c))) as [Heq|Hne].
    + by rewrite Heq.
    + rewrite Honly; [by apply (ready_new fs Hr pod' c')| |].
      * symmetry. apply apart_app. by apply temp_apart_cpus.
      * apply apart_siblings. congruence.
Qed.
End cpu_directories.

(** ** A node on which a pod can be adjusted *)

Section deployment.
Context `{CPUSetLaws} `{RangeOrder} `{PodApi}.
Context (sh : SetHandlerT) (pod : v1_Pod) (toset : gmap string Z).

(** The containers [adjustContainerSets] goes through. *)
Definition to_be_set (c : v1_Container) : Prop :=
  c ∈ pod_Containers pod /\ is_Some (toset !! ctr_Name c).

(** The cgroup of the pod, the names of the cgroups in it, the CPU directories and the
    containers of the node that have one, and the sets. *)
Record deployment := {
  pod_cgroup : path;
  cgroup_name : v1_Container -> string;
  infra_name : string;
  cpus_of : cpu_site;
  node_containers : v1_Pod -> v1_Container -> Prop;
  correct_set : v1_Container -> CPUSet;
  default_set : CPUSet
}.

Definition container_cgroup (d : deployment) (c : v1_Container) : path :=
  pod_cgroup d ++ [cgroup_name d c].

Record deployed (d : deployment) : Prop := {
  some_container : exists c, to_be_set c;
  sets_known s c : to_be_set c -> exists cfgSet realSet,
    determineCorrectCpuset s (sh_env sh) pod c = Ok (cfgSet, realSet) /\ realSet ≡ correct_set d c;
  sets_not_empty c : to_be_set c -> cs_IsEmpty (correct_set d c) = false;
  default_known s : CPUset (SelectPool s (poolConfig (sh_env sh)) DefaultPoolID) ≡ default_set d;
  ids_known c : to_be_set c -> container_id pod c <> "";
  cgroup_below_root : cpusetRoot sh `prefix_of` pod_cgroup d;
  cgroup_named c : to_be_set c -> Contains (cgroup_name d c) (container_id pod c) = true;
  cgroups_differ c c' : to_be_set c -> to_be_set c' -> cgroup_name d c = cgroup_name d c' -> c = c';
  containers_known c : to_be_set c -> node_containers d pod c;
  directories_deployed : cpus_deployed sh (node_containers d) (cpus_of d)
}.

Record ready (d : deployment) (fs : tree) : Prop := {
  ready_cpus : cpus_ready sh (node_containers d) (cpus_of d) fs;
  ready_cgroup c : to_be_set c ->
    cgroup_of fs (cpusetRoot sh) (container_cgroup d c) (container_id pod c);
  (** the kernel makes the file in every cgroup *)
  ready_files p : cpusetRoot sh `prefix_of` p -> kind_at fs p = Some ADirectory ->
    exists content, kind_at fs (cpuset_file p) = Some (AFile content);
  ready_infra : cs_IsEmpty (default_set d) = false ->
    forall name, is_infra fs (pod_Status pod) (pod_cgroup d) name <-> name = infra_name d
}.

(** The container's set is in the last directory of its cgroup. *)
Definition has_set (d : deployment) (fs : tree) (c : v1_Container) : Prop :=
  exists leaf, leaf_of fs (container_cgroup d c) leaf /\
    kind_at fs (cpuset_file leaf) = Some (AFile (cs_String (correct_set d c))).

Section steps.
Context (d : deployment) (Hdep : deployed d).

Lemma ready_wf fs : ready d fs -> well_formed fs.
Proof. intros Hr. by eapply ready_well_formed, ready_cpus. Qed.

(** The cgroups stay as they are but for contents. *)
Lemma ready_shape fs fs' : ready d fs -> same_shape (cpusetRoot sh) fs fs' ->
  cpus_ready sh (node_containers d) (cpus_of d) fs' -> ready d fs'.
Proof.
  intros Hr Hs Hcpus. split; [done| | |].
  - intros c Hc. eapply same_shape_cgroup; [done|by apply (ready_cgroup d fs)].
  - intros p Hp Hd. apply (same_shape_directory _ _ _ _ Hs Hp) in Hd.
    destruct (ready_files d fs Hr p Hp Hd) as [old Hold].
    assert (shape (kind_at fs' (cpuset_file p)) = Some false) as Hf.
    { rewrite Hs by by apply prefix_app_r. by rewrite Hold. }
    destruct (kind_at fs' (cpuset_file p)) as [[content|]|]; [by exists content|done..].
  - intros Hne name. rewrite (same_shape_infra (cpusetRoot sh) fs fs' _ _ _ Hs (cgroup_below_root d Hdep)).
    by apply (ready_infra d fs).
Qed.

(** Only one file below the root of the cgroups gets new contents. *)
Lemma ready_rewrites fs fs' file content : ready d fs -> well_formed fs' ->
  cpusetRoot sh `prefix_of` file -> rewrites file content fs fs' ->
  (exists old, kind_at fs file = Some (AFile old)) -> ready d fs'.
Proof.
  intros Hr Hwf Hfile Hw [old Hold]. apply (ready_shape fs); [done|by eapply rewrites_same_shape|].
  apply (cpus_ready_root sh (node_containers d) (cpus_of d) (directories_deployed d Hdep) fs); [by apply ready_cpus|done|].
  intros q Hq. rewrite Hw. rewrite decide_False; [done|]. by intros ->.
Qed.

Lemma cgroup_root c : cpusetRoot sh `prefix_of` container_cgroup d c.
Proof. etrans; [by apply (cgroup_below_root d)|by apply prefix_app_r]. Qed.

Lemma write_set_ok fs c set : ready d fs -> to_be_set c -> set ≡ correct_set d c ->
  exists fs' leaf, applyCpusetToContainer (sh_os sh) (cpusetRoot sh) fs (container_id pod c) set =
      (fs', Ok (Some (container_cgroup d c))) /\
    ready d fs' /\ leaf_of fs (container_cgroup d c) leaf /\
    rewrites (cpuset_file leaf) (cs_String (correct_set d c)) fs fs'.
Proof.
  intros Hr Hc Hset. pose proof (applyCpusetToContainer_well_formed (sh_os sh) (cpusetRoot sh) fs
    (container_id pod c) set (ready_wf fs Hr)) as Hwf.
  rewrite (os_willing _ _ _ (directories_deployed d Hdep)) in *.
  destruct (applyCpusetToContainer_sets fs (cpusetRoot sh) (container_cgroup d c) (container_id pod c) set)
    as (fs' & leaf & Hrun & Hleaf & Hw);
    [by apply ready_wf|by apply (ready_cgroup d)|rewrite Hset; by apply (sets_not_empty d)|].
  rewrite Hset in Hw. exists fs', leaf. rewrite Hrun in *. split; [done|]. split; [|done].
  assert (cpusetRoot sh `prefix_of` leaf) as Hleafroot by (etrans; [apply (cgroup_root c)|apply Hleaf]).
  apply (ready_rewrites fs fs' (cpuset_file leaf) (cs_String (correct_set d c))); [done|done| |done|].
  - by apply prefix_app_r.
  - apply (ready_files d fs Hr); [done|by eapply leaf_of_directory].
Qed.

(** ** The infra container *)

Definition infra_file : path := cpuset_file (pod_cgroup d ++ [infra_name d]).

Definition infra_set (fs : tree) : Prop :=
  cs_IsEmpty (default_set d) = false ->
  kind_at fs infra_file = Some (AFile (cs_String (default_set d))).

Lemma infra_not_container c : to_be_set c ->
  containerIDInPodStatus (pod_Status pod) (infra_name d) = false -> infra_name d <> cgroup_name d c.
Proof.
  intros Hc Hno Heq. destruct (determineCid_in (pod_Status pod) (ctr_Name c)) as (st & Hst & Hid);
    [by apply (ids_known d Hdep)|].
  rewrite (containerIDInPodStatus_in _ st) in Hno; [done|done|].
  rewrite Hid, Heq. by apply (cgroup_named d Hdep).
Qed.


(** ** Steps of a handling

    What a step may write below the root of the cgroups, and what it leaves as it is. *)

Definition entitled (fs : tree) (q : path) (content : string) : Prop :=
  (exists c leaf, to_be_set c /\ leaf_of fs (container_cgroup d c) leaf /\ q = cpuset_file leaf /\
     content = cs_String (correct_set d c)) \/
  (cs_IsEmpty (default_set d) = false /\ q = infra_file /\ content = cs_String (default_set d)).

Record pod_step (fs fs' : tree) : Prop := {
  step_shape : same_shape (cpusetRoot sh) fs fs';
  step_cpus : cpus_ready sh (node_containers d) (cpus_of d) fs';
  step_writes q : cpusetRoot sh `prefix_of` q ->
    kind_at fs' q = kind_at fs q \/
    exists content, kind_at fs' q = Some (AFile content) /\ entitled fs q content
}.

Lemma write_step fs fs' file content old : ready d fs -> well_formed fs' ->
  cpusetRoot sh `prefix_of` file -> kind_at fs file = Some (AFile old) ->
  rewrites file content fs fs' -> entitled fs file content -> pod_step fs fs'.
Proof.
  intros Hr Hwf Hroot Hold Hw Hent. split.
  - by eapply rewrites_same_shape.
  - apply (cpus_ready_root sh (node_containers d) (cpus_of d) (directories_deployed d Hdep) fs);
      [by apply ready_cpus|done|].
    intros q Hq. rewrite Hw. rewrite decide_False; [done|]. by intros ->.
  - intros q _. rewrite Hw. case_decide as Heq; [subst q; right; by exists content|by left].
Qed.

Lemma set_step fs c set : ready d fs -> to_be_set c -> set ≡ correct_set d c ->
  exists fs', applyCpusetToContainer (sh_os sh) (cpusetRoot sh) fs (container_id pod c) set =
      (fs', Ok (Some (container_cgroup d c))) /\ pod_step fs fs' /\ has_set d fs' c.
Proof.
  intros Hr Hc Hset. destruct (write_set_ok fs c set Hr Hc Hset) as (fs' & leaf & Hrun & Hr' & Hleaf & Hw).
  exists fs'. split; [done|].
  assert (cpusetRoot sh `prefix_of` leaf) as Hroot by (etrans; [apply (cgroup_root c)|apply Hleaf]).
  destruct (ready_files d fs Hr leaf Hroot (leaf_of_directory _ _ _ Hleaf)) as [old Hold].
  assert (pod_step fs fs') as Hstep.
  { eapply write_step; [done|by apply ready_wf| |done|exact Hw|left; by exists c, leaf]. by apply prefix_app_r. }
  split; [done|]. exists leaf. split.
  - apply (same_shape_leaf (cpusetRoot sh) fs); [by apply step_shape|by apply cgroup_root|done].
  - rewrite Hw. by rewrite decide_True.
Qed.

Lemma cpus_step fs c set : ready d fs -> to_be_set c ->
  exists fs', make_cpus sh pod c (container_id pod c) set fs = Some (fs', inr tt) /\ pod_step fs fs'.
Proof.
  intros Hr Hc. destruct (make_cpus_ok sh (node_containers d) (cpus_of d) (directories_deployed d Hdep) fs pod c set)
    as (fs' & Hmake & Hcpus & Hroot); [by apply ready_cpus|by apply containers_known|].
  exists fs'. split; [done|]. split; [|done|].
  - intros q Hq. by rewrite Hroot.
  - intros q Hq. left. by apply Hroot.
Qed.

Lemma infra_step s fs c : ready d fs -> to_be_set c ->
  exists fs', applyCpusetToInfraContainer (sh_os sh) s (poolConfig (sh_env sh)) fs (pod_Status pod)
      (Some (container_cgroup d c)) = (fs', Ok tt) /\ pod_step fs fs' /\ infra_set fs'.
Proof.
  intros Hr Hc. pose proof (default_known d Hdep s) as Heq.
  destruct (cs_IsEmpty (default_set d)) eqn:Hempty.
  { exists fs. unfold applyCpusetToInfraContainer. rewrite Heq, Hempty. split; [done|].
    split; [|unfold infra_set; congruence]. split; [done|by apply ready_cpus|by left]. }
  pose proof (ready_infra d fs Hr Hempty) as Hinfra.
  assert (removelast (container_cgroup d c) = pod_cgroup d) as Hparent by apply removelast_last.
  destruct (proj2 (Hinfra _) eq_refl) as [Hdir Hno].
  assert (cpusetRoot sh `prefix_of` pod_cgroup d ++ [infra_name d]) as Hroot.
  { etrans; [by apply (cgroup_below_root d)|by apply prefix_app_r]. }
  destruct (ready_files d fs Hr _ Hroot Hdir) as [old Hold].
  pose proof (applyCpusetToInfraContainer_well_formed (sh_os sh) s (poolConfig (sh_env sh)) fs
    (pod_Status pod) (Some (container_cgroup d c)) (ready_wf fs Hr)) as Hwf.
  rewrite (os_willing _ _ _ (directories_deployed d Hdep)) in *.
  destruct (applyCpusetToInfraContainer_sets s (poolConfig (sh_env sh)) fs (pod_Status pod)
    (container_cgroup d c) (infra_name d)) as (fs' & Hrun & Hw).
  { rewrite Hparent. by apply Hinfra. }
  { intros m. rewrite Hparent. apply Hinfra. }
  { rewrite Hparent. by rewrite Hold. }
  { by rewrite Heq. }
  rewrite Hparent, Heq in Hw. rewrite Hrun in *. exists fs'. split; [done|]. split.
  - eapply write_step; [done|done| |exact Hold|exact Hw|by right]. by apply prefix_app_r.
  - intros _. rewrite Hw. by rewrite decide_True.
Qed.

(** What others must not undo. *)
Definition keeps (fs fs' : tree) : Prop :=
  (forall c, to_be_set c -> has_set d fs c -> has_set d fs' c) /\ (infra_set fs -> infra_set fs').

#[export] Instance keeps_preorder : PreOrder keeps.
Proof. split; [by split|]. intros fs1 fs2 fs3 [H1' H1i] [H2' H2i]. split; auto. Qed.
End steps.
End deployment.

(** ** Steps of another handling

    Two pods of one node: versions of one pod with the same containers in the same cgroups, or
    pods with cgroups apart from one another. *)

Section two_pods.
Context `{CPUSetLaws} `{RangeOrder}.
Context (sh : SetHandlerT).
Context (pod : v1_Pod) (toset : gmap string Z) (d : deployment) (Hdep : deployed sh pod toset d).
Context (pod' : v1_Pod) (toset' : gmap string Z) (d' : deployment) (Hdep' : deployed sh pod' toset' d').

Record neighbours : Prop := {
  same_directories : cpus_of d = cpus_of d' /\ node_containers d = node_containers d';
  same_or_apart : (d = d' /\ forall c, to_be_set pod toset c <-> to_be_set pod' toset' c) \/
    apart (pod_cgroup d) (pod_cgroup d')
}.

(** A directory is below the cgroup of one container at most. *)
Lemma same_container c c' leaf : to_be_set pod toset c -> to_be_set pod toset c' ->
  container_cgroup d c `prefix_of` leaf -> container_cgroup d c' `prefix_of` leaf -> c = c'.
Proof.
  intros Hc Hc' Hl Hl'. apply (cgroups_differ _ _ _ d Hdep); [done..|].
  destruct (decide (cgroup_name d c = cgroup_name d c')) as [|Hne]; [done|].
  exfalso. destruct (apart_siblings (pod_cgroup d) _ _ Hne).
  by destruct (prefix_weak_total (container_cgroup d c) (container_cgroup d c') leaf).
Qed.

(** A file is the target of one write at most. *)
Lemma leaf_apart fs c c' leaf : to_be_set pod toset c -> to_be_set pod toset c' ->
  leaf_of fs (container_cgroup d c) leaf -> leaf_of fs (container_cgroup d c') leaf -> c = c'.
Proof. intros Hc Hc' [Hl _] [Hl' _]. by apply (same_container c c' leaf). Qed.

Lemma leaf_not_infra fs c leaf : ready sh pod toset d fs -> to_be_set pod toset c ->
  leaf_of fs (container_cgroup d c) leaf -> cs_IsEmpty (default_set d) = false ->
  cpuset_file leaf <> infra_file d.
Proof.
  intros Hr Hc [Hl _] Hne [Heq _]%app_inj_tail. subst leaf.
  destruct (proj2 (ready_infra _ _ _ _ fs Hr Hne (infra_name d)) eq_refl) as [_ Hno].
  apply (infra_not_container sh pod toset d Hdep c Hc Hno). symmetry.
  by apply prefix_app_inv, prefix_cons_inv_1 in Hl.
Qed.

Lemma entitled_below fs q content : entitled pod toset d fs q content -> pod_cgroup d `prefix_of` q.
Proof.
  intros [(c & leaf & _ & [Hl _] & -> & _)|(_ & -> & _)].
  - apply prefix_app_r. etrans; [|exact Hl]. by apply prefix_app_r.
  - unfold infra_file, cpuset_file. rewrite <- (assoc_L (++)). by apply prefix_app_r.
Qed.

(** A file of the other pod gets nothing but what it shall hold. *)
Lemma entitled_elsewhere fs q content : apart (pod_cgroup d) (pod_cgroup d') ->
  entitled pod toset d fs q content -> pod_cgroup d' `prefix_of` q -> False.
Proof.
  intros [H1' H2'] Hq%entitled_below Hq'. by destruct (prefix_weak_total (pod_cgroup d) (pod_cgroup d') q).
Qed.

End two_pods.

Section neighbours.
Context `{CPUSetLaws} `{RangeOrder}.
Context (sh : SetHandlerT) (pod : v1_Pod) (toset : gmap string Z) (d : deployment).
Context (pod' : v1_Pod) (toset' : gmap string Z) (d' : deployment).

Lemma neighbour_keeps fs fs' : deployed sh pod toset d -> deployed sh pod' toset' d' ->
  neighbours pod toset d pod' toset' d' -> ready sh pod' toset' d' fs -> pod_step sh pod toset d fs fs' ->
  keeps pod' toset' d' fs fs'.
Proof.
  intros Hdep Hdep' [_ Hnear] Hr' [Hshape _ Hwrites]. split.
  - intros c' Hc' (leaf & Hleaf & Hk). exists leaf.
    split; [by apply (same_shape_leaf (cpusetRoot sh) fs); [|apply (cgroup_root sh pod' toset' d' Hdep')|]|].
    assert (pod_cgroup d' `prefix_of` cpuset_file leaf) as Hbelow.
    { apply prefix_app_r. etrans; [|apply Hleaf]. by apply prefix_app_r. }
    destruct (Hwrites (cpuset_file leaf)) as [->|(content & -> & Hent)]; [|done|].
    { etrans; [by apply (cgroup_below_root _ _ _ _ Hdep')|done]. }
    destruct Hnear as [[<- Hsame]|Hap]; [|by destruct (entitled_elsewhere pod toset d d' _ _ _ Hap Hent Hbelow)].
    destruct Hent as [(c & leaf2 & Hc & Hleaf2 & [<- _]%app_inj_tail & ->)|(Hne & Heq & _)].
    + apply Hsame in Hc. by rewrite (leaf_apart sh _ _ _ Hdep' fs c c' leaf).
    + by destruct (leaf_not_infra sh _ _ _ Hdep' fs c' leaf Hr' Hc' Hleaf Hne).
  - intros Hset Hne. specialize (Hset Hne).
    assert (pod_cgroup d' `prefix_of` infra_file d') as Hbelow.
    { unfold infra_file, cpuset_file. rewrite <- (assoc_L (++)). by apply prefix_app_r. }
    destruct (Hwrites (infra_file d')) as [->|(content & -> & Hent)]; [|done|].
    { etrans; [by apply (cgroup_below_root _ _ _ _ Hdep')|done]. }
    destruct Hnear as [[<- Hsame]|Hap]; [|by destruct (entitled_elsewhere pod toset d d' _ _ _ Hap Hent Hbelow)].
    destruct Hent as [(c & leaf & Hc%Hsame & Hleaf & Heq & _)|(_ & _ & ->)]; [|done].
    by destruct (leaf_not_infra sh _ _ _ Hdep' fs c leaf Hr' Hc Hleaf Hne).
Qed.

Lemma neighbour_ready fs fs' : deployed sh pod toset d -> deployed sh pod' toset' d' ->
  neighbours pod toset d pod' toset' d' -> ready sh pod' toset' d' fs -> pod_step sh pod toset d fs fs' ->
  ready sh pod' toset' d' fs'.
Proof.
  intros Hdep Hdep' [[Hk HP] _] Hr' [Hshape Hcpus _]. rewrite Hk, HP in Hcpus.
  by apply (ready_shape sh pod' toset' d' Hdep' fs).
Qed.
End neighbours.

(** ** A handling as a list of steps *)

(** Own steps, with what the others do before each. *)
Definition play (gs : list (tree -> tree)) (w : world) : world :=
  foldl (fun w g => mkWorld (g (files (interfere w))) (others (interfere w))) w gs.

Lemma play_app gs gs' w : play (gs ++ gs') w = play gs' (play gs w).
Proof. apply foldl_app. Qed.

Lemma step_play {E A} wrap (f : tree -> tree * res E A) w a :
  (f (files (interfere w))).2 = Ok a -> step wrap f w = Some (play [fun fs => (f fs).1] w, Ok a).
Proof. unfold step. simpl. destruct (f _) as [fs r]. simpl. by intros ->. Qed.

Definition run_dir {A} (m : dirM A) (fs : tree) : tree :=
  match m fs with Some (fs', _) => fs' | None => fs end.

Lemma dir_step_play {A} (m : dirM A) w fs a :
  m (files (interfere w)) = Some (fs, inr a) -> dir_step m w = Some (play [run_dir m] w, Ok a).
Proof. unfold dir_step, run_dir. simpl. by intros ->. Qed.

Section handling.
Context `{CPUSetLaws} `{RangeOrder} `{PodApi}.
Context (sh : SetHandlerT) (pod : v1_Pod) (toset : gmap string Z).
Implicit Types (s : site) (c : v1_Container).

Definition set_fn s c : tree -> tree :=
  match determineCorrectCpuset s (sh_env sh) pod c with
  | Ok (_, real) => fun fs =>
      (applyCpusetToContainer (sh_os sh) (cpusetRoot sh) fs (container_id pod c) real).1
  | _ => id
  end.

Definition cpus_fn s c : tree -> tree :=
  match determineCorrectCpuset s (sh_env sh) pod c with
  | Ok (cfg, _) => run_dir (make_cpus sh pod c (container_id pod c) cfg)
  | _ => id
  end.

Definition infra_fn s (search : option path) : tree -> tree := fun fs =>
  (applyCpusetToInfraContainer (sh_os sh) s (poolConfig (sh_env sh)) fs (pod_Status pod) search).1.

(** The steps of [adjust_containers], and the path it hands on. *)
Fixpoint containers_steps (i : nat) s (cs : list v1_Container) : list (tree -> tree) :=
  match cs with
  | [] => []
  | c :: cs =>
      match toset !! ctr_Name c with
      | None => containers_steps (S i) s cs
      | Some _ => [set_fn (i :: 0%nat :: s) c; cpus_fn (i :: 0%nat :: s) c] ++ containers_steps (S i) s cs
      end
  end.

Fixpoint last_path (d : deployment) (cs : list v1_Container) (p : option path) : option path :=
  match cs with
  | [] => p
  | c :: cs =>
      match toset !! ctr_Name c with
      | None => last_path d cs p
      | Some _ => last_path d cs (Some (container_cgroup d c))
      end
  end.

Definition attempt_steps (d : deployment) s : list (tree -> tree) :=
  containers_steps 0 s (pod_Containers pod) ++ [infra_fn (1%nat :: s) (last_path d (pod_Containers pod) None)].

Fixpoint retry_steps (d : deployment) (n i : nat) s : list (tree -> tree) :=
  match n with
  | O => []
  | S n =>
      attempt_steps d (i :: s) ++
      if SetPodAnnotation i pod setterAnnotationKey "true" then [] else retry_steps d n (S i) s
  end.

Definition handling_steps (d : deployment) s : list (tree -> tree) := retry_steps d MaxRetryCount 0 s.

Section deployed.
Context (d : deployment) (Hdep : deployed sh pod toset d).

(** A condition on the file system that makes the pod's node ready, and that the steps of
    the pod keep. *)
Record protocol (J : tree -> Prop) : Prop := {
  protocol_ready fs : J fs -> ready sh pod toset d fs;
  protocol_steps fs fs' : J fs -> pod_step sh pod toset d fs fs' -> J fs'
}.

Context (J : tree -> Prop) (HJ : protocol J).

(** The condition holds now, and the others keep it and do not undo what is done. *)
Definition quiet (w : world) : Prop :=
  J (files w) /\ Forall (fun f => forall fs, J fs -> J (f fs) /\ keeps pod toset d fs (f fs)) (others w).

Definition own (g : tree -> tree) : Prop := forall fs, J fs -> pod_step sh pod toset d fs (g fs).

Lemma own_keeps g fs : own g -> J fs -> J (g fs) /\ keeps pod toset d fs (g fs).
Proof.
  intros Hg HJfs. specialize (Hg fs HJfs). split; [by eapply protocol_steps|].
  apply (neighbour_keeps sh pod toset d pod toset d); [done..| |by apply (protocol_ready J HJ)|done].
  split; [done|by left].
Qed.

Lemma quiet_interfere w : quiet w ->
  quiet (interfere w) /\ keeps pod toset d (files w) (files (interfere w)).
Proof.
  intros [Hw Ho]. unfold interfere. destruct w as [fs [|f l]]; simpl in *; [by split|].
  inversion_clear Ho as [|? ? Hf Hl]. destruct (Hf fs Hw). split; [by split|done].
Qed.

Lemma play_one g w : quiet w -> own g ->
  quiet (play [g] w) /\ keeps pod toset d (files w) (files (play [g] w)).
Proof.
  intros Hw Hg. destruct (quiet_interfere w Hw) as [[Hi Ho] Hk]. simpl.
  destruct (own_keeps g _ Hg Hi) as [Hi' Hk']. split; [by split|]. by etrans.
Qed.

Lemma play_quiet gs : forall w, quiet w -> Forall own gs ->
  quiet (play gs w) /\ keeps pod toset d (files w) (files (play gs w)).
Proof.
  induction gs as [|g gs IH]; intros w Hw Hgs; [by split|]. inversion_clear Hgs as [|? ? Hg Hgs'].
  destruct (play_one g w Hw Hg) as [Hq Hk]. destruct (IH _ Hq Hgs') as [Hq' Hk'].
  split; [exact Hq'|]. etrans; [exact Hk|exact Hk'].
Qed.

(** *** The steps are the pod's own *)

Lemma set_fn_own s c : to_be_set pod toset c ->
  own (set_fn s c) /\ forall fs, J fs -> has_set d (set_fn s c fs) c.
Proof.
  intros Hc. destruct (sets_known sh pod toset d Hdep s c Hc) as (cfg & real & Hset & Heq).
  unfold own, set_fn. rewrite Hset. split; intros fs HJfs;
    destruct (set_step sh pod toset d Hdep fs c real) as (fs' & -> & Hs & Hh);
    (done || by apply (protocol_ready J HJ)).
Qed.

Lemma cpus_fn_own s c : to_be_set pod toset c -> own (cpus_fn s c).
Proof.
  intros Hc fs HJfs. destruct (sets_known sh pod toset d Hdep s c Hc) as (cfg & real & Hset & Heq).
  unfold cpus_fn, run_dir. rewrite Hset.
  destruct (cpus_step sh pod toset d Hdep fs c cfg) as (fs' & -> & Hs); (done || by apply (protocol_ready J HJ)).
Qed.

Lemma infra_fn_own s c : to_be_set pod toset c ->
  own (infra_fn s (Some (container_cgroup d c))) /\
  forall fs, J fs -> infra_set d (infra_fn s (Some (container_cgroup d c)) fs).
Proof.
  intros Hc. unfold own, infra_fn. split; intros fs HJfs;
    destruct (infra_step sh pod toset d Hdep s fs c) as (fs' & -> & Hs & Hh);
    (done || by apply (protocol_ready J HJ)).
Qed.

Lemma containers_steps_own s cs : cs ⊆ pod_Containers pod -> forall i, Forall own (containers_steps i s cs).
Proof.
  intros Hcs. induction cs as [|c cs IH]; intros i; simpl; [done|].
  assert (cs ⊆ pod_Containers pod) as Hcs' by set_solver.
  destruct (toset !! ctr_Name c) as [z|] eqn:Ez; [|by apply IH].
  assert (to_be_set pod toset c) as Hc by (split; [set_solver|by eexists]).
  constructor; [by apply set_fn_own|]. constructor; [by apply cpus_fn_own|by apply IH].
Qed.

Lemma last_path_set cs : cs ⊆ pod_Containers pod -> forall p,
  (exists c, to_be_set pod toset c /\ (c ∈ cs \/ p = Some (container_cgroup d c))) ->
  exists c, to_be_set pod toset c /\ last_path d cs p = Some (container_cgroup d c).
Proof.
  intros Hcs. induction cs as [|c cs IH]; intros p (c0 & Hc0 & Hin); simpl.
  { exists c0. destruct Hin as [[]%elem_of_nil|]; done. }
  assert (cs ⊆ pod_Containers pod) as Hcs' by set_solver.
  destruct (toset !! ctr_Name c) as [z|] eqn:Ez; apply IH; try done.
  - exists c. split; [split; [set_solver|by eexists]|by right].
  - exists c0. split; [done|]. destruct Hin as [[->|?]%elem_of_cons|?]; [|by left|by right].
    destruct Hc0 as [_ [z Hz]]. congruence.
Qed.

Lemma pod_last_path : exists c, to_be_set pod toset c /\
  last_path d (pod_Containers pod) None = Some (container_cgroup d c).
Proof.
  apply last_path_set; [done|]. destruct (some_container _ _ _ _ Hdep) as [c Hc]. exists c.
  split; [done|]. left. apply Hc.
Qed.

Lemma attempt_steps_own s : Forall own (attempt_steps d s).
Proof.
  unfold attempt_steps. destruct pod_last_path as (c & Hc & ->). apply Forall_app_2.
  - by apply containers_steps_own.
  - constructor; [by apply infra_fn_own|done].
Qed.

Lemma retry_steps_own n : forall i s, Forall own (retry_steps d n i s).
Proof.
  induction n as [|n IH]; intros i s; simpl; [done|]. apply Forall_app_2; [apply attempt_steps_own|].
  by destruct (SetPodAnnotation _ _ _ _).
Qed.

(** *** The handling plays its steps *)

Lemma adjust_container_play s c w : quiet w -> to_be_set pod toset c ->
  adjust_container s sh pod c w = Some (play [set_fn s c; cpus_fn s c] w, Ok (Some (container_cgroup d c))).
Proof.
  intros Hw Hc. destruct (sets_known sh pod toset d Hdep s c Hc) as (cfg & real & Hset & Heq).
  pose proof (proj1 (set_fn_own s c Hc)) as Hown.
  change (play [set_fn s c; cpus_fn s c] w) with (play [cpus_fn s c] (play [set_fn s c] w)).
  destruct (play_one (set_fn s c) w Hw Hown) as [Hw1 _].
  unfold adjust_container, set_fn, cpus_fn in *. rewrite Hset in *.
  unfold mbind at 1, adjM_bind at 1. simpl value. cbn [value map_err]. fold (container_id pod c).
  rewrite decide_False by by apply (ids_known sh pod toset d).
  destruct (quiet_interfere w Hw) as [[Hi _] _].
  destruct (set_step sh pod toset d Hdep (files (interfere w)) c real) as (fs1 & Hrun & _);
    [by apply (protocol_ready J HJ)|done|done|].
  unfold mbind at 1, adjM_bind at 1. rewrite (step_play _ _ _ (Some (container_cgroup d c))) by by rewrite Hrun.
  destruct (quiet_interfere _ Hw1) as [[Hi1 _] _].
  destruct (cpus_step sh pod toset d Hdep _ c cfg (protocol_ready J HJ _ Hi1) Hc) as (fs2 & Hmake & _).
  unfold mbind, adjM_bind. by rewrite (dir_step_play _ _ fs2 tt Hmake).
Qed.

Lemma adjust_containers_play s cs : cs ⊆ pod_Containers pod -> forall i p w, quiet w ->
  adjust_containers i s sh pod toset cs p w = Some (play (containers_steps i s cs) w, Ok (last_path d cs p)).
Proof.
  intros Hcs. induction cs as [|c cs IH]; intros i p w Hw; cbn [adjust_containers containers_steps last_path]; [done|].
  assert (cs ⊆ pod_Containers pod) as Hcs' by set_solver.
  destruct (toset !! ctr_Name c) as [z|] eqn:Ez; [|by apply IH].
  assert (to_be_set pod toset c) as Hc by (split; [set_solver|by eexists]).
  unfold mbind, adjM_bind. rewrite adjust_container_play, IH, play_app; [done..| |done|done].
  apply play_quiet; [done|]. constructor; [by apply set_fn_own|]. constructor; [by apply cpus_fn_own|done].
Qed.

Lemma adjustContainerSets_play attempt s w : quiet w ->
  adjustContainerSets attempt s sh pod toset w =
    Some (play (attempt_steps d s) w,
      if SetPodAnnotation attempt pod setterAnnotationKey "true" then Ok tt else Err AnnotationNotSet).
Proof.
  intros Hw. unfold adjustContainerSets, attempt_steps. unfold mbind at 1, adjM_bind at 1.
  rewrite adjust_containers_play, play_app by done. destruct pod_last_path as (c & Hc & Hp). rewrite Hp.
  destruct (play_quiet (containers_steps 0 s (pod_Containers pod)) w Hw) as [Hw1 _];
    [by apply containers_steps_own|].
  destruct (quiet_interfere _ Hw1) as [[Hi _] _].
  destruct (infra_step sh pod toset d Hdep (1%nat :: s) _ c (protocol_ready J HJ _ Hi) Hc) as (fs2 & Hrun & _).
  unfold mbind, adjM_bind. rewrite (step_play _ _ _ tt) by by rewrite Hrun.
  by destruct (SetPodAnnotation attempt pod setterAnnotationKey "true").
Qed.

(** What is tried again is the annotation. *)
Lemma adjust_retry_S n i s w last : quiet w ->
  adjust_retry (S n) i s sh pod toset last w =
    if SetPodAnnotation i pod setterAnnotationKey "true" then Some (play (attempt_steps d (i :: s)) w, Adjusted)
    else adjust_retry n (S i) s sh pod toset (GaveUp AnnotationNotSet) (play (attempt_steps d (i :: s)) w).
Proof.
  intros Hw. simpl. rewrite adjustContainerSets_play by done. by destruct (SetPodAnnotation _ _ _ _).
Qed.

Lemma adjust_retry_play n : forall i s w last, quiet w ->
  exists o, adjust_retry (S n) i s sh pod toset last w = Some (play (retry_steps d (S n) i s) w, o) /\
    (o = Adjusted \/ o = GaveUp AnnotationNotSet) /\
    (o = Adjusted <-> exists k, (k <= n)%nat /\ SetPodAnnotation (i + k) pod setterAnnotationKey "true" = true).
Proof.
  induction n as [|n IH]; intros i s w last Hw; rewrite adjust_retry_S by done;
    set (n' := S _) in |- *; cbn [retry_steps]; rewrite play_app;
    destruct (SetPodAnnotation i pod setterAnnotationKey "true") eqn:E.
  - exists Adjusted. split_and!; [done|by left|]. split; [|done]. intros _. exists 0%nat. by rewrite Nat.add_0_r.
  - exists (GaveUp AnnotationNotSet). split_and!; [done|by right|]. split; [done|].
    intros (k & Hk & Hann). replace k with 0%nat in Hann by lia. by rewrite Nat.add_0_r, E in Hann.
  - exists Adjusted. split_and!; [done|by left|]. split; [|done]. intros _. exists 0%nat.
    rewrite Nat.add_0_r. split; [lia|done].
  - destruct (IH (S i) s (play (attempt_steps d (i :: s)) w) (GaveUp AnnotationNotSet)) as (o & Hgo & Ho & Hiff).
    { apply play_quiet; [done|apply attempt_steps_own]. }
    exists o. split_and!; [exact Hgo|done|]. rewrite Hiff. split.
    + intros (k & Hk & Hann). exists (S k). split; [lia|]. by rewrite <- Nat.add_succ_comm.
    + intros ([|k] & Hk & Hann); [by rewrite Nat.add_0_r, E in Hann|]. exists k. split; [lia|].
      by rewrite Nat.add_succ_comm.
Qed.

(** *** Afterwards the sets are in place *)

Definition all_set (fs : tree) : Prop := infra_set d fs /\ forall c, to_be_set pod toset c -> has_set d fs c.

Lemma containers_steps_set s cs c : to_be_set pod toset c -> c ∈ cs -> forall i,
  exists s', set_fn s' c ∈ containers_steps i s cs.
Proof.
  intros Hc. induction cs as [|c' cs IH]; intros Hin i; [by apply elem_of_nil in Hin|]. simpl.
  apply elem_of_cons in Hin as [<-|Hin].
  - destruct Hc as [_ [z ->]]. exists (i :: 0%nat :: s). left.
  - destruct (IH Hin (S i)) as [s' Hs']. exists s'. destruct (toset !! ctr_Name c'); [|done]. by do 2 right.
Qed.

(** The steps that must happen, in the handling. *)
Lemma handling_steps_needed s :
  (forall c, to_be_set pod toset c -> exists s', set_fn s' c ∈ handling_steps d s) /\
  exists s' c, to_be_set pod toset c /\ infra_fn s' (Some (container_cgroup d c)) ∈ handling_steps d s.
Proof.
  unfold handling_steps, MaxRetryCount. cbn [retry_steps]. split.
  - intros c Hc. destruct (containers_steps_set (0%nat :: s) (pod_Containers pod) c Hc (proj1 Hc) 0) as [s' Hs'].
    exists s'. apply elem_of_app. left. apply elem_of_app. by left.
  - destruct pod_last_path as (c & Hc & Hp). exists (1%nat :: 0%nat :: s), c. split; [done|].
    apply elem_of_app. left. apply elem_of_app. right. rewrite Hp. left.
Qed.

(** A list of steps, own and others', all in order. *)
Definition run_all (gs : list (tree -> tree)) (fs : tree) : tree := foldl (fun fs g => g fs) fs gs.

Definition fine (g : tree -> tree) : Prop := forall fs, J fs -> J (g fs) /\ keeps pod toset d fs (g fs).

Lemma run_all_keeps gs : forall fs, Forall fine gs -> J fs ->
  J (run_all gs fs) /\ keeps pod toset d fs (run_all gs fs).
Proof.
  induction gs as [|g gs IH]; intros fs Hgs HJfs; [by split|]. inversion_clear Hgs as [|? ? Hg Hgs'].
  destruct (Hg fs HJfs) as [HJ1 Hk1]. destruct (IH (g fs) Hgs' HJ1) as [HJ2 Hk2]. split; [exact HJ2|].
  etrans; [exact Hk1|exact Hk2].
Qed.

(** What a step achieves is still so at the end. *)
Lemma run_all_achieves gs g (X : tree -> Prop) fs : Forall fine gs -> J fs -> g ∈ gs ->
  (forall fs, J fs -> X (g fs)) -> (forall fs fs', keeps pod toset d fs fs' -> X fs -> X fs') -> X (run_all gs fs).
Proof.
  intros Hgs HJfs Hin Hx Hk. apply list_elem_of_split in Hin as (l1 & l2 & ->).
  apply Forall_app in Hgs as [Hl1 Hl2]. inversion_clear Hl2 as [|? ? Hg Hl2'].
  destruct (run_all_keeps l1 fs Hl1 HJfs) as [HJ1 _]. destruct (Hg _ HJ1) as [HJ2 _].
  unfold run_all. rewrite foldl_app. apply (Hk (g (run_all l1 fs))); [|by apply Hx].
  by apply run_all_keeps.
Qed.

Lemma run_all_sets s gs fs : Forall fine gs -> J fs -> handling_steps d s ⊆ gs -> all_set (run_all gs fs).
Proof.
  intros Hgs HJfs Hsub. destruct (handling_steps_needed s) as [Hsets (s' & c & Hc & Hinfra)]. split.
  - apply (run_all_achieves gs (infra_fn s' (Some (container_cgroup d c)))); [done..|by apply Hsub| |].
    + by apply infra_fn_own.
    + by intros fs1 fs2 [_ ?].
  - intros c' Hc'. destruct (Hsets c' Hc') as [s2 Hs2].
    apply (run_all_achieves gs (set_fn s2 c') (fun fs => has_set d fs c')); [done..|by apply Hsub| |].
    + by apply set_fn_own.
    + intros fs1 fs2 [Hk _]. by apply Hk.
Qed.

Lemma own_fine g : own g -> fine g.
Proof. intros Hg fs. by apply own_keeps. Qed.

(** The changes in a world, with [id] for the others when they have no more to do. *)
Fixpoint weave (gs : list (tree -> tree)) (l : list (tree -> tree)) : list (tree -> tree) :=
  match gs with
  | [] => []
  | g :: gs => match l with [] => g :: weave gs [] | f :: l => f :: g :: weave gs l end
  end.

Lemma play_weave gs : forall w, files (play gs w) = run_all (weave gs (others w)) (files w).
Proof.
  induction gs as [|g gs IH]; intros [fs [|f l]]; [done..| |]; simpl; by rewrite (IH (mkWorld _ _)).
Qed.

Lemma weave_fine gs : forall l, Forall fine gs -> Forall fine l -> Forall fine (weave gs l).
Proof.
  induction gs as [|g gs IH]; intros l Hgs Hl; [done|]. inversion_clear Hgs. destruct l as [|f l]; simpl.
  - constructor; [done|]. by apply IH.
  - inversion_clear Hl. constructor; [done|]. constructor; [done|]. by apply IH.
Qed.

Lemma weave_subset gs : forall l, gs ⊆ weave gs l.
Proof.
  induction gs as [|g gs IH]; intros l; [set_solver|]. destruct l as [|f l]; simpl.
  - specialize (IH []). set_solver.
  - specialize (IH l). set_solver.
Qed.

Lemma handling_steps_own s : Forall own (handling_steps d s).
Proof. apply retry_steps_own. Qed.

Lemma play_sets s w : quiet w -> all_set (files (play (handling_steps d s) w)).
Proof.
  intros [Hw Ho]. rewrite play_weave. apply (run_all_sets s); [|done|apply weave_subset].
  apply weave_fine; [|done]. eapply Forall_impl; [apply handling_steps_own|apply own_fine].
Qed.
End deployed.
End handling.

(** The whole handling. *)
Lemma handle_pod_play `{CPUSetLaws} `{RangeOrder} `{PodApi} setterNodeName s sh item w pod d J :
  let toset := gatherAllContainers pod in
  shouldPodBeHandled setterNodeName (fun i => RefreshPod i (newPod item)) (newPod item) = (true, pod) ->
  deployed sh pod toset d -> protocol sh pod toset d J -> quiet pod toset d J w ->
  exists o, handlePods setterNodeName s sh item w = Some (play (handling_steps sh pod toset d s) w, o) /\
    (o = Adjusted \/ o = GaveUp AnnotationNotSet) /\
    (o = Adjusted <-> exists k, (k < MaxRetryCount)%nat /\
       SetPodAnnotation k pod setterAnnotationKey "true" = true).
Proof.
  intros toset Hmine Hdep HJ Hw. unfold handlePods. rewrite Hmine. cbn [negb].
  rewrite decide_False.
  - destruct (adjust_retry_play sh pod toset d Hdep J HJ 4 0 s w (Crashed NilDereference) Hw)
      as (o & Hrun & Ho & Hiff).
    exists o. split_and!; [exact Hrun|done|]. rewrite Hiff. unfold MaxRetryCount. cbn [Nat.add].
    split; intros (k & Hk & Hann); exists k; (split; [lia|done]).
  - destruct (some_container sh pod toset d Hdep) as (c & _ & [z Hz]).
    intros Hempty. unfold toset in Hz. by rewrite Hempty, lookup_empty in Hz.
Qed.

(** Readiness itself is such a condition. *)
Lemma ready_protocol `{CPUSetLaws} `{RangeOrder} sh pod toset d :
  deployed sh pod toset d -> protocol sh pod toset d (ready sh pod toset d).
Proof.
  intros Hdep. split; [done|]. intros fs fs'. apply (neighbour_ready sh pod toset d); [done..|].
  split; [done|by left].
Qed.

(** ** Two handlings at once

    A schedule says whose step is next, [true] for the first worker. *)

Fixpoint schedules (sched : list bool) (gs1 gs2 : list (tree -> tree)) : Prop :=
  match sched, gs1, gs2 with
  | [], [], [] => True
  | true :: sched, _ :: gs1, _ => schedules sched gs1 gs2
  | false :: sched, _, _ :: gs2 => schedules sched gs1 gs2
  | _, _, _ => False
  end.

(** All steps in their order. *)
Fixpoint interleave (sched : list bool) (gs1 gs2 : list (tree -> tree)) : list (tree -> tree) :=
  match sched, gs1, gs2 with
  | true :: sched, g :: gs1, _ => g :: interleave sched gs1 gs2
  | false :: sched, _, g :: gs2 => g :: interleave sched gs1 gs2
  | _, _, _ => []
  end.

(** What the first worker sees of the second: before each of its steps the second's since;
    [before] is what happened already. *)
Fixpoint seen (sched : list bool) (gs1 gs2 : list (tree -> tree)) (before : tree -> tree) : list (tree -> tree) :=
  match sched, gs1, gs2 with
  | true :: sched, _ :: gs1, _ => before :: seen sched gs1 gs2 id
  | false :: sched, _, g :: gs2 => seen sched gs1 gs2 (fun fs => g (before fs))
  | _, _, _ => []
  end.

Lemma seen_plays sched : forall gs1 gs2 before fs, schedules sched gs1 gs2 -> last sched = Some true ->
  files (play gs1 (mkWorld fs (seen sched gs1 gs2 before))) = run_all (interleave sched gs1 gs2) (before fs).
Proof.
  induction sched as [|b sched IH]; intros gs1 gs2 before fs Hs Hl; [done|].
  destruct b; simpl in Hs.
  - destruct gs1 as [|g gs1]; [done|]. simpl. destruct sched as [|b sched].
    + destruct gs1, gs2; done.
    + by apply (IH gs1 gs2 id (g (before fs))).
  - destruct gs2 as [|g gs2]; [done|]. destruct sched as [|b sched]; [done|].
    exact (IH gs1 gs2 (fun fs => g (before fs)) fs Hs Hl).
Qed.

Lemma schedules_swap sched : forall gs1 gs2, schedules sched gs1 gs2 -> schedules (negb <$> sched) gs2 gs1.
Proof. induction sched as [|[] sched IH]; intros [|g1 gs1] [|g2 gs2] Hs; simpl in *; auto. Qed.

Lemma interleave_swap sched : forall gs1 gs2,
  interleave (negb <$> sched) gs2 gs1 = interleave sched gs1 gs2.
Proof. induction sched as [|[] sched IH]; intros [|g1 gs1] [|g2 gs2]; simpl; by rewrite ?IH. Qed.

Lemma interleave_subset sched : forall gs1 gs2, schedules sched gs1 gs2 -> gs1 ⊆ interleave sched gs1 gs2.
Proof.
  induction sched as [|b sched IH]; intros gs1 gs2 Hs; [by destruct gs1|].
  destruct b, gs1 as [|g1 gs1]; simpl in *; try done.
  - specialize (IH gs1 gs2 Hs). set_solver.
  - set_solver.
  - destruct gs2 as [|g2 gs2]; [done|]. specialize (IH (g1 :: gs1) gs2 Hs). set_solver.
Qed.

Lemma interleave_all (Q : (tree -> tree) -> Prop) sched : forall gs1 gs2,
  Forall Q gs1 -> Forall Q gs2 -> Forall Q (interleave sched gs1 gs2).
Proof.
  induction sched as [|[] sched IH]; intros gs1 gs2 H1 H2; [done| |]; simpl.
  - inversion_clear H1; [done|]. constructor; [done|]. by apply IH.
  - destruct gs2 as [|g2 gs2]; [by destruct gs1|]. inversion_clear H2.
    destruct gs1; (constructor; [done|]; by apply IH).
Qed.

Lemma seen_all (Q : (tree -> tree) -> Prop) sched : Q id -> (forall f g, Q f -> Q g -> Q (fun fs => g (f fs))) ->
  forall gs1 gs2 before, Forall Q gs2 -> Q before -> Forall Q (seen sched gs1 gs2 before).
Proof.
  intros Hid Hcomp. induction sched as [|[] sched IH]; intros gs1 gs2 before H2 Hb; [done| |]; simpl.
  - destruct gs1; [done|]. constructor; [done|]. by apply IH.
  - destruct gs2 as [|g2 gs2]; [by destruct gs1|]. inversion_clear H2.
    destruct gs1; (apply IH; [done|by apply Hcomp]).
Qed.

Lemma neighbours_sym `{CPUSetLaws} pod toset d pod' toset' d' :
  neighbours pod toset d pod' toset' d' -> neighbours pod' toset' d' pod toset d.
Proof.
  intros [[? ?] Hor]. split; [done|]. destruct Hor as [[-> Hsame]|[]]; [left|by right].
  split; [done|]. intros c. by rewrite Hsame.
Qed.

Section both.
Context `{CPUSetLaws} `{RangeOrder} `{PodApi}.
Context (sh : SetHandlerT) (pod1 : v1_Pod) (toset1 : gmap string Z) (d1 : deployment).
Context (pod2 : v1_Pod) (toset2 : gmap string Z) (d2 : deployment).

Definition both_ready (fs : tree) : Prop := ready sh pod1 toset1 d1 fs /\ ready sh pod2 toset2 d2 fs.

Lemma self_neighbours pod toset d : neighbours pod toset d pod toset d.
Proof. split; [done|by left]. Qed.

Context (Hdep1 : deployed sh pod1 toset1 d1) (Hdep2 : deployed sh pod2 toset2 d2).
Context (H12 : neighbours pod1 toset1 d1 pod2 toset2 d2) (H21 : neighbours pod2 toset2 d2 pod1 toset1 d1).

Lemma both_protocol : protocol sh pod1 toset1 d1 both_ready.
Proof.
  split; [by intros fs []|]. intros fs fs' [Hr1 Hr2] Hs. split.
  - apply (neighbour_ready sh pod1 toset1 d1 pod1 toset1 d1 fs); [done..|apply self_neighbours|done|done].
  - by apply (neighbour_ready sh pod1 toset1 d1 pod2 toset2 d2 fs).
Qed.

(** A step of the second handling does not disturb the first. *)
Lemma second_fine g : own sh pod2 toset2 d2 both_ready g -> fine pod1 toset1 d1 both_ready g.
Proof.
  intros Hg fs Hb. pose proof (Hg fs Hb) as Hs. destruct Hb as [Hr1 Hr2]. split; [split|].
  - by apply (neighbour_ready sh pod2 toset2 d2 pod1 toset1 d1 fs).
  - apply (neighbour_ready sh pod2 toset2 d2 pod2 toset2 d2 fs); [done..|apply self_neighbours|done|done].
  - by apply (neighbour_keeps sh pod2 toset2 d2 pod1 toset1 d1 fs).
Qed.

Lemma fine_id : fine pod1 toset1 d1 both_ready id.
Proof. by intros fs Hb. Qed.

Lemma fine_comp f g : fine pod1 toset1 d1 both_ready f -> fine pod1 toset1 d1 both_ready g ->
  fine pod1 toset1 d1 both_ready (fun fs => g (f fs)).
Proof.
  intros Hf Hg fs Hb. destruct (Hf fs Hb) as [Hb1 Hk1]. destruct (Hg _ Hb1) as [Hb2 Hk2].
  split; [done|]. etrans; [exact Hk1|exact Hk2].
Qed.
End both.

Lemma both_protocol_swap `{CPUSetLaws} `{RangeOrder} sh pod1 toset1 d1 pod2 toset2 d2 :
  deployed sh pod1 toset1 d1 -> deployed sh pod2 toset2 d2 ->
  neighbours pod2 toset2 d2 pod1 toset1 d1 ->
  protocol sh pod2 toset2 d2 (both_ready sh pod1 toset1 d1 pod2 toset2 d2).
Proof.
  intros Hdep1 Hdep2 Hn. split; [by intros fs []|]. intros fs fs' [Hr1 Hr2] Hs. split.
  - by apply (neighbour_ready sh pod2 toset2 d2 pod1 toset1 d1 fs).
  - apply (neighbour_ready sh pod2 toset2 d2 pod2 toset2 d2 fs); [done..|apply self_neighbours|done|done].
Qed.

Section first.
Context `{CPUSetLaws} `{RangeOrder} `{PodApi}.
Context (sh : SetHandlerT) (pod1 : v1_Pod) (d1 : deployment) (pod2 : v1_Pod) (d2 : deployment).
Local Abbreviation toset1 := (gatherAllContainers pod1).
Local Abbreviation toset2 := (gatherAllContainers pod2).
Local Abbreviation both := (both_ready sh pod1 toset1 d1 pod2 toset2 d2).
Context (Hdep1 : deployed sh pod1 toset1 d1) (Hdep2 : deployed sh pod2 toset2 d2).
Context (H12 : neighbours pod1 toset1 d1 pod2 toset2 d2) (H21 : neighbours pod2 toset2 d2 pod1 toset1 d1).

(** The first of two handlings, seen by itself and at the end. *)
Lemma first_of_two setterNodeName s1 s2 item sched fs :
  let gs1 := handling_steps sh pod1 toset1 d1 s1 in
  let gs2 := handling_steps sh pod2 toset2 d2 s2 in
  shouldPodBeHandled setterNodeName (fun i => RefreshPod i (newPod item)) (newPod item) = (true, pod1) ->
  both fs -> schedules sched gs1 gs2 ->
  (exists w o, handlePods setterNodeName s1 sh item (mkWorld fs (seen sched gs1 gs2 id)) = Some (w, o) /\
     (last sched = Some true -> run_all (interleave sched gs1 gs2) fs = files w)) /\
  all_set pod1 toset1 d1 (run_all (interleave sched gs1 gs2) fs).
Proof.
  intros gs1 gs2 Hmine Hb Hs.
  pose proof (both_protocol sh pod1 toset1 d1 pod2 toset2 d2 Hdep1 Hdep2 H12) as Hprot.
  pose proof (both_protocol_swap sh pod1 toset1 d1 pod2 toset2 d2 Hdep1 Hdep2 H21) as Hprot2.
  pose proof (second_fine sh pod1 toset1 d1 pod2 toset2 d2 Hdep1 Hdep2 H21) as Hsecond.
  assert (Forall (fine pod1 toset1 d1 both) gs2) as Hf2.
  { eapply Forall_impl; [exact (handling_steps_own sh pod2 toset2 d2 Hdep2 _ Hprot2 s2)|exact Hsecond]. }
  assert (Forall (fine pod1 toset1 d1 both) gs1) as Hf1.
  { eapply Forall_impl; [exact (handling_steps_own sh pod1 toset1 d1 Hdep1 _ Hprot s1)|].
    exact (own_fine sh pod1 toset1 d1 Hdep1 _ Hprot). }
  split.
  - destruct (handle_pod_play setterNodeName s1 sh item (mkWorld fs (seen sched gs1 gs2 id)) pod1 d1 both)
      as (o & Hrun & _); [done..| |].
    { split; [done|]. apply (seen_all (fine pod1 toset1 d1 both)); [apply fine_id|apply fine_comp|done|apply fine_id]. }
    exists (play gs1 (mkWorld fs (seen sched gs1 gs2 id))), o. split; [exact Hrun|]. intros Hl.
    by rewrite seen_plays.
  - apply (run_all_sets sh pod1 toset1 d1 Hdep1 both Hprot s1); [|done|by apply interleave_subset].
    by apply interleave_all.
Qed.
End first.

(** * Properties *)

Section properties.
Context `{CPUSetLaws} `{RangeOrder} `{PodApi}.
Implicit Types (s : site).

(** C3: The setter does what a pod needs: on a node where the cgroups of the pod are in place, and
    whatever the others do between its steps as long as they keep it so and do not undo its
    writes, [handlePods] ends, whatever the API answers to the annotation; afterwards the last
    directory of the cgroup of each container holds the CPUs [determineCorrectCpuset] chose,
    and the infra container's cgroup those of the default pool.  It counts as adjusted exactly
    if one of the five attempts to annotate the pod succeeds. *)
Theorem handlePods_adjusts setterNodeName s sh item w pod d :
  let toset := gatherAllContainers pod in
  shouldPodBeHandled setterNodeName (fun i => RefreshPod i (newPod item)) (newPod item) = (true, pod) ->
  deployed sh pod toset d -> quiet pod toset d (ready sh pod toset d) w ->
  exists w' o, handlePods setterNodeName s sh item w = Some (w', o) /\
    (forall c, to_be_set pod toset c -> has_set d (files w') c) /\ infra_set d (files w') /\
    (o = Adjusted \/ o = GaveUp AnnotationNotSet) /\
    (o = Adjusted <-> exists k, (k < MaxRetryCount)%nat /\
       SetPodAnnotation k pod setterAnnotationKey "true" = true).
Proof.
  intros toset Hmine Hdep Hw. pose proof (ready_protocol sh pod toset d Hdep) as HJ.
  destruct (handle_pod_play setterNodeName s sh item w pod d _ Hmine Hdep HJ Hw) as (o & Hrun & Ho).
  exists (play (handling_steps sh pod toset d s) w), o.
  destruct (play_sets sh pod toset d Hdep _ HJ s w Hw) as [Hi Hc]. split; [done|]. by split.
Qed.

(** C4: Two workers at once, on versions of one pod or on pods with cgroups apart: in whatever order their
    steps come, both handlings end, and at the end all containers of both pods have their
    sets, and the infra containers the default pool's. *)
Theorem workers_interleave setterNodeName1 setterNodeName2 s1 s2 sh item1 item2 fs pod1 pod2 d1 d2 sched :
  let toset1 := gatherAllContainers pod1 in
  let toset2 := gatherAllContainers pod2 in
  let gs1 := handling_steps sh pod1 toset1 d1 s1 in
  let gs2 := handling_steps sh pod2 toset2 d2 s2 in
  shouldPodBeHandled setterNodeName1 (fun i => RefreshPod i (newPod item1)) (newPod item1) = (true, pod1) ->
  shouldPodBeHandled setterNodeName2 (fun i => RefreshPod i (newPod item2)) (newPod item2) = (true, pod2) ->
  deployed sh pod1 toset1 d1 -> deployed sh pod2 toset2 d2 ->
  ready sh pod1 toset1 d1 fs -> ready sh pod2 toset2 d2 fs ->
  neighbours pod1 toset1 d1 pod2 toset2 d2 -> schedules sched gs1 gs2 ->
  exists w1 o1 w2 o2 final,
    handlePods setterNodeName1 s1 sh item1 (mkWorld fs (seen sched gs1 gs2 id)) = Some (w1, o1) /\
    handlePods setterNodeName2 s2 sh item2 (mkWorld fs (seen (negb <$> sched) gs2 gs1 id)) = Some (w2, o2) /\
    (last sched = Some true -> final = files w1) /\ (last sched = Some false -> final = files w2) /\
    all_set pod1 toset1 d1 final /\ all_set pod2 toset2 d2 final.
Proof.
  intros toset1 toset2 gs1 gs2 Hmine1 Hmine2 Hdep1 Hdep2 Hr1 Hr2 Hn Hs.
  pose proof (neighbours_sym _ _ _ _ _ _ Hn) as Hn'.
  destruct (first_of_two sh pod1 d1 pod2 d2 Hdep1 Hdep2 Hn Hn' setterNodeName1 s1 s2 item1 sched fs)
    as [(w1 & o1 & Hrun1 & Hl1) Hset1]; [done..|].
  destruct (first_of_two sh pod2 d2 pod1 d1 Hdep2 Hdep1 Hn' Hn setterNodeName2 s2 s1 item2 (negb <$> sched) fs)
    as [(w2 & o2 & Hrun2 & Hl2) Hset2]; [done|done|by apply schedules_swap|].
  fold toset1 toset2 gs1 gs2 in Hl2, Hset2. rewrite interleave_swap in Hl2, Hset2.
  exists w1, o1, w2, o2, (run_all (interleave sched gs1 gs2) fs).
  do 3 (split; [done|]). split; [|done]. intros Hl. apply Hl2. by rewrite fmap_last, Hl.
Qed.
End properties.

(** ** Witnesses *)

Module deployment_example.
Export adjust_example.

Definition cpus : cpu_site := {|
  temp_root := ["tmp"];
  temp_name := id;
  embedded := directory_example.embedded;
  embedded_cpu0 := files_example.cpu0
|}.

Definition deployment_of_pod : deployment := {|
  pod_cgroup := ["cgroup"; "kubepods"; "pod1"];
  cgroup_name := fun c => if decide (ctr_Name c = "app") then "c0ffee" else "decaf";
  infra_name := "pause";
  cpus_of := cpus;
  node_containers := fun _ _ => True;
  correct_set := fun c => if decide (ctr_Name c = "app") then shared_cpus else default_cpus;
  default_set := default_cpus
|}.
End deployment_example.

Section witnesses.
Import deployment_example.

Lemma fs_well_formed : well_formed fs.
Proof. repeat (split || constructor). Defined.

Lemma to_be_set_cases c : to_be_set pod (gatherAllContainers pod) c -> c = app \/ c = side.
Proof. intros [Hc _]. simpl in Hc. rewrite !elem_of_cons, elem_of_nil in Hc. tauto. Defined.

Lemma app_set s : determineCorrectCpuset s env pod app = Ok (shared_cpus, shared_cpus).
Proof. vm_compute. reflexivity. Defined.

Lemma side_set s : determineCorrectCpuset s env pod side = Ok (default_cpus, default_cpus).
Proof. vm_compute. reflexivity. Defined.

Lemma default_selected s : CPUset (SelectPool s (poolConfig (sh_env handler)) DefaultPoolID) = default_cpus.
Proof. vm_compute. reflexivity. Defined.

Lemma cpus_are_deployed env (P : v1_Pod -> v1_Container -> Prop) : cpus_deployed (handler_of env) P cpus.
Proof.
  split.
  - reflexivity.
  - split; intros ?%prefix_cons_inv_1; discriminate.
  - split; intros ?%prefix_cons_inv_1; discriminate.
  - split; intros ?%prefix_cons_inv_1; discriminate.
  - done.
  - eexists. split; [reflexivity|]. split.
    + apply unpacks_entries; [apply embedded_distinct|apply embedded_plain].
    + apply (bool_decide_unpack _). vm_compute. exact I.
  - apply embedded_cpu_tree.
  - vm_compute. lia.
Defined.

Lemma cpus_are_ready env (P : v1_Pod -> v1_Container -> Prop) : cpus_ready (handler_of env) P cpus fs.
Proof.
  split.
  - apply fs_well_formed.
  - intros p c q x _ Hq.
    destruct (prefix_weak_total q ["var"; "cpus"] (cpu_base (handler_of env) p c)) as [Hup|[y ->]];
      [done|by apply prefix_app_r| |].
    + by rewrite (prefix_dir fs ["var"; "cpus"] eq_refl q Hup).
    + by destruct y.
  - reflexivity.
  - done.
Defined.

Lemma pod_deployed : deployed handler pod (gatherAllContainers pod) deployment_of_pod.
Proof.
  split.
  - exists app. split; [left|]. by exists 0.
  - intros s c [->| ->]%to_be_set_cases.
    + exists shared_cpus, shared_cpus. split; [exact (app_set s)|by intros x].
    + exists default_cpus, default_cpus. split; [exact (side_set s)|by intros x].
  - by intros c [->| ->]%to_be_set_cases.
  - intros s. rewrite default_selected. by intros x.
  - by intros c [->| ->]%to_be_set_cases.
  - by exists ["kubepods"; "pod1"].
  - by intros c [->| ->]%to_be_set_cases.
  - by intros c c' [->| ->]%to_be_set_cases [->| ->]%to_be_set_cases.
  - done.
  - apply cpus_are_deployed.
Defined.

Lemma files_everywhere p : ["cgroup"] `prefix_of` p -> kind_at fs p = Some ADirectory ->
  kind_at fs (cpuset_file p) = Some (AFile "0-7").
Proof.
  assert (forallb (fun p => negb (bool_decide (["cgroup"] `prefix_of` p)) ||
    negb (bool_decide (kind_at fs p = Some ADirectory)) ||
    bool_decide (kind_at fs (cpuset_file p) = Some (AFile "0-7"))) (paths fs) = true) as Hall by by vm_compute.
  intros Hp Hd. rewrite forallb_forall in Hall.
  specialize (Hall p (proj1 (list_elem_of_In _ _) (elem_of_paths p fs (mk_is_Some _ _ Hd)))).
  rewrite !bool_decide_true in Hall by done. simpl in Hall. by to_prop.
Defined.

Lemma fs_ready : ready handler pod (gatherAllContainers pod) deployment_of_pod fs.
Proof.
  split.
  - apply cpus_are_ready.
  - intros c [->| ->]%to_be_set_cases; apply cgroup_of_checked; vm_compute; reflexivity.
  - intros p Hp Hd. exists "0-7". by apply files_everywhere.
  - intros _ name. unfold is_infra. rewrite kind_at_app. simpl. rewrite kind_at_Dir. simpl.
    split; [|intros ->; vm_compute; done]. intros [Hk Hn].
    repeat (case_decide; [subst; simpl in Hk; try done; vm_compute in Hn; done|]). done.
Defined.

(** Another worker writes the set of a container meanwhile. *)
Definition meanwhile : world := mkWorld fs [set_fn handler pod [] app; cpus_fn handler pod [] side].

Lemma app_to_be_set : to_be_set pod (gatherAllContainers pod) app.
Proof. split; [left|]. by exists 0. Defined.

Lemma side_to_be_set : to_be_set pod (gatherAllContainers pod) side.
Proof. split; [right; left|]. by exists 0. Defined.

Lemma meanwhile_quiet :
  quiet pod (gatherAllContainers pod) deployment_of_pod
    (ready handler pod (gatherAllContainers pod) deployment_of_pod) meanwhile.
Proof.
  pose proof (ready_protocol handler pod (gatherAllContainers pod) deployment_of_pod pod_deployed) as HJ.
  assert (forall g, own handler pod (gatherAllContainers pod) deployment_of_pod _ g -> fine pod _ _ _ g) as Hfine
    by exact (own_fine handler pod _ _ pod_deployed _ HJ).
  split; [apply fs_ready|]. apply Forall_cons_2; [|apply Forall_cons_2; [|apply Forall_nil_2]]; apply Hfine.
  - apply (set_fn_own handler pod _ _ pod_deployed _ HJ), app_to_be_set.
  - apply (cpus_fn_own handler pod _ _ pod_deployed _ HJ), side_to_be_set.
Defined.

Lemma handlePods_adjusts_witness :
  exists w' o, handlePods (H1 := api) "node" [] handler (mkItem None pod) meanwhile = Some (w', o) /\
    (forall c, to_be_set pod (gatherAllContainers pod) c -> has_set deployment_of_pod (files w') c) /\
    infra_set deployment_of_pod (files w') /\
    (o = Adjusted \/ o = GaveUp AnnotationNotSet) /\
    (o = Adjusted <-> exists k, (k < MaxRetryCount)%nat /\
       @SetPodAnnotation api k pod setterAnnotationKey "true" = true).
Proof.
  apply (handlePods_adjusts (H2 := api) "node" [] handler (mkItem None pod) meanwhile pod deployment_of_pod).
  - vm_compute. reflexivity.
  - apply pod_deployed.
  - apply meanwhile_quiet.
Defined.

(** Two workers on the pod, taking turns; the annotation needs three attempts of each. *)
Definition turns : list bool := mjoin (replicate 15 [true; false]).

Lemma turns_fit :
  schedules turns (handling_steps (H2 := api) handler pod (gatherAllContainers pod) deployment_of_pod [])
    (handling_steps (H2 := api) handler pod (gatherAllContainers pod) deployment_of_pod [1%nat]).
Proof. vm_compute. exact I. Defined.

Lemma workers_interleave_witness : exists w1 o1 w2 o2 final,
  handlePods (H1 := api) "node" [] handler (mkItem None pod)
    (mkWorld fs (seen turns (handling_steps (H2 := api) handler pod (gatherAllContainers pod) deployment_of_pod [])
       (handling_steps (H2 := api) handler pod (gatherAllContainers pod) deployment_of_pod [1%nat]) id)) =
    Some (w1, o1) /\
  handlePods (H1 := api) "node" [1%nat] handler (mkItem (Some pod) pod)
    (mkWorld fs (seen (negb <$> turns)
       (handling_steps (H2 := api) handler pod (gatherAllContainers pod) deployment_of_pod [1%nat])
       (handling_steps (H2 := api) handler pod (gatherAllContainers pod) deployment_of_pod []) id)) =
    Some (w2, o2) /\
  (last turns = Some true -> final = files w1) /\ (last turns = Some false -> final = files w2) /\
  all_set pod (gatherAllContainers pod) deployment_of_pod final /\
  all_set pod (gatherAllContainers pod) deployment_of_pod final.
Proof.
  refine (workers_interleave (H2 := api) "node" "node" [] [1%nat] handler (mkItem None pod) (mkItem (Some pod) pod)
    fs pod pod deployment_of_pod deployment_of_pod turns eq_refl eq_refl pod_deployed pod_deployed fs_ready fs_ready
    (self_neighbours pod _ _) turns_fit).
Defined.
End witnesses.
