(* ===== verification/Reconcile.v ===== *)
(** * Reconciliation: [pkg/sethandler/controller.go], lines 631-708

    Every five seconds the setter looks at the cpuset of each container of the node and
    writes the correct one where the kernel or the kubelet has reset it to all CPUs.  The
    workers and the kubelet go on meanwhile: as in [Adjust] the state is a [world], and the
    others act before a cpuset is read, before the CPU directory is made and before the cpuset
    is written.  The output of [find] is an argument; log output is left out. *)

From S2P Require Import Prelude GoStrings Cpuset K8s PodApi Pools SetHandler FileSystem Files CpuDirectory Cgroup Adjust Deployment.
From Stdlib Require Import Ascii.
Local Open Scope Z_scope.

Definition newline : ascii := "010".

Definition TrimSuffix (s suffix : string) : string :=
  let n := (String.length s - String.length suffix)%nat in
  if decide (String.substring n (String.length suffix) s = suffix)
  then String.substring 0 n s else s.

Inductive reconcile_error :=
  | SetNotDetermined (e : setter_error)
  | CpusetNotOverwritten
  | NoPodList
  | NoLeafCpusets.

(** [None]: the copy of a CPU directory does not end. *)
Definition recM (A : Type) : Type := world -> option (world * res reconcile_error A).

Section reconcile.
Context `{CPUSetLib} `{RangeOrder}.
Implicit Types (s : site) (sh : SetHandlerT).

(** The directories that [find] prints, one per line. *)
Definition getLeafCpusets (stdOut : option string) : option (list string) :=
  stdOut ← stdOut;
  Some (Split (TrimSuffix stdOut (String newline "")) newline).

Definition badCpuset sh : CPUSet :=
  (cs_Parse ("0-" +:+ Itoa (wrap (numOfCpus (sh_env sh) - 1)))).1.

(** The errors of reading and parsing are ignored. *)
Definition currentCpuset sh (fs : tree) (leaf : string) : CPUSet :=
  (cs_Parse (TrimSpace (default "" (ReadFile (sh_os sh) fs (cpuset_file (parse_path leaf)))))).1.

Definition reconcile_leaf s sh (pod : v1_Pod) (container : v1_Container) (containerID leaf : string)
    : recM unit := fun w =>
  let w := interfere w in
  if cs_Equals (badCpuset sh) (currentCpuset sh (files w) leaf) then
    match determineCorrectCpuset s (sh_env sh) pod container with
    | Err e => Some (w, Err (SetNotDetermined e))
    | Panic p => Some (w, Panic p)
    | Ok (configCPUSet, correctSet) =>
        let w := interfere w in
        match make_cpus sh pod container containerID configCPUSet (files w) with
        | None => None
        | Some (fs, _) =>
            let w := interfere (mkWorld fs (others w)) in
            match WriteFile (sh_os sh) (files w) (cpuset_file (parse_path leaf)) (cs_String correctSet) with
            | None => Some (w, Err CpusetNotOverwritten)
            | Some fs => Some (mkWorld fs (others w), Ok tt)
            end
        end
    end
  else Some (w, Ok tt).

(** Only the first directory that names the container is looked at. *)
Fixpoint reconcile_first s sh (pod : v1_Pod) (container : v1_Container) (containerID : string)
    (leafCpusets : list string) : recM unit := fun w =>
  match leafCpusets with
  | [] => Some (w, Ok tt)
  | leaf :: leafCpusets =>
      if Contains leaf containerID then reconcile_leaf s sh pod container containerID leaf w
      else reconcile_first s sh pod container containerID leafCpusets w
  end.

Definition reconcileContainer s sh (leafCpusets : list string) (pod : v1_Pod) (container : v1_Container)
    : recM unit := fun w =>
  let containerID := determineCid (pod_Status pod) (ctr_Name container) in
  if decide (containerID = "") then Some (w, Ok tt)
  else reconcile_first s sh pod container containerID leafCpusets w.

(** The loops over the pods and their containers; errors are only logged. *)
Fixpoint reconcile_containers (i : nat) s sh (leafCpusets : list string) (pod : v1_Pod)
    (containers : list v1_Container) : recM unit := fun w =>
  match containers with
  | [] => Some (w, Ok tt)
  | container :: containers =>
      match reconcileContainer (i :: s) sh leafCpusets pod container w with
      | None => None
      | Some (w, Panic p) => Some (w, Panic p)
      | Some (w, _) => reconcile_containers (S i) s sh leafCpusets pod containers w
      end
  end.

Fixpoint reconcile_pods (i : nat) s sh (leafCpusets : list string) (pods : list v1_Pod)
    : recM unit := fun w =>
  match pods with
  | [] => Some (w, Ok tt)
  | pod :: pods =>
      match reconcile_containers 0 (i :: s) sh leafCpusets pod (pod_Containers pod) w with
      | Some (w, Ok _) => reconcile_pods (S i) s sh leafCpusets pods w
      | r => r
      end
  end.

(** The list of pods is nil only together with an error. *)
Definition reconcileCpusets `{PodApi} s sh (stdOut : option string) : recM unit := fun w =>
  match GetPodsFromKubelet with
  | Err _ => Some (w, Err NoPodList)
  | Panic p => Some (w, Panic p)
  | Ok pods =>
      match getLeafCpusets stdOut with
      | None => Some (w, Err NoLeafCpusets)
      | Some leafCpusets => reconcile_pods 0 s sh leafCpusets pods w
      end
  end.

(** ** [startReconciliationLoop]

    What happens, in order: a tick of the timer with what the kubelet and [find] then answer
    and what others do [meanwhile], a change by someone else, and the stop signal. *)
Inductive loop_event :=
  | Tick (api : PodApi) (stdOut : option string) (meanwhile : list (tree -> tree))
  | Others (change : tree -> tree)
  | StopSignal.

(** How the loop is left. *)
Inductive loop_end :=
  | Running
  | Stopped
  | LoopCrashed (p : panic).

Fixpoint startReconciliationLoop (i : nat) s sh (events : list loop_event) (fs : tree)
    : option (tree * loop_end) :=
  match events with
  | [] => Some (fs, Running)
  | Tick api stdOut meanwhile :: events =>
      match @reconcileCpusets api (i :: s) sh stdOut (mkWorld fs meanwhile) with
      | None => None
      | Some (w, Panic p) => Some (files w, LoopCrashed p)
      | Some (w, _) => startReconciliationLoop (S i) s sh events (files w)
      end
  | Others change :: events => startReconciliationLoop (S i) s sh events (change fs)
  | StopSignal :: _ => Some (fs, Stopped)
  end.
End reconcile.

(** * Lemmas *)

Section passes.
Context `{CPUSetLaws} `{RangeOrder}.
Context (sh : SetHandlerT) (pods : list v1_Pod) (leaves : list string) (k : cpu_site).
Context (correct : v1_Pod -> v1_Container -> CPUSet).

(** The containers that are reconciled. *)
Definition managed (pod : v1_Pod) (c : v1_Container) : Prop :=
  pod ∈ pods /\ c ∈ pod_Containers pod /\ container_id pod c <> "".

Definition first_leaf (containerID : string) (leaves : list string) : option string :=
  List.find (fun leaf => Contains leaf containerID) leaves.

(** The file that is looked at for a container. *)
Definition leaf_file (pod : v1_Pod) (c : v1_Container) : option path :=
  if decide (container_id pod c = "") then None
  else (fun leaf => cpuset_file (parse_path leaf)) <$> first_leaf (container_id pod c) leaves.

(** The contents that are taken for a reset cpuset. *)
Definition reads_bad (content : string) : bool :=
  cs_Equals (badCpuset sh) (cs_Parse (TrimSpace content)).1.

(** What a look at a file makes of it. *)
Definition restore (set : CPUSet) (kd : option kind) : option kind :=
  match kd with
  | Some (AFile content) => Some (AFile (if reads_bad content then cs_String set else content))
  | _ => kd
  end.

Record node : Prop := {
  node_cpus : cpus_deployed sh managed k;
  node_sets s pod c : managed pod c -> exists cfgSet realSet,
    determineCorrectCpuset s (sh_env sh) pod c = Ok (cfgSet, realSet) /\ realSet ≡ correct pod c;
  node_agree pod c pod' c' q : managed pod c -> managed pod' c' ->
    leaf_file pod c = Some q -> leaf_file pod' c' = Some q -> correct pod c ≡ correct pod' c'
}.

Record node_ready (fs : tree) : Prop := {
  nready_cpus : cpus_ready sh managed k fs;
  nready_files pod c q : managed pod c -> leaf_file pod c = Some q ->
    cpusetRoot sh `prefix_of` q /\ exists content, kind_at fs q = Some (AFile content)
}.

Context (Hnode : node).

Definition restore_at (pod : v1_Pod) (c : v1_Container) (q : path) (kd : option kind) : option kind :=
  if decide (leaf_file pod c = Some q) then restore (correct pod c) kd else kd.

(** A look at one container. *)
Definition looked_at (pod : v1_Pod) (c : v1_Container) (fs fs' : tree) : Prop :=
  forall q, cpusetRoot sh `prefix_of` q -> kind_at fs' q = restore_at pod c q (kind_at fs q).

Lemma restore_at_file pod c q kd content : kd = Some (AFile content) ->
  exists content', restore_at pod c q kd = Some (AFile content').
Proof. intros ->. unfold restore_at, restore. case_decide; eauto. Qed.

Lemma restore_at_other pod c q kd : leaf_file pod c <> Some q -> restore_at pod c q kd = kd.
Proof. intros Hq. unfold restore_at. by rewrite decide_False. Qed.

Lemma looked_at_nothing pod c fs : leaf_file pod c = None -> looked_at pod c fs fs.
Proof. intros Hn q _. rewrite restore_at_other; [done|]. by rewrite Hn. Qed.

(** A change the reconciliation makes: outside the cgroups, or a correct set in a file it
    looks at. *)
Record own_change (fs fs' : tree) : Prop := {
  own_cpus : cpus_ready sh managed k fs';
  own_writes : (forall q, cpusetRoot sh `prefix_of` q -> kind_at fs' q = kind_at fs q) \/
    exists pod c q, managed pod c /\ leaf_file pod c = Some q /\
      rewrites q (cs_String (correct pod c)) fs fs'
}.

Lemma own_change_at fs fs' q : own_change fs fs' -> cpusetRoot sh `prefix_of` q ->
  kind_at fs' q = kind_at fs q \/ exists pod c, managed pod c /\ leaf_file pod c = Some q /\
    kind_at fs' q = Some (AFile (cs_String (correct pod c))).
Proof.
  intros [_ [Hsame|(pod & c & q' & Hm & Hq' & Hw)]] Hq; [left; by apply Hsame|].
  rewrite Hw. case_decide as Heq; [subst q'|by left]. right. by exists pod, c.
Qed.

Lemma own_change_ready fs fs' : node_ready fs -> own_change fs fs' -> node_ready fs'.
Proof.
  intros Hr Ho. split; [by apply own_cpus in Ho|]. intros pod c q Hm Hq.
  destruct (nready_files fs Hr pod c q Hm Hq) as [Hroot [content Hk]]. split; [done|].
  destruct (own_change_at fs fs' q Ho Hroot) as [->|(pod' & c' & _ & _ & ->)]; eauto.
Qed.

(** The cpuset of a container does not read as all CPUs, unless the correct one does. *)
Definition restored (fs : tree) (pod : v1_Pod) (c : v1_Container) : Prop :=
  forall q, leaf_file pod c = Some q -> exists content, kind_at fs q = Some (AFile content) /\
    (reads_bad content = true -> content = cs_String (correct pod c)).

Lemma own_change_restored fs fs' pod c : node_ready fs -> own_change fs fs' -> managed pod c ->
  restored fs pod c -> restored fs' pod c.
Proof.
  intros Hr Ho Hm Hc q Hq. destruct (nready_files fs Hr pod c q Hm Hq) as [Hroot _].
  destruct (own_change_at fs fs' q Ho Hroot) as [->|(pod' & c' & Hm' & Hq' & ->)]; [by apply Hc|].
  eexists. split; [done|]. intros _. by rewrite (node_agree Hnode pod' c' pod c q Hm' Hm Hq' Hq).
Qed.

Lemma reconcile_first_first s pod c id ls fs :
  reconcile_first s sh pod c id ls fs =
    match first_leaf id ls with
    | Some leaf => reconcile_leaf s sh pod c id leaf fs
    | None => Some (fs, Ok tt)
    end.
Proof. induction ls as [|leaf ls IH]; simpl; [done|]. by destruct (Contains leaf id). Qed.

Lemma willing_read fs p content : kind_at fs p = Some (AFile content) ->
  ReadFile willing_os fs p = Some content.
Proof. intros Hk%kind_at_file. unfold ReadFile. simpl. by rewrite Hk. Qed.

Lemma willing_overwrite fs dir content old : kind_at fs (cpuset_file dir) = Some (AFile old) ->
  exists fs', WriteFile willing_os fs (cpuset_file dir) content = Some fs' /\
    rewrites (cpuset_file dir) content fs fs'.
Proof.
  intros Hk. destruct (write_file_Some dir "cpuset.cpus" content fs) as [fs' Hw].
  - by apply (kind_at_parent fs dir ["cpuset.cpus"] (AFile old)).
  - unfold cpuset_file in Hk. by rewrite Hk.
  - exists fs'. split; [done|]. intros q. by apply kind_at_write.
Qed.

(** ** A look at one container

    What [reconcileContainer] does, with what the others do before its steps. *)

Inductive look (pod : v1_Pod) (c : v1_Container) (w : world) : world -> Prop :=
  | look_nothing : leaf_file pod c = None -> look pod c w w
  | look_good q content : leaf_file pod c = Some q ->
      kind_at (files (interfere w)) q = Some (AFile content) -> reads_bad content = false ->
      look pod c w (interfere w)
  | look_bad q content fs1 fs2 : leaf_file pod c = Some q ->
      kind_at (files (interfere w)) q = Some (AFile content) -> reads_bad content = true ->
      let w1 := interfere (interfere w) in
      (forall p, cpusetRoot sh `prefix_of` p -> kind_at fs1 p = kind_at (files w1) p) ->
      cpus_ready sh managed k fs1 ->
      let w2 := interfere (mkWorld fs1 (others w1)) in
      rewrites q (cs_String (correct pod c)) (files w2) fs2 -> cpus_ready sh managed k fs2 ->
      look pod c w (mkWorld fs2 (others w2)).

(** Looks at several containers. *)
Inductive looks : list (v1_Pod * v1_Container) -> world -> world -> Prop :=
  | looks_nil w : looks [] w w
  | looks_cons pod c cs w w1 w2 : managed pod c \/ leaf_file pod c = None ->
      look pod c w w1 -> looks cs w1 w2 -> looks ((pod, c) :: cs) w w2.

Lemma looks_app cs cs' w1 w2 w3 : looks cs w1 w2 -> looks cs' w2 w3 -> looks (cs ++ cs') w1 w3.
Proof. induction 1; [done|]. intros Hl. econstructor; eauto. Qed.

Lemma world_eta w : mkWorld (files w) (others w) = w.
Proof. by destruct w. Qed.

(** What the others and the reconciliation keep holds afterwards. *)
Lemma look_inv (I : world -> Prop) pod c w w' : managed pod c \/ leaf_file pod c = None ->
  (forall w, I w -> I (interfere w)) ->
  (forall fs fs' l, I (mkWorld fs l) -> own_change fs fs' -> I (mkWorld fs' l)) ->
  look pod c w w' -> I w -> I w'.
Proof.
  intros Hm Hothers Hown [Hn|q content Hq Hk Hb|q content fs1 fs2 Hq Hk Hb w1 Hsame Hc1 w2 Hw Hc2] HI;
    [done|by apply Hothers|].
  destruct Hm as [Hm|Hm]; [|congruence].
  assert (I (mkWorld fs1 (others w1))) as HI1.
  { apply (Hown (files w1)); [|split; [done|by left]]. rewrite world_eta. by do 2 apply Hothers. }
  apply (Hown (files w2)); [|split; [done|right; by exists pod, c, q]].
  rewrite world_eta. by apply Hothers.
Qed.

Lemma looks_inv (I : world -> Prop) cs w w' :
  (forall w, I w -> I (interfere w)) ->
  (forall fs fs' l, I (mkWorld fs l) -> own_change fs fs' -> I (mkWorld fs' l)) ->
  looks cs w w' -> I w -> I w'.
Proof. intros Hothers Hown. induction 1 as [w|pod c cs w w1 w2 Hm Hl Hls IH]; [done|]. intros HI.
  apply IH. by apply (look_inv I pod c w).
Qed.

(** A condition on the files that makes the node ready and that the reconciliation keeps. *)
Record regime (J : tree -> Prop) : Prop := {
  regime_ready fs : J fs -> node_ready fs;
  regime_own fs fs' : J fs -> own_change fs fs' -> J fs'
}.

Lemma ready_regime : regime node_ready.
Proof. split; [done|]. apply own_change_ready. Qed.

Context (J : tree -> Prop) (HJ : regime J).

(** The others keep it. *)
Definition stable (w : world) : Prop := J (files w) /\ Forall (fun f => forall fs, J fs -> J (f fs)) (others w).

Lemma stable_interfere w : stable w -> stable (interfere w).
Proof.
  intros [Hr Ho]. unfold interfere. destruct w as [fs [|f l]]; [by split|]. simpl in *.
  inversion_clear Ho as [|? ? Hf Hl]. split; [by apply Hf|done].
Qed.

Lemma stable_ready w : stable w -> node_ready (files w).
Proof. intros [Hw _]. by apply (regime_ready J HJ). Qed.

Lemma stable_own fs fs' l : stable (mkWorld fs l) -> own_change fs fs' -> stable (mkWorld fs' l).
Proof. intros [Hr Ho] Hc. split; [by apply (regime_own J HJ fs)|done]. Qed.

Lemma reconcileContainer_look s pod c w : stable w -> pod ∈ pods -> c ∈ pod_Containers pod ->
  exists w', reconcileContainer s sh leaves pod c w = Some (w', Ok tt) /\ look pod c w w'.
Proof.
  intros Hst Hpod Hc. unfold reconcileContainer. fold (container_id pod c).
  destruct (decide (container_id pod c = "")) as [Hid|Hid].
  { exists w. split; [done|]. apply look_nothing. unfold leaf_file. by rewrite decide_True. }
  assert (managed pod c) as Hm by done. rewrite reconcile_first_first.
  assert (leaf_file pod c = (fun leaf => cpuset_file (parse_path leaf)) <$> first_leaf (container_id pod c) leaves)
    as Hfile by (unfold leaf_file; by rewrite decide_False).
  destruct (first_leaf (container_id pod c) leaves) as [leaf|]; simpl in Hfile.
  2: { exists w. split; [done|]. by apply look_nothing. }
  pose proof (stable_interfere w Hst) as Hst1.
  destruct (nready_files _ (stable_ready _ Hst1) pod c _ Hm Hfile) as [Hroot [content Hk]].
  unfold reconcile_leaf, currentCpuset. rewrite (os_willing _ _ _ (node_cpus Hnode)).
  rewrite (willing_read _ _ content Hk). cbv zeta. change (default "" (Some content)) with content. fold (reads_bad content).
  destruct (reads_bad content) eqn:Hbad; [|exists (interfere w); split; [done|exact (look_good pod c w _ content Hfile Hk Hbad)]].
  destruct (node_sets Hnode s pod c Hm) as (cfgSet & realSet & -> & Heq).
  pose proof (stable_interfere _ Hst1) as Hst2.
  destruct (make_cpus_ok sh managed k (node_cpus Hnode) (files (interfere (interfere w))) pod c cfgSet)
    as (fs1 & -> & Hr1 & Hsame); [by apply nready_cpus, stable_ready|done|].
  assert (stable (mkWorld fs1 (others (interfere (interfere w))))) as Hst3.
  { apply (stable_own (files (interfere (interfere w)))); [by rewrite world_eta|].
    split; [done|by left]. }
  apply stable_interfere in Hst3.
  set (w2 := interfere (mkWorld fs1 (others (interfere (interfere w))))) in *.
  destruct (nready_files _ (stable_ready _ Hst3) pod c _ Hm Hfile) as [_ [content2 Hk2]].
  destruct (willing_overwrite (files w2) (parse_path leaf) (cs_String realSet) content2 Hk2) as (fs2 & Hw & Hrw).
  rewrite Hw. exists (mkWorld fs2 (others w2)). split; [done|].
  eapply (look_bad pod c w); [done..| |].
  - by rewrite <- Heq.
  - apply (cpus_ready_root sh managed k (node_cpus Hnode) (files w2)); [by apply nready_cpus, stable_ready| |].
    + eapply WriteFile_well_formed; [|exact Hw]. by apply (ready_well_formed sh managed k), nready_cpus, stable_ready.
    + intros q Hq. rewrite Hrw, decide_False; [done|]. by intros ->.
Qed.

(** ** A pass over all containers *)

Definition all_containers (ps : list v1_Pod) : list (v1_Pod * v1_Container) :=
  ps ≫= (fun pod => (fun c => (pod, c)) <$> pod_Containers pod).

Lemma managed_or_not pod c : pod ∈ pods -> c ∈ pod_Containers pod -> managed pod c \/ leaf_file pod c = None.
Proof.
  intros Hpod Hc. unfold leaf_file. destruct (decide (container_id pod c = "")); [by right|by left].
Qed.

Lemma reconcile_containers_looks s pod cs : pod ∈ pods -> cs ⊆ pod_Containers pod -> forall i w, stable w ->
  exists w', reconcile_containers i s sh leaves pod cs w = Some (w', Ok tt) /\
    looks ((fun c => (pod, c)) <$> cs) w w' /\ stable w'.
Proof.
  intros Hpod Hcs. induction cs as [|c cs IH]; intros i w Hst; simpl.
  { exists w. split; [done|]. split; [constructor|done]. }
  assert (c ∈ pod_Containers pod) as Hc by set_solver.
  destruct (reconcileContainer_look (i :: s) pod c w Hst Hpod Hc) as (w1 & -> & Hl).
  pose proof (managed_or_not pod c Hpod Hc) as Hm.
  destruct (IH ltac:(set_solver) (S i) w1) as (w2 & Hrun & Hls & Hst2).
  { by eapply look_inv; [done|apply stable_interfere|apply stable_own|done|]. }
  exists w2. split; [done|]. split; [by econstructor|done].
Qed.

Lemma reconcile_pods_looks s ps : ps ⊆ pods -> forall i w, stable w ->
  exists w', reconcile_pods i s sh leaves ps w = Some (w', Ok tt) /\ looks (all_containers ps) w w' /\ stable w'.
Proof.
  intros Hps. induction ps as [|pod ps IH]; intros i w Hst; simpl.
  { exists w. split; [done|]. split; [constructor|done]. }
  destruct (reconcile_containers_looks (i :: s) pod (pod_Containers pod)) with (i := 0%nat) (w := w)
    as (w1 & -> & Hl1 & Hst1); [set_solver|done|done|].
  destruct (IH ltac:(set_solver) (S i) w1 Hst1) as (w2 & Hrun & Hl2 & Hst2).
  exists w2. split; [done|]. split; [by eapply looks_app|done].
Qed.

(** *** Nobody else is there *)

Lemma look_alone pod c w w' : look pod c w w' -> others w = [] -> others w' = [] /\ looked_at pod c (files w) (files w').
Proof.
  intros Hl Hw. destruct w as [fs l]; simpl in Hw; subst l.
  destruct Hl as [Hn|q content Hq Hk Hb|q content fs1 fs2 Hq Hk Hb w1 Hsame Hc1 w2 Hw Hc2]; (split; [done|]).
  - by apply looked_at_nothing.
  - intros p _. unfold restore_at. case_decide as Hp; [|done].
    rewrite Hq in Hp. injection Hp as <-. simpl in *. rewrite Hk. simpl. by rewrite Hb.
  - simpl in *. intros p Hp. rewrite Hw. unfold restore_at, restore. rewrite Hq. case_decide as Heq.
    + subst q. rewrite decide_True by done. by rewrite Hk, Hb.
    + rewrite decide_False by congruence. by apply Hsame.
Qed.

Definition restore_all (cs : list (v1_Pod * v1_Container)) (q : path) (kd : option kind) : option kind :=
  foldl (fun kd pc => restore_at pc.1 pc.2 q kd) kd cs.

Definition passed (cs : list (v1_Pod * v1_Container)) (fs fs' : tree) : Prop :=
  forall q, cpusetRoot sh `prefix_of` q -> kind_at fs' q = restore_all cs q (kind_at fs q).

Lemma looks_alone cs w w' : looks cs w w' -> others w = [] -> others w' = [] /\ passed cs (files w) (files w').
Proof.
  induction 1 as [w|pod c cs w w1 w2 Hm Hl Hls IH]; intros Hw; [done|].
  destruct (look_alone _ _ _ _ Hl Hw) as [Hw1 Hp]. destruct (IH Hw1) as [Hw2 Hps]. split; [done|].
  intros q Hq. cbn [restore_all foldl fst snd]. by rewrite (Hps q Hq), (Hp q Hq).
Qed.

(** *** The others do not reset what is right *)

Definition calm (f : tree -> tree) : Prop := forall fs pod c, J fs -> managed pod c ->
  restored fs pod c -> restored (f fs) pod c.

Definition settled (w : world) : Prop := stable w /\ Forall calm (others w).

Lemma settled_interfere w pod c : settled w -> managed pod c ->
  settled (interfere w) /\ (restored (files w) pod c -> restored (files (interfere w)) pod c).
Proof.
  intros [Hst Hc] Hm. pose proof (stable_interfere w Hst). unfold interfere in *.
  destruct w as [fs [|f l]]; [done|]. simpl in *. inversion_clear Hc as [|? ? Hf Hl].
  split; [done|]. apply Hf; [by destruct Hst|done].
Qed.

Lemma looks_keep cs w w' pod c : looks cs w w' -> managed pod c -> settled w -> restored (files w) pod c ->
  settled w' /\ restored (files w') pod c.
Proof.
  intros Hl Hm Hs Hr. apply (looks_inv (fun w => settled w /\ restored (files w) pod c) cs w w'); [| |done|done].
  - intros w0 [Hs0 Hr0]. destruct (settled_interfere w0 pod c Hs0 Hm). auto.
  - intros fs fs' l [[Hst Hc] Hr0] Ho. split; [split; [by eapply stable_own|done]|].
    simpl in *. eapply own_change_restored; [by apply (stable_ready _ Hst)|done..].
Qed.

Lemma look_restores pod c w w' : look pod c w w' -> restored (files w') pod c.
Proof.
  intros [Hn|q content Hq Hk Hb|q content fs1 fs2 Hq Hk Hb w1 Hsame Hc1 w2 Hw Hc2] p Hp; [congruence|..];
    rewrite Hq in Hp; injection Hp as <-.
  - exists content. split; [done|congruence].
  - simpl. exists (cs_String (correct pod c)). rewrite Hw. by rewrite decide_True.
Qed.

Lemma looks_restore cs w w' : looks cs w w' -> settled w ->
  forall pod c, managed pod c -> (pod, c) ∈ cs -> restored (files w') pod c.
Proof.
  induction 1 as [w|pod c cs w w1 w2 Hm Hl Hls IH]; intros Hs pod' c' Hm' Hin; [by apply elem_of_nil in Hin|].
  assert (settled w1) as Hs1.
  { eapply look_inv; [exact Hm| | |exact Hl|exact Hs].
    - intros w0 Hs0. by apply (settled_interfere w0 pod' c').
    - intros fs fs' l [Hst Hc] Ho. split; [by eapply stable_own|done]. }
  apply elem_of_cons in Hin as [[= -> ->]|Hin]; [|by apply IH].
  apply (looks_keep cs w1 w2 pod c); [done..|]. by eapply look_restores.
Qed.

(** ** What a pass does to a file *)

Lemma elem_of_all_containers ps pod c : (pod, c) ∈ all_containers ps <-> pod ∈ ps /\ c ∈ pod_Containers pod.
Proof.
  unfold all_containers. rewrite list_elem_of_bind. split.
  - intros (p & (c' & [= -> ->] & Hc)%list_elem_of_fmap & Hp). done.
  - intros [Hp Hc]. exists pod. split; [|done]. apply list_elem_of_fmap. by exists c.
Qed.

Lemma restore_twice set kd : restore set (restore set kd) = restore set kd.
Proof.
  destruct kd as [[content|]|]; [|done..]. simpl. destruct (reads_bad content) eqn:E; [|by rewrite E].
  by destruct (reads_bad (cs_String set)).
Qed.

Lemma leaf_file_managed pod c q : pod ∈ pods -> c ∈ pod_Containers pod -> leaf_file pod c = Some q ->
  managed pod c.
Proof. unfold leaf_file. case_decide; done. Qed.

(** All containers that look at one file agree, so one look does what all do. *)
Lemma restore_all_managed cs pod c q kd : managed pod c -> leaf_file pod c = Some q ->
  (forall pc, pc ∈ cs -> pc ∈ all_containers pods) ->
  restore_all cs q kd = kd /\ (forall pc, pc ∈ cs -> leaf_file pc.1 pc.2 <> Some q) \/
  restore_all cs q kd = restore (correct pod c) kd.
Proof.
  intros Hm Hq Hcs. revert kd. unfold restore_all.
  induction cs as [|[pod' c'] cs IH]; intros kd; [left; split; [done|]; by intros pc ?%elem_of_nil|].
  cbn [foldl fst snd].
  assert (forall pc, pc ∈ cs -> pc ∈ all_containers pods) as Hcs' by (intros; apply Hcs; by right).
  specialize (IH Hcs'). destruct (decide (leaf_file pod' c' = Some q)) as [Hq'|Hq'].
  - right. assert ((pod', c') ∈ all_containers pods) as [Hpod' Hc']%elem_of_all_containers by (apply Hcs; left).
    assert (restore_at pod' c' q kd = restore (correct pod c) kd) as ->.
    { unfold restore_at. rewrite decide_True by done. destruct kd as [[content|]|]; [|done..]. simpl.
      by rewrite (node_agree Hnode pod' c' pod c q (leaf_file_managed _ _ _ Hpod' Hc' Hq') Hm Hq' Hq). }
    destruct (IH (restore (correct pod c) kd)) as [[-> _]| ->]; [done|apply restore_twice].
  - rewrite restore_at_other by done. destruct (IH kd) as [[-> Hno]| ->]; [left|by right]. split; [done|].
    intros pc [->|Hpc]%elem_of_cons; [done|by apply Hno].
Qed.

Lemma restore_all_twice q kd :
  restore_all (all_containers pods) q (restore_all (all_containers pods) q kd) =
    restore_all (all_containers pods) q kd.
Proof.
  assert ((exists pod c, managed pod c /\ leaf_file pod c = Some q) \/
    forall pc, pc ∈ all_containers pods -> leaf_file pc.1 pc.2 <> Some q) as [(pod & c & Hm & Hq)|Hno].
  { destruct (decide (Exists (fun pc => leaf_file pc.1 pc.2 = Some q) (all_containers pods))) as [He|He].
    - apply Exists_exists in He as ([pod c] & [Hpod Hc]%elem_of_all_containers & Hq).
      left. exists pod, c. split; [by eapply leaf_file_managed|done].
    - right. intros pc Hpc Hq. apply He, Exists_exists. by exists pc. }
  - destruct (restore_all_managed (all_containers pods) pod c q kd Hm Hq) as [[Heq _]|Heq];
      [done|by rewrite !Heq|]. rewrite Heq.
    destruct (restore_all_managed (all_containers pods) pod c q (restore (correct pod c) kd) Hm Hq)
      as [[-> _]| ->]; [done|done|apply restore_twice].
  - assert (forall kd, restore_all (all_containers pods) q kd = kd) as Hid; [|by rewrite !Hid].
    intros kd'. unfold restore_all. apply (foldl_inv _ (fun x => x = kd')); [done|].
    intros x pc -> Hpc. by apply restore_at_other, Hno.
Qed.

Lemma pass_managed fs fs' pod c q : passed (all_containers pods) fs fs' -> node_ready fs ->
  managed pod c -> leaf_file pod c = Some q -> kind_at fs' q = restore (correct pod c) (kind_at fs q).
Proof.
  intros Hp Hr Hm Hq. destruct (nready_files fs Hr pod c q Hm Hq) as [Hroot _]. rewrite (Hp q Hroot).
  destruct (restore_all_managed (all_containers pods) pod c q (kind_at fs q) Hm Hq) as [[_ Hno]| ->]; [done| |done].
  exfalso. apply (Hno (pod, c)); [|done]. apply elem_of_all_containers. by destruct Hm as (? & ? & _).
Qed.

Lemma pass_others fs fs' q : passed (all_containers pods) fs fs' -> cpusetRoot sh `prefix_of` q ->
  (forall pod c, managed pod c -> leaf_file pod c <> Some q) -> kind_at fs' q = kind_at fs q.
Proof.
  intros Hp Hroot Hno. rewrite (Hp q Hroot). unfold restore_all.
  apply (foldl_inv _ (fun kd => kd = kind_at fs q)); [done|].
  intros kd [pod c] -> [Hpod Hc]%elem_of_all_containers. unfold restore_at. simpl.
  case_decide as Hq; [|done]. exfalso. apply (Hno pod c); [|done]. by eapply leaf_file_managed.
Qed.
End passes.

(** ** The loop *)

Section loop.
Context `{CPUSetLaws} `{RangeOrder}.
Context (sh : SetHandlerT) (pods : list v1_Pod) (leaves : list string) (k : cpu_site).
Context (correct : v1_Pod -> v1_Container -> CPUSet).
Context (Hnode : node sh pods leaves k correct).
Context (J : tree -> Prop) (HJ : regime sh pods leaves k correct J).

(** The kubelet lists the pods and [find] the directories; others keep the condition. *)
Definition regular (e : loop_event) : Prop :=
  match e with
  | Tick api stdOut meanwhile => @GetPodsFromKubelet api = Ok pods /\ getLeafCpusets stdOut = Some leaves /\
      Forall (fun f => forall fs, J fs -> J (f fs)) meanwhile
  | Others change => forall fs, J fs -> J (change fs)
  | StopSignal => False
  end.

Lemma tick_ok (api : PodApi) s stdOut w : @GetPodsFromKubelet api = Ok pods -> getLeafCpusets stdOut = Some leaves ->
  stable J w ->
  exists w', reconcileCpusets s sh stdOut w = Some (w', Ok tt) /\
    looks sh pods leaves k correct (all_containers pods) w w' /\ stable J w'.
Proof.
  intros Hpods Hleaves Hst. unfold reconcileCpusets. rewrite Hpods, Hleaves.
  by apply (reconcile_pods_looks sh pods leaves k correct Hnode J HJ).
Qed.

(** A tick with nobody else at work. *)
Lemma tick_alone (api : PodApi) s stdOut fs : @GetPodsFromKubelet api = Ok pods ->
  getLeafCpusets stdOut = Some leaves -> J fs ->
  exists fs', reconcileCpusets s sh stdOut (mkWorld fs []) = Some (mkWorld fs' [], Ok tt) /\
    J fs' /\ passed sh leaves correct (all_containers pods) fs fs'.
Proof.
  intros Hpods Hleaves Hr.
  destruct (tick_ok api s stdOut (mkWorld fs []) Hpods Hleaves) as (w' & Hrun & Hl & Hst); [done|].
  destruct (looks_alone sh pods leaves k correct _ _ _ Hl) as [Hw Hp]; [done|].
  exists (files w'). destruct w' as [fs' l]; simpl in *; subst l. by destruct Hst.
Qed.

(** A tick while the others do not reset what is right. *)
Lemma tick_restores (api : PodApi) s stdOut w : @GetPodsFromKubelet api = Ok pods ->
  getLeafCpusets stdOut = Some leaves -> settled sh pods leaves correct J w ->
  exists w', reconcileCpusets s sh stdOut w = Some (w', Ok tt) /\
    forall pod c, managed pods pod c -> restored sh leaves correct (files w') pod c.
Proof.
  intros Hpods Hleaves Hs. destruct (tick_ok api s stdOut w Hpods Hleaves (proj1 Hs)) as (w' & Hrun & Hl & _).
  exists w'. split; [done|]. intros pod c Hm.
  apply (looks_restore sh pods leaves k correct Hnode J HJ (all_containers pods) w); [done..|].
  apply elem_of_all_containers. by destruct Hm as (? & ? & _).
Qed.

Lemma loop_app es es' : Forall regular es -> forall i s fs, J fs ->
  exists fs' j, startReconciliationLoop i s sh (es ++ es') fs = startReconciliationLoop j s sh es' fs' /\
    J fs'.
Proof.
  induction 1 as [|e es He Hes IH]; intros i s fs Hr; simpl; [by exists fs, i|].
  destruct e as [api stdOut meanwhile|change|]; [| |done].
  - destruct He as (Hpods & Hleaves & Hmean).
    destruct (tick_ok api (i :: s) stdOut (mkWorld fs meanwhile) Hpods Hleaves) as (w1 & -> & _ & Hst1); [done|].
    by apply IH, Hst1.
  - by apply IH, He.
Qed.
End loop.

(** * Properties *)

Section properties.
Context `{CPUSetLaws} `{RangeOrder}.
Implicit Types (s : site).

(** C12: A reconciliation with nobody else at work ends without an error and, of the cpusets of
    the containers, overwrites exactly those that read as all CPUs of the machine, with the
    correct set.  A cpuset that differs from the correct one in any other way is left as it is,
    although the comment on [StartReconciliation] promises to reset it; so is every other file
    of the cgroups, and a second reconciliation changes nothing there. *)
Theorem reconcileCpusets_restores (api : PodApi) s sh stdOut pods leaves k correct fs :
  GetPodsFromKubelet = Ok pods -> getLeafCpusets stdOut = Some leaves ->
  node sh pods leaves k correct -> node_ready sh pods leaves k fs ->
  exists fs', reconcileCpusets s sh stdOut (mkWorld fs []) = Some (mkWorld fs' [], Ok tt) /\
    (forall pod c q, managed pods pod c -> leaf_file leaves pod c = Some q ->
       exists content, kind_at fs q = Some (AFile content) /\
         kind_at fs' q = Some (AFile (if reads_bad sh content then cs_String (correct pod c) else content))) /\
    (forall q, cpusetRoot sh `prefix_of` q ->
       (forall pod c, managed pods pod c -> leaf_file leaves pod c <> Some q) ->
       kind_at fs' q = kind_at fs q) /\
    forall s', exists fs'', reconcileCpusets s' sh stdOut (mkWorld fs' []) = Some (mkWorld fs'' [], Ok tt) /\
      forall q, cpusetRoot sh `prefix_of` q -> kind_at fs'' q = kind_at fs' q.
Proof.
  intros Hpods Hleaves Hnode Hr.
  destruct (tick_alone sh pods leaves k correct Hnode _ (ready_regime sh pods leaves k correct) api s stdOut fs) as (fs' & Hrun & Hr' & Hp); [done..|].
  exists fs'. split; [done|]. split; [|split].
  - intros pod c q Hm Hq. destruct (nready_files _ _ _ _ fs Hr pod c q Hm Hq) as [_ [content Hk]].
    exists content. split; [done|].
    by rewrite (pass_managed sh pods leaves k correct Hnode fs fs' pod c q Hp Hr Hm Hq), Hk.
  - intros q Hroot Hno. by apply (pass_others sh pods leaves correct fs fs').
  - intros s'. destruct (tick_alone sh pods leaves k correct Hnode _ (ready_regime sh pods leaves k correct) api s' stdOut fs')
      as (fs'' & Hrun' & Hr'' & Hp'); [done..|].
    exists fs''. split; [done|]. intros q Hroot. rewrite (Hp' q Hroot), (Hp q Hroot).
    by apply (restore_all_twice sh pods leaves k correct).
Qed.

(** C6: Whatever others do to the cgroups between the ticks and during them, as long as the
    files are there: after each tick during which nobody resets a cpuset that is right, no
    cpuset of a container reads as all CPUs, except where the correct set is written that
    way. *)
Theorem reconciliation_converges (api : PodApi) i s sh stdOut meanwhile pods leaves k correct es fs :
  node sh pods leaves k correct -> node_ready sh pods leaves k fs ->
  Forall (regular pods leaves (node_ready sh pods leaves k)) (es ++ [Tick api stdOut meanwhile]) ->
  Forall (calm sh pods leaves correct (node_ready sh pods leaves k)) meanwhile ->
  exists fs', startReconciliationLoop i s sh (es ++ [Tick api stdOut meanwhile]) fs = Some (fs', Running) /\
    forall pod c, managed pods pod c -> restored sh leaves correct fs' pod c.
Proof.
  intros Hnode Hr [Hes (Hpods & Hleaves & Hmean)%Forall_inv]%Forall_app Hcalm.
  destruct (loop_app sh pods leaves k correct Hnode _ (ready_regime sh pods leaves k correct) es [Tick api stdOut meanwhile] Hes i s fs Hr)
    as (fs1 & j & -> & Hr1).
  destruct (tick_restores sh pods leaves k correct Hnode _ (ready_regime sh pods leaves k correct) api (j :: s) stdOut (mkWorld fs1 meanwhile))
    as (w' & Hrun & Hrest); [done..|].
  cbn [startReconciliationLoop]. rewrite Hrun. by exists (files w').
Qed.
End properties.

(** ** Witnesses *)

Module reconcile_example.
Definition leaves : list string :=
  ["/cgroup/kubepods/pod1/c0ffee/init"; "/cgroup/kubepods/pod1/decaf"; "/cgroup/kubepods/pod1/pause"].

(** What [find] prints. *)
Definition stdOut : option string :=
  Some (foldr (fun leaf s => leaf +:+ String newline s) "" leaves).

Definition correct (pod : v1_Pod) (c : v1_Container) : @CPUSet list_cpuset.lib :=
  correct_set deployment_example.deployment_of_pod c.

(** The kubelet resets a cpuset. *)
Definition reset (t : tree) : tree :=
  default t (write_file ["cgroup"; "kubepods"; "pod1"; "decaf"; "cpuset.cpus"] "0-7" t).

(** Somebody gives the second container CPU 1 instead of its own. *)
Definition astray (t : tree) : tree :=
  default t (write_file ["cgroup"; "kubepods"; "pod1"; "decaf"; "cpuset.cpus"] "1" t).
End reconcile_example.

Section witnesses.
Import deployment_example reconcile_example.

Lemma managed_cases p c : managed [pod] p c -> p = pod /\ (c = app \/ c = side).
Proof.
  intros (Hp & Hc & _). apply list_elem_of_singleton in Hp as ->. split; [done|].
  simpl in Hc. rewrite !elem_of_cons, elem_of_nil in Hc. tauto.
Defined.

Lemma example_node : node handler [pod] leaves cpus correct.
Proof.
  split.
  - apply cpus_are_deployed.
  - intros s p c [-> [-> | ->]]%managed_cases.
    + exists shared_cpus, shared_cpus. split; [exact (app_set s)|by intros x].
    + exists default_cpus, default_cpus. split; [exact (side_set s)|by intros x].
  - intros p c p' c' q [-> Hc]%managed_cases [-> Hc']%managed_cases Hq Hq'.
    destruct Hc as [->| ->], Hc' as [->| ->]; try (by intros x);
      vm_compute in Hq; vm_compute in Hq'; congruence.
Defined.

Lemma example_files p c q : managed [pod] p c -> leaf_file leaves p c = Some q ->
  q = cpuset_file ["cgroup"; "kubepods"; "pod1"; "c0ffee"; "init"] \/
  q = cpuset_file ["cgroup"; "kubepods"; "pod1"; "decaf"].
Proof.
  intros [-> [->| ->]]%managed_cases Hq; vm_compute in Hq; injection Hq as <-; [by left|by right].
Defined.

Lemma example_ready : node_ready handler [pod] leaves cpus fs.
Proof.
  split; [apply cpus_are_ready|]. intros p c q Hm Hq.
  destruct (example_files p c q Hm Hq) as [->| ->]; (split; [by eexists|]);
    exists "0-7"; by apply files_everywhere; [eexists|].
Defined.

Lemma write_ready content t : node_ready handler [pod] leaves cpus t ->
  node_ready handler [pod] leaves cpus
    (default t (write_file ["cgroup"; "kubepods"; "pod1"; "decaf"; "cpuset.cpus"] content t)).
Proof.
  intros Hr. destruct (write_file _ _ t) as [t'|] eqn:Hw; [|done]. simpl.
  pose proof (fun q => kind_at_write _ _ _ _ q Hw) as Hk. split.
  - apply (cpus_ready_root handler (managed [pod]) cpus (cpus_are_deployed _ _) t); [by apply nready_cpus in Hr| |].
    + eapply write_file_well_formed; [|done]. by apply nready_cpus, ready_well_formed in Hr.
    + intros q Hq. rewrite Hk, decide_False; [done|]. intros ->. apply Hq. by eexists.
  - intros p c q Hm Hq. destruct (nready_files _ _ _ _ t Hr p c q Hm Hq) as [Hroot [old Hold]].
    split; [done|]. rewrite Hk. case_decide; eauto.
Defined.

Lemma reset_ready t : node_ready handler [pod] leaves cpus t -> node_ready handler [pod] leaves cpus (reset t).
Proof. apply write_ready. Defined.

Lemma example_leaves : getLeafCpusets stdOut = Some leaves.
Proof. vm_compute. reflexivity. Defined.

Lemma reconcileCpusets_restores_witness :
  exists fs', reconcileCpusets (H1 := api) [] handler stdOut (mkWorld fs []) = Some (mkWorld fs' [], Ok tt) /\
    (forall p c q, managed [pod] p c -> leaf_file leaves p c = Some q ->
       exists content, kind_at fs q = Some (AFile content) /\
         kind_at fs' q = Some (AFile (if reads_bad handler content then cs_String (correct p c) else content))) /\
    (forall q, cpusetRoot handler `prefix_of` q ->
       (forall p c, managed [pod] p c -> leaf_file leaves p c <> Some q) ->
       kind_at fs' q = kind_at fs q) /\
    forall s', exists fs'', reconcileCpusets (H1 := api) s' handler stdOut (mkWorld fs' []) =
        Some (mkWorld fs'' [], Ok tt) /\
      forall q, cpusetRoot handler `prefix_of` q -> kind_at fs'' q = kind_at fs' q.
Proof.
  apply (reconcileCpusets_restores api [] handler stdOut [pod] leaves cpus correct fs);
    [reflexivity|apply example_leaves|apply example_node|apply example_ready].
Defined.

(** Somebody writes the correct set of the second container, during a tick. *)
Definition rightly (t : tree) : tree :=
  default t (write_file ["cgroup"; "kubepods"; "pod1"; "decaf"; "cpuset.cpus"] (cs_String default_cpus) t).

Lemma rightly_ready t : node_ready handler [pod] leaves cpus t -> node_ready handler [pod] leaves cpus (rightly t).
Proof. apply write_ready. Defined.

Lemma rightly_calm : calm handler [pod] leaves correct (node_ready handler [pod] leaves cpus) rightly.
Proof.
  intros t p c Hr Hm Hc q Hq. unfold rightly. destruct (write_file _ _ t) as [t'|] eqn:Hw; [|by apply Hc]. simpl.
  rewrite (kind_at_write _ _ _ _ q Hw). case_decide as Heq; [|by apply Hc].
  exists (cs_String default_cpus). split; [done|]. intros _.
  destruct (managed_cases p c Hm) as [-> [->| ->]]; [|done].
  subst q. vm_compute in Hq. discriminate.
Defined.

Lemma reconciliation_converges_witness :
  exists fs', startReconciliationLoop 0 [] handler
      [Tick api stdOut [id; reset]; Others reset; Tick api stdOut [rightly]] fs = Some (fs', Running) /\
    forall p c, managed [pod] p c -> restored handler leaves correct fs' p c.
Proof.
  apply (reconciliation_converges api 0 [] handler stdOut [rightly] [pod] leaves cpus correct
    [Tick api stdOut [id; reset]; Others reset] fs); [apply example_node|apply example_ready| |].
  - apply Forall_cons_2; [|apply Forall_cons_2; [exact reset_ready|apply Forall_cons_2; [|apply Forall_nil_2]]];
      (split; [reflexivity|]; split; [apply example_leaves|]).
    + apply Forall_cons_2; [by intros t|]. apply Forall_cons_2; [exact reset_ready|apply Forall_nil_2].
    + apply Forall_cons_2; [exact rightly_ready|apply Forall_nil_2].
  - apply Forall_cons_2; [exact rightly_calm|apply Forall_nil_2].
Defined.

(** A wrong cpuset that does not read as all CPUs stays. *)
Example astray_stays :
  match reconcileCpusets (H1 := api) [] handler stdOut (mkWorld (astray fs) []) with
  | Some (w, Ok _) => kind_at (files w) ["cgroup"; "kubepods"; "pod1"; "decaf"; "cpuset.cpus"]
  | _ => None
  end = Some (AFile "1") /\ cs_String default_cpus <> "1".
Proof. split; [vm_compute; reflexivity|vm_compute; discriminate]. Qed.

(** The reset cpusets do read as all CPUs. *)
Example reset_is_bad : reads_bad handler "0-7" = true.
Proof. vm_compute. reflexivity. Qed.
End witnesses.
