(* ===== verification/Together.v ===== *)
(** * A worker and the reconciliation at once

    The two threads of the setter that write cpusets: a worker that handles a pod
    ([Deployment]) and the reconciliation ([Reconcile]).  On a node where what [find] lists and
    the cgroups of the pod fit together ([consistent]), neither undoes the other, however
    their steps interleave. *)

From S2P Require Import Prelude K8s PodApi Pools Cpuset SetHandler PodEvents FileSystem Files CpuDirectory Cgroup Adjust Deployment Reconcile.
Local Open Scope Z_scope.

Section together.
Context `{CPUSetLaws} `{RangeOrder}.
Context (sh : SetHandlerT) (pods : list v1_Pod) (leaves : list string) (k : cpu_site).
Context (correct : v1_Pod -> v1_Container -> CPUSet) (Hnode : node sh pods leaves k correct).
Context (pod : v1_Pod) (toset : gmap string Z) (d : deployment) (Hdep : deployed sh pod toset d).

(** The CPU directories are the same, and a listed file in the cgroup of the pod is in the
    cgroup of a container of the pod with the same correct set. *)
Record consistent : Prop := {
  cons_cpus : cpus_of d = k /\ node_containers d = managed pods;
  cons_targets pod' c' q : managed pods pod' c' -> leaf_file leaves pod' c' = Some q ->
    pod_cgroup d `prefix_of` q ->
    exists c leaf, to_be_set pod toset c /\ q = cpuset_file leaf /\ container_cgroup d c `prefix_of` leaf /\
      correct pod' c' ≡ correct_set d c
}.

Context (Hcons : consistent).

(** What both threads need. *)
Definition both_prepared (fs : tree) : Prop := ready sh pod toset d fs /\ node_ready sh pods leaves k fs.

Lemma below_leaf c q leaf : to_be_set pod toset c -> q = cpuset_file leaf -> container_cgroup d c `prefix_of` leaf ->
  pod_cgroup d `prefix_of` q.
Proof.
  intros _ -> Hl. apply prefix_app_r. etrans; [|exact Hl]. by apply prefix_app_r.
Qed.

(** The target of a container of the pod, for both threads. *)
Lemma same_target pod' c' c leaf : managed pods pod' c' -> leaf_file leaves pod' c' = Some (cpuset_file leaf) ->
  to_be_set pod toset c -> container_cgroup d c `prefix_of` leaf -> correct pod' c' ≡ correct_set d c.
Proof.
  intros Hm Hq Hc Hl.
  destruct (cons_targets Hcons pod' c' _ Hm Hq (below_leaf c _ leaf Hc eq_refl Hl))
    as (c2 & leaf2 & Hc2 & [<- _]%app_inj_tail & Hl2 & Heq).
  by rewrite (same_container sh pod toset d Hdep c c2 leaf).
Qed.

(** The infra container is not reconciled. *)
Lemma infra_not_reconciled fs pod' c' : ready sh pod toset d fs -> managed pods pod' c' ->
  cs_IsEmpty (default_set d) = false -> leaf_file leaves pod' c' <> Some (infra_file d).
Proof.
  intros Hr Hm Hne Hq.
  destruct (cons_targets Hcons pod' c' _ Hm Hq) as (c & leaf & Hc & Heq & Hl & _).
  { unfold infra_file, cpuset_file. rewrite <- (assoc_L (++)). by apply prefix_app_r. }
  apply app_inj_tail in Heq as [<- _].
  destruct (proj2 (ready_infra _ _ _ _ fs Hr Hne (infra_name d)) eq_refl) as [_ Hno].
  apply (infra_not_container sh pod toset d Hdep c Hc Hno). symmetry.
  by apply prefix_app_inv, prefix_cons_inv_1 in Hl.
Qed.

(** ** A step of the handling *)

Lemma pod_step_node_ready fs fs' : node_ready sh pods leaves k fs -> pod_step sh pod toset d fs fs' ->
  node_ready sh pods leaves k fs'.
Proof.
  intros Hn Hs. destruct (cons_cpus Hcons) as [<- HP]. split.
  - rewrite <- HP. by apply step_cpus in Hs.
  - intros pod' c' q Hm Hq. destruct (nready_files _ _ _ _ fs Hn pod' c' q Hm Hq) as [Hroot [content Hk]].
    split; [done|]. destruct (step_writes _ _ _ _ _ _ Hs q Hroot) as [->|(new & -> & _)]; eauto.
Qed.

Lemma pod_step_restored fs fs' pod' c' : both_prepared fs -> pod_step sh pod toset d fs fs' ->
  managed pods pod' c' -> restored sh leaves correct fs pod' c' -> restored sh leaves correct fs' pod' c'.
Proof.
  intros [Hr Hn] Hs Hm Hc q Hq. destruct (nready_files _ _ _ _ fs Hn pod' c' q Hm Hq) as [Hroot _].
  destruct (step_writes _ _ _ _ _ _ Hs q Hroot) as [->|(content & -> & Hent)]; [by apply Hc|].
  exists content. split; [done|]. intros _.
  destruct Hent as [(c & leaf & Hc' & [Hl _] & -> & ->)|(Hne & -> & _)].
  - by rewrite (same_target pod' c' c leaf).
  - by destruct (infra_not_reconciled fs pod' c').
Qed.

(** ** A change of the reconciliation *)

Lemma own_change_shape fs fs' : node_ready sh pods leaves k fs -> own_change sh pods leaves k correct fs fs' ->
  same_shape (cpusetRoot sh) fs fs'.
Proof.
  intros Hn Ho q Hq. destruct (own_change_at _ _ _ _ _ fs fs' q Ho Hq) as [->|(pod' & c' & Hm & Hf & ->)]; [done|].
  destruct (nready_files _ _ _ _ fs Hn pod' c' q Hm Hf) as [_ [content ->]]. done.
Qed.

Lemma own_change_keeps fs fs' : both_prepared fs -> own_change sh pods leaves k correct fs fs' ->
  both_prepared fs' /\ keeps pod toset d fs fs'.
Proof.
  intros [Hr Hn] Ho. pose proof (own_change_shape fs fs' Hn Ho) as Hshape.
  destruct (cons_cpus Hcons) as [Hk HP].
  split; [split|split].
  - apply (ready_shape sh pod toset d Hdep fs); [done..|]. rewrite Hk, HP. by apply own_cpus in Ho.
  - by eapply own_change_ready.
  - intros c Hc (leaf & Hleaf & Hset). exists leaf.
    split; [by apply (same_shape_leaf (cpusetRoot sh) fs); [|apply (cgroup_root sh pod toset d Hdep)|]|].
    assert (cpusetRoot sh `prefix_of` cpuset_file leaf) as Hroot.
    { apply prefix_app_r. etrans; [apply (cgroup_root sh pod toset d Hdep c)|apply Hleaf]. }
    destruct (own_change_at _ _ _ _ _ fs fs' _ Ho Hroot) as [->|(pod' & c' & Hm & Hq & ->)]; [done|].
    by rewrite (same_target pod' c' c leaf Hm Hq Hc (proj1 Hleaf)).
  - intros Hset Hne. specialize (Hset Hne).
    assert (cpusetRoot sh `prefix_of` infra_file d) as Hroot.
    { unfold infra_file, cpuset_file. rewrite <- (assoc_L (++)). apply prefix_app_r.
      by apply (cgroup_below_root sh pod toset d). }
    destruct (own_change_at _ _ _ _ _ fs fs' _ Ho Hroot) as [->|(pod' & c' & Hm & Hq & _)]; [done|].
    by destruct (infra_not_reconciled fs pod' c').
Qed.

Lemma prepared_regime : regime sh pods leaves k correct both_prepared.
Proof. split; [by intros fs []|]. intros fs fs' Hb Ho. by apply (own_change_keeps fs). Qed.

Lemma prepared_protocol : protocol sh pod toset d both_prepared.
Proof.
  split; [by intros fs []|]. intros fs fs' [Hr Hn] Hs. split; [|by eapply pod_step_node_ready].
  apply (neighbour_ready sh pod toset d pod toset d fs); [done..|apply self_neighbours|done|done].
Qed.

(** ** Both at once *)

Lemma looks_suffix cs w w' : looks sh pods leaves k correct cs w w' -> others w' `suffix_of` others w.
Proof.
  intros Hl. apply (looks_inv sh pods leaves k correct (fun w' => others w' `suffix_of` others w) cs w w');
    [| |done|done].
  - intros [fs [|f l]] Hs; [done|]. simpl in *. etrans; [|exact Hs]. by exists [f].
  - by intros fs fs' l Hs _.
Qed.

Lemma looks_others (P : (tree -> tree) -> Prop) cs w w' : looks sh pods leaves k correct cs w w' ->
  Forall P (others w) -> Forall P (others w').
Proof. intros Hl%looks_suffix HP. destruct Hl as [l Heq]. rewrite Heq in HP. by apply Forall_app in HP as [_ ?]. Qed.

(** What is so, or one of the others will still make so. *)
Definition due (X : tree -> Prop) (w : world) : Prop :=
  X (files w) \/ exists f, f ∈ others w /\ forall fs, both_prepared fs -> X (f fs).

Lemma looks_due (X : tree -> Prop) cs w w' : (forall fs fs', keeps pod toset d fs fs' -> X fs -> X fs') ->
  looks sh pods leaves k correct cs w w' ->
  both_prepared (files w) -> Forall (fine pod toset d both_prepared) (others w) -> due X w ->
  both_prepared (files w') /\ Forall (fine pod toset d both_prepared) (others w') /\ due X w'.
Proof.
  intros HX Hl Hb Hf Hd.
  apply (looks_inv sh pods leaves k correct (fun w => both_prepared (files w) /\
    Forall (fine pod toset d both_prepared) (others w) /\ due X w) cs w w'); [| |done|done].
  - intros [fs [|f l]] (Hb0 & Hf0 & Hd0); [done|]. simpl in *. inversion_clear Hf0 as [|? ? Hf1 Hfl].
    destruct (Hf1 fs Hb0) as [Hb1 Hk]. split; [done|]. split; [done|].
    destruct Hd0 as [Hx|(g & [->|Hin]%elem_of_cons & Hg)]; [left; by apply (HX fs)|left; by apply Hg|].
    right. by exists g.
  - intros fs fs' l (Hb0 & Hf0 & Hd0) Ho. destruct (own_change_keeps fs fs' Hb0 Ho) as [Hb1 Hk].
    split; [done|]. split; [done|]. destruct Hd0 as [Hx|Hg]; [left; by apply (HX fs)|by right].
Qed.

Lemma due_done (X : tree -> Prop) w : (forall fs fs', keeps pod toset d fs fs' -> X fs -> X fs') ->
  both_prepared (files w) -> Forall (fine pod toset d both_prepared) (others w) -> due X w ->
  X (run_all (others w) (files w)).
Proof.
  intros HX Hb Hf [Hx|(f & Hin & Hach)].
  - destruct (run_all_keeps pod toset d both_prepared (others w) (files w) Hf Hb) as [_ Hk]. by apply (HX (files w)).
  - by apply (run_all_achieves pod toset d both_prepared (others w) f X).
Qed.

(** Some steps of the pod, one after the other. *)
Lemma own_steps_restored gs pod' c' : Forall (own sh pod toset d both_prepared) gs -> managed pods pod' c' ->
  forall fs, both_prepared fs -> restored sh leaves correct fs pod' c' ->
    both_prepared (run_all gs fs) /\ restored sh leaves correct (run_all gs fs) pod' c'.
Proof.
  intros Hgs Hm. induction gs as [|g gs IH]; intros fs Hb Hc; [done|]. inversion_clear Hgs as [|? ? Hg Hgs'].
  apply (IH Hgs' (g fs)).
  - apply (protocol_steps _ _ _ _ _ prepared_protocol fs); [done|by apply Hg].
  - apply (pod_step_restored fs); [done|by apply Hg|done|done].
Qed.

Section groups.
Context `{PodApi} (groups : list (list (tree -> tree))) (s : site).
Context (Hgroups : mjoin groups = handling_steps sh pod toset d s).

Lemma groups_own gs : gs ∈ groups -> Forall (own sh pod toset d both_prepared) gs.
Proof.
  intros Hin. pose proof (handling_steps_own sh pod toset d Hdep _ prepared_protocol s) as Hown.
  rewrite <- Hgroups in Hown. rewrite Forall_forall in Hown |- *. intros g Hg. apply Hown.
  apply list_elem_of_join. by exists gs.
Qed.

Lemma groups_fine : Forall (fine pod toset d both_prepared) (run_all <$> groups).
Proof.
  apply Forall_fmap, Forall_forall. intros gs Hin fs Hb.
  apply (run_all_keeps pod toset d both_prepared); [|done].
  eapply Forall_impl; [by apply groups_own|apply (own_fine sh pod toset d Hdep _ prepared_protocol)].
Qed.

Lemma groups_due (X : tree -> Prop) g fs : (forall fs fs', keeps pod toset d fs fs' -> X fs -> X fs') ->
  g ∈ handling_steps sh pod toset d s -> (forall fs, both_prepared fs -> X (g fs)) ->
  due X (mkWorld fs (run_all <$> groups)).
Proof.
  intros HX Hin Hg. right. rewrite <- Hgroups in Hin. apply list_elem_of_join in Hin as (gs & Hin & Hgs).
  exists (run_all gs). split; [by apply list_elem_of_fmap_2|]. intros fs' Hb.
  apply (run_all_achieves pod toset d both_prepared gs g X); [|done..].
  eapply Forall_impl; [by apply groups_own|apply (own_fine sh pod toset d Hdep _ prepared_protocol)].
Qed.

Lemma groups_calm : Forall (calm sh pods leaves correct both_prepared) (run_all <$> groups).
Proof.
  apply Forall_fmap, Forall_forall. intros gs Hin fs pod' c' Hb Hm Hc.
  by apply (own_steps_restored gs pod' c' (groups_own gs Hin)).
Qed.

(** The set of each container, and the infra container's, will be written. *)
Lemma groups_set fs :
  (forall c, to_be_set pod toset c -> due (fun fs => has_set d fs c) (mkWorld fs (run_all <$> groups))) /\
  due (infra_set d) (mkWorld fs (run_all <$> groups)).
Proof.
  destruct (handling_steps_needed sh pod toset d Hdep _ prepared_protocol s) as [Hsets (s' & c & Hc & Hinfra)]. split.
  - intros c' Hc'. destruct (Hsets c' Hc') as [s2 Hs2]. eapply groups_due; [|exact Hs2|].
    + intros fs1 fs2 [Hk _]. by apply Hk.
    + by apply (set_fn_own sh pod toset d Hdep _ prepared_protocol).
  - eapply groups_due; [|exact Hinfra|].
    + by intros fs1 fs2 [_ ?].
    + by apply (infra_fn_own sh pod toset d Hdep _ prepared_protocol).
Qed.

(** The worker and a pass of the reconciliation. *)
Lemma pass_beside_worker s' stdOut fs : GetPodsFromKubelet = Ok pods -> getLeafCpusets stdOut = Some leaves ->
  both_prepared fs ->
  exists w', reconcileCpusets s' sh stdOut (mkWorld fs (run_all <$> groups)) = Some (w', Ok tt) /\
    both_prepared (files w') /\ Forall (fine pod toset d both_prepared) (others w') /\
    Forall (calm sh pods leaves correct both_prepared) (others w') /\
    all_set pod toset d (run_all (others w') (files w')) /\
    forall pod' c', managed pods pod' c' -> restored sh leaves correct (files w') pod' c'.
Proof.
  intros Hpods Hleaves Hb.
  assert (settled sh pods leaves correct both_prepared (mkWorld fs (run_all <$> groups))) as Hs.
  { split; [|apply groups_calm]. split; [done|]. eapply Forall_impl; [exact groups_fine|].
    intros f Hff fs' Hb'. by apply Hff. }
  destruct (tick_ok sh pods leaves k correct Hnode _ prepared_regime _ s' stdOut _ Hpods Hleaves (proj1 Hs))
    as (w' & Hrun & Hl & _).
  assert (forall X : tree -> Prop, (forall fs fs', keeps pod toset d fs fs' -> X fs -> X fs') ->
    due X (mkWorld fs (run_all <$> groups)) ->
    both_prepared (files w') /\ Forall (fine pod toset d both_prepared) (others w') /\
    X (run_all (others w') (files w'))) as Hdue.
  { intros X HX Hd. destruct (looks_due X _ _ _ HX Hl Hb groups_fine Hd) as (Hb' & Hf' & Hd').
    split; [done|]. split; [done|]. by apply due_done. }
  destruct (groups_set fs) as [Hsets Hinfra].
  destruct (Hdue (infra_set d)) as (Hb' & Hf' & Hinfra'); [by intros fs1 fs2 [_ ?]|done|].
  exists w'. split_and!; [done..| | |].
  - by apply (looks_others _ _ _ _ Hl), groups_calm.
  - split; [done|]. intros c Hc. apply (Hdue (fun fs => has_set d fs c)); [|by apply Hsets].
    intros fs1 fs2 [Hk _]. by apply Hk.
  - intros pod' c' Hm. apply (looks_restore sh pods leaves k correct Hnode _ prepared_regime _ _ _ Hl Hs pod' c' Hm).
    apply elem_of_all_containers. by destruct Hm as (? & ? & _).
Qed.

(** What the reconciliation left to the others. *)
Lemma rest_restored fs' l pod' c' : Forall (fine pod toset d both_prepared) l ->
  Forall (calm sh pods leaves correct both_prepared) l -> managed pods pod' c' ->
  both_prepared fs' -> restored sh leaves correct fs' pod' c' -> restored sh leaves correct (run_all l fs') pod' c'.
Proof.
  intros Hf Hcalm Hm. revert fs'. induction l as [|f l IH]; intros fs' Hb Hc; [done|].
  inversion_clear Hf as [|? ? Hf1 Hfl]. inversion_clear Hcalm as [|? ? Hc1 Hcl].
  apply (IH Hfl Hcl (f fs')); [by apply Hf1|by apply Hc1].
Qed.
End groups.
End together.

(** * Properties *)

Section properties.
Context `{CPUSetLaws} `{RangeOrder} `{PodApi}.

(** C5: A worker handles a pod while the reconciliation goes over the node, in any order of
    their steps: [groups] are the worker's steps that come between those of the
    reconciliation.  The reconciliation ends without an error; when the worker is done too, all containers
    of the pod and its infra container have their sets, and no cpuset of a container of the
    node reads as all CPUs, except where the correct set is written that way. *)
Theorem reconciliation_beside_worker s s' sh stdOut pods leaves k correct pod d groups fs :
  let toset := gatherAllContainers pod in
  GetPodsFromKubelet = Ok pods -> getLeafCpusets stdOut = Some leaves ->
  node sh pods leaves k correct -> deployed sh pod toset d -> consistent pods leaves k correct pod toset d ->
  ready sh pod toset d fs -> node_ready sh pods leaves k fs ->
  mjoin groups = handling_steps sh pod toset d s ->
  exists w', reconcileCpusets s' sh stdOut (mkWorld fs (run_all <$> groups)) = Some (w', Ok tt) /\
    let final := run_all (others w') (files w') in
    all_set pod toset d final /\
    forall pod' c', managed pods pod' c' -> restored sh leaves correct final pod' c'.
Proof.
  intros toset Hpods Hleaves Hnode Hdep Hcons Hr Hn Hgroups.
  destruct (pass_beside_worker sh pods leaves k correct Hnode pod toset d Hdep Hcons groups s Hgroups s' stdOut fs)
    as (w' & Hrun & Hb & Hf & Hcalm & Hall & Hrest); [done..|].
  exists w'. split; [exact Hrun|]. split; [exact Hall|]. intros pod' c' Hm.
  by apply (rest_restored sh pods leaves k correct pod toset d); [..|apply Hrest].
Qed.
End properties.

(** ** Witness *)

Module together_example.
Export deployment_example.

(** The node of [deployment_example] with the containers the reconciliation looks at. *)
Definition listed_deployment : deployment := {|
  pod_cgroup := pod_cgroup deployment_of_pod;
  cgroup_name := cgroup_name deployment_of_pod;
  infra_name := infra_name deployment_of_pod;
  cpus_of := cpus;
  node_containers := managed [pod];
  correct_set := correct_set deployment_of_pod;
  default_set := default_set deployment_of_pod
|}.
End together_example.

Section witnesses.
Import together_example reconcile_example.

Lemma listed_managed c : to_be_set pod (gatherAllContainers pod) c -> managed [pod] pod c.
Proof.
  intros Hc. split; [left|]. split; [apply Hc|].
  exact (ids_known handler pod _ deployment_of_pod pod_deployed c Hc).
Defined.

Lemma listed_deployed : deployed handler pod (gatherAllContainers pod) listed_deployment.
Proof.
  destruct pod_deployed as [Hsome Hsets Hne Hdef Hids Hroot Hnamed Hdiffer _ _].
  split; [exact Hsome|exact Hsets|exact Hne|exact Hdef|exact Hids|exact Hroot|exact Hnamed|exact Hdiffer| |].
  - exact listed_managed.
  - apply cpus_are_deployed.
Defined.

Lemma listed_ready : ready handler pod (gatherAllContainers pod) listed_deployment fs.
Proof.
  destruct fs_ready as [_ Hcgroup Hfiles Hinfra].
  split; [apply cpus_are_ready|exact Hcgroup|exact Hfiles|exact Hinfra].
Defined.

Lemma listed_consistent : consistent [pod] leaves cpus correct pod (gatherAllContainers pod) listed_deployment.
Proof.
  split; [split; reflexivity|]. intros p c q Hm Hq _.
  destruct (managed_cases p c Hm) as [-> [->| ->]]; vm_compute in Hq; injection Hq as <-.
  - exists app, ["cgroup"; "kubepods"; "pod1"; "c0ffee"; "init"].
    split; [apply app_to_be_set|]. split; [reflexivity|]. split; [by exists ["init"]|by intros x].
  - exists side, ["cgroup"; "kubepods"; "pod1"; "decaf"].
    split; [apply side_to_be_set|]. split; [reflexivity|]. split; [by exists []|by intros x].
Defined.

Lemma one_by_one {A} (l : list A) : mjoin ((fun x => [x]) <$> l) = l.
Proof. induction l as [|x l IH]; [done|]. cbn. by f_equal. Defined.

(** One step of the worker before each step of the reconciliation. *)
Definition worker_steps : list (tree -> tree) :=
  handling_steps (H2 := api) handler pod (gatherAllContainers pod) listed_deployment [].

Lemma reconciliation_beside_worker_witness :
  exists w', reconcileCpusets (H1 := api) [1%nat] handler stdOut
      (mkWorld fs (run_all <$> ((fun g => [g]) <$> worker_steps))) = Some (w', Ok tt) /\
    let final := run_all (others w') (files w') in
    all_set pod (gatherAllContainers pod) listed_deployment final /\
    forall p c, managed [pod] p c -> restored handler leaves correct final p c.
Proof.
  refine (reconciliation_beside_worker (H2 := api) [] [1%nat] handler stdOut [pod] leaves cpus correct pod
    listed_deployment ((fun g => [g]) <$> worker_steps) fs eq_refl example_leaves example_node listed_deployed
    listed_consistent listed_ready example_ready (one_by_one worker_steps)).
Defined.
End witnesses.
