(* ===== verification/Workers.v ===== *)
(** * The threads of the CPU setter: [pkg/sethandler/controller.go], lines 78-136 and 166-221,
      and [main] of [cmd/cpusetter]

    The informer queues updates, the worker threads take them off the queue, the
    reconciliation thread ticks, and a signal or a broken watch stops the process.  The
    threads are interleaved: [step] makes one step of one of them.

    [handlePods] and [reconcileCpusets] are what a thread does between two steps; they may end
    in any way ([Adjust] and [Reconcile] say how they do), or never.  The queue is
    [k8s.io/client-go/util/workqueue], a class here with the laws it documents.  The informer's
    threads belong to client-go too: it is assumed that a thread that takes the value of a
    [Stop] ends with it.  (A reflector that takes it in the loop that reads its watch would
    list and watch again.) *)

From S2P Require Import Prelude K8s PodEvents SetHandler Adjust Reconcile.

(** ** Objects of the queue

    A [workItem] is a struct of two pointers, and the queue compares objects as Go does: two
    items are the same if their pointers are.  A pointer to a pod is a number. *)

Record queued := mkQueued {
  oldRef : option Z;
  newRef : Z
}.

#[export] Instance queued_eq_dec : EqDecision queued.
Proof. solve_decision. Defined.

#[export] Instance queued_countable : Countable queued.
Proof.
  apply (inj_countable' (fun x => (oldRef x, newRef x)) (fun '(o, n) => mkQueued o n)). by intros [].
Defined.

(** The queue takes any [interface{}]: work items, and values of other types. *)
Definition object : Type := queued + unit.

(** ** The work queue *)

Class WorkQueue := {
  wq : Type;
  wq_New : wq;
  wq_Add : object -> wq -> wq;
  (** [None] if the call waits; else the object, or [None] when shutting down *)
  wq_Get : wq -> option (option object * wq);
  wq_Done : object -> wq -> wq;
  wq_ShutDown : wq -> wq
}.

(** What the package documents: an object added several times before it is processed is
    processed once; it is not processed by two consumers at the same time, but is kept if it
    is added while it is processed; a queue that is shut down takes no more objects and hands
    out what it holds. *)
Class WorkQueueLaws `{WorkQueue} := {
  pending : wq -> gset object;
  processing : wq -> gset object;
  shutting_down : wq -> bool;
  New_empty : pending wq_New = ∅ /\ processing wq_New = ∅ /\ shutting_down wq_New = false;
  Add_law x q :
    (pending (wq_Add x q) = if shutting_down q then pending q else pending q ∪ {[x]}) /\
    processing (wq_Add x q) = processing q /\ shutting_down (wq_Add x q) = shutting_down q;
  Get_object x q q' : wq_Get q = Some (Some x, q') ->
    x ∈ pending q /\ (x ∉ processing q) /\ pending q' = pending q ∖ {[x]} /\
    processing q' = processing q ∪ {[x]} /\ shutting_down q' = shutting_down q;
  Get_shutdown q q' : wq_Get q = Some (None, q') ->
    q' = q /\ shutting_down q = true /\ pending q ⊆ processing q;
  Get_waits q : wq_Get q = None -> shutting_down q = false /\ pending q ⊆ processing q;
  Done_law x q : pending (wq_Done x q) = pending q /\
    processing (wq_Done x q) = processing q ∖ {[x]} /\
    shutting_down (wq_Done x q) = shutting_down q;
  ShutDown_law q : pending (wq_ShutDown q) = pending q /\
    processing (wq_ShutDown q) = processing q /\ shutting_down (wq_ShutDown q) = true
}.

(** ** The threads *)

(** A worker: [wait.Until] runs [runWorker] again a second after it returned, until it
    receives from the stop channel. *)
Inductive phase :=
  | Sleeping
  | Asking
  | Handling (x : queued)
  | Ended.

#[export] Instance phase_eq_dec : EqDecision phase.
Proof. solve_decision. Defined.

(** The reconciliation thread: in its [select], in [reconcileCpusets], or left. *)
Inductive loop_phase :=
  | Selecting
  | Reconciling
  | LoopEnded.

(** A call of [Stop]: not made, waiting to send, sent, the queue shut down as well. *)
Inductive stop_phase :=
  | NotCalled
  | Sending
  | Sent
  | ShutDown.

(** What happened, for the theorems. *)
Inductive entry :=
  | Queued (x : queued)
  | Began (i : nat) (x : queued)
  | Finished (i : nat) (x : queued) (o : outcome).

Section workers.
Context `{WorkQueue}.

Record controller := mkController {
  workQueue : wq;
  workers : list phase;
  loop : loop_phase;
  (** threads of the informer that listen on the stop channel *)
  informer : nat;
  main_stop : stop_phase;
  watch_stop : stop_phase;
  (** newest first *)
  log : list entry
}.

(** *** [New] and [Run] *)

Inductive start_error :=
  | NoArguments
  | NoPoolConfig
  | NoClientConfig
  | NoClient
  | CacheNotSynced.

(** The queue of a new setter, which has no stop channel yet. *)
Definition New (BuildConfigFromFlags NewForConfig : bool) : res start_error wq :=
  if negb BuildConfigFromFlags then Err NoClientConfig
  else if negb NewForConfig then Err NoClient
  else Ok wq_New.

(** The reconciliation thread is started: it goes to its [select]. *)
Definition StartReconciliation (c : controller) : controller :=
  mkController (workQueue c) (workers c) Selecting (informer c) (main_stop c) (watch_stop c) (log c).

(** [informers] threads listen on the channel once the informers are started. *)
Definition Run (informers : nat) (WaitForCacheSync : bool) (threadiness : nat) (queue : wq)
    : res start_error controller :=
  if negb WaitForCacheSync then Err CacheNotSynced
  else Ok (StartReconciliation
         (mkController queue (replicate threadiness Sleeping) LoopEnded informers NotCalled NotCalled [])).

(** [main] of [cmd/cpusetter] up to its [select]; the calls outside [New] and [Run] succeed or
    not.  The error of [Run] is dropped: the informers run, and nothing else. *)
Definition NumberOfWorkers : nat := 100.

Definition main (poolConfigPath cpusetRoot : string)
    (DeterminePoolConfig BuildConfigFromFlags NewForConfig : bool)
    (informers : nat) (WaitForCacheSync : bool) : res start_error controller :=
  if bool_decide (poolConfigPath = "") || bool_decide (cpusetRoot = "") then Err NoArguments
  else if negb DeterminePoolConfig then Err NoPoolConfig
  else
    match New BuildConfigFromFlags NewForConfig with
    | Ok queue =>
        match Run informers WaitForCacheSync NumberOfWorkers queue with
        | Ok c => Ok c
        | _ => Ok (mkController queue [] LoopEnded informers NotCalled NotCalled [])
        end
    | Err e => Err e
    | Panic p => Panic p
    end.

(** *** Changes of the fields *)

Definition set_queue (c : controller) q : controller :=
  mkController q (workers c) (loop c) (informer c) (main_stop c) (watch_stop c) (log c).
Definition set_worker (c : controller) (i : nat) (p : phase) : controller :=
  mkController (workQueue c) (<[i:=p]> (workers c)) (loop c) (informer c) (main_stop c) (watch_stop c) (log c).
Definition set_loop (c : controller) l : controller :=
  mkController (workQueue c) (workers c) l (informer c) (main_stop c) (watch_stop c) (log c).
Definition set_informer (c : controller) n : controller :=
  mkController (workQueue c) (workers c) (loop c) n (main_stop c) (watch_stop c) (log c).
Definition record (c : controller) (e : entry) : controller :=
  mkController (workQueue c) (workers c) (loop c) (informer c) (main_stop c) (watch_stop c) (e :: log c).

(** *** Callers of [Stop] *)

Inductive stopper :=
  | Main
  | Watcher.

Definition stop_of (c : controller) (who : stopper) : stop_phase :=
  match who with Main => main_stop c | Watcher => watch_stop c end.

Definition set_stop (c : controller) (who : stopper) (p : stop_phase) : controller :=
  match who with
  | Main => mkController (workQueue c) (workers c) (loop c) (informer c) p (watch_stop c) (log c)
  | Watcher => mkController (workQueue c) (workers c) (loop c) (informer c) (main_stop c) p (log c)
  end.

(** [workQueue.ShutDown] was called. *)
Definition is_shut (c : controller) : bool :=
  match main_stop c, watch_stop c with
  | ShutDown, _ | _, ShutDown => true
  | _, _ => false
  end.

Inductive watch_error :=
  | ResourceExpired
  | Gone
  | EOF
  | OtherError.

Definition closed_gracefully (err : watch_error) : bool :=
  match err with OtherError => false | _ => true end.

(** [setHandler.WatchErrorHandler], up to the send in [Stop]; [Receive], [ShutDownQueue] and
    [Exit] below are the rest. *)
Definition WatchErrorHandler (err : watch_error) (c : controller) : controller :=
  if closed_gracefully err then c else set_stop c Watcher Sending.

(** *** The informer

    The handlers [New] registers: nothing is done for a new pod, there is none for a deleted
    one.  [pods] reads a pointer. *)

Inductive informer_event :=
  | Added (pod : Z)
  | Updated (old new : Z)
  | Deleted (pod : Z).

Context (elapsed : Z -> string) (pods : Z -> v1_Pod).

(** The item a pointer pair stands for. *)
Definition load (x : queued) : workItem := mkItem (pods <$> oldRef x) (pods (newRef x)).

(** [setHandler.workQueue.Add]. *)
Definition add (c : controller) (x : queued) : controller :=
  let c' := set_queue c (wq_Add (inl x) (workQueue c)) in
  if is_shut c then c' else record c' (Queued x).

Definition on_event (e : informer_event) (c : controller) : controller :=
  match e with
  | Added _ | Deleted _ => c
  | Updated old new =>
      foldl (fun c _ => add c (mkQueued (Some old) new)) c (PodChanged elapsed (pods old) (pods new))
  end.

(** *** The workers *)

(** [processItemInQueue] up to the call of [handlePods]; the deferred [Done] comes with
    [finish]. *)
Definition processItemInQueue (i : nat) (obj : object) (c : controller) : controller :=
  match obj with
  | inl x => record (set_worker c i (Handling x)) (Began i x)
  | inr _ => set_worker (set_queue c (wq_Done obj (workQueue c))) i Asking
  end.

(** [processNextWorkItem]; when it answers false, [runWorker] returns. *)
Definition processNextWorkItem (i : nat) (c : controller) : option controller :=
  match wq_Get (workQueue c) with
  | None => None
  | Some (None, q) => Some (set_worker (set_queue c q) i Sleeping)
  | Some (Some obj, q) => Some (processItemInQueue i obj (set_queue c q))
  end.

(** The return of [handlePods]: the deferred [Done], and [runWorker] goes on. *)
Definition finish (i : nat) (x : queued) (o : outcome) (c : controller) : controller :=
  record (set_worker (set_queue c (wq_Done (inl x) (workQueue c))) i Asking) (Finished i x o).

(** *** Steps *)

Inductive receiver :=
  | WorkerThread (i : nat)
  | LoopThread
  | InformerThread.

Inductive label :=
  | Informer (e : informer_event)
  (** the period of [wait.Until] is over *)
  | Wake (i : nat)
  | Get (i : nat)
  | Handled (i : nat) (o : outcome)
  | TickFires
  | TickDone (r : res reconcile_error unit)
  | WatchError (err : watch_error)
  | Signal
  (** the value [who] sends is received *)
  | Receive (who : stopper) (r : receiver)
  | ShutDownQueue (who : stopper)
  (** [main] returns, or [os.Exit(0)] *)
  | Exit (who : stopper).

Inductive process :=
  | Live (c : controller)
  | Exited
  | Died (p : panic).

(** A receiver takes the value if it is at its [select]. *)
Definition receive (r : receiver) (c : controller) : option controller :=
  match r with
  | WorkerThread i =>
      match workers c !! i with
      | Some Sleeping => Some (set_worker c i Ended)
      | _ => None
      end
  | LoopThread => match loop c with Selecting => Some (set_loop c LoopEnded) | _ => None end
  | InformerThread => match informer c with O => None | S n => Some (set_informer c n) end
  end.

(** One step; [None] if the thread cannot make it. *)
Definition step (l : label) (c : controller) : option process :=
  match l with
  | Informer e => Some (Live (on_event e c))
  | Wake i => match workers c !! i with Some Sleeping => Some (Live (set_worker c i Asking)) | _ => None end
  | Get i => match workers c !! i with Some Asking => Live <$> processNextWorkItem i c | _ => None end
  | Handled i o =>
      match workers c !! i with
      | Some (Handling x) =>
          match o with
          | Crashed p => Some (Died p)
          | _ => Some (Live (finish i x o c))
          end
      | _ => None
      end
  | TickFires => match loop c with Selecting => Some (Live (set_loop c Reconciling)) | _ => None end
  | TickDone r =>
      match loop c with
      | Reconciling => match r with Panic p => Some (Died p) | _ => Some (Live (set_loop c Selecting)) end
      | _ => None
      end
  | WatchError err =>
      match watch_stop c with NotCalled => Some (Live (WatchErrorHandler err c)) | _ => None end
  | Signal => match main_stop c with NotCalled => Some (Live (set_stop c Main Sending)) | _ => None end
  | Receive who r =>
      match stop_of c who with
      | Sending => (fun c => Live (set_stop c who Sent)) <$> receive r c
      | _ => None
      end
  | ShutDownQueue who =>
      match stop_of c who with
      | Sent => Some (Live (set_stop (set_queue c (wq_ShutDown (workQueue c))) who ShutDown))
      | _ => None
      end
  | Exit who => match stop_of c who with ShutDown => Some Exited | _ => None end
  end.

(** The steps [ls], in order. *)
Fixpoint run (ls : list label) (p : process) : option process :=
  match ls with
  | [] => Some p
  | l :: ls =>
      match p with
      | Live c => match step l c with Some p => run ls p | None => None end
      | _ => None
      end
  end.

(** The states of the process after [Run] with [n] informer threads and [m] workers. *)
Inductive reachable (n m : nat) : controller -> Prop :=
  | reach_run c : Run n true m wq_New = Ok c -> reachable n m c
  | reach_step l c c' : reachable n m c -> step l c = Some (Live c') -> reachable n m c'.
End workers.

(** * Lemmas *)

(** ** Counting over a list with one element changed *)

Definition count (f : phase -> bool) (ws : list phase) : nat := length (filter f ws).

Lemma count_app f ws ws' : count f (ws ++ ws') = (count f ws + count f ws')%nat.
Proof. unfold count. by rewrite filter_app, length_app. Qed.

Lemma count_cons f p ws : count f (p :: ws) = (Nat.b2n (f p) + count f ws)%nat.
Proof. unfold count. rewrite filter_cons. destruct (f p) eqn:E; case_decide; simpl; congruence || done. Qed.

Lemma count_insert f ws i p p' : ws !! i = Some p ->
  (count f (<[i:=p']> ws) + Nat.b2n (f p) = count f ws + Nat.b2n (f p'))%nat.
Proof.
  revert i. induction ws as [|q ws IH]; intros [|i] Hi; simplify_eq/=; rewrite !count_cons; [lia|].
  specialize (IH i Hi). lia.
Qed.

(** ** The items that were queued and that no worker has begun since *)

Fixpoint outstanding (log : list entry) : gset object :=
  match log with
  | [] => ∅
  | Queued x :: log => outstanding log ∪ {[inl x]}
  | Began _ x :: log => outstanding log ∖ {[inl x]}
  | Finished _ _ _ :: log => outstanding log
  end.

Lemma outstanding_unless_begun l x : forall l', inl x ∈ outstanding l' ->
  (exists i, Began i x ∈ l) \/ inl x ∈ outstanding (l ++ l').
Proof.
  induction l as [|e l IH]; intros l' Hx; [by right|].
  destruct (IH l' Hx) as [[i Hi]|Ho]; [left; exists i; by right|].
  destruct e as [y|i y|]; simpl; [right; set_solver| |by right].
  destruct (decide (x = y)) as [->|]; [left; exists i; by left|right; set_solver].
Qed.

(** ** The items in the hands of the workers *)

Definition in_hand (ws : list phase) (x : object) : Prop :=
  exists i y, x = inl y /\ ws !! i = Some (Handling y).

Definition alone (ws : list phase) : Prop :=
  forall i j x, ws !! i = Some (Handling x) -> ws !! j = Some (Handling x) -> i = j.

Definition idle (p : phase) : bool := match p with Handling _ => false | _ => true end.

Section hands.
Context (ws : list phase) (i : nat) (p : phase) (Hi : ws !! i = Some p).

Lemma lookup_worker p' j q : <[i:=p']> ws !! j = Some q <-> (i = j /\ q = p') \/ (i <> j /\ ws !! j = Some q).
Proof.
  pose proof (lookup_lt_Some _ _ _ Hi). rewrite list_lookup_insert_Some. naive_solver.
Qed.

Lemma idle_in_hand p' x : idle p = true -> idle p' = true -> in_hand (<[i:=p']> ws) x <-> in_hand ws x.
Proof.
  intros Hp Hp'. unfold in_hand. setoid_rewrite lookup_worker. split.
  - intros (j & y & -> & [[_ <-]|[_ Hj]]); [done|eauto].
  - intros (j & y & -> & Hj). exists j, y. split; [done|]. right. split; [|done].
    intros <-. rewrite Hi in Hj. by injection Hj as ->.
Qed.

Lemma idle_alone p' : idle p' = true -> alone ws -> alone (<[i:=p']> ws).
Proof.
  intros Hp' Ha j k x. rewrite !lookup_worker. intros [[_ <-]|[_ Hj]]; [done|].
  intros [[_ <-]|[_ Hk]]; [done|]. by eapply Ha.
Qed.

Lemma take_in_hand y x : idle p = true ->
  in_hand (<[i:=Handling y]> ws) x <-> in_hand ws x \/ x = inl y.
Proof.
  intros Hp. unfold in_hand. setoid_rewrite lookup_worker. split.
  - intros (j & z & -> & [[_ [= ->]]|[_ Hj]]); [by right|left; eauto].
  - intros [(j & z & -> & Hj)| ->]; [|by exists i, y; auto]. exists j, z. split; [done|]. right.
    split; [|done]. intros <-. rewrite Hi in Hj. by injection Hj as ->.
Qed.

Lemma take_alone y : ~ in_hand ws (inl y) -> alone ws -> alone (<[i:=Handling y]> ws).
Proof.
  intros Hno Ha j k x. rewrite !lookup_worker.
  intros [[<- [= ->]]|[_ Hj]] [[<- Heq]|[_ Hk]]; [done| | |by eapply Ha].
  - destruct Hno. by exists k, y.
  - injection Heq as ->. destruct Hno. by exists j, y.
Qed.

End hands.

Lemma drop_in_hand ws i y p' x : ws !! i = Some (Handling y) -> idle p' = true -> alone ws ->
  in_hand (<[i:=p']> ws) x <-> in_hand ws x /\ x <> inl y.
Proof.
  intros Hi Hp' Ha. unfold in_hand. setoid_rewrite (lookup_worker ws i _ Hi). split.
  - intros (j & z & -> & [[_ <-]|[Hne Hj]]); [done|]. split; [eauto|]. intros [= ->]. by destruct Hne; eapply Ha.
  - intros [(j & z & -> & Hj) Hne]. exists j, z. split; [done|]. right. split; [|done].
    intros <-. rewrite Hi in Hj. by injection Hj as ->.
Qed.

Lemma outstanding_items l u : inr u ∉ outstanding l.
Proof. induction l as [|[]]; simpl; set_solver. Qed.

Section invariant.
Context `{WorkQueueLaws}.

Definition stops_sent (p : stop_phase) : nat :=
  match p with Sent | ShutDown => 1 | _ => 0 end.

Lemma stops_sent_le p : (stops_sent p <= 1)%nat.
Proof. destruct p; simpl; lia. Qed.

Definition ended_threads (n : nat) (c : controller) : nat :=
  count (fun p => bool_decide (p = Ended)) (workers c) +
  (match loop c with LoopEnded => 1 | _ => 0 end) + (n - informer c).

(** What holds between two steps. *)
Record consistent (n m : nat) (c : controller) : Prop := {
  c_pending : pending (workQueue c) = outstanding (log c);
  c_processing x : x ∈ processing (workQueue c) <-> in_hand (workers c) x;
  c_alone : alone (workers c);
  c_shut : shutting_down (workQueue c) = is_shut c;
  c_workers : length (workers c) = m;
  c_informer : (informer c <= n)%nat;
  c_stops : ended_threads n c = (stops_sent (main_stop c) + stops_sent (watch_stop c))%nat
}.

Lemma run_consistent n m c : Run n true m wq_New = Ok c -> consistent n m c.
Proof.
  intros [= <-]. destruct New_empty as (Hp & Hpr & Hs).
  assert (forall i x, replicate m Sleeping !! i <> Some (Handling x)) as Hno.
  { intros i x [? _]%lookup_replicate. done. }
  split; simpl; [done| |by intros ??? ?%Hno|done|apply length_replicate|done|].
  - intros x. rewrite Hpr. split; [set_solver|]. by intros (i & y & _ & ?%Hno).
  - unfold ended_threads. simpl. rewrite Nat.sub_diag, !Nat.add_0_r. clear.
    induction m as [|m IH]; [done|]. simpl. by rewrite count_cons.
Qed.

Section fields.
Context (n m : nat) (c : controller) (Hc : consistent n m c).

Lemma add_consistent x : consistent n m (add c x).
Proof.
  destruct Hc as [Hp Hpr Ha Hs Hw Hn Hst]. destruct (Add_law (inl x) (workQueue c)) as (Ep & Epr & Es).
  rewrite Hs in Ep. unfold add. destruct (is_shut c) eqn:E; split; simpl; try done.
  all: rewrite ?Epr, ?Es, ?Ep, ?Hp; try done; exact (eq_trans Hs (eq_sym E)).
Qed.

Lemma count_ended i p p' : workers c !! i = Some p -> p <> Ended ->
  ended_threads n (set_worker c i p') = (ended_threads n c + Nat.b2n (bool_decide (p' = Ended)))%nat.
Proof.
  intros Hi Hp. unfold ended_threads. simpl.
  pose proof (count_insert (fun p => bool_decide (p = Ended)) _ _ _ p' Hi) as Hcount. simpl in Hcount.
  rewrite (bool_decide_eq_false_2 (p = Ended)) in Hcount by done. simpl in Hcount. lia.
Qed.

Lemma count_same i p p' : workers c !! i = Some p -> p <> Ended -> p' <> Ended ->
  ended_threads n (set_worker c i p') = ended_threads n c.
Proof. intros Hi Hp Hp'. rewrite (count_ended i p) by done. rewrite bool_decide_eq_false_2 by done. simpl. lia. Qed.

Lemma set_idle_consistent i p p' : workers c !! i = Some p -> idle p = true -> idle p' = true ->
  p <> Ended -> p' <> Ended -> consistent n m (set_worker c i p').
Proof.
  intros Hi Hp Hp' Hne Hne'. destruct Hc as [Hpe Hpr Ha Hs Hw Hn Hst]. split; simpl; try done.
  - intros x. rewrite Hpr. by rewrite (idle_in_hand _ i p).
  - by apply (idle_alone _ i p).
  - by rewrite length_insert.
  - rewrite <- Hst. by apply (count_same i p).
Qed.

(** [processNextWorkItem] *)
Lemma next_consistent i c' : workers c !! i = Some Asking -> processNextWorkItem i c = Some c' ->
  consistent n m c'.
Proof.
  intros Hi. pose proof Hc as [Hpe Hpr Ha Hs Hw Hn Hst]. unfold processNextWorkItem.
  destruct (wq_Get (workQueue c)) as [[[x|] q]|] eqn:Hget; [| |done]; intros [= <-].
  - apply Get_object in Hget as (Hx & Hxp & Eq1 & Eq2 & Eq3).
    rewrite Hpe in Hx. destruct x as [x|u]; [|by apply outstanding_items in Hx].
    rewrite Hpr in Hxp. split; simpl; try done.
    + by rewrite Eq1, Hpe.
    + intros y. rewrite Eq2, elem_of_union, elem_of_singleton, Hpr. by rewrite (take_in_hand _ i Asking).
    + by apply (take_alone _ i Asking).
    + by rewrite Eq3.
    + by rewrite length_insert.
    + rewrite <- Hst. by apply (count_same i Asking (Handling x)).
  - apply Get_shutdown in Hget as (-> & _ & _).
    replace (set_queue c (workQueue c)) with c by by destruct c.
    by apply (set_idle_consistent i Asking).
Qed.

Lemma finish_consistent i x o : workers c !! i = Some (Handling x) -> consistent n m (finish i x o c).
Proof.
  intros Hi. destruct Hc as [Hpe Hpr Ha Hs Hw Hn Hst].
  destruct (Done_law (inl x) (workQueue c)) as (Eq1 & Eq2 & Eq3). split; simpl; try done.
  - by rewrite Eq1.
  - intros y. rewrite Eq2, elem_of_difference, elem_of_singleton, Hpr. by rewrite (drop_in_hand _ i x).
  - by apply (idle_alone _ i (Handling x)).
  - by rewrite Eq3.
  - by rewrite length_insert.
  - rewrite <- Hst. by apply (count_same i (Handling x) Asking).
Qed.

(** A value is received: one more thread has ended, one more send is made. *)
Lemma sent_consistent who c1 : stop_of c who = Sending ->
  workQueue c1 = workQueue c -> log c1 = log c ->
  main_stop c1 = main_stop c -> watch_stop c1 = watch_stop c ->
  (forall x, in_hand (workers c1) x <-> in_hand (workers c) x) -> alone (workers c1) ->
  length (workers c1) = m -> (informer c1 <= n)%nat -> ended_threads n c1 = S (ended_threads n c) ->
  consistent n m (set_stop c1 who Sent).
Proof.
  intros Hwho Hq Hl Hm Hwa Hh Ha Hw Hn He. destruct Hc as [Hpe Hpr _ Hs _ _ Hst].
  destruct who; simpl in Hwho; split; simpl; rewrite ?Hq, ?Hl, ?Hm, ?Hwa; try done.
  1,4: intros x; by rewrite Hpr, Hh.
  1,3: rewrite Hs; unfold is_shut; simpl; rewrite ?Hm, ?Hwa, Hwho; by repeat case_match.
  all: change (ended_threads n _) with (ended_threads n c1); rewrite He, Hst, Hwho; simpl; lia.
Qed.

Lemma receive_consistent who r c' : receive r c = Some c' -> stop_of c who = Sending ->
  consistent n m (set_stop c' who Sent).
Proof.
  intros Hr Hwho. pose proof Hc as [Hpe Hpr Ha Hs Hw Hn Hst].
  destruct r as [i| |]; unfold receive in Hr.
  - destruct (workers c !! i) as [[]|] eqn:Hi; try done; injection Hr as <-. apply sent_consistent; simpl; try done.
    + intros x. by apply (idle_in_hand _ i Sleeping).
    + by apply (idle_alone _ i Sleeping).
    + by rewrite length_insert.
    + rewrite (count_ended i Sleeping) by done. simpl. lia.
  - destruct (loop c) eqn:Hl; try done; injection Hr as <-. apply sent_consistent; simpl; try done.
    unfold ended_threads. simpl. rewrite Hl. lia.
  - destruct (informer c) as [|k] eqn:Hl; try done; injection Hr as <-. apply sent_consistent; simpl; try (done || lia).
    unfold ended_threads. simpl. rewrite Hl. lia.
Qed.

Lemma shut_consistent who : stop_of c who = Sent ->
  consistent n m (set_stop (set_queue c (wq_ShutDown (workQueue c))) who ShutDown).
Proof.
  intros Hwho. destruct Hc as [Hpe Hpr Ha Hs Hw Hn Hst].
  destruct (ShutDown_law (workQueue c)) as (Eq1 & Eq2 & Eq3).
  destruct who; simpl in Hwho; rewrite Hwho in Hst; split; simpl; rewrite ?Eq1, ?Eq2, ?Eq3; try done.
  unfold is_shut. simpl. by case_match.
Qed.

Lemma loop_consistent l : loop c <> LoopEnded -> l <> LoopEnded -> consistent n m (set_loop c l).
Proof.
  intros Hl Hl'. destruct Hc as [Hpe Hpr Ha Hs Hw Hn Hst]. split; simpl; try done.
  rewrite <- Hst. unfold ended_threads. simpl. by destruct (loop c), l.
Qed.

(** A call of [Stop] begins. *)
Lemma sending_consistent who : stop_of c who = NotCalled -> consistent n m (set_stop c who Sending).
Proof.
  intros Hwho. destruct Hc as [Hpe Hpr Ha Hs Hw Hn Hst]. destruct who; simpl in Hwho;
    rewrite Hwho in Hst; split; simpl; try done; rewrite Hs; unfold is_shut; simpl; by rewrite Hwho.
Qed.
End fields.

Lemma on_event_consistent elapsed pods n m e c : consistent n m c -> consistent n m (on_event elapsed pods e c).
Proof.
  destruct e as [|old new|]; [done| |done]. simpl. generalize (PodChanged elapsed (pods old) (pods new)).
  intros l. revert c. induction l as [|x l IH]; intros c Hc; [done|]. simpl. by apply IH, add_consistent.
Qed.

Lemma step_consistent elapsed pods n m l c c' : consistent n m c ->
  step elapsed pods l c = Some (Live c') -> consistent n m c'.
Proof.
  intros Hc Hs. destruct l as [e|i|i|i o| |r|err| |who r|who|who]; simpl in Hs.
  - injection Hs as <-. by apply on_event_consistent.
  - case_match eqn:Hi; [|done]. case_match; simplify_eq. by apply (set_idle_consistent _ _ _ Hc i Sleeping).
  - case_match eqn:Hi; [|done]. case_match; simplify_eq.
    apply fmap_Some in Hs as (c1 & Hn & [= ->]). by eapply next_consistent.
  - case_match eqn:Hi; [|done]. case_match; simplify_eq. case_match; simplify_eq; by apply finish_consistent.
  - case_match eqn:Hl; simplify_eq. apply loop_consistent; [done|congruence|done].
  - case_match eqn:Hl; simplify_eq. case_match; simplify_eq; (apply loop_consistent; [done|congruence|done]).
  - case_match eqn:Hl; simplify_eq. unfold WatchErrorHandler. destruct (closed_gracefully err); [done|].
    by apply (sending_consistent _ _ _ Hc Watcher).
  - case_match eqn:Hl; simplify_eq. by apply (sending_consistent _ _ _ Hc Main).
  - case_match eqn:Hl; simplify_eq. apply fmap_Some in Hs as (c1 & Hr & [= ->]).
    by apply (receive_consistent _ _ _ Hc who r).
  - case_match eqn:Hl; simplify_eq. by apply shut_consistent.
  - by case_match.
Qed.

Lemma reachable_consistent elapsed pods n m c : reachable elapsed pods n m c -> consistent n m c.
Proof. induction 1 as [c Hrun|]; [by apply run_consistent|by eapply step_consistent]. Qed.

(** What [main] starts when its calls succeed is a first state. *)
Lemma main_reachable elapsed pods poolConfigPath cpusetRoot n c :
  main poolConfigPath cpusetRoot true true true n true = Ok c -> reachable elapsed pods n NumberOfWorkers c.
Proof. unfold main. case_match; [done|]. intros [= <-]. by apply reach_run. Qed.

(** ** What a step adds to the log *)

Record logged (c c' : controller) (new : list entry) : Prop := {
  logged_log : log c' = new ++ log c;
  logged_hands i x : workers c !! i = Some (Handling x) ->
    workers c' !! i = Some (Handling x) \/ exists o, Finished i x o ∈ new;
  logged_began i x : Began i x ∈ new -> workers c' !! i = Some (Handling x)
}.

Lemma logged_nothing c c' : log c' = log c ->
  (forall i x, workers c !! i = Some (Handling x) -> workers c' !! i = Some (Handling x)) ->
  logged c c' [].
Proof. intros Hl Hw. split; [done|by left; apply Hw|by intros i x ?%not_elem_of_nil]. Qed.

Lemma logged_worker c c' i p p' : workers c !! i = Some p -> idle p = true ->
  log c' = log c -> workers c' = <[i:=p']> (workers c) -> logged c c' [].
Proof.
  intros Hi Hp Hl Hw. apply logged_nothing; [done|]. intros j x Hj. rewrite Hw.
  rewrite list_lookup_insert_ne; [done|]. intros <-. rewrite Hi in Hj. by injection Hj as ->.
Qed.

Lemma on_event_logged elapsed pods e c : exists new, logged c (on_event elapsed pods e c) new.
Proof.
  destruct e as [|old new|]; [by exists []; apply logged_nothing| |by exists []; apply logged_nothing].
  simpl. set (x := mkQueued (Some old) new). generalize (PodChanged elapsed (pods old) (pods new)). intros l.
  assert (exists k, log (foldl (fun c _ => add c x) c l) = replicate k (Queued x) ++ log c /\
    workers (foldl (fun c _ => add c x) c l) = workers c) as (k & Hl & Hw).
  { revert c. induction l as [|y l IH]; intros c; [by exists 0%nat|]. simpl.
    destruct (IH (add c x)) as (k & -> & ->). unfold add. destruct (is_shut c); [by exists k|].
    exists (S k). split; [|done].
    change (replicate (S k) (Queued x)) with (Queued x :: replicate k (Queued x)).
    by rewrite replicate_cons_app, <- app_assoc. }
  exists (replicate k (Queued x)). split; [done|by rewrite Hw; left|]. by intros i y [? _]%elem_of_replicate.
Qed.

Lemma next_logged i c c' : workers c !! i = Some Asking -> processNextWorkItem i c = Some c' ->
  exists new, logged c c' new.
Proof.
  intros Hi Hn. unfold processNextWorkItem in Hn.
  destruct (wq_Get (workQueue c)) as [[[[x|u]|] q]|]; simplify_eq/=.
  - exists [Began i x]. split; [done| |].
    + intros j y Hj. left. simpl. rewrite list_lookup_insert_ne; [done|]. intros <-. congruence.
    + intros j y [= -> ->]%list_elem_of_singleton. simpl. apply list_lookup_insert_eq. by eapply lookup_lt_Some.
  - exists []. by eapply (logged_worker c _ i Asking).
  - exists []. by eapply (logged_worker c _ i Asking).
Qed.

Lemma finish_logged i x o c : workers c !! i = Some (Handling x) -> logged c (finish i x o c) [Finished i x o].
Proof.
  intros Hi. split; [done| |by intros j y ?%list_elem_of_singleton].
  intros j y Hj. simpl. destruct (decide (i = j)) as [<-|Hne].
  - right. exists o. simplify_eq. by left.
  - left. by rewrite list_lookup_insert_ne.
Qed.

Lemma receive_logged who r p c c' : receive r c = Some c' -> logged c (set_stop c' who p) [].
Proof.
  intros Hr. assert (logged c c' []) as [Hl Hh _].
  { destruct r; simpl in Hr; repeat case_match; simplify_eq; [by eapply logged_worker|by apply logged_nothing..]. }
  destruct who; apply logged_nothing; simpl; [done| |done|];
    intros j x [?|[o ?%not_elem_of_nil]]%Hh; done.
Qed.

Lemma step_logged elapsed pods l c c' : step elapsed pods l c = Some (Live c') ->
  exists new, logged c c' new.
Proof.
  intros Hs. destruct l as [e|i|i|i o| |r|err| |who r|who|who]; simpl in Hs.
  - injection Hs as <-. apply on_event_logged.
  - repeat case_match; simplify_eq. exists []. by eapply (logged_worker c _ i Sleeping).
  - repeat case_match; simplify_eq. apply fmap_Some in Hs as (c1 & Hn & [= ->]). by eapply next_logged.
  - repeat case_match; simplify_eq; eexists; by apply finish_logged.
  - repeat case_match; simplify_eq. exists []. by apply logged_nothing.
  - repeat case_match; simplify_eq; exists []; by apply logged_nothing.
  - repeat case_match; simplify_eq. exists []. unfold WatchErrorHandler. by case_match; apply logged_nothing.
  - repeat case_match; simplify_eq. exists []. by apply logged_nothing.
  - case_match; simplify_eq. apply fmap_Some in Hs as (c1 & Hr & [= ->]). exists []. by apply (receive_logged who r).
  - repeat case_match; simplify_eq. exists []. by destruct who; apply logged_nothing.
  - by case_match.
Qed.

(** A handling that began goes on or has ended. *)
Lemma began_fate elapsed pods n m c : reachable elapsed pods n m c -> forall l1 l2 i x,
  log c = l1 ++ Began i x :: l2 -> workers c !! i = Some (Handling x) \/ exists o, Finished i x o ∈ l1.
Proof.
  induction 1 as [c [= <-]|l c c' Hr IH Hs]; intros l1 l2 i x Hl; [by destruct l1|].
  apply step_logged in Hs as [new [Hlog Hhands Hbegan]]. rewrite Hlog in Hl. symmetry in Hl.
  apply app_eq_inv in Hl as [(k & -> & Hl)|(k & -> & Hl)].
  - destruct (IH k l2 i x Hl) as [[?|[o Ho]]%Hhands|[o Ho]]; [by left|right; exists o..]; set_solver.
  - destruct k as [|e k]; simplify_eq/=.
    + destruct (IH [] l2 i x (eq_sym Hl)) as [[?|[o Ho]]%Hhands|[o ?%not_elem_of_nil]]; [by left| |done].
      right. exists o. set_solver.
    + left. apply Hbegan. set_solver.
Qed.

(** ** The work that is left *)

Definition worker_step (l : label) : Prop :=
  match l with Wake _ | Get _ | Handled _ _ => True | _ => False end.

(** A worker has a step for each pending item and for its return, one for each item in
    hand, and one for each sleep. *)
Definition work_left (c : controller) : nat :=
  2 * size (pending (workQueue c)) + count (fun p => negb (idle p)) (workers c) +
  count (fun p => bool_decide (p = Sleeping)) (workers c).

Lemma work_left_worker c c' i p p' : workers c !! i = Some p -> workers c' = <[i:=p']> (workers c) ->
  (work_left c' + 2 * size (pending (workQueue c)) + Nat.b2n (negb (idle p)) +
    Nat.b2n (bool_decide (p = Sleeping)) =
  work_left c + 2 * size (pending (workQueue c')) + Nat.b2n (negb (idle p')) +
    Nat.b2n (bool_decide (p' = Sleeping)))%nat.
Proof.
  intros Hi Hw. unfold work_left. rewrite Hw.
  pose proof (count_insert (fun p => negb (idle p)) _ _ _ p' Hi).
  pose proof (count_insert (fun p => bool_decide (p = Sleeping)) _ _ _ p' Hi). simpl in *. lia.
Qed.

Lemma worker_step_decreases elapsed pods n m l c c' : consistent n m c -> is_shut c = false ->
  worker_step l -> step elapsed pods l c = Some (Live c') ->
  is_shut c' = false /\ work_left c = S (work_left c').
Proof.
  intros Hc Hs Hl Hstep. destruct l as [|i|i|i o| | | | | | |]; simpl in Hl, Hstep; try done.
  - destruct (workers c !! i) as [[]|] eqn:Hi; simplify_eq. split; [done|].
    pose proof (work_left_worker c (set_worker c i Asking) i Sleeping Asking Hi eq_refl). simpl in *. lia.
  - destruct (workers c !! i) as [[]|] eqn:Hi; simplify_eq.
    apply fmap_Some in Hstep as (c1 & Hn & [= ->]). unfold processNextWorkItem in Hn.
    destruct (wq_Get (workQueue c)) as [[[x|] q]|] eqn:Hget; [| |done]; injection Hn as <-.
    2: { apply Get_shutdown in Hget as (_ & Ht & _). rewrite (c_shut _ _ _ Hc) in Ht. congruence. }
    apply Get_object in Hget as (Hx & _ & Eq & _ & _).
    destruct x as [x|u]; [|rewrite (c_pending _ _ _ Hc) in Hx; by apply outstanding_items in Hx].
    split; [done|]. assert (size (pending (workQueue c)) = S (size (pending q))) as Hsize.
    { rewrite Eq, (union_difference_L {[inl x]} (pending (workQueue c))) at 1 by set_solver.
      rewrite size_union, size_singleton by set_solver. done. }
    pose proof (work_left_worker c (processItemInQueue i (inl x) (set_queue c q)) i Asking (Handling x)
      Hi eq_refl). simpl in *. lia.
  - destruct (workers c !! i) as [[]|] eqn:Hi; simplify_eq.
    assert (c' = finish i x o c) as -> by (by destruct o; simplify_eq). split; [done|].
    destruct (Done_law (inl x) (workQueue c)) as (Eq & _ & _).
    pose proof (work_left_worker c (finish i x o c) i (Handling x) Asking Hi eq_refl) as Hw.
    simpl in Hw. rewrite Eq in Hw. lia.
Qed.

Lemma run_worker_steps elapsed pods n m ls : forall c c', reachable elapsed pods n m c -> is_shut c = false ->
  Forall worker_step ls -> run elapsed pods ls (Live c) = Some (Live c') ->
  reachable elapsed pods n m c' /\ is_shut c' = false /\ work_left c = (length ls + work_left c')%nat.
Proof.
  induction ls as [|l ls IH]; intros c c' Hr Hs Hls Hrun; simpl in Hrun; [by simplify_eq|].
  inversion_clear Hls as [|? ? Hl Hls'].
  destruct (step elapsed pods l c) as [[c1| |p]|] eqn:Hstep; try (by destruct ls).
  destruct (worker_step_decreases _ _ _ _ _ _ _ (reachable_consistent _ _ _ _ _ Hr) Hs Hl Hstep) as [Hs1 ->].
  destruct (IH c1 c') as (Hr' & Hs' & ->); [by eapply reach_step|done..].
Qed.

(** When no worker can go on, nothing is pending and nothing in hand. *)
Lemma stuck_idle elapsed pods n m c : consistent n m c -> is_shut c = false ->
  (forall l, worker_step l -> step elapsed pods l c = None) ->
  (forall i x, workers c !! i <> Some (Handling x)) /\
  ((exists i p, workers c !! i = Some p /\ p <> Ended) -> pending (workQueue c) = ∅).
Proof.
  intros Hc Hs Hstuck. assert (forall i x, workers c !! i <> Some (Handling x)) as Hno.
  { intros i x Hi. specialize (Hstuck (Handled i NotMine) I). simpl in Hstuck. by rewrite Hi in Hstuck. }
  split; [done|]. intros (i & p & Hi & Hp). destruct p as [| |x|]; [| |by destruct (Hno i x)|done].
  { specialize (Hstuck (Wake i) I). simpl in Hstuck. by rewrite Hi in Hstuck. }
  specialize (Hstuck (Get i) I). simpl in Hstuck. rewrite Hi in Hstuck. unfold processNextWorkItem in Hstuck.
  destruct (wq_Get (workQueue c)) as [[[x|] q]|] eqn:Hget; [done|done|].
  apply Get_waits in Hget as [_ Hsub]. apply set_eq. intros x. split; [|set_solver].
  intros Hx%Hsub. apply (c_processing _ _ _ Hc) in Hx as (j & y & _ & Hj). by destruct (Hno j y).
Qed.

(** Every item that was queued is pending, in a worker's hands, or was handled since. *)
Lemma queued_fate elapsed pods n m c l1 l2 x : reachable elapsed pods n m c ->
  log c = l1 ++ Queued x :: l2 ->
  inl x ∈ pending (workQueue c) \/ (exists i, workers c !! i = Some (Handling x)) \/
  exists i o, Finished i x o ∈ l1.
Proof.
  intros Hr Hl. pose proof (reachable_consistent _ _ _ _ _ Hr) as Hc.
  destruct (outstanding_unless_begun l1 x (Queued x :: l2)) as [[i Hi]|Ho]; [simpl; set_solver| |].
  - apply list_elem_of_split in Hi as (k1 & k2 & ->). right.
    destruct (began_fate _ _ _ _ _ Hr k1 (k2 ++ Queued x :: l2) i x) as [Hh|[o Ho]].
    + by rewrite Hl, <- app_assoc.
    + left. by exists i.
    + right. exists i, o. set_solver.
  - left. by rewrite (c_pending _ _ _ Hc), Hl.
Qed.
End invariant.

(** * Properties *)

Section properties.
Context `{WorkQueueLaws} (elapsed : Z -> string) (pods : Z -> v1_Pod) (n m : nat).

(** C40: However the threads interleave, an update that was queued before the shutdown is still
    in the queue, in the hands of a worker, or was handled since; no two workers hold the
    same item. *)
Theorem queued_updates_are_kept c : reachable elapsed pods n m c ->
  (forall l1 l2 x, log c = l1 ++ Queued x :: l2 ->
     inl x ∈ pending (workQueue c) \/ (exists i, workers c !! i = Some (Handling x)) \/
     exists i o, Finished i x o ∈ l1) /\
  (forall i j x, workers c !! i = Some (Handling x) -> workers c !! j = Some (Handling x) -> i = j).
Proof.
  intros Hr. split; [intros l1 l2 x; by apply (queued_fate elapsed pods n m)|].
  apply (c_alone n m), (reachable_consistent _ _ _ _ _ Hr).
Qed.

(** C22: Without new updates the workers come to rest: before a shutdown they make at most
    [work_left] steps in any order, and when none can go on while one of them lives, every
    update that was queued has been handled since. *)
Theorem workers_come_to_rest c c' ls : reachable elapsed pods n m c -> is_shut c = false ->
  Forall worker_step ls -> run elapsed pods ls (Live c) = Some (Live c') ->
  (length ls <= work_left c)%nat /\
  ((forall l, worker_step l -> step elapsed pods l c' = None) ->
   (exists i p, workers c' !! i = Some p /\ p <> Ended) ->
   forall l1 l2 x, log c' = l1 ++ Queued x :: l2 -> exists i o, Finished i x o ∈ l1).
Proof.
  intros Hr Hs Hls Hrun. destruct (run_worker_steps _ _ _ _ _ _ _ Hr Hs Hls Hrun) as (Hr' & Hs' & ->).
  split; [lia|]. intros Hstuck Hlive l1 l2 x Hl.
  destruct (stuck_idle _ _ _ _ _ (reachable_consistent _ _ _ _ _ Hr') Hs' Hstuck) as [Hno Hempty].
  specialize (Hempty Hlive).
  destruct (queued_fate _ _ _ _ _ _ _ _ Hr' Hl) as [Hx|[[i Hi]|Hf]]; [set_solver|by destruct (Hno i x)|done].
Qed.

(** C23: [Stop] reaches one thread: as many threads have ended as sends were made, so at most two
    of all the workers, the reconciliation and the informer's threads. *)
Theorem stop_reaches_one_thread c : reachable elapsed pods n m c ->
  ended_threads n c = (stops_sent (main_stop c) + stops_sent (watch_stop c))%nat /\
  (m - 2 <= count (fun p => negb (bool_decide (p = Ended))) (workers c))%nat.
Proof.
  intros Hr. pose proof (reachable_consistent _ _ _ _ _ Hr) as Hc. pose proof (c_stops _ _ _ Hc) as Hst.
  split; [done|]. rewrite <- (c_workers _ _ _ Hc).
  assert (count (fun p => bool_decide (p = Ended)) (workers c) +
    count (fun p => negb (bool_decide (p = Ended))) (workers c) = length (workers c))%nat as Hsum.
  { generalize (workers c). intros ws. induction ws as [|p ws IH]; [done|]. rewrite !count_cons. simpl.
    destruct (bool_decide (p = Ended)); simpl; lia. }
  unfold ended_threads in Hst. pose proof (stops_sent_le (main_stop c)). pose proof (stops_sent_le (watch_stop c)).
  lia.
Qed.

(** C24: While two threads of the informer listen, a termination signal ends the process whatever
    the workers do: three steps of [main] are always possible, and what is in the queue or
    in the hands of a worker is dropped. *)
Theorem signal_ends_process c : reachable elapsed pods n m c -> (2 <= n)%nat -> main_stop c = Sending ->
  run elapsed pods [Receive Main InformerThread; ShutDownQueue Main; Exit Main] (Live c) = Some Exited.
Proof.
  intros Hr Hn Hm. pose proof (reachable_consistent _ _ _ _ _ Hr) as Hc.
  pose proof (c_stops _ _ _ Hc) as Hst. unfold ended_threads in Hst. rewrite Hm in Hst.
  simpl. rewrite Hm. destruct (informer c) as [|k]; [|done].
  pose proof (stops_sent_le (watch_stop c)). simpl in Hst. lia.
Qed.
End properties.

(** ** Witnesses *)

(** A queue with the laws: the objects in the order they were added, and those handed out. *)
Module list_queue.
Record queue := mkQueue {
  waiting : list object;
  taken : gset object;
  closed : bool
}.

Definition push (x : object) (q : queue) : queue :=
  if closed q || bool_decide (x ∈ waiting q) then q else mkQueue (waiting q ++ [x]) (taken q) (closed q).

Definition get (q : queue) : option (option object * queue) :=
  match list_find (fun x => x ∉ taken q) (waiting q) with
  | Some (_, x) => Some (Some x, mkQueue (filter (fun y => y <> x) (waiting q)) ({[x]} ∪ taken q) (closed q))
  | None => if closed q then Some (None, q) else None
  end.

#[export] Instance lib : WorkQueue := {
  wq := queue;
  wq_New := mkQueue [] ∅ false;
  wq_Add := push;
  wq_Get := get;
  wq_Done := fun x q => mkQueue (waiting q) (taken q ∖ {[x]}) (closed q);
  wq_ShutDown := fun q => mkQueue (waiting q) (taken q) true
}.

Lemma none_free q : list_find (fun x => x ∉ taken q) (waiting q) = None ->
  (list_to_set (waiting q) : gset object) ⊆ taken q.
Proof.
  intros Hf%list_find_None x. rewrite elem_of_list_to_set. rewrite Forall_forall in Hf. intros Hx.
  destruct (decide (x ∈ taken q)); [done|]. by destruct (Hf x Hx).
Qed.

#[export] Instance laws : @WorkQueueLaws lib.
Proof.
  refine {| pending := fun q : @wq lib => list_to_set (waiting q) : gset object;
            processing := fun q : @wq lib => taken q; shutting_down := fun q : @wq lib => closed q |}.
  - done.
  - intros x q. simpl. unfold push. destruct (closed q) eqn:Hc; simpl; [done|].
    case_bool_decide; simpl; [|split; [set_solver|done]]. split; [set_solver|done].
  - intros x q q'. simpl. unfold get. destruct (list_find _ _) as [[i y]|] eqn:Hf; [|by case_match].
    intros [= -> <-]. apply list_find_Some in Hf as (Hi & Hx & _). apply list_elem_of_lookup_2 in Hi. simpl.
    split; [set_solver|]. split; [done|]. split; [|split; [set_solver|done]].
    apply set_eq. intros y. rewrite elem_of_list_to_set, list_elem_of_filter. set_solver.
  - intros q q'. simpl. unfold get. destruct (list_find _ _) as [[i y]|] eqn:Hf; [done|].
    case_match eqn:Hc; [|done]. intros [= <-]. by apply none_free in Hf.
  - intros q. simpl. unfold get. destruct (list_find _ _) as [[i y]|] eqn:Hf; [done|].
    case_match; [done|]. by apply none_free in Hf.
  - done.
  - done.
Defined.
End list_queue.

Lemma reachable_run `{WorkQueue} elapsed pods n m ls : forall c c', reachable elapsed pods n m c ->
  run elapsed pods ls (Live c) = Some (Live c') -> reachable elapsed pods n m c'.
Proof.
  induction ls as [|l ls IH]; intros c c' Hr Hrun; simpl in Hrun; [by simplify_eq|].
  destruct (step elapsed pods l c) as [[c1| |p]|] eqn:Hs; try (by destruct ls).
  apply (IH c1); [by eapply reach_step|done].
Defined.

Local Open Scope Z_scope.

Module workers_example.
Import events_example.
#[export] Existing Instance list_queue.lib.
#[export] Existing Instance list_queue.laws.

Definition ago (t : Z) : string := "5s".

(** The pointer [r] is to the version of one pod with [r] restarts. *)
Definition version (r : Z) : v1_Pod := pod "Running" [init_done] [running r].

Definition started : controller :=
  mkController wq_New [Sleeping; Sleeping] Selecting 2 NotCalled NotCalled [].

(** Two restarts come in, and both workers take one; then a signal comes. *)
Definition busy_steps : list label :=
  [Informer (Updated 1 2); Informer (Updated 2 3); Wake 0; Wake 1; Get 0; Get 1].

Definition state_after (ls : list label) : controller :=
  match run ago version ls (Live started) with Some (Live c) => c | _ => started end.

Definition rest_steps : list label := [Handled 0 NotMine; Handled 1 Adjusted].
Definition signal_steps : list label := [Informer (Updated 3 4); Signal].

Definition busy : controller := Eval vm_compute in state_after busy_steps.
Definition rested : controller := Eval vm_compute in state_after (busy_steps ++ rest_steps).
Definition halted : controller :=
  Eval vm_compute in state_after (busy_steps ++ signal_steps ++ [Receive Main LoopThread]).
Definition signalled : controller := Eval vm_compute in state_after (busy_steps ++ signal_steps).
End workers_example.

Section witnesses.
Import workers_example.

Lemma started_reachable : reachable ago version 2 2 started.
Proof. by apply reach_run. Defined.

Lemma busy_reachable : reachable ago version 2 2 busy.
Proof. apply (reachable_run _ _ _ _ busy_steps started); [apply started_reachable|vm_cast_no_check (@eq_refl (option process) (Some (Live busy)))]. Defined.

Lemma signalled_reachable : reachable ago version 2 2 signalled.
Proof.
  apply (reachable_run _ _ _ _ (busy_steps ++ signal_steps) started);
    [apply started_reachable|vm_cast_no_check (@eq_refl (option process) (Some (Live signalled)))].
Defined.

Lemma queued_updates_are_kept_witness :
  inl (mkQueued (Some 2) 3) ∈ pending (workQueue busy) \/
  (exists i, workers busy !! i = Some (Handling (mkQueued (Some 2) 3))) \/
  exists i o, Finished i (mkQueued (Some 2) 3) o ∈
    [Began 1 (mkQueued (Some 2) 3); Began 0 (mkQueued (Some 1) 2)].
Proof.
  apply (proj1 (queued_updates_are_kept ago version 2 2 busy busy_reachable) _ [Queued (mkQueued (Some 1) 2)]).
  reflexivity.
Defined.

Lemma workers_come_to_rest_witness : (2 <= work_left busy)%nat /\
  exists i o, Finished i (mkQueued (Some 2) 3) o ∈ [Finished 1 (mkQueued (Some 2) 3) Adjusted;
    Finished 0 (mkQueued (Some 1) 2) NotMine; Began 1 (mkQueued (Some 2) 3); Began 0 (mkQueued (Some 1) 2)].
Proof.
  destruct (workers_come_to_rest ago version 2 2 busy rested rest_steps
    busy_reachable eq_refl) as [Hle Hrest].
  - repeat constructor.
  - reflexivity.
  - split; [exact Hle|]. apply Hrest with (l2 := [Queued (mkQueued (Some 1) 2)]).
    + intros l Hl. destruct l as [|i|i|i o| | | | | | |]; simpl in Hl; try contradiction;
        destruct i as [|[|i]]; reflexivity.
    + exists 0%nat, Asking. split; [reflexivity|discriminate].
    + reflexivity.
Defined.

Lemma stop_reaches_one_thread_witness :
  ended_threads 2 halted = 1%nat /\ (2 - 2 <= 2)%nat.
Proof.
  apply (stop_reaches_one_thread ago version 2 2 halted).
  apply (reachable_run _ _ _ _ [Receive Main LoopThread] signalled); [apply signalled_reachable|].
  vm_cast_no_check (@eq_refl (option process) (Some (Live halted))).
Defined.

Lemma signal_ends_process_witness :
  run ago version [Receive Main InformerThread; ShutDownQueue Main; Exit Main] (Live signalled) = Some Exited.
Proof. by apply (signal_ends_process ago version 2 2 signalled signalled_reachable). Defined.

(** Two updates of one pod are two objects of the queue: two workers handle the pod at once. *)
Lemma one_pod_on_two_workers : exists x y, reachable ago version 2 2 busy /\
  workers busy !! 0%nat = Some (Handling x) /\ workers busy !! 1%nat = Some (Handling y) /\
  pod_UID (newPod (load version x)) = pod_UID (newPod (load version y)).
Proof.
  exists (mkQueued (Some 1) 2), (mkQueued (Some 2) 3). split; [apply busy_reachable|].
  repeat split.
Qed.
End witnesses.
