(* ===== verification/Service.v ===== *)
(** * What the setter promises for its updates

    An abstract service, without queue, phases and channels: updates are submitted, owed, handed
    out and completed.  The threads of [Workers] refine it: what they log is a trace of the
    service, and a worker that asks gets an update whenever one is owed that nobody holds. *)

From S2P Require Import Prelude K8s PodEvents SetHandler Adjust Workers.

(** ** The service *)

Record service := mkService {
  owed : gset queued;
  held : gmap nat queued;
  is_open : bool
}.

Definition fresh_service : service := mkService ∅ ∅ true.

(** An update can be handed out while no worker holds it. *)
Definition available (σ : service) (x : queued) : Prop :=
  x ∈ owed σ /\ forall j, held σ !! j <> Some x.

(** One event of the service; closing it is not logged. *)
Inductive serves : service -> option entry -> service -> Prop :=
  | serves_submit σ x : is_open σ = true ->
      serves σ (Some (Queued x)) (mkService (owed σ ∪ {[x]}) (held σ) true)
  | serves_hand_out σ i x : available σ x -> held σ !! i = None ->
      serves σ (Some (Began i x)) (mkService (owed σ ∖ {[x]}) (<[i:=x]> (held σ)) (is_open σ))
  | serves_complete σ i x o : held σ !! i = Some x ->
      serves σ (Some (Finished i x o)) (mkService (owed σ) (delete i (held σ)) (is_open σ))
  | serves_close σ : serves σ None (mkService (owed σ) (held σ) false).

(** The traces of the service: the events, newest first as in the log. *)
Inductive traces : service -> list entry -> service -> Prop :=
  | traces_nil σ : traces σ [] σ
  | traces_event σ l σ1 e σ2 : traces σ l σ1 -> serves σ1 (Some e) σ2 -> traces σ (e :: l) σ2
  | traces_silent σ l σ1 σ2 : traces σ l σ1 -> serves σ1 None σ2 -> traces σ l σ2.

Lemma traces_app σ0 l σ1 l' σ2 : traces σ0 l σ1 -> traces σ1 l' σ2 -> traces σ0 (l' ++ l) σ2.
Proof.
  intros Hl. induction 1 as [|? ? ? ? ? _ IH He|? ? ? ? _ IH He]; [done| |].
  - exact (traces_event _ _ _ _ _ (IH Hl) He).
  - exact (traces_silent _ _ _ _ (IH Hl) He).
Qed.

Lemma traces_one σ e σ' : serves σ (Some e) σ' -> traces σ [e] σ'.
Proof. intros He. exact (traces_event _ _ _ _ _ (traces_nil σ) He). Qed.

(** ** The simulation *)

Section simulation.
Context `{WorkQueueLaws}.
Implicit Types (c : controller) (σ : service).

Record represents c σ : Prop := {
  rep_owed x : inl x ∈ pending (workQueue c) <-> x ∈ owed σ;
  rep_held i x : workers c !! i = Some (Handling x) <-> held σ !! i = Some x;
  rep_open : is_open σ = negb (is_shut c)
}.

(** Between two states of the setter the service makes the events that were logged. *)
Definition simulated c σ c' : Prop :=
  exists l σ', traces σ l σ' /\ represents c' σ' /\ log c' = l ++ log c.

Lemma run_represents n m c : Run n true m wq_New = Ok c -> represents c fresh_service.
Proof.
  intros [= <-]. destruct New_empty as (Hp & _ & _). split; simpl; [|intros i x|done].
  - intros x. rewrite Hp. set_solver.
  - rewrite lookup_empty. split; [|done]. by intros [? _]%lookup_replicate.
Qed.

(** A step of which the service sees nothing. *)
Lemma simulated_stutter c σ c' : represents c σ -> log c' = log c ->
  pending (workQueue c') = pending (workQueue c) -> is_shut c' = is_shut c ->
  (forall i x, workers c' !! i = Some (Handling x) <-> workers c !! i = Some (Handling x)) ->
  simulated c σ c'.
Proof.
  intros [Ho Hh Hop] Hl Hp Hs Hw. exists [], σ. split; [constructor|]. split; [|done]. split.
  - intros x. by rewrite Hp.
  - intros i x. by rewrite Hw.
  - by rewrite Hs.
Qed.

Lemma idle_held (ws : list phase) (i : nat) p p' (j : nat) x : ws !! i = Some p -> idle p = true -> idle p' = true ->
  <[i:=p']> ws !! j = Some (Handling x) <-> ws !! j = Some (Handling x).
Proof.
  intros Hi Hp Hp'. rewrite (lookup_worker ws i p Hi). split; [intros [[_ <-]|[_ ?]]; done|].
  intros Hj. right. split; [|done]. intros <-. rewrite Hi in Hj. by injection Hj as ->.
Qed.

Lemma simulated_worker c σ i p p' : represents c σ -> workers c !! i = Some p -> idle p = true ->
  idle p' = true -> simulated c σ (set_worker c i p').
Proof. intros Hr Hi Hp Hp'. apply simulated_stutter; [done..|]. intros j x. by apply (idle_held _ i p). Qed.

(** One logged event of the service, and a state that shows it. *)
Lemma simulated_event c σ c' e σ' : serves σ (Some e) σ' -> represents c' σ' -> log c' = e :: log c ->
  simulated c σ c'.
Proof. intros He Hr Hl. exists [e], σ'. split; [by apply traces_one|done]. Qed.

Lemma simulated_trans c σ c1 c2 : simulated c σ c1 ->
  (forall σ1, represents c1 σ1 -> simulated c1 σ1 c2) -> simulated c σ c2.
Proof.
  intros (l1 & σ1 & Ht1 & Hr1 & Hl1) Hnext. destruct (Hnext σ1 Hr1) as (l2 & σ2 & Ht2 & Hr2 & Hl2).
  exists (l2 ++ l1), σ2. split; [by eapply traces_app|]. split; [done|]. by rewrite Hl2, Hl1, (assoc_L (++)).
Qed.

Lemma add_simulated n m c σ x : consistent n m c -> represents c σ -> simulated c σ (add c x).
Proof.
  intros Hc Hr. destruct (Add_law (inl x) (workQueue c)) as (Ep & _ & _).
  rewrite (c_shut _ _ _ Hc) in Ep. unfold add. destruct (is_shut c) eqn:Hs.
  - apply simulated_stutter; [done..|]. by intros.
  - destruct Hr as [Ho Hh Hop]. rewrite Hs in Hop.
    eapply simulated_event; [by apply (serves_submit σ x)| |done]. split; simpl; [|done|].
    + intros y. rewrite Ep, !elem_of_union, !elem_of_singleton, Ho. naive_solver.
    + change (is_shut (record (set_queue c (wq_Add (inl x) (workQueue c))) (Queued x))) with (is_shut c).
      by rewrite Hs.
Qed.

Lemma on_event_simulated elapsed pods n m e c σ : consistent n m c -> represents c σ ->
  simulated c σ (on_event elapsed pods e c).
Proof.
  assert (forall c σ, represents c σ -> simulated c σ c) as Hrefl.
  { intros c0 σ0 Hr. by apply simulated_stutter. }
  destruct e as [|old new|]; intros Hc Hr; [by apply Hrefl| |by apply Hrefl]. simpl.
  generalize (PodChanged elapsed (pods old) (pods new)). intros l.
  revert c σ Hc Hr. induction l as [|y l IH]; intros c σ Hc Hr; [by apply Hrefl|]. simpl.
  apply (simulated_trans c σ (add c (mkQueued (Some old) new))); [by apply (add_simulated n m)|].
  intros σ1 Hr1. apply IH; [by apply add_consistent|done].
Qed.

(** A worker that takes an item takes one that is available. *)
Lemma take_represents n m i x q c σ : consistent n m c -> represents c σ -> workers c !! i = Some Asking ->
  wq_Get (workQueue c) = Some (Some (inl x), q) ->
  serves σ (Some (Began i x)) (mkService (owed σ ∖ {[x]}) (<[i:=x]> (held σ)) (is_open σ)) /\
  represents (processItemInQueue i (inl x) (set_queue c q))
    (mkService (owed σ ∖ {[x]}) (<[i:=x]> (held σ)) (is_open σ)).
Proof.
  intros Hc [Ho Hh Hop] Hi Hget. apply Get_object in Hget as (Hx & Hxp & Eq & _ & _).
  assert (forall j, held σ !! j <> Some x) as Hfree.
  { intros j Hj. apply Hh in Hj. apply Hxp, (c_processing _ _ _ Hc). by exists j, x. }
  split.
  - apply serves_hand_out; [by split; [apply Ho|]|]. apply eq_None_not_Some. intros [y Hy].
    apply Hh in Hy. congruence.
  - split; simpl; [| |done].
    + intros y. rewrite Eq, !elem_of_difference, !elem_of_singleton, Ho. naive_solver.
    + intros j y. rewrite (lookup_worker _ i _ Hi), lookup_insert_Some, <- Hh. naive_solver.
Qed.

Lemma next_simulated n m i c c' σ : consistent n m c -> represents c σ -> workers c !! i = Some Asking ->
  processNextWorkItem i c = Some c' -> simulated c σ c'.
Proof.
  intros Hc Hr Hi Hn. unfold processNextWorkItem in Hn.
  destruct (wq_Get (workQueue c)) as [[[[x|u]|] q]|] eqn:Hget; simplify_eq/=.
  - destruct (take_represents n m i x q c σ Hc Hr Hi Hget) as [He Hr']. by eapply simulated_event.
  - apply Get_object in Hget as (Hu & _). rewrite (c_pending _ _ _ Hc) in Hu. by apply outstanding_items in Hu.
  - apply Get_shutdown in Hget as (-> & _ & _). replace (set_queue c (workQueue c)) with c by by destruct c.
    by apply (simulated_worker c σ i Asking).
Qed.

Lemma finish_simulated i x o c σ : represents c σ -> workers c !! i = Some (Handling x) ->
  simulated c σ (finish i x o c).
Proof.
  intros [Ho Hh Hop] Hi. destruct (Done_law (inl x) (workQueue c)) as (Eq & _ & _).
  eapply simulated_event; [by apply (serves_complete σ i x o), Hh| |done]. split; simpl; [|  |done].
  - intros y. by rewrite Eq.
  - intros j y. rewrite (lookup_worker _ i _ Hi), lookup_delete_Some, <- Hh. naive_solver.
Qed.

(** A caller of [Stop] goes on, short of shutting the queue down. *)
Lemma stop_simulated c σ c1 who p : represents c σ -> stop_of c who <> ShutDown -> p <> ShutDown ->
  workQueue c1 = workQueue c -> log c1 = log c -> main_stop c1 = main_stop c -> watch_stop c1 = watch_stop c ->
  (forall i x, workers c1 !! i = Some (Handling x) <-> workers c !! i = Some (Handling x)) ->
  simulated c σ (set_stop c1 who p).
Proof.
  intros Hr Hwho Hp Hq Hl Hm Hwa Hw. apply simulated_stutter; [done|by destruct who|by destruct who; simpl; rewrite Hq| |].
  - destruct who; simpl in Hwho; unfold is_shut; simpl; rewrite ?Hm, ?Hwa; by repeat case_match.
  - by destruct who.
Qed.

Lemma receive_simulated who r c c' σ : represents c σ -> stop_of c who = Sending -> receive r c = Some c' ->
  simulated c σ (set_stop c' who Sent).
Proof.
  intros Hr Hwho Hrec. assert (stop_of c who <> ShutDown) as Hne by by rewrite Hwho.
  destruct r as [i| |]; simpl in Hrec; repeat case_match; simplify_eq; apply (stop_simulated c); try done.
  intros j x. by apply (idle_held _ i Sleeping).
Qed.

Lemma shut_simulated who c σ : represents c σ ->
  simulated c σ (set_stop (set_queue c (wq_ShutDown (workQueue c))) who ShutDown).
Proof.
  intros [Ho Hh Hop]. destruct (ShutDown_law (workQueue c)) as (Eq & _ & _).
  exists [], (mkService (owed σ) (held σ) false).
  split; [exact (traces_silent _ _ _ _ (traces_nil σ) (serves_close σ))|]. split; [|by destruct who].
  split; destruct who; simpl; try done; try (intros x; by rewrite Eq).
  by unfold is_shut; simpl; case_match.
Qed.

(** Each step of a thread is none, one or several events of the service. *)
Lemma step_simulated elapsed pods n m l c c' σ : consistent n m c -> represents c σ ->
  step elapsed pods l c = Some (Live c') -> simulated c σ c'.
Proof.
  intros Hc Hr Hs. destruct l as [e|i|i|i o| |r|err| |who r|who|who]; simpl in Hs.
  - injection Hs as <-. by apply (on_event_simulated elapsed pods n m).
  - repeat case_match; simplify_eq. by apply (simulated_worker c σ i Sleeping).
  - repeat case_match; simplify_eq. apply fmap_Some in Hs as (c1 & Hn & [= ->]). by apply (next_simulated n m i).
  - repeat case_match; simplify_eq; by apply finish_simulated.
  - repeat case_match; simplify_eq. by apply simulated_stutter.
  - repeat case_match; simplify_eq; by apply simulated_stutter.
  - case_match eqn:Hw; simplify_eq. unfold WatchErrorHandler. destruct (closed_gracefully err);
      [by apply simulated_stutter|]. apply (stop_simulated c σ c Watcher Sending); try done. simpl. by rewrite Hw.
  - case_match eqn:Hw; simplify_eq. apply (stop_simulated c σ c Main Sending); try done. simpl. by rewrite Hw.
  - case_match eqn:Hw; simplify_eq. apply fmap_Some in Hs as (c1 & Hrec & [= ->]). by apply (receive_simulated who r).
  - case_match; simplify_eq. by apply shut_simulated.
  - by case_match.
Qed.

(** Whatever is available, an asking worker gets something that is. *)
Lemma asking_served elapsed pods n m i c σ x : consistent n m c -> represents c σ ->
  workers c !! i = Some Asking -> available σ x ->
  exists c' y, step elapsed pods (Get i) c = Some (Live c') /\ available σ y /\ workers c' !! i = Some (Handling y).
Proof.
  intros Hc Hr Hi [Hx Hfree]. assert (~ pending (workQueue c) ⊆ processing (workQueue c)) as Hno.
  { intros Hsub. apply (rep_owed _ _ Hr), Hsub, (c_processing _ _ _ Hc) in Hx as (j & y & [= <-] & Hj).
    by apply (Hfree j), (rep_held _ _ Hr). }
  simpl. rewrite Hi. unfold processNextWorkItem.
  destruct (wq_Get (workQueue c)) as [[[[y|u]|] q]|] eqn:Hget.
  - destruct (take_represents n m i y q c σ Hc Hr Hi Hget) as [He _].
    eexists _, y. split; [done|]. split; [by inversion He|]. simpl. apply list_lookup_insert_eq.
    by eapply lookup_lt_Some.
  - apply Get_object in Hget as (Hu & _). rewrite (c_pending _ _ _ Hc) in Hu. by apply outstanding_items in Hu.
  - apply Get_shutdown in Hget as (_ & _ & Hsub). done.
  - apply Get_waits in Hget as [_ Hsub]. done.
Qed.

Lemma reachable_represents elapsed pods n m c : reachable elapsed pods n m c ->
  exists σ, traces fresh_service (log c) σ /\ represents c σ.
Proof.
  induction 1 as [c Hrun|l c c' Hr (σ & Ht & Hrep) Hs].
  - exists fresh_service. split; [|by eapply run_represents]. injection Hrun as <-. constructor.
  - pose proof (reachable_consistent _ _ _ _ _ Hr) as Hc.
    destruct (step_simulated _ _ _ _ _ _ _ _ Hc Hrep Hs) as (l' & σ' & Ht' & Hrep' & ->).
    exists σ'. split; [|done]. by eapply traces_app.
Qed.
End simulation.

(** * Properties *)

(** C8: The threads of the setter refine the service: in every state that can be reached their
    log is a trace of the service, which then owes the queued updates and holds those in
    the hands of the workers; and a worker that asks is given an available update whenever
    there is one, also while the queue shuts down. *)
Theorem setter_refines_service `{WorkQueueLaws} elapsed pods n m c : reachable elapsed pods n m c ->
  exists σ, traces fresh_service (log c) σ /\ represents c σ /\
    forall i x, workers c !! i = Some Asking -> available σ x ->
      exists c' y, step elapsed pods (Get i) c = Some (Live c') /\ available σ y /\
        workers c' !! i = Some (Handling y).
Proof.
  intros Hr. destruct (reachable_represents _ _ _ _ _ Hr) as (σ & Ht & Hrep). exists σ.
  split; [done|]. split; [done|]. intros i x Hi Hx.
  by apply (asking_served elapsed pods n m i c σ x); [eapply reachable_consistent|..].
Qed.

(** ** Witness *)

Section witnesses.
Import workers_example.

Lemma setter_refines_service_witness : exists σ, traces fresh_service (log busy) σ /\
  held σ !! 1%nat = Some (mkQueued (Some 2%Z) 3%Z) /\ is_open σ = true.
Proof.
  destruct (setter_refines_service ago version 2 2 busy busy_reachable) as (σ & Ht & [_ Hheld Hopen] & _).
  exists σ. split; [exact Ht|]. split; [apply Hheld; reflexivity|rewrite Hopen; reflexivity].
Defined.
End witnesses.
