(* ===== verification/System.v ===== *)
(** * The whole setter: threads and files together

    [Workers] interleaves the threads of the setter without the files, [Deployment] and
    [Together] follow the writes of two threads.  Here any number of workers and the
    reconciliation share one file system: a step is a step of [Workers], or one write.  What a
    worker writes is the list of steps of its handling, which [handlePods] plays
    ([program_plays]); the reconciliation makes [own_change]s. *)

From S2P Require Import Prelude K8s PodApi Pools Cpuset SetHandler PodEvents FileSystem Files CpuDirectory Cgroup Adjust Deployment Reconcile Together Workers.

Section system.
Context `{CPUSetLaws} `{RangeOrder} `{WorkQueue}.
Context (elapsed : Z -> string) (pods_at : Z -> v1_Pod) (setterNodeName : string).
Context (sh : SetHandlerT) (pods : list v1_Pod) (leaves : list string) (k : cpu_site).
Context (correct : v1_Pod -> v1_Container -> CPUSet).

(** The pods the setter may handle, with their cgroups. *)
Context (tenant : v1_Pod -> deployment -> Prop).

Definition job : Type := option (v1_Pod * deployment).

Record system := mkSystem {
  threads : controller;
  node_files : tree;
  (** what each worker has still to write, and for which pod *)
  todo : gmap nat (list (tree -> tree) * job);
  (** the handlings that ended, newest first *)
  jobs : list (queued * job)
}.

(** What the handling of an item comes to, with the answers of the API and an order of maps. *)
Inductive program (x : queued) : list (tree -> tree) * job -> Prop :=
  | program_not_mine (api : PodApi) :
      (shouldPodBeHandled setterNodeName (fun i => RefreshPod i (newPod (load pods_at x)))
         (newPod (load pods_at x))).1 = false ->
      program x ([], None)
  | program_handles (api : PodApi) (s : site) pod d :
      shouldPodBeHandled setterNodeName (fun i => RefreshPod i (newPod (load pods_at x)))
        (newPod (load pods_at x)) = (true, pod) ->
      tenant pod d ->
      program x (handling_steps sh pod (gatherAllContainers pod) d s, Some (pod, d)).

(** What a worker that came from [Get] has before it. *)
Definition assigned (p : option phase) (a : list (tree -> tree) * job) : Prop :=
  match p with Some (Handling x) => program x a | _ => a = ([], None) end.

(** What is in place on the node: what the reconciliation and each pod need. *)
Record prepared (fs : tree) : Prop := {
  prepared_node : node_ready sh pods leaves k fs;
  prepared_tenant pod d : tenant pod d -> ready sh pod (gatherAllContainers pod) d fs
}.

(** A change that takes nothing away from anybody. *)
Definition harmless (fs fs' : tree) : Prop :=
  prepared fs' /\ forall pod d, tenant pod d -> keeps pod (gatherAllContainers pod) d fs fs'.

Inductive acts : system -> system -> Prop :=
  (** a thread goes on without a write *)
  | act_thread l c c' fs todo jobs : step elapsed pods_at l c = Some (Live c') ->
      (forall i, l <> Get i) -> (forall i o, l <> Handled i o) ->
      acts (mkSystem c fs todo jobs) (mkSystem c' fs todo jobs)
  | act_get i a c c' fs todo jobs : step elapsed pods_at (Get i) c = Some (Live c') ->
      assigned (workers c' !! i) a ->
      acts (mkSystem c fs todo jobs) (mkSystem c' fs (<[i:=a]> todo) jobs)
  (** a worker makes its next write *)
  | act_write i x g gs j c fs todo jobs : workers c !! i = Some (Handling x) -> todo !! i = Some (g :: gs, j) ->
      acts (mkSystem c fs todo jobs) (mkSystem c (g fs) (<[i:=(gs, j)]> todo) jobs)
  (** a worker that has nothing more to write returns *)
  | act_finish i x o j c c' fs todo jobs : workers c !! i = Some (Handling x) -> todo !! i = Some ([], j) ->
      step elapsed pods_at (Handled i o) c = Some (Live c') ->
      acts (mkSystem c fs todo jobs) (mkSystem c' fs todo ((x, j) :: jobs))
  (** the reconciliation makes a change *)
  | act_reconcile c fs fs' todo jobs : loop c = Reconciling -> own_change sh pods leaves k correct fs fs' ->
      acts (mkSystem c fs todo jobs) (mkSystem c fs' todo jobs)
  (** somebody else does something harmless *)
  | act_other c fs fs' todo jobs : harmless fs fs' ->
      acts (mkSystem c fs todo jobs) (mkSystem c fs' todo jobs).

(** The states of a setter with [n] threads of the informer and [m] workers. *)
Inductive system_reachable (n m : nat) : system -> Prop :=
  | sys_start c fs : Run n true m wq_New = Ok c -> prepared fs -> system_reachable n m (mkSystem c fs ∅ [])
  | sys_act σ σ' : system_reachable n m σ -> acts σ σ' -> system_reachable n m σ'.

(** The threads are those of [Workers]. *)
Lemma threads_reachable n m σ : system_reachable n m σ -> reachable elapsed pods_at n m (threads σ).
Proof.
  induction 1 as [c fs Hrun Hp|σ σ' Hr IH Ha]; [by apply reach_run|].
  destruct Ha; cbn [threads] in *; first [exact IH|eapply reach_step; eassumption].
Qed.

(** ** The writes take nothing away *)

(** The pods of the node fit together. *)
Record tenancy : Prop := {
  ten_node : node sh pods leaves k correct;
  ten_deployed pod d : tenant pod d -> deployed sh pod (gatherAllContainers pod) d;
  ten_neighbours pod d pod' d' : tenant pod d -> tenant pod' d' ->
    neighbours pod (gatherAllContainers pod) d pod' (gatherAllContainers pod') d';
  ten_consistent pod d : tenant pod d -> Together.consistent pods leaves k correct pod (gatherAllContainers pod) d
}.

Context (Hten : tenancy).

Lemma pod_step_harmless pod d fs fs' : tenant pod d -> prepared fs ->
  pod_step sh pod (gatherAllContainers pod) d fs fs' -> harmless fs fs'.
Proof.
  intros Ht [Hn Hp] Hs. split; [split|].
  - by apply (pod_step_node_ready sh pods leaves k correct (ten_node Hten) pod (gatherAllContainers pod) d
      (ten_consistent Hten _ _ Ht) fs).
  - intros pod' d' Ht'. apply (neighbour_ready sh pod (gatherAllContainers pod) d pod' _ d' fs);
      auto using ten_deployed, ten_neighbours.
  - intros pod' d' Ht'. apply (neighbour_keeps sh pod (gatherAllContainers pod) d pod' _ d');
      auto using ten_deployed, ten_neighbours.
Qed.

Lemma own_change_harmless fs fs' : prepared fs -> own_change sh pods leaves k correct fs fs' -> harmless fs fs'.
Proof.
  intros [Hn Hp] Ho.
  assert (forall pod d, tenant pod d -> both_prepared sh pods leaves k pod (gatherAllContainers pod) d fs' /\
    keeps pod (gatherAllContainers pod) d fs fs') as Hall.
  { intros pod d Ht. apply (own_change_keeps sh pods leaves k correct); [by apply ten_deployed|
      by apply ten_consistent|split; auto|done]. }
  split; [split|].
  - by apply (own_change_ready sh pods leaves k correct fs).
  - intros pod d Ht. by apply (Hall pod d Ht).
  - intros pod d Ht. by apply (Hall pod d Ht).
Qed.

Lemma tenants_protocol pod d : tenant pod d -> protocol sh pod (gatherAllContainers pod) d prepared.
Proof.
  intros Ht. split; [by intros fs []; auto|]. intros fs fs' Hp Hs. by apply (pod_step_harmless pod d fs).
Qed.

(** A handling plays the program of its item, among others that keep the node as it is. *)
Lemma program_plays `{PodApi} s x pod d w :
  shouldPodBeHandled setterNodeName (fun i => RefreshPod i (newPod (load pods_at x)))
    (newPod (load pods_at x)) = (true, pod) ->
  tenant pod d -> quiet pod (gatherAllContainers pod) d prepared w ->
  exists o, handlePods setterNodeName s sh (load pods_at x) w =
    Some (play (handling_steps sh pod (gatherAllContainers pod) d s) w, o).
Proof.
  intros Hmine Ht Hq. destruct (handle_pod_play setterNodeName s sh (load pods_at x) w pod d prepared)
    as (o & Hrun & _); [done|by apply ten_deployed|by apply tenants_protocol|done|by exists o].
Qed.

(** ** What a handling is to achieve *)

Inductive promised (pod : v1_Pod) (d : deployment) : (tree -> Prop) -> Prop :=
  | promised_set c : to_be_set pod (gatherAllContainers pod) c -> promised pod d (fun fs => has_set d fs c)
  | promised_infra : promised pod d (infra_set d).

Lemma promised_all pod d fs : (forall X, promised pod d X -> X fs) -> all_set pod (gatherAllContainers pod) d fs.
Proof. intros Hall. split; [apply Hall; constructor|]. intros c Hc. by apply (Hall (fun fs => has_set d fs c)), promised_set. Qed.

Lemma promised_kept pod d X fs fs' : promised pod d X -> keeps pod (gatherAllContainers pod) d fs fs' -> X fs -> X fs'.
Proof. intros [c Hc|] [Hc' Hi]; auto. Qed.

Definition achieves (gs : list (tree -> tree)) (X : tree -> Prop) : Prop :=
  exists g, g ∈ gs /\ forall fs, prepared fs -> X (g fs).

Definition harmless_fn (g : tree -> tree) : Prop := forall fs, prepared fs -> harmless fs (g fs).

Lemma program_ok x gs j : program x (gs, j) -> Forall harmless_fn gs /\
  forall pod d, j = Some (pod, d) -> tenant pod d /\ forall X, promised pod d X -> achieves gs X.
Proof.
  intros Hp. inversion Hp as [api Hno|api s pod d Hmine Ht]; subst; [by split|].
  pose proof (tenants_protocol pod d Ht) as HJ. pose proof (ten_deployed Hten pod d Ht) as Hdep. split.
  - eapply Forall_impl; [exact (handling_steps_own sh pod _ d Hdep _ HJ s)|].
    intros g Hg fs Hfs. apply (pod_step_harmless pod d); [done..|by apply Hg].
  - intros pod' d' [= <- <-]. split; [done|].
    destruct (handling_steps_needed sh pod _ d Hdep _ HJ s) as [Hsets (s' & c & Hc & Hinfra)].
    intros X [c' Hc'|].
    + destruct (Hsets c' Hc') as [s2 Hs2]. eexists. split; [exact Hs2|].
      by apply (set_fn_own sh pod _ d Hdep _ HJ).
    + eexists. split; [exact Hinfra|]. by apply (infra_fn_own sh pod _ d Hdep _ HJ).
Qed.

(** ** The invariant of the files *)

Record sound (σ : system) : Prop := {
  sound_files : prepared (node_files σ);
  sound_todo i gs j : todo σ !! i = Some (gs, j) -> Forall harmless_fn gs /\
    forall pod d, j = Some (pod, d) -> tenant pod d /\
      forall X, promised pod d X -> X (node_files σ) \/ achieves gs X;
  sound_jobs x pod d : (x, Some (pod, d)) ∈ jobs σ ->
    tenant pod d /\ all_set pod (gatherAllContainers pod) d (node_files σ)
}.

Lemma sound_change c c' fs fs' l js : sound (mkSystem c fs l js) -> harmless fs fs' ->
  sound (mkSystem c' fs' l js).
Proof.
  intros [Hf Ht Hj] [Hf' Hk]. split; simpl in *; [done| |].
  - intros i gs j Hi. destruct (Ht i gs j Hi) as [Hg Hp]. split; [done|]. intros pod d Hjob.
    destruct (Hp pod d Hjob) as [Hten' Hx]. split; [done|]. intros X HX.
    destruct (Hx X HX) as [H'|H']; [left|by right]. apply (promised_kept pod d X fs); auto.
  - intros x pod d Hx. destruct (Hj x pod d Hx) as [Hten' [Hi Hc]]. split; [done|].
    destruct (Hk pod d Hten') as [Hkc Hki]. split; [by apply Hki|]. intros c0 Hc0. by apply Hkc; [|apply Hc].
Qed.

Lemma harmless_refl fs : prepared fs -> harmless fs fs.
Proof. intros Hp. split; [done|]. intros pod d _. reflexivity. Qed.

Lemma sound_assign c c' fs l js i a : sound (mkSystem c fs l js) -> assigned (workers c' !! i) a ->
  sound (mkSystem c' fs (<[i:=a]> l) js).
Proof.
  intros [Hf Ht Hj] Ha. split; [done| |done]. simpl in *. intros i' gs j.
  destruct (decide (i = i')) as [<-|Hne]; [|by rewrite lookup_insert_ne by done; apply Ht].
  rewrite lookup_insert_eq. intros [= ->]. unfold assigned in Ha.
  assert ((gs, j) = ([], None) \/ exists x, program x (gs, j)) as [[= -> ->]|[x Hp]].
  { destruct (workers c' !! i) as [[]|]; eauto. }
  - by split.
  - destruct (program_ok x gs j Hp) as [Hg Hach]. split; [done|]. intros pod d Hjob.
    destruct (Hach pod d Hjob) as [Hten' Hx]. split; [done|]. intros X HX. right. by apply Hx.
Qed.

Lemma sound_write c fs l js i g gs j : sound (mkSystem c fs l js) -> l !! i = Some (g :: gs, j) ->
  sound (mkSystem c (g fs) (<[i:=(gs, j)]> l) js).
Proof.
  intros Hs Hi. destruct (sound_todo _ Hs i (g :: gs) j Hi) as [Hg Hp]. apply Forall_cons in Hg as [Hg1 Hg2].
  pose proof (sound_files _ Hs) as Hf. simpl in Hf.
  destruct (sound_change c c fs (g fs) l js Hs (Hg1 fs Hf)) as [Hf' Ht' Hj']. split; [done| |done]. simpl in *.
  intros i' gs' j'. destruct (decide (i = i')) as [<-|Hne]; [|by rewrite lookup_insert_ne by done; apply Ht'].
  rewrite lookup_insert_eq. intros [= <- <-]. split; [done|]. intros pod d Hjob.
  destruct (Hp pod d Hjob) as [Hten' Hx]. split; [done|]. intros X HX.
  destruct (Hx X HX) as [Hdone|(g' & [->|Hin]%elem_of_cons & Hg')].
  - left. apply (promised_kept pod d X fs); [done| |done]. by apply (Hg1 fs Hf).
  - left. by apply Hg'.
  - right. by exists g'.
Qed.

Lemma sound_finish c c' fs l js i x j : sound (mkSystem c fs l js) -> l !! i = Some ([], j) ->
  sound (mkSystem c' fs l ((x, j) :: js)).
Proof.
  intros Hs Hi. destruct (sound_todo _ Hs i [] j Hi) as [_ Hp]. destruct Hs as [Hf Ht Hj]. split; [done|done|].
  simpl in *. intros x' pod d [[= -> Heq]|Hin]%elem_of_cons; [|by apply (Hj x')].
  destruct (Hp pod d (eq_sym Heq)) as [Hten' Hx]. split; [done|]. apply promised_all. intros X HX.
  destruct (Hx X HX) as [?|(g & ?%not_elem_of_nil & _)]; done.
Qed.

Lemma acts_sound σ σ' : acts σ σ' -> sound σ -> sound σ'.
Proof.
  intros Ha Hs. pose proof (sound_files _ Hs) as Hf.
  destruct Ha as [l c c' fs l' js|i a c c' fs l' js Hstep Ha|i x g gs j c fs l' js Hx Hi|
    i x o j c c' fs l' js Hx Hi|c fs fs' l' js|c fs fs' l' js]; cbn [node_files] in Hf.
  - by apply (sound_change c c' fs fs), harmless_refl.
  - by apply (sound_assign c).
  - by apply sound_write.
  - by apply (sound_finish c c' fs l' js i).
  - by apply (sound_change c c fs fs'), own_change_harmless.
  - by apply (sound_change c c fs fs').
Qed.

Lemma reachable_sound n m σ : system_reachable n m σ -> sound σ.
Proof.
  induction 1 as [c fs Hrun Hp|σ σ' Hr IH Ha]; [|by eapply acts_sound].
  split; [done|by intros i gs j|]. by intros x pod d ?%not_elem_of_nil.
Qed.

(** ** The log and the handlings that ended *)

Lemma add_finished c x i y o : Finished i y o ∈ log (add c x) -> Finished i y o ∈ log c.
Proof. unfold add. destruct (is_shut c); [done|]. intros [?|?]%elem_of_cons; done. Qed.

Lemma on_event_finished e c i y o : Finished i y o ∈ log (on_event elapsed pods_at e c) -> Finished i y o ∈ log c.
Proof.
  destruct e as [|old new|]; [done| |done]. simpl. generalize (PodChanged elapsed (pods_at old) (pods_at new)).
  intros l. revert c. induction l as [|z l IH]; intros c Hin; [done|]. simpl in Hin. by apply IH, add_finished in Hin.
Qed.

Lemma step_finished l c c' i y o : step elapsed pods_at l c = Some (Live c') -> Finished i y o ∈ log c' ->
  Finished i y o ∈ log c \/ l = Handled i o /\ workers c !! i = Some (Handling y).
Proof.
  intros Hs Hin. destruct l as [e|i'|i'|i' o'| |r|err| |who r|who|who]; simpl in Hs.
  - injection Hs as <-. left. by eapply on_event_finished.
  - repeat case_match; simplify_eq. by left.
  - repeat case_match; simplify_eq. apply fmap_Some in Hs as (c1 & Hn & [= ->]). left.
    unfold processNextWorkItem in Hn. destruct (wq_Get (workQueue c)) as [[[[x|u]|] q]|]; simplify_eq/=; [|done..].
    by apply elem_of_cons in Hin as [?|?].
  - destruct (workers c !! i') as [[]|] eqn:Hw; [done|done| |done|done].
    assert (c' = finish i' x o' c) as -> by (by destruct o'; simplify_eq).
    apply elem_of_cons in Hin as [[= -> -> ->]|?]; [by right|by left].
  - repeat case_match; simplify_eq. by left.
  - repeat case_match; simplify_eq; by left.
  - repeat case_match; simplify_eq. left. unfold WatchErrorHandler in Hin. by case_match.
  - repeat case_match; simplify_eq. by left.
  - left. case_match; simplify_eq. apply fmap_Some in Hs as (c1 & Hr & [= ->]).
    assert (log c1 = log c) as <-; [|by destruct who].
    destruct r; simpl in Hr; repeat case_match; by simplify_eq.
  - left. repeat case_match; simplify_eq; by destruct who.
  - by case_match.
Qed.

Lemma finished_job n m σ i x o : system_reachable n m σ -> Finished i x o ∈ log (threads σ) ->
  exists j, (x, j) ∈ jobs σ.
Proof.
  induction 1 as [c fs Hrun Hp|σ σ' Hr IH Ha]; [injection Hrun as <-; by intros ?%not_elem_of_nil|].
  destruct Ha as [l c c' fs l' js Hstep Hg Hh|i' a c c' fs l' js Hstep Ha|i' y g gs j c fs l' js Hx Hi|
    i' y o' j c c' fs l' js Hx Hi Hstep|c fs fs' l' js|c fs fs' l' js];
    cbn [threads jobs] in *; try exact IH; intros Hin.
  - apply (step_finished _ _ _ _ _ _ Hstep) in Hin as [?|[-> _]]; [by apply IH|by destruct (Hh i o)].
  - apply (step_finished _ _ _ _ _ _ Hstep) in Hin as [?|[? _]]; [by apply IH|done].
  - apply (step_finished _ _ _ _ _ _ Hstep) in Hin as [Hin|[[= -> ->] Hy]].
    + destruct (IH Hin) as [j' Hj']. exists j'. by right.
    + exists j. rewrite Hx in Hy. injection Hy as ->. left.
Qed.

(** ** Progress of a handling *)

Inductive acts_on : system -> system -> Prop :=
  | acts_none σ : acts_on σ σ
  | acts_more σ1 σ2 σ3 : acts σ1 σ2 -> acts_on σ2 σ3 -> acts_on σ1 σ3.

Lemma reachable_on n m σ σ' : acts_on σ σ' -> system_reachable n m σ -> system_reachable n m σ'.
Proof. induction 1 as [|σ1 σ2 σ3 Ha Ho IH]; [done|]. intros Hr. apply IH. by eapply sys_act. Qed.

(** A worker can make its writes, one after the other, and return. *)
Lemma handling_ends i x o c : workers c !! i = Some (Handling x) -> (forall p, o <> Crashed p) ->
  forall gs j fs l js, l !! i = Some (gs, j) ->
  exists l', acts_on (mkSystem c fs l js) (mkSystem (finish i x o c) (run_all gs fs) l' ((x, j) :: js)).
Proof.
  intros Hx Ho. induction gs as [|g gs IH]; intros j fs l js Hi.
  - exists l. eapply acts_more; [|apply acts_none]. apply (act_finish i x o); [done..|]. simpl. rewrite Hx.
    by destruct o as [| | | |p]; try done; destruct (Ho p).
  - destruct (IH j (g fs) (<[i:=(gs, j)]> l) js) as [l' Hon]; [by rewrite lookup_insert_eq|].
    exists l'. eapply acts_more; [|exact Hon]. by apply (act_write i x).
Qed.
End system.

(** * Properties *)

(** C2: The setter as a whole, with any number of workers and the reconciliation on one file
    system and everybody's steps in any order: once the handling of a pod has ended, its
    containers and its infra container have their sets, and keep them; and an update that
    was queued before the shutdown is in the queue, in the hands of a worker, or its
    handling has ended. *)
Theorem setter_keeps_sets `{CPUSetLaws} `{RangeOrder} `{WorkQueueLaws} elapsed pods_at setterNodeName sh pods
    leaves k correct tenant n m σ :
  tenancy sh pods leaves k correct tenant ->
  system_reachable elapsed pods_at setterNodeName sh pods leaves k correct tenant n m σ ->
  (forall x pod d, (x, Some (pod, d)) ∈ jobs σ -> all_set pod (gatherAllContainers pod) d (node_files σ)) /\
  (forall l1 l2 x, log (threads σ) = l1 ++ Queued x :: l2 ->
     inl x ∈ pending (workQueue (threads σ)) \/ (exists i, workers (threads σ) !! i = Some (Handling x)) \/
     exists j, (x, j) ∈ jobs σ).
Proof.
  intros Hten Hr. split.
  - intros x pod d Hin. destruct (reachable_sound _ _ _ _ _ _ _ _ _ Hten n m σ Hr) as [_ _ Hj].
    by apply (Hj x pod d).
  - intros l1 l2 x Hl. pose proof (threads_reachable _ _ _ _ _ _ _ _ _ n m σ Hr) as Ht.
    destruct (queued_fate _ _ n m _ l1 l2 x Ht Hl) as [?|[?|(i & o & Ho)]]; [by left|by right; left|].
    do 2 right. apply (finished_job _ _ _ _ _ _ _ _ _ n m σ i x o Hr). rewrite Hl. set_solver.
Qed.

(** ** Witness *)

Module system_example.
Export together_example reconcile_example.
#[export] Existing Instance list_queue.lib.
#[export] Existing Instance list_queue.laws.

(** The pod before it ran, and as it runs. *)
Definition waiting_pod : v1_Pod :=
  mk_v1_Pod "default" "pod" "uid" ∅ false "node" [] [app; side] [] (mk_PodStatus "Pending" "" [] [] []).

Definition pods_at (r : Z) : v1_Pod := if decide (r = 1%Z) then waiting_pod else pod.

Definition elapsed (t : Z) : string := "5s".

Definition tenant (p : v1_Pod) (d : deployment) : Prop := p = pod /\ d = listed_deployment.

Definition started : controller :=
  mkController wq_New [Sleeping; Sleeping] Selecting 2 NotCalled NotCalled [].

(** The update that the pod runs now. *)
Definition update : queued := mkQueued (Some 1%Z) 2%Z.

Definition after_steps (ls : list label) : controller :=
  match run elapsed pods_at ls (Live started) with Some (Live c) => c | _ => started end.

Definition informed : controller := Eval vm_compute in after_steps [Informer (Updated 1 2)].
Definition woken : controller := Eval vm_compute in after_steps [Informer (Updated 1 2); Wake 0].
Definition handling : controller := Eval vm_compute in after_steps [Informer (Updated 1 2); Wake 0; Get 0].
End system_example.

Section witnesses.
Import system_example.

Local Abbreviation reaches := (system_reachable elapsed pods_at "node" handler [pod] leaves cpus correct tenant 2 2).

Lemma example_tenancy : tenancy handler [pod] leaves cpus correct tenant.
Proof.
  split.
  - apply example_node.
  - intros p d [-> ->]. apply listed_deployed.
  - intros p d p' d' [-> ->] [-> ->]. apply self_neighbours.
  - intros p d [-> ->]. apply listed_consistent.
Defined.

Lemma example_prepared : prepared handler [pod] leaves cpus tenant fs.
Proof. split; [apply example_ready|]. intros p d [-> ->]. apply listed_ready. Defined.

Lemma example_program :
  program pods_at "node" handler tenant update
    (handling_steps (H2 := api) handler pod (gatherAllContainers pod) listed_deployment [],
     Some (pod, listed_deployment)).
Proof. apply (program_handles _ _ _ _ update api); [vm_compute; reflexivity|by split]. Defined.

Lemma example_handling :
  reaches (mkSystem handling fs {[0%nat := (handling_steps (H2 := api) handler pod (gatherAllContainers pod)
    listed_deployment [], Some (pod, listed_deployment))]} []).
Proof.
  apply (sys_act _ _ _ _ _ _ _ _ _ _ _ (mkSystem woken fs ∅ [])).
  - apply (sys_act _ _ _ _ _ _ _ _ _ _ _ (mkSystem informed fs ∅ [])).
    + apply (sys_act _ _ _ _ _ _ _ _ _ _ _ (mkSystem started fs ∅ [])).
      * apply sys_start; [reflexivity|apply example_prepared].
      * apply (act_thread _ _ _ _ _ _ _ _ _ (Informer (Updated 1 2))); [|discriminate|discriminate].
        vm_cast_no_check (@eq_refl (option process) (Some (Live informed))).
    + apply (act_thread _ _ _ _ _ _ _ _ _ (Wake 0)); [|discriminate|discriminate].
      vm_cast_no_check (@eq_refl (option process) (Some (Live woken))).
  - apply act_get; [vm_cast_no_check (@eq_refl (option process) (Some (Live handling)))|].
    exact example_program.
Defined.

Lemma setter_keeps_sets_witness : exists σ, reaches σ /\
  (update, Some (pod, listed_deployment)) ∈ jobs σ /\
  all_set pod (gatherAllContainers pod) listed_deployment (node_files σ).
Proof.
  destruct (handling_ends elapsed pods_at "node" handler [pod] leaves cpus correct tenant 0 update Adjusted handling
    eq_refl ltac:(discriminate) (handling_steps (H2 := api) handler pod (gatherAllContainers pod) listed_deployment [])
    (Some (pod, listed_deployment)) fs
    {[0%nat := (handling_steps (H2 := api) handler pod (gatherAllContainers pod) listed_deployment [],
       Some (pod, listed_deployment))]} [] (lookup_singleton_eq _ _)) as [l Hon].
  eexists. pose proof (reachable_on _ _ _ _ _ _ _ _ _ _ _ _ _ Hon example_handling) as Hr.
  split; [exact Hr|]. split; [left|].
  apply (proj1 (setter_keeps_sets elapsed pods_at "node" handler [pod] leaves cpus correct tenant 2 2 _
    example_tenancy Hr) update). left.
Defined.
End witnesses.
