(* ===== verification/EndToEnd.v ===== *)
(** * The components together

    The device plugin tells a container its exclusive CPUs in [EXCLUSIVE_CPUS], the setter
    writes the cpuset it computes from the kubelet's checkpoint, and the process starter
    waits until the two agree.  The theorems follow the device IDs of one container through
    [cpu-device-plugin.go], [controller.go] and [process_starter.go]. *)

From S2P Require Import Prelude GoStrings Cpuset K8s Pools WebhookRequests Webhook.
From S2P Require Import Checkpoint DevicePlugin PluginServer SetHandler ProcessStarter PodApi PodEvents.
From S2P Require Import FileSystem Files CpuDirectory Cgroup Adjust Deployment.
From Stdlib Require Import Ascii.
Local Open Scope Z_scope.

Section agreement.
Context `{CPUSetLaws} `{RangeOrder} `{Weighted}.
Implicit Types (s : site).

(** A container with one exclusive pool as its only managed resource, on a node where the
    plugin and the setter see the same machine, and the kubelet recorded the devices it
    allocated. *)
Record exclusive_container (cdm : cpuDeviceManager) (env : HandlerEnv) (pod : v1_Pod)
    (container : v1_Container) (poolName : string) (ds : list (Z * Z)) : Prop := {
  ec_fits : pool_fits cdm;
  ec_type : poolType cdm = ExclusivePoolID;
  ec_policy : HTPolicy (pool cdm) <> MultiThreadHTPolicy;
  ec_devices : ds ⊆ device_pairs cdm;
  ec_some : ds <> [];
  ec_machine : numOfCpus env = numCPU cdm;
  ec_setter_policy s : HTPolicy (SelectPool s (poolConfig env) poolName) <> MultiThreadHTPolicy;
  ec_setter_shared : exists sharedSet, forall s, CPUset (SelectPool s (poolConfig env) SharedPoolID) = sharedSet;
  ec_name : Split (resource_name poolName) "/"%char = [resourceBaseName; poolName];
  ec_exclusive : exclusive_kind (resource_name poolName) = true;
  ec_requested : is_Some (ctr_Requests container !! resource_name poolName);
  ec_only r : is_Some (ctr_Requests container !! r) -> r <> resource_name poolName ->
    Contains r resourceBaseName = false;
  ec_recorded s : exists cp, read_checkpoint s env = Ok cp /\
    recorded_ids cp pod container (resource_name poolName) ≡ₚ ids_of cdm ds
}.

Lemma cpus_of_devices cdm ds : pool_fits cdm -> ds ⊆ device_pairs cdm ->
  (fun id => Z.rem id (numCPU cdm)) <$> (device_id (numCPU cdm) <$> ds) = ds.*1.
Proof.
  intros Hfits Hds. rewrite <- list_fmap_compose. apply list_fmap_ext. intros i d Hd.
  apply list_elem_of_lookup_2, Hds in Hd. destruct (device_pairs_bounds cdm d Hfits Hd) as (Hc & Hk & _).
  destruct d as [cpu k]. simpl in *. by apply device_id_rem.
Qed.

Lemma device_ids_int cdm ds : pool_fits cdm -> ds ⊆ device_pairs cdm ->
  Forall is_int (device_id (numCPU cdm) <$> ds).
Proof.
  intros Hfits Hds. rewrite Forall_fmap, Forall_forall. intros d Hd.
  destruct (device_pairs_bounds cdm d Hfits (Hds d Hd)) as (_ & _ & Hid).
  unfold is_int, min_int, max_int. simpl. lia.
Qed.

(** The setter's set for such a container: the CPUs of its devices. *)
Lemma setter_agrees s cdm env pod container poolName ds :
  exclusive_container cdm env pod container poolName ds ->
  exists set, determineCorrectCpuset s env pod container = Ok (set, set) /\ set ≡ cs_New ds.*1.
Proof.
  intros [Hfits Htype Hpol Hds Hne Hmach Hspol [sharedSet Hsh] Hname Hkind Hreq Honly Hrec].
  assert (pool_requests s env pod container (resource_name poolName) sharedSet (cs_New ds.*1)) as Hpr.
  { split; [done| | |].
    - intros r Hr K1 K2. destruct (decide (r = resource_name poolName)) as [->|Hr'].
      + unfold exclusive_kind in Hkind. by rewrite K1, K2 in Hkind.
      + unfold is_kind. by rewrite (Honly r Hr Hr').
    - intros r Hr K1 K2. destruct (decide (r = resource_name poolName)) as [|Hr']; [done|].
      unfold is_kind in K2. by rewrite (Honly r Hr Hr') in K2.
    - intros _ s' st. destruct (Hrec (0%nat :: s')) as (cp & Hcp & Hids).
      destruct (getList_ids (0%nat :: s') env (resource_name poolName) pod container cp
        (device_id (numCPU cdm) <$> ds)) as (set & Hset & Hequiv).
      + done.
      + rewrite Hmach. by apply fits_numCPU.
      + by apply device_ids_int.
      + by intros ?%fmap_nil_inv.
      + unfold ids_of in Hids. by rewrite Hids, <- list_fmap_compose.
      + unfold exclusive_branch. rewrite Hset, Hname.
        change (go_index (E := setter_error) [resourceBaseName; poolName] 1)
          with (Ok (E := setter_error) poolName). cbv beta iota.
        rewrite decide_False by done. exists set. split; [done|].
        rewrite Hmach, cpus_of_devices in Hequiv by done. done. }
  destruct (determineCorrectCpuset_loop s env pod container _ _ _ Hpr) as (set & Hdet & Hset).
  exists set. split; [done|]. revert Hset.
  assert (wants exclusive_kind (map_to_list (ctr_Requests container)) = true) as ->.
  { destruct Hreq as [v Hv]. apply existsb_exists. exists (resource_name poolName, v).
    rewrite <- list_elem_of_In, elem_of_map_to_list. done. }
  assert (wants shared_kind (map_to_list (ctr_Requests container)) = false) as ->.
  { apply not_true_is_false. intros ([r v] & Hin & Hk)%existsb_exists.
    rewrite <- list_elem_of_In, elem_of_map_to_list in Hin. simpl in Hk.
    destruct (decide (r = resource_name poolName)) as [->|Hr'].
    - unfold exclusive_kind in Hkind. unfold shared_kind in Hk. by rewrite Hk in Hkind.
    - unfold shared_kind, is_kind in Hk. by rewrite (Honly r) in Hk by eauto. }
  simpl. destruct ds as [|[cpu k] ds]; [done|].
  rewrite (not_IsEmpty (cs_New _) cpu).
  2: { rewrite contains_New. apply bool_decide_eq_true. left. }
  rewrite andb_false_r. intros ->. intros c. rewrite contains_Union, contains_zero. simpl.
  by rewrite orb_false_r.
Qed.

(** Printing and parsing the CPUs of a pool. *)
Lemma pool_cpus_roundtrip cdm ds set : pool_fits cdm -> ds ⊆ device_pairs cdm ->
  set ≡ cs_New ds.*1 -> (cs_Parse (cs_String set)).1 ≡ cs_New ds.*1.
Proof.
  intros Hfits Hds Hset. destruct (Parse_String set) as (t & -> & Ht).
  - intros c. rewrite (Hset c), contains_New, bool_decide_eq_true, list_elem_of_fmap.
    intros (d & -> & Hd). destruct (device_pairs_bounds cdm d Hfits (Hds d Hd)) as (Hc & _).
    pose proof (fits_ids cdm Hfits). pose proof (fits_numCPU cdm Hfits). unfold max_int. nia.
  - simpl. by rewrite Ht.
Qed.

(** The starter, once the environment and the cgroup name equal sets. *)
Lemma starter_completes Getenv cgroup i (set set' cpus : CPUSet) :
  Getenv "CPU_POOLS" = ExclusivePoolID -> (cs_Parse (Getenv "EXCLUSIVE_CPUS")).1 = set ->
  set ≡ cpus -> cs_IsEmpty cpus = false -> (i < poll_iterations)%nat ->
  (forall k, (k < i)%nat -> is_Some (cgroup k)) ->
  cgroup i = Some (cs_String set') -> (cs_Parse (cs_String set')).1 ≡ cpus ->
  pollCPUSetCompletion Getenv cgroup = Done [] (cs_List cpus) [].
Proof.
  intros Hpools Hexcl Hset Hne Hi Hbefore Hcg Hset'.
  assert (read_expected Getenv poll_start = (mkPoll cs_zero set set cs_zero cs_zero, true)) as Hread.
  { unfold read_expected. rewrite Hpools, Hexcl.
    rewrite decide_False by done. rewrite decide_False by done. rewrite decide_True by done.
    by rewrite (empty_proper _ _ Hset), Hne. }
  unfold pollCPUSetCompletion.
  pose proof (poll_from_spec Getenv cgroup 0 poll_iterations poll_start _ Hread) as Hspec.
  destruct (poll_from _ _ _ _ _) as [|c e sh].
  - exfalso. apply (Hspec i (cs_String set')); [lia|done| |].
    + intros k Hk. apply Hbefore. lia.
    + simpl. by rewrite Hset', Hset.
  - simpl in Hspec. destruct Hspec as (-> & -> & -> & _).
    rewrite (proj1 (IsEmpty_List cs_zero) IsEmpty_zero). f_equal. by apply list_proper.
Qed.

Lemma poolStr_exclusive r :
  0 < exclusiveCPURequests r -> sharedCPURequests r = 0 -> poolStr r = ExclusivePoolID.
Proof. intros Hex Hsh. unfold poolStr. apply Z.gtb_lt in Hex. by rewrite Hex, Hsh. Qed.
End agreement.

(** ** A pod on a node of the setter *)

Section adjusted.
Context `{CPUSetLaws} `{RangeOrder} `{Weighted}.

Lemma deployed_exclusive sh pod toset d cdm c poolName ds :
  deployed sh pod toset d -> to_be_set pod toset c ->
  exclusive_container cdm (sh_env sh) pod c poolName ds -> correct_set d c ≡ cs_New ds.*1.
Proof.
  intros Hdep Hc Hec. destruct (sets_known sh pod toset d Hdep [] c Hc) as (cfgSet & realSet & Hdet & Heq).
  destruct (setter_agrees [] _ _ _ _ _ _ Hec) as (set & Hdet' & Hset).
  rewrite Hdet in Hdet'. injection Hdet' as <- <-. by rewrite <- Heq.
Qed.

Lemma devices_not_empty (ds : list (Z * Z)) : ds <> [] -> cs_IsEmpty (cs_New ds.*1) = false.
Proof.
  destruct ds as [|[cpu k] ds]; [done|]. intros _. apply (not_IsEmpty _ cpu).
  rewrite contains_New. apply bool_decide_eq_true. left.
Qed.
End adjusted.

(** * Properties *)

Section properties.
Context `{CPUSetLaws} `{RangeOrder} `{Weighted}.
Context (AddHT : CPUSet -> gmap Z string -> CPUSet).
Implicit Types (s : site).

(** For a container of one exclusive pool, the CPUs the plugin announces, the CPUs the
    setter writes and the CPUs the starter hands to the processes are the same: those of
    the allocated devices.  The starter, told the pool by the webhook, completes as soon as
    the cgroup holds what the setter wrote, within its 90 rounds. *)
Theorem exclusive_cpus_agree s s' cdm env pod container poolName ds r :
  exclusive_container cdm env pod container poolName ds ->
  0 < exclusiveCPURequests r -> sharedCPURequests r = 0 ->
  exists cdm' resp set,
    Allocate AddHT s cdm [ids_of cdm ds] = Ok (cdm', [resp]) /\
    determineCorrectCpuset s' env pod container = Ok (set, set) /\
    forall Getenv cgroup i,
      Getenv "CPU_POOLS" = poolStr r ->
      Getenv "EXCLUSIVE_CPUS" = default "" (Envs resp !! "EXCLUSIVE_CPUS") ->
      (i < poll_iterations)%nat -> cgroup i = Some (cs_String set) ->
      (forall k, (k < i)%nat -> is_Some (cgroup k)) ->
      pollCPUSetCompletion Getenv cgroup = Done [] (cs_List (cs_New ds.*1)) [].
Proof.
  intros Hec Hex Hsh. destruct (setter_agrees s' _ _ _ _ _ _ Hec) as (set & Hdet & Hset).
  destruct Hec as [Hfits Htype Hpol Hds Hne _ _ _ _ _ _ _ _].
  destruct (allocate_from_exclusive AddHT s 0 cdm [ds] Hfits Htype Hpol) as (cdm' & resps & Ha & Henv).
  { by repeat constructor. }
  apply Forall2_cons_inv_l in Henv as (resp & resps' & Henv & ->%Forall2_nil_inv_l & ->).
  exists cdm', resp, set. split; [exact Ha|]. split; [done|].
  intros Getenv cgroup i Hpools Hvar Hi Hcg Hbefore.
  rewrite Henv, lookup_singleton_eq in Hvar. simpl in Hvar.
  rewrite poolStr_exclusive in Hpools by done.
  apply (starter_completes Getenv cgroup i (cs_Parse (Getenv "EXCLUSIVE_CPUS")).1 set
    (cs_New ds.*1)); try done.
  - rewrite Hvar. by eapply pool_cpus_roundtrip.
  - by apply devices_not_empty.
  - by eapply pool_cpus_roundtrip.
Qed.

(** From the devices to the processes: the plugin answers the kubelet's allocation, the
    setter handles the pod while others work on the node without undoing its writes, and the
    cgroup of the container then holds a line with which the starter completes in the round it reads it, with exactly the
    CPUs of the allocated devices. *)
Theorem handled_container_starts `{PodApi} s setterNodeName sh item w pod d cdm c poolName ds r :
  let toset := gatherAllContainers pod in
  shouldPodBeHandled setterNodeName (fun i => RefreshPod i (newPod item)) (newPod item) = (true, pod) ->
  deployed sh pod toset d -> quiet pod toset d (ready sh pod toset d) w -> to_be_set pod toset c ->
  exclusive_container cdm (sh_env sh) pod c poolName ds ->
  0 < exclusiveCPURequests r -> sharedCPURequests r = 0 ->
  exists cdm' resp w' o leaf line,
    Allocate AddHT s cdm [ids_of cdm ds] = Ok (cdm', [resp]) /\
    handlePods setterNodeName s sh item w = Some (w', o) /\
    leaf_of (files w') (container_cgroup d c) leaf /\ kind_at (files w') (cpuset_file leaf) = Some (AFile line) /\
    forall Getenv cgroup i,
      Getenv "CPU_POOLS" = poolStr r ->
      Getenv "EXCLUSIVE_CPUS" = default "" (Envs resp !! "EXCLUSIVE_CPUS") ->
      (i < poll_iterations)%nat -> cgroup i = Some line ->
      (forall k, (k < i)%nat -> is_Some (cgroup k)) ->
      pollCPUSetCompletion Getenv cgroup = Done [] (cs_List (cs_New ds.*1)) [].
Proof.
  intros toset Hmine Hdep Hw Hc Hec Hex Hsh.
  pose proof (deployed_exclusive sh pod toset d cdm c poolName ds Hdep Hc Hec) as Hset.
  pose proof (ready_protocol sh pod toset d Hdep) as HJ.
  destruct (handle_pod_play setterNodeName s sh item w pod d _ Hmine Hdep HJ Hw) as (o & Hrun & _).
  destruct (play_sets sh pod toset d Hdep _ HJ s w Hw) as [_ Hall]. destruct (Hall c Hc) as (leaf & Hleaf & Hk).
  destruct Hec as [Hfits Htype Hpol Hds Hne _ _ _ _ _ _ _ _].
  destruct (allocate_from_exclusive AddHT s 0 cdm [ds] Hfits Htype Hpol) as (cdm' & resps & Ha & Henv).
  { by repeat constructor. }
  apply Forall2_cons_inv_l in Henv as (resp & resps' & Henv & ->%Forall2_nil_inv_l & ->).
  exists cdm', resp, (play (handling_steps sh pod toset d s) w), o, leaf, (cs_String (correct_set d c)).
  split_and!; [done..|].
  intros Getenv cgroup i Hpools Hvar Hi Hcg Hbefore.
  rewrite Henv, lookup_singleton_eq in Hvar. simpl in Hvar.
  rewrite poolStr_exclusive in Hpools by done.
  apply (starter_completes Getenv cgroup i (cs_Parse (Getenv "EXCLUSIVE_CPUS")).1 (correct_set d c)
    (cs_New ds.*1)); try done.
  - rewrite Hvar. by eapply pool_cpus_roundtrip.
  - by apply devices_not_empty.
  - by eapply pool_cpus_roundtrip.
Qed.

(** A pool whose name starts with [exclusive] and contains [shared] is an exclusive pool
    for the plugin, but a shared one for the setter, which looks for the words anywhere in
    the name: it never looks up the devices of the container. *)
Theorem misclassified_pool s env pod container middle rest st :
  let poolName := "exclusive" +:+ middle +:+ "shared" +:+ rest in
  DeterminePoolType poolName = ExclusivePoolID /\
  resource_step s env pod container (resource_name poolName) st =
    Next (CPUset (SelectPool (0%nat :: s) (poolConfig env) SharedPoolID), st.2).
Proof.
  intros poolName. split.
  - apply (DeterminePoolType_prefix ExclusivePoolID). do 1 right. left.
  - unfold resource_step, is_kind.
    assert (Contains (resource_name poolName) resourceBaseName = true) as ->.
    { apply HasPrefix_Contains, HasPrefix_app. }
    assert (Contains (resource_name poolName) SharedPoolID = true) as ->; [|done].
    unfold resource_name, poolName. do 4 apply Contains_app.
    apply HasPrefix_Contains, HasPrefix_app.
Qed.
End properties.

(** ** Witness *)

Section witnesses.
#[local] Existing Instance list_cpuset.lib.
#[local] Existing Instance list_cpuset.laws.
#[local] Existing Instance range_forward.
#[local] Existing Instance plugin_example.weighted.
Import setter_example.

(** The plugin's manager of [exclusive_a] on the machine of [setter_example]. *)
Definition manager_a : cpuDeviceManager :=
  @mkManager list_cpuset.lib plugin_example.weighted
    (@mkPool list_cpuset.lib [1; 2] "1,2" SingleThreadHTPolicy 2 "" 0 ∅)
    "" "" None "" "exclusive" ∅ ∅ ∅ ∅ ∅ 8.

Definition only_exclusive : v1_Container :=
  app [("bonc.k8s.io/exclusive_a", "2"); ("memory", "1Gi")].

Lemma manager_a_fits : pool_fits manager_a.
Proof.
  split; [|done|done]. intros c Hc.
  apply (bool_decide_eq_true_1 (c ∈ [1; 2])) in Hc. rewrite !elem_of_cons in Hc.
  destruct Hc as [->|[->|[]%elem_of_nil]]; done.
Defined.

Lemma example_exclusive_container :
  exclusive_container manager_a env (pod "Running" "docker://1") only_exclusive "exclusive_a"
    [(2, 1); (1, 0)].
Proof.
  split.
  - apply manager_a_fits.
  - reflexivity.
  - discriminate.
  - intros d Hd. rewrite !elem_of_cons, elem_of_nil in Hd.
    destruct Hd as [->|[->|[]]]; apply elem_of_device_pairs; vm_compute; repeat split; discriminate.
  - discriminate.
  - reflexivity.
  - intros s. change (poolConfig env) with config.
    rewrite (single_pool_selected s "exclusive_a" (pool_of [1; 2] ∅)); [discriminate| |vm_compute; reflexivity].
    vm_cast_no_check (@eq_refl (option Pool) (Some (pool_of [1; 2] ∅))).
  - exists [4; 5]. intros s. apply shared_pool_selected.
  - vm_compute. reflexivity.
  - vm_compute. reflexivity.
  - exists "2". vm_compute. reflexivity.
  - intros r [v Hr] Hne. apply elem_of_list_to_map_2 in Hr. rewrite !elem_of_cons, elem_of_nil in Hr.
    destruct Hr as [[= -> ->]|[[= -> ->]|[]]]; [by destruct Hne|vm_compute; reflexivity].
  - intros s. exists (TranslateNewCheckpointToOld s newCp). split; [reflexivity|].
    vm_compute. reflexivity.
Defined.

Lemma exclusive_cpus_agree_witness :
  exists cdm' resp set,
    Allocate (fun set _ => set) [] manager_a [["10"; "1"]] = Ok (cdm', [resp]) /\
    determineCorrectCpuset [] env (pod "Running" "docker://1") only_exclusive = Ok (set, set).
Proof.
  destruct (exclusive_cpus_agree (fun set _ => set) [] [] manager_a env (pod "Running" "docker://1")
    only_exclusive "exclusive_a" [(2, 1); (1, 0)] (mkRequests 0 2 0 ∅)
    example_exclusive_container eq_refl eq_refl) as (cdm' & resp & set & Ha & Hd & _).
  exists cdm', resp, set. split; [exact Ha|exact Hd].
Defined.

(** The setter's node, for a pod with that container. *)
Definition exclusive_pod : v1_Pod :=
  mk_v1_Pod "default" "pod" "uid" ∅ false "node" [] [only_exclusive] []
    (mk_PodStatus "Running" "" [] [] [status "docker://c0ffee"]).

Definition node_handler : SetHandlerT := adjust_example.handler_of env.

Definition exclusive_deployment : deployment := {|
  pod_cgroup := ["cgroup"; "kubepods"; "pod1"];
  cgroup_name := fun _ => "c0ffee";
  infra_name := "pause";
  cpus_of := deployment_example.cpus;
  node_containers := fun _ _ => True;
  correct_set := fun _ => cs_New [2; 1];
  default_set := cs_zero
|}.

Definition set_here (c : v1_Container) : Prop := to_be_set exclusive_pod (gatherAllContainers exclusive_pod) c.

Lemma only_to_be_set c : set_here c -> c = only_exclusive.
Proof. intros [Hc _]. by apply list_elem_of_singleton in Hc. Defined.

Lemma exclusive_pod_container :
  exclusive_container manager_a env exclusive_pod only_exclusive "exclusive_a" [(2, 1); (1, 0)].
Proof. destruct example_exclusive_container. by split. Defined.

Lemma no_default_pool s : CPUset (SelectPool s config DefaultPoolID) = cs_zero.
Proof. vm_compute. reflexivity. Defined.

Lemma exclusive_deployed :
  deployed node_handler exclusive_pod (gatherAllContainers exclusive_pod) exclusive_deployment.
Proof.
  split.
  - exists only_exclusive. split; [left|]. by exists 0.
  - intros s c ->%only_to_be_set. destruct (setter_agrees s _ _ _ _ _ _ exclusive_pod_container) as (set & Hd & Hs).
    exists set, set. split; [exact Hd|exact Hs].
  - intros c _. vm_compute. reflexivity.
  - intros s. change (sh_env node_handler) with env. change (poolConfig env) with config.
    rewrite no_default_pool. by intros x.
  - by intros c ->%only_to_be_set.
  - by exists ["kubepods"; "pod1"].
  - by intros c ->%only_to_be_set.
  - by intros c c' ->%only_to_be_set ->%only_to_be_set.
  - done.
  - apply cpus_are_deployed.
Defined.

Lemma exclusive_ready :
  ready node_handler exclusive_pod (gatherAllContainers exclusive_pod) exclusive_deployment adjust_example.fs.
Proof.
  split.
  - apply cpus_are_ready.
  - intros c ->%only_to_be_set. apply cgroup_of_checked. vm_compute. reflexivity.
  - intros p Hp Hd. exists "0-7". by apply files_everywhere.
  - intros Hne. vm_compute in Hne. discriminate.
Defined.

(** The others do nothing, once, and then the setter is alone. *)
Definition calm : world := mkWorld adjust_example.fs [id].

Lemma calm_quiet :
  quiet exclusive_pod (gatherAllContainers exclusive_pod) exclusive_deployment
    (ready node_handler exclusive_pod (gatherAllContainers exclusive_pod) exclusive_deployment) calm.
Proof. split; [apply exclusive_ready|]. apply Forall_cons_2; [by intros fs|apply Forall_nil_2]. Defined.

Lemma handled_container_starts_witness :
  exists cdm' resp w' o leaf line,
    Allocate (fun set _ => set) [] manager_a [["10"; "1"]] = Ok (cdm', [resp]) /\
    handlePods (H1 := adjust_example.api) "node" [] node_handler (mkItem None exclusive_pod) calm = Some (w', o) /\
    leaf_of (files w') ["cgroup"; "kubepods"; "pod1"; "c0ffee"] leaf /\
    kind_at (files w') (cpuset_file leaf) = Some (AFile line).
Proof.
  destruct (handled_container_starts (fun set _ => set) (H3 := adjust_example.api) [] "node" node_handler
    (mkItem None exclusive_pod) calm exclusive_pod exclusive_deployment manager_a only_exclusive
    "exclusive_a" [(2, 1); (1, 0)] (mkRequests 0 2 0 ∅)) as (cdm' & resp & w' & o & leaf & line & Ha & Hh & Hl & Hk & _).
  - vm_compute. reflexivity.
  - apply exclusive_deployed.
  - apply calm_quiet.
  - split; [left|]. by exists 0.
  - apply exclusive_pod_container.
  - reflexivity.
  - reflexivity.
  - exists cdm', resp, w', o, leaf, line. split; [exact Ha|]. split; [exact Hh|]. split; [exact Hl|exact Hk].
Defined.
End witnesses.
