(* ===== verification/Pipeline.v ===== *)
(** * One container through all four programs

    The webhook patches the pod, the plugin answers the allocation, the setter writes the
    cpuset, and the process starter, with the environment the first two gave it, starts the
    processes of the container.  [EndToEnd] has the way from the plugin to the starter's wait;
    here the patches of the webhook come before it and the processes after it. *)

From S2P Require Import Prelude GoStrings Cpuset K8s Pools Annotation WebhookRequests Webhook.
From S2P Require Import DevicePlugin PluginServer SetHandler PodApi PodEvents.
From S2P Require Import FileSystem Cgroup Adjust Deployment ProcessStarter EndToEnd.
Local Open Scope Z_scope.

(** ** What the webhook reads from the limits *)

(** A container whose only managed limit is [k] CPUs of an exclusive pool. *)
Record exclusive_limit (container : v1_Container) (poolName : string) (k : Z) : Prop := {
  el_prefix : HasPrefix poolName ExclusivePoolID = true;
  el_value : exists v, ctr_Limits container !! resource_name poolName = Some v /\ limit_value v = (k, None);
  el_only r : is_Some (ctr_Limits container !! r) -> r <> resource_name poolName -> managed r = false;
  el_positive : 0 < k <= max_int
}.

(** The sum of the limits with a prefix, if only one of them is managed. *)
Lemma limit_sum_single limits key v rest : limits !! key = Some v ->
  (forall r, is_Some (limits !! r) -> r <> key -> managed r = false) ->
  limit_sum (resourceBaseName +:+ rest) (map_to_list limits) =
    if HasPrefix key (resourceBaseName +:+ rest) then (limit_value v).1 else 0.
Proof.
  intros Hkey Honly. rewrite <- (insert_delete_id limits key v) by done.
  rewrite map_to_list_insert by apply lookup_delete_eq.
  unfold limit_sum. rewrite fmap_cons, zsum_cons. cbn [fst snd].
  assert (forall l : list (string * string), (forall x, x ∈ l -> managed x.1 = false) ->
    zsum ((fun x => if HasPrefix x.1 (resourceBaseName +:+ rest) then (limit_value x.2).1 else 0) <$> l) = 0)
    as ->; [|lia|].
  - induction l as [|x l IH]; intros Hl; [done|].
    rewrite fmap_cons, zsum_cons, managed_prefix by (apply Hl; left). rewrite IH; [done|]. set_solver.
  - intros [r w] [Hne Hr]%elem_of_map_to_list%lookup_delete_Some. apply Honly; [by exists w|]. simpl. congruence.
Qed.

Section admission.
Context `{CPUSetLib} `{RangeOrder}.
Implicit Types (s : site).

Lemma exclusive_requests s pod m container poolName k :
  getCPUPoolRequests s pod = Ok m -> NoDup (ctr_Name <$> pod_Containers pod) ->
  container ∈ pod_Containers pod -> exclusive_limit container poolName k ->
  exclusiveCPURequests (requests_of m (ctr_Name container)) = k /\
  sharedCPURequests (requests_of m (ctr_Name container)) = 0.
Proof.
  intros Hm Hnd Hin [Hprefix (v & Hv & Hval) Honly Hk].
  pose proof (getCPUPoolRequests_collects s pod Hnd) as Hspec. rewrite Hm in Hspec.
  destruct Hspec as [Hall _]. rewrite Forall_forall in Hall. destruct (Hall _ Hin) as [_ Hcol].
  unfold collected in Hcol. rewrite (proj2 (has_managed_true _)) in Hcol.
  2: { exists (resource_name poolName, v). rewrite elem_of_map_to_list. split; [done|]. apply HasPrefix_app. }
  destruct Hcol as (r & Hr & Hs & He & _). unfold requests_of. rewrite Hr. simpl.
  rewrite Hs, He, !(limit_sum_single _ _ _ _ Hv Honly), Hval. unfold resource_name.
  rewrite !HasPrefix_app_l. cbn [fst].
  change (HasPrefix ("/" +:+ poolName) "/exclusive") with (HasPrefix ("/" +:+ poolName) ("/" +:+ ExclusivePoolID)).
  change (HasPrefix ("/" +:+ poolName) "/shared") with (HasPrefix ("/" +:+ poolName) ("/" +:+ SharedPoolID)).
  rewrite !HasPrefix_app_l, Hprefix.
  assert (HasPrefix poolName SharedPoolID = false) as ->.
  { apply HasPrefix_spec in Hprefix as [rest ->]. done. }
  split; [|done]. apply wrap_id. unfold is_int, min_int. lia.
Qed.
End admission.

(** ** What the webhook does to the container *)

(** The containers of the pod's annotation. *)
Definition annotated (unmarshal : string -> list Container * option string) (pod : v1_Pod) : list Container :=
  match pod_Annotations pod !! annotationNameFromConfig with
  | None => []
  | Some text => (unmarshal text).1
  end.

(** A pod the webhook admits with the patches [l]; its [i]-th container, not patched yet, asks for
    [k] CPUs of an exclusive pool and has a command or an entry in the annotation. *)
Record admitted `{CPUSetLib} `{RangeOrder} (cfsQuotas processStarterPath : string) (env : PoolEnv) (s : site)
    (unmarshal : string -> list Container * option string) (pod : v1_Pod) (l : list patch)
    (i : nat) (container : v1_Container) (poolName : string) (k : Z) : Prop := {
  ad_patches : pod_patch_list cfsQuotas processStarterPath env s unmarshal pod = Ok l;
  ad_names : NoDup (ctr_Name <$> pod_Containers pod);
  ad_container : pod_Containers pod !! i = Some container;
  ad_name : ctr_Name container <> "";
  ad_mounts : "podinfo" ∉ ctr_VolumeMounts container;
  ad_env : "CPU_POOLS" ∉ ctr_Env container;
  ad_limit : exclusive_limit container poolName k;
  ad_starts : ctr_Command container <> [] \/ ctr_Name container ∈ Name <$> annotated unmarshal pod
}.

(** An environment variable in a patch. *)
Definition env_item (name value : string) : string :=
  json "{'name':'" +:+ name +:+ json "','value':'" +:+ value +:+ json "' }".

(** A patch gives the [i]-th container the variable, as its first one or after others. *)
Definition gives_variable (l : list patch) (i : nat) (name value : string) : Prop :=
  mkPatch "add" (container_path i +:+ "/env/-") (env_item name value) ∈ l \/
  mkPatch "add" (container_path i +:+ "/env") ("[" +:+ env_item name value +:+ "]") ∈ l.

Section patched.
Context `{CPUSetLib} `{RangeOrder}.
Context (cfsQuotas processStarterPath : string) (env : PoolEnv) (s : site).
Context (unmarshal : string -> list Container * option string) (pod : v1_Pod) (l : list patch).
Context (i : nat) (container : v1_Container) (poolName : string) (k : Z).
Context (Hadm : admitted cfsQuotas processStarterPath env s unmarshal pod l i container poolName k).

Lemma store_all_exists (ann : CPUAnnotation) containers name :
  ContainerExists (store_all ann containers) name = true <->
    name ∈ Name <$> containers \/ ContainerExists ann name = true.
Proof.
  unfold store_all. revert ann. induction containers as [|c containers IH]; intros ann; simpl; [set_solver|].
  rewrite IH. unfold ContainerExists, CPUAnnotation in *. rewrite lookup_insert, elem_of_cons.
  case_decide; naive_solver.
Qed.

Lemma exists_new name : ContainerExists NewCPUAnnotation name = false.
Proof. unfold ContainerExists, NewCPUAnnotation, CPUAnnotation. by rewrite lookup_empty. Qed.

(** The annotation [mutatePods] works with lists the containers of the text. *)
Lemma read_annotated m ann s' : read_annotation s' unmarshal m pod = Ok ann ->
  forall name, ContainerExists ann name = true <-> name ∈ Name <$> annotated unmarshal pod.
Proof.
  intros Hr%read_annotation_Ok name. unfold annotated. destruct (_ !! annotationNameFromConfig) as [text|].
  - destruct Hr as [Hd _]. unfold Decode in Hd. destruct (unmarshal text) as [containers [j|]]; [done|].
    fold (store_all NewCPUAnnotation containers) in Hd.
    assert (store_all NewCPUAnnotation containers = ann) as <- by by (repeat case_match; simplify_eq).
    rewrite store_all_exists, exists_new. simpl. naive_solver.
  - subst. change ∅ with NewCPUAnnotation. rewrite exists_new. set_solver.
Qed.

Lemma admitted_patches : exists m ann,
  (forall p, p ∈ patchContainerForPinning processStarterPath ann [] i container -> p ∈ l) /\
  (forall p, p ∈ patchContainerEnv m true [] i container -> p ∈ l) /\
  poolStr (requests_of m (ctr_Name container)) = ExclusivePoolID /\
  (ContainerExists ann (ctr_Name container) = true <-> ctr_Name container ∈ Name <$> annotated unmarshal pod).
Proof.
  destruct Hadm as [Hl Hnd Hi Hname Hmount Henv Hlim Hstarts].
  destruct (pod_patch_list_Ok _ _ _ _ _ _ _ Hl) as (m & ann & Hm & Ha & Hl').
  pose proof (read_annotated m ann _ Ha (ctr_Name container)) as Hex.
  destruct (exclusive_requests _ pod m container poolName k Hm Hnd (list_elem_of_lookup_2 _ _ _ Hi) Hlim) as [He Hs].
  pose proof (el_positive _ _ _ Hlim) as Hk.
  assert ((exclusiveCPURequests (requests_of m (ctr_Name container)) >? 0) = true) as Hpos by (rewrite He; lia).
  assert (pinningPatchNeeded m ann container = true) as Hneed.
  { unfold pinningPatchNeeded. rewrite Hpos.
    assert (bool_decide (ctr_Command container = []) && negb (ContainerExists ann (ctr_Name container)) = false) as ->.
    { destruct Hstarts as [Hc|Hn]; [by rewrite bool_decide_eq_false_2|].
      by rewrite (proj2 Hex Hn), andb_false_r. }
    rewrite andb_false_r. by case_match. }
  assert (own_patches cfsQuotas processStarterPath env (i :: 2%nat :: s) m ann i container ⊆ l) as Hown.
  { pose proof (patch_containers_own cfsQuotas processStarterPath env (2%nat :: s) m ann _ i container 0 []
      false Hi) as Ho. destruct Hl' as [->| ->]; [done|]. unfold patchVolumesForPinning. set_solver. }
  rewrite own_patches_split, Hneed, Hpos, orb_true_r in Hown. simpl in Hown.
  exists m, ann. split_and!; [set_solver|set_solver| |done]. apply poolStr_exclusive; lia.
Qed.

Lemma admitted_variables :
  gives_variable l i "CPU_POOLS" ExclusivePoolID /\ gives_variable l i "CONTAINER_NAME" (ctr_Name container).
Proof.
  destruct admitted_patches as (m & ann & Hpin & Henv & Hpool & _). split.
  - left. apply Henv. unfold patchContainerEnv. rewrite decide_False by apply (ad_env _ _ _ _ _ _ _ _ _ _ _ Hadm).
    rewrite Hpool. simpl. rewrite append_assoc. by apply list_elem_of_singleton.
  - unfold patchContainerForPinning in Hpin. rewrite decide_False in Hpin by apply (ad_mounts _ _ _ _ _ _ _ _ _ _ _ Hadm).
    unfold gives_variable. destruct (bool_decide (ctr_Env container <> [])).
    + left. apply Hpin. rewrite app_nil_l, elem_of_app, !elem_of_cons. rewrite append_assoc. tauto.
    + right. apply Hpin. rewrite app_nil_l, elem_of_app, !elem_of_cons. tauto.
Qed.

Lemma admitted_command :
  mkPatch "add" (container_path i +:+ "/command") (json "[ '" +:+ processStarterPath +:+ json "' ]") ∈ l /\
  (ctr_Name container ∉ Name <$> annotated unmarshal pod -> ctr_Command container <> [] /\
   mkPatch "add" (container_path i +:+ "/args") (command_args container) ∈ l).
Proof.
  destruct admitted_patches as (m & ann & Hpin & _ & _ & Hex).
  unfold patchContainerForPinning in Hpin. rewrite decide_False in Hpin by apply (ad_mounts _ _ _ _ _ _ _ _ _ _ _ Hadm).
  split; [apply Hpin; rewrite app_nil_l, elem_of_app, !elem_of_cons; tauto|]. intros Hno.
  assert (ContainerExists ann (ctr_Name container) = false) as Hfalse by (apply not_true_is_false; tauto).
  assert (ctr_Command container <> []) as Hc by (destruct (ad_starts _ _ _ _ _ _ _ _ _ _ _ Hadm); tauto).
  split; [done|]. apply Hpin. rewrite Hfalse, (bool_decide_eq_true_2 _ Hc), app_nil_l, elem_of_app.
  right. by apply list_elem_of_singleton.
Qed.
End patched.

(** ** What the starter does with enough CPUs *)

(** A process was started as asked, on as many CPUs as it asks for. *)
Definition started_as (p : Process) (e : started) : Prop :=
  st_process e = ProcName p /\ st_args e = Args p /\
  (on_exclusive p = true -> Z.of_nat (length (exclusive_part p e)) = CPUs p).

Section starting.
Context (exec_ok : string -> bool).

(** All processes are started if their exclusive CPUs suffice. *)
Lemma start_processes_all shared ps : ps <> [] -> (forall p, p ∈ ps -> exec_ok (ProcName p) = true) ->
  (forall p, p ∈ ps -> 0 <= CPUs p) ->
  forall excl affinity log, cpu_sum on_exclusive ps <= Z.of_nat (length excl) ->
  exists new rest, start_processes exec_ok shared ps excl affinity log = inr (Replaced, log ++ new) /\
    excl = concat (zip_with exclusive_part ps new) ++ rest /\ Forall2 started_as ps new.
Proof.
  induction ps as [|p ps IH]; [done|]. intros _ Hexec Hpos excl affinity log Hsum.
  rewrite cpu_sum_cons in Hsum.
  assert (0 <= cpu_sum on_exclusive ps) as Hrest.
  { assert (forall q, q ∈ ps -> 0 <= CPUs q) as Hps by (intros q Hq; apply Hpos; by right). clear -Hps.
    induction ps as [|q ps IH]; [done|]. rewrite cpu_sum_cons. specialize (IH ltac:(set_solver)).
    specialize (Hps q ltac:(left)). destruct (on_exclusive q); lia. }
  set (e a := mkStarted (ProcName p) (Args p) a (bool_decide (ps = []))).
  assert (forall excl' a part, excl = part ++ excl' -> exclusive_part p (e a) = part ->
    (on_exclusive p = true -> Z.of_nat (length part) = CPUs p) ->
    cpu_sum on_exclusive ps <= Z.of_nat (length excl') ->
    exists new rest,
      (if bool_decide (ps = []) && exec_ok (ProcName p) then inr (Replaced, log ++ [e a])
       else start_processes exec_ok shared ps excl' a (log ++ [e a])) = inr (Replaced, log ++ new) /\
      excl = concat (zip_with exclusive_part (p :: ps) new) ++ rest /\ Forall2 started_as (p :: ps) new) as Hgo.
  { intros excl' a part Hexcl Hpart Hlen Hs. rewrite Hexec, andb_true_r by left. case_bool_decide as Hps.
    - subst ps. exists [e a], excl'. split; [done|]. simpl. rewrite Hpart, app_nil_r. split; [done|].
      repeat constructor; [done..|]. by rewrite Hpart.
    - destruct (IH Hps ltac:(intros; apply Hexec; by right) ltac:(intros; apply Hpos; by right)
        excl' a (log ++ [e a]) Hs) as (new & rest & -> & Hex & Hall).
      exists (e a :: new), rest. rewrite <- (assoc_L (++)). split; [done|]. simpl.
      rewrite Hpart, <- (assoc_L (++)), <- Hex. split; [done|]. constructor; [|done].
      split; [done|]. split; [done|]. by rewrite Hpart. }
  simpl. fold (on_exclusive p). destruct (on_exclusive p) eqn:Hp.
  - pose proof (setAffinity_spec (CPUs p) excl) as Haff. specialize (Hpos p ltac:(left)).
    destruct (setAffinity (CPUs p) excl) as [[[cpus rest]|]| |]; [|lia..].
    destruct Haff as [Hex Hlen]. apply (Hgo rest _ cpus); [done| |done|].
    + by apply exclusive_part_bound.
    + rewrite Hex, length_app in Hsum. lia.
  - pose proof (setAffinity_spec (Z.of_nat (length shared)) shared) as Haff.
    destruct (setAffinity _ shared) as [[[cpus rest]|]| |]; [|by exfalso; simpl in Haff; lia..].
    apply (Hgo excl _ []); [done| |done|lia]. by apply exclusive_part_other.
Qed.

(** Containers of other names are passed over. *)
Lemma start_containers_skip name shared osArgs before containers excl affinity log :
  name ∉ Name <$> before ->
  start_containers exec_ok name shared osArgs (before ++ containers) excl affinity log =
    start_containers exec_ok name shared osArgs containers excl affinity log.
Proof.
  induction before as [|c before IH]; [done|]. rewrite fmap_cons, not_elem_of_cons. intros [Hne Hno].
  simpl. rewrite decide_True by congruence. by apply IH.
Qed.
End starting.

(** * The composition *)

Section composition.
Context `{CPUSetLaws} `{RangeOrder} `{Weighted}.
Context (AddHT : CPUSet -> gmap Z string -> CPUSet).
Context (cfsQuotas processStarterPath : string) (env : PoolEnv) (unmarshal : string -> list Container * option string).
(** the decoder of a JSON list of strings *)
Context (json_list : string -> option (list string)).
Implicit Types (s : site).

(** The container runs as it was patched: the variables of the patches and of the allocation, the
    annotations of its pod, and the patched command with the patched arguments. *)
Record launched (pod : v1_Pod) (l : list patch) (i : nat) (resp : ContainerAllocateResponse)
    (annotation : res starter_error (list Container)) (Getenv : string -> string) (osArgs : list string) : Prop := {
  la_patched name value : name ∈ ["CPU_POOLS"; "CONTAINER_NAME"] -> gives_variable l i name value ->
    Getenv name = value;
  la_allocated name value : Envs resp !! name = Some value -> Getenv name = value;
  la_annotation : annotation = Ok (annotated unmarshal pod);
  la_args command args words words' :
    mkPatch "add" (container_path i +:+ "/command") command ∈ l ->
    mkPatch "add" (container_path i +:+ "/args") args ∈ l ->
    json_list command = Some words -> json_list args = Some words' -> osArgs = words ++ words'
}.

(** What the starter is to do for a container with the exclusive CPUs [cpus]: without an entry in the
    annotation it becomes the container's own command; with one, and CPUs enough for it, it
    starts all processes of the entry, the exclusive ones on consecutive parts of [cpus]. *)
Definition runs_processes (exec_ok : string -> bool) (containers : list Container) (container : v1_Container)
    (cpus : list Z) (run : outcome * list started) : Prop :=
  (ctr_Name container ∉ Name <$> containers ->
   exists prog args, ctr_Command container ++ ctr_Args container = prog :: args /\
     run = (if exec_ok prog then Replaced else Returned, [mkStarted prog args None true])) /\
  (forall before ps after, containers = before ++ mkContainer (ctr_Name container) ps :: after ->
   ctr_Name container ∉ Name <$> before -> ps <> [] -> (forall p, p ∈ ps -> exec_ok (ProcName p) = true) ->
   (forall p, p ∈ ps -> 0 <= CPUs p) -> cpu_sum on_exclusive ps <= Z.of_nat (length cpus) ->
   exists new rest, run = (Replaced, new) /\ cpus = concat (zip_with exclusive_part ps new) ++ rest /\
     Forall2 started_as ps new).

Lemma exclusive_answer s cdm cdm' henv pod c poolName ds resp : exclusive_container cdm henv pod c poolName ds ->
  Allocate AddHT s cdm [ids_of cdm ds] = Ok (cdm', [resp]) ->
  Envs resp = {["EXCLUSIVE_CPUS" := cs_String (cs_New ds.*1)]}.
Proof.
  intros [Hfits Htype Hpol Hds Hne _ _ _ _ _ _ _ _] Ha.
  destruct (allocate_from_exclusive AddHT s 0 cdm [ds] Hfits Htype Hpol) as (cdm2 & resps & Ha' & Henv);
    [by repeat constructor|].
  change (Allocate AddHT s cdm [ids_of cdm ds] = Ok (cdm2, resps)) in Ha'. rewrite Ha in Ha'. injection Ha' as <- <-.
  by apply Forall2_cons in Henv as [-> _].
Qed.

End composition.

(** ** Witness *)

Module pipeline_example.
Export setter_example.
#[export] Existing Instance list_cpuset.lib.
#[export] Existing Instance list_cpuset.laws.
#[export] Existing Instance range_forward.
#[export] Existing Instance plugin_example.weighted.

(** The container before it is patched, and the processes its annotation lists. *)
Definition created : v1_Container :=
  mk_v1_Container "app" {["bonc.k8s.io/exclusive_a" := "2"]} {["bonc.k8s.io/exclusive_a" := "2"]} [] []
    ["/bin/app"] ["-v"] None.

Definition processes : list Process :=
  [mkProcess "/bin/poll" [] 1 "exclusive_a"; mkProcess "/bin/app" ["-v"] 1 "exclusive_a"].

Definition unmarshal (text : string) : list Container * option string := ([mkContainer "app" processes], None).

Definition created_pod : v1_Pod :=
  mk_v1_Pod "default" "pod" "uid" {[annotationNameFromConfig := "a"]} false "" [] [created] []
    (mk_PodStatus "Pending" "" [] [] []).

Definition patches : list patch :=
  Eval vm_compute in
    match pod_patch_list "all" "/starter" example.pool_env [] unmarshal created_pod with Ok l => l | _ => [] end.

Definition json_list (text : string) : option (list string) :=
  if decide (text = json "[ '/starter' ]") then Some ["/starter"] else Some ["/bin/app"; "-v"].

Definition Getenv (name : string) : string :=
  if decide (name = "CPU_POOLS") then "exclusive"
  else if decide (name = "CONTAINER_NAME") then "app" else "1,2".
End pipeline_example.

Section witnesses.
Import pipeline_example.

Lemma example_admitted :
  admitted "all" "/starter" example.pool_env [] unmarshal created_pod patches 0 created "exclusive_a" 2.
Proof.
  split.
  - vm_compute. reflexivity.
  - repeat constructor. by intros ?%elem_of_nil.
  - reflexivity.
  - discriminate.
  - by intros ?%elem_of_nil.
  - by intros ?%elem_of_nil.
  - split.
    + reflexivity.
    + exists "2". split; vm_compute; reflexivity.
    + intros r [v Hr] Hne. change (ctr_Limits created) with ({["bonc.k8s.io/exclusive_a" := "2"]} : gmap string string) in Hr.
      apply lookup_singleton_Some in Hr as [<- _]. by destruct Hne.
    + split; [reflexivity|]. vm_compute. discriminate.
  - by left.
Defined.

(** The values of the variables in the patches. *)
Lemma example_variable name value : name ∈ ["CPU_POOLS"; "CONTAINER_NAME"] ->
  gives_variable patches 0 name value -> Getenv name = value.
Proof.
  assert (Forall (fun p => forall path,
    (p = mkPatch "add" path (env_item "CPU_POOLS" value) -> "exclusive" = value) /\
    (p = mkPatch "add" path ("[" +:+ env_item "CPU_POOLS" value +:+ "]") -> "exclusive" = value) /\
    (p = mkPatch "add" path (env_item "CONTAINER_NAME" value) -> "app" = value) /\
    (p = mkPatch "add" path ("[" +:+ env_item "CONTAINER_NAME" value +:+ "]") -> "app" = value)) patches) as Hall.
  { unfold patches.
    repeat (apply Forall_cons_2; [intros path; split_and!; intros [= _ Heq]; vm_compute in Heq;
      first [discriminate Heq|exact (append_inj_r "exclusive" value (json "' }") Heq)|
        exact (append_inj_r "app" value (json "' }")
          (append_inj_r ("app" +:+ json "' }") (value +:+ json "' }") "]" Heq))]|]).
    apply Forall_nil_2. }
  rewrite Forall_forall in Hall. rewrite !elem_of_cons, elem_of_nil.
  intros [->|[->|[]]] [Hin|Hin].
  - exact (proj1 (Hall _ Hin _) eq_refl).
  - exact (proj1 (proj2 (Hall _ Hin _)) eq_refl).
  - exact (proj1 (proj2 (proj2 (Hall _ Hin _))) eq_refl).
  - exact (proj2 (proj2 (proj2 (Hall _ Hin _))) eq_refl).
Defined.

Lemma example_no_args args : mkPatch "add" (container_path 0 +:+ "/args") args ∉ patches.
Proof.
  assert (Forall (fun p => Path p <> container_path 0 +:+ "/args") patches) as Hall.
  { apply (bool_decide_eq_true_1 (Forall _ patches)). vm_compute. reflexivity. }
  rewrite Forall_forall in Hall. intros Hin. by destruct (Hall _ Hin).
Defined.

End witnesses.
